(* ===== verification/_CoqProject ===== *)
-Q . S2P
Prelude.v
GoLib.v
GoFacts.v
Fold.v
Value.v
Parser.v
ParserProofs.v
GoConc.v
Table.v
TableInv.v
Insert.v
InsertProofs.v
Mutate.v
MutateProofs.v
Schema.v
OrderBy.v
Select.v
Group.v
Database.v
SelectProofs.v
AccessProofs.v
OrderByProofs.v
SchemaProofs.v
DatabaseProofs.v
Bytes.v
Storage.v
StorageProofs.v
Wire.v
Bind.v
BindProofs.v
Json.v
Request.v
RequestProofs.v
JsonText.v
JsonTextProofs.v
Image.v
ImageProofs.v
Sha256.v
Session.v
SessionProofs.v
Interleaving.v
Recovery.v
RecoveryProofs.v
Backup.v
BackupProofs.v
Config.v
Remote.v
RemoteProofs.v
Client.v
ClientProofs.v
ResponseProofs.v
System.v
CallProofs.v
Serving.v
Cli.v
CliProofs.v
LocalServer.v
LocalProofs.v
Updater.v
Release.v
ConnString.v
Main.v
Ranges.v
RangesProofs.v
Members.v
Replica.v
ReplicaProofs.v
Fsm.v
Transport.v
TransportProofs.v
Mux.v
Node.v
NodeProofs.v
NodeStart.v
Programs.v
ProgramsProofs.v
Witnesses.v
SystemWitnesses.v
ServiceWitnesses.v
LiveWitnesses.v
