(* ===== verification/Prelude.v ===== *)
(** * SuperDB: a verification development

    SuperDB is a small SQL database in Go: an in-memory engine, a write-ahead log
    with snapshots, a local socket server, a hosted (remote) server with its own
    wire protocol and a Go client, and a clustered mode in which a range directory
    partitions the keyspace and a Raft log replicates statements.  This library is a shallow
    embedding of that code: data become records and inductive types, functions
    become Rocq functions, stateful code passes its state explicitly.  Everything
    is executable; definitions carry the names of the source.

    ** The program and the files that model it

    A request arrives at a server (internal/server, internal/remote) as bytes, is
    parsed into SQL statements, parameters are substituted into the text, and the
    statement is executed by the engine (internal/engine), either on the shared
    database or on a private clone inside a transaction.  A successful write is
    logged (internal/storage) before it is acknowledged; at start-up the log is
    replayed over the last snapshot.  In cluster mode the write is proposed to Raft
    and executed by every member when its entry is committed (internal/cluster).

    Foundations
    - Prelude: byte strings, errors, the result monad, shared lemmas.
    - GoLib, GoFacts: the parts of the Go standard library the code uses (strings,
      strconv, slices), and their facts.  GoConc: a concrete instance, used by the
      witnesses only.
    - Bytes: big-endian integers, CRC-32C.  Sha256: SHA-256.  JsonText: the scanner
      and the compaction of encoding/json.

    Engine, src/internal/engine
    - Fold (fold.go), Value (types.go and the value functions), Parser (parser.go).
    - Table (types.go, fastpath.go, cancel.go, index maintenance of schema.go): the
      row map, the order slice with tombstones, secondary indexes, the columnar
      fast path.  TableInv: the representation invariant [table_wf] and the
      abstract content [absRows], the ordered list of live rows, against which the
      statements are specified.
    - Insert (insert.go, insertfast.go), Mutate (update.go, delete.go), Schema
      (create.go, schema.go, drop.go, meta.go), OrderBy (orderby.go), Select
      (select.go), Group (group.go), Database (database.go, clone.go, snapshot.go):
      one definition per statement; Database dispatches statements and holds the
      revision counter of optimistic transactions.
    - Bind (bind.go): parameter substitution.  Json (marshal.go, dbjson.go and
      internal/remote/response.go): the hand-written encoders.  Image (snapshot.go):
      decoding and repair of a database image, on the reflection rules of
      encoding/json for the engine's types.

    Storage and protocols
    - Storage (internal/storage): frames, log append and replay, snapshot files,
      atomic replacement.  A file is its bytes; the outcome of every system call
      (bytes that reached the file, error returned) is an argument.
    - Wire (internal/wire/wire.go): hosted protocol frames.
    - Request (internal/server/protocol.go, requestfast.go): request reader and the
      single-pass JSON request parser.

    Server
    - Session (internal/server/server.go, limits.go, persistence.go): one
      connection's transaction, batch and write buffers ([Session]), the shared
      database, disk and cluster ([World]), the request handler [serveRequest],
      admission control and recovery.
    - LocalServer (server.go, protocol.go, probe.go, tls.go): the loop over one
      connection's bytes around [serveRequest], probing, TLS settings.
    - Interleaving (executeSQL of server.go): several sessions as the transition
      system [interleaved], one step per region under the engine's or the log's lock.
    - Recovery (persistence.go) and Backup (backups.go): the files of a data
      directory, start-up from snapshot and log, compaction, timestamped backups
      with SHA-256 manifests.
    - Config (internal/remote/config.go) and Remote (internal/remote/session.go,
      server.go): the hosted server's configuration, credentials, statement
      interpreter [execOne], frame handler and connection loop [handleConn].
    - Serving (internal/remote/server.go, metrics.go, health.go): accept loop, one
      goroutine per connection, shutdown, as the transition system [serveStep].

    Clients and programs
    - Client (client.go, errors.go): responses as the Go client decodes them, its
      calls, and its goroutines as the transition system [clientStep].  ConnString
      (connstring.go): connection strings.
    - System: the client's transition system and the hosted server's loop joined by
      the bytes in flight, the payloads the calls encode ([systemStep]).
    - Cli (cmd/superdb-cli): statement splitting, tables, framing, the shell.
    - Main (cmd/superdb/main.go, start of internal/remote/server.go): commands,
      settings, recovery by mode, the file commands.
    - Programs (both main.go, client.go of superdb-cli): [runServer] from flags to the
      accept loop, the hosted server's start, backup timer, status report, and the
      command line client from flags to exit.
    - Updater (internal/updater/updater.go): verification and installation of a
      downloaded release.  Release: the update from the network on.

    Cluster
    - Ranges (internal/cluster/ranges.go, routing.go, range management of node.go).
    - Members (internal/cluster/membership.go).
    - Replica (internal/cluster/state.go, fsm.go, write path of node.go) and Fsm
      (snapshot and restore of state.go).
    - Transport (internal/cluster/transport.go): frames, serving, calls, and the
      connection pools as the transition system [transportStep].  Mux
      (internal/cluster/consensus/mux.go): the port shared with Raft, [muxStep].
    - Node (internal/cluster/node.go, raft.go, stats.go, identity.go): the handlers
      of node-to-node calls, joining, leaving, the initial range, linearizable
      reads, health checks, over a record [Consensus] of what Raft answers.
    - NodeStart (node.go, raft.go; internal/server/cluster.go): configuration, the
      start sequence [Start] with its failures, stopping, the status report.

    A file named [...Proofs] holds the theorems of the file of that name, LocalProofs
    those of LocalServer; a file without one has its theorems after its definitions.
    AccessProofs compares the access paths of SELECT, ResponseProofs the server's
    encoder with the client's decoder, CallProofs the client's call with the engine;
    Witnesses, SystemWitnesses, ServiceWitnesses and LiveWitnesses apply the theorems
    to concrete inputs by evaluation.

    ** What the theorems show

    - The servers in mode wal, outside a cluster: when requests are served one at a time,
      none cancelled, none failing to persist, no transaction hidden in a plain batch, the
      live tables are those of a serial execution of units, the log holds exactly their
      statements, and recovery rebuilds the tables when published copies are exact (C1,
      and C2 for the hosted server's frames).  At the grain of the locks the log is a
      permutation of what ran (C20), and in its order, so that it recovers, when no write
      starts while another is still to be logged ([solo_writes_recover]).
      Nothing happens without credentials (C27), every request frame gets one answer
      with its id (C28), a local connection is its requests in order (C29), admission
      limits hold (C39).  A hosted session answers and changes what a local one does
      ([session_matches_local]).
    - Whole programs: a local server in mode wal that stops and starts again has, under
      the conditions of C1, everything it acknowledged (C5); a client's calls, however
      they run and whatever breaks, are
      executed at most once and get their own answer (C4), which is the engine's
      answer to the bound statement (C8); the accept loop's counters agree with its
      goroutines (C30) and a shutdown drains what it waits for (C31); the shared port
      hands each connection to its protocol ([mux_routes]); the command line client
      prints the engine's result ([table_shows_result]).
    - Durability across restarts: an image restores the database it was written
      from (C7); compaction that succeeds recovers the same tables, and what its failures
      leave is known, a lost snapshot among it (C6); backups verify and recover (C33); a node
      keeps its identity through every start (C26).
    - Transactions (DatabaseProofs): optimistic commit is serializable (C3), failing
      statements change nothing (C16); also [clone_faithful], [readonly_unchanged].
    - Statements refine list operations on [absRows] and keep [table_wf] (INSERT and UPDATE
      while the fast array is no shorter than the threshold, [fast_sized]): INSERT
      and INSERT OR REPLACE (C9, C10), DELETE (C14, [deleteKey_removes]), UPDATE (C15)
      and primary-key moves ([rekeyPrimary_moves]), ADD COLUMN ([addColumn_wf]) and the
      other schema changes ([dropColumn_wf], [createIndexOn_wf],
      [create_adds_table]).  The VALUES parser is type-sound (C36).
    - SELECT: the fast path, order scan, lookups in an index (not FLOAT) and of an INT
      primary key compute the same relation (C11, C12, C13); the bounded heap is a prefix
      of the full sort but for LIMIT 0 (C35, [orderKeys_sorts]); LIKE decides the meaning of its pattern on values
      without a percent sign ([ParserProofs.likeMatch_correct]).
    - Storage: replay inverts append (C17), a torn append loses only the torn
      suffix unless it cuts the magic of the first record (C18), a damaged statement is detected (C19), snapshot writes are
      atomic ([snapshot_write_read]).
    - Protocols and client: framing round trips and accepts nothing else
      ([wire_stream_roundtrip], [wire_read_sound]); requests and JSON strings round
      trip ([request_roundtrip], [json_string_roundtrip]); the request parser
      terminates (C38); the client reads the response the server wrote
      ([response_roundtrip]), a response reaches the call it answers and no other
      ([responses_reach_their_calls]), and a call that waits on a broken connection
      is woken (C32).
    - Parameter binding cannot inject (C34), stores what was bound
      ([bind_insert_roundtrip]) and checks arity ([bind_arity]).
    - Cluster: ranges cover the keyspace, and partition it when split inside (C22), generations fence range
      operations ([range_ops_fenced]) and stale writes (C24), atomic entries are all
      or nothing (C23), a snapshot carries the state to another member (C21),
      membership is monotone ([membership_monotone]), a node joins only where it was
      let in ([join_admitted]), only the leader writes (C25), pooled connections have
      one owner (C37).
    - Updates install only what was published and verified (C40,
      [update_installs_verified]); also [split_join], [table_aligned],
      [address_roundtrip], [backup_restore].

    The hypotheses of the theorems mark real boundaries.  Runs that show what
    happens beyond them are [Example]s: [removed_member_revived], [joiner_diverges],
    [split_outside_overlaps], [likeMatch_percent], [batch_commit_inverts_log],
    [persist_failure_keeps_write], [race_loses_writes], [replicas_diverge],
    [late_call_hangs], [closed_pool_panics], [close_strands_connection],
    [shutdown_misses_connection], [writer_closed_under_connections],
    [empty_read_drops_byte], [shell_loses_exit], [params_lose_digits],
    [restore_keeps_old_log], [backup_skips_legacy], [leader_removes_itself_locally],
    [compact_crash_replays_twice], [large_integer_param_refused],
    [clustered_restart_fails].

    ** Parameters

    Code outside the repository is an argument of the definitions: float printing
    and parsing and Unicode case folding (class [GoStd]), zlib ([Zlib], [ZlibLaws]),
    [json.Marshal] of floats ([JsonStd]), the fallback encoding/json decoder of
    requests, json.Marshal and json.Unmarshal of the cluster's records (with the
    round trip as the hypothesis [codec]), net/url and archive readers, the Raft
    library (committed entries in log order, or the outcome of a proposal).  [Env]
    holds what a statement cannot control: when its context is cancelled, and the
    order in which Go visits maps; the theorems hold for every order.  [order] is the visiting order of the range
    map.  Times are arguments.  Integers are [Z] kept at their width where the code
    can overflow ([succ64], the saturating row caps, uint32 lengths).

    ** Fuel

    Loops that are not structural take fuel, and running out is a distinct outcome.
    Synthetic key allocation gets one more step than there are rows, so by counting
    it meets a free key; the log replay gets the file's length, every frame being
    longer than a byte; the request parser gets a bound linear in the payload, every
    step consuming a byte; the encoding/json scanner gets twice the length of its
    text, the connection loop one turn per byte of input; LIKE matching backtracks
    and gets a quadratic bound.  That replay never runs out is part of C17 and C18,
    of the request parser C38, of the image scanner C7, of the connection loop C28
    (its end is never [NoFuel]) and of the local server's C29, of LIKE
    [ParserProofs.likeMatch_loop_total]; key allocation is total in C9.  Loops bounded
    by a deadline (joining, the initial range, polls) run over the list of what each
    round meets.

    ** Not modelled

    - Inside one request of Session locks are the order of calls they enforce.  What
      the locks leave open between connections is modelled step by step where it shows:
      executing and logging (Interleaving), the client's and the transport's shared
      state, the accept loop, the shared port.  Go's memory model is not: a step that
      the code protects by a lock or a channel is atomic.
    - Images whose cells are arrays, objects or numbers in undeclared columns: the
      decoder says so ([Foreign]); no statement writes them.
    - Elapsed time: deadlines, tickers and polls are inputs that say what happened by
      then.  Sockets beyond their bytes: options, dialling, the TLS handshake.
    - Flag parsing, signals, the terminal; the PowerShell script of the Windows
      installer; Raft itself, and the methods of Node that only forward to it; the
      locking, pooling and copying whose only effect is speed. *)

From Stdlib Require Export ZArith Lia String Ascii.
From stdpp Require Export base tactics list gmap sets numbers sorting.

(** ** Byte strings

    Go's [string] and [[]byte] are sequences of bytes.  A byte is a [Z] in
    [0,256) and a string a list of bytes, so that slicing is [take]/[drop],
    ordering is arithmetic, and [gmap str] models [map[string]T]. *)

Abbreviation byte := Z (only parsing).
Abbreviation str := (list Z).

Fixpoint lit (s : string) : str :=
  match s with
  | EmptyString => []
  | String a s' => Z.of_N (N_of_ascii a) :: lit s'
  end.

Definition is_byte (c : byte) : bool := (0 <=? c)%Z && (c <? 256)%Z.

Definition wf_bytes (s : str) : Prop := Forall (λ c, 0 ≤ c < 256)%Z s.

Declare Scope go_scope.
Delimit Scope go_scope with go.
Open Scope go_scope.

(** The byte of a one-character literal. *)
Definition chr (s : string) : byte :=
  match s with String a _ => Z.of_N (N_of_ascii a) | EmptyString => 0%Z end.

(** ** Errors, panics and the result monad

    A Go function returning [(T, error)] is a [res T]; [Panic] is a runtime
    panic (a slice or index out of range). *)

Inductive CtxErr := Canceled | DeadlineExceeded.

Inductive NumErr := ErrSyntax | ErrRange.

Inductive err :=
| EMsg (m : str)                 (* errors.New, fmt.Errorf *)
| ENum (fn num : str) (e : NumErr)  (* *strconv.NumError *)
| ECtx (e : CtxErr)              (* ctx.Err() *)
| ETooLarge (rows limit : Z).    (* wrapped ErrResultTooLarge *)

Inductive res (A : Type) :=
| Ok (a : A)
| Err (e : err)
| Panic.
Arguments Ok {A} _.
Arguments Err {A} _.
Arguments Panic {A}.

Definition bindr {A B} (m : res A) (k : A → res B) : res B :=
  match m with Ok a => k a | Err e => Err e | Panic => Panic end.

Notation "'let*' x ':=' m 'in' k" := (bindr m (λ x, k))
  (at level 10, x pattern, k at level 200) : go_scope.

Definition errorsNew {A} (s : string) : res A := Err (EMsg (lit s)).

Definition isOk {A} (r : res A) : bool := match r with Ok _ => true | _ => false end.

#[global] Instance CtxErr_eq_dec : EqDecision CtxErr.
Proof. solve_decision. Defined.
#[global] Instance NumErr_eq_dec : EqDecision NumErr.
Proof. solve_decision. Defined.
#[global] Instance err_eq_dec : EqDecision err.
Proof. solve_decision. Defined.
#[global] Instance res_eq_dec `{EqDecision A} : EqDecision (res A).
Proof. solve_decision. Defined.

(** [s[i:j]]; out of range indices panic. *)
Definition gslice {A} (s : list A) (i j : Z) : res (list A) :=
  if ((0 <=? i) && (i <=? j) && (j <=? Z.of_nat (length s)))%Z
  then Ok (take (Z.to_nat (j - i)) (drop (Z.to_nat i) s))
  else Panic.

(** ** Tactics and hint databases *)

Create HintDb go.
Create Rewrite HintDb go.

(** Case split on the scrutinee of a [match] or [if] of the goal or of [H]. *)
Ltac split_match :=
  match goal with
  | |- context [match ?x with _ => _ end] => destruct x eqn:?
  end.
Ltac split_match_in H :=
  match type of H with
  | context [match ?x with _ => _ end] => destruct x eqn:?
  end.

(** Inversion of a bind that returned [Ok]. *)
Lemma bindr_Ok {A B} (m : res A) (k : A → res B) b :
  bindr m k = Ok b ↔ ∃ a, m = Ok a ∧ k a = Ok b.
Proof. destruct m; naive_solver. Qed.

Ltac inv_bind H :=
  let a := fresh "a" in let Ha := fresh "Ha" in
  apply bindr_Ok in H as (a & Ha & H).

(** Boolean comparisons on [Z] and [nat] into propositions. *)
Ltac btoz :=
  repeat match goal with
  | H : (_ && _)%bool = true |- _ => apply andb_true_iff in H as [? ?]
  | H : (_ || _)%bool = false |- _ => apply orb_false_iff in H as [? ?]
  | H : negb _ = true |- _ => apply negb_true_iff in H
  | H : negb _ = false |- _ => apply negb_false_iff in H
  | H : (_ <=? _)%Z = true |- _ => apply Z.leb_le in H
  | H : (_ <=? _)%Z = false |- _ => apply Z.leb_gt in H
  | H : (_ <? _)%Z = true |- _ => apply Z.ltb_lt in H
  | H : (_ <? _)%Z = false |- _ => apply Z.ltb_ge in H
  | H : (_ =? _)%Z = true |- _ => apply Z.eqb_eq in H
  | H : (_ =? _)%Z = false |- _ => apply Z.eqb_neq in H
  | H : (_ <=? _)%nat = true |- _ => apply Nat.leb_le in H
  | H : (_ <=? _)%nat = false |- _ => apply Nat.leb_gt in H
  | H : (_ <? _)%nat = true |- _ => apply Nat.ltb_lt in H
  | H : (_ <? _)%nat = false |- _ => apply Nat.ltb_ge in H
  | H : (_ =? _)%nat = true |- _ => apply Nat.eqb_eq in H
  | H : (_ =? _)%nat = false |- _ => apply Nat.eqb_neq in H
  | H : bool_decide _ = true |- _ => apply bool_decide_eq_true in H
  | H : bool_decide _ = false |- _ => apply bool_decide_eq_false in H
  end.

(** ** Generic list lemmas *)

Lemma filter_all {A} (P : A → Prop) `{∀ x, Decision (P x)} (l : list A) :
  (∀ x, x ∈ l → P x) → filter P l = l.
Proof.
  induction l as [|x l IH]; intros Hl; [done|].
  rewrite filter_cons_True by (apply Hl; left). f_equal. apply IH. intros. apply Hl. by right.
Qed.

Lemma filter_none {A} (P : A → Prop) `{∀ x, Decision (P x)} (l : list A) :
  (∀ x, x ∈ l → ¬ P x) → filter P l = [].
Proof.
  induction l as [|x l IH]; intros Hl; [done|].
  rewrite filter_cons_False by (apply Hl; left). apply IH. intros. apply Hl. by right.
Qed.

Lemma filter_length_le {A} (P : A → Prop) `{∀ x, Decision (P x)} (l : list A) :
  (length (filter P l) ≤ length l)%nat.
Proof. induction l as [|x l IH]; [done|]. rewrite filter_cons. case_decide; simpl; lia. Qed.

Lemma map_id_on {A} (f : A → A) (l : list A) : (∀ x, x ∈ l → f x = x) → map f l = l.
Proof.
  intros Hf. rewrite <- (map_id l) at 2. apply map_ext_in. intros x Hx.
  apply Hf. by apply list_elem_of_In.
Qed.

Lemma filter_length_eq {A} (P : A → Prop) `{∀ x, Decision (P x)} (l : list A) :
  length (filter P l) = length l → ∀ x, x ∈ l → P x.
Proof.
  induction l as [|y l IH]; intros Hl x Hx; [by apply elem_of_nil in Hx|].
  rewrite filter_cons in Hl. pose proof (filter_length_le P l).
  case_decide; simpl in Hl; [|lia].
  apply elem_of_cons in Hx as [->|Hx]; [done|]. apply IH; [lia | done].
Qed.

(** Induction for scanners that may consume one or two elements at a time. *)
Lemma list_ind2 {A} (P : list A → Prop) :
  P [] → (∀ c s, P s → (∀ d s', s = d :: s' → P s') → P (c :: s)) → ∀ s, P s.
Proof.
  intros H0 H1 s. enough (P s ∧ ∀ d s', s = d :: s' → P s') by naive_solver.
  induction s as [|c s [IH1 IH2]]; [naive_solver|]. split; [by apply H1 | by intros ? ? [= <- <-]].
Qed.

Lemma nodup_fst_unique {A B} (l : list (A * B)) a b b' :
  NoDup l.*1 → (a, b) ∈ l → (a, b') ∈ l → b = b'.
Proof.
  induction l as [|[x y] l IH]; intros Hnd H1 H2; [by apply elem_of_nil in H1|].
  csimpl in *. apply NoDup_cons in Hnd as [Hx Hnd].
  assert (Hno : ∀ z, (x, z) ∉ l) by (intros z Hz; by apply (list_elem_of_fmap_2 fst) in Hz).
  rewrite !elem_of_cons in *. naive_solver.
Qed.

(** Filtering by predicates that agree on the list. *)
Lemma list_filter_iff' {A} (P Q : A → Prop) `{∀ x, Decision (P x)} `{∀ x, Decision (Q x)} (l : list A) :
  (∀ x, x ∈ l → P x ↔ Q x) → filter P l = filter Q l.
Proof.
  induction l as [|x l IH]; intros Hl; [done|]. rewrite !filter_cons, IH by (intros; apply Hl; by right).
  destruct (Hl x ltac:(left)) as [H1 H2]. repeat case_decide; naive_solver.
Qed.
