(* ===== verification/GoLib.v ===== *)
(** * Go's standard library, as far as SuperDB uses it

    [strings], [strconv] and [unicode] functions on byte strings.  Functions
    whose result on non-ASCII input depends on the Unicode tables, and the two
    float-text conversions, are the members of the class [GoStd]; everything
    else is defined here and computes. *)

From S2P Require Import Prelude.
From Stdlib Require Export SpecFloat.

Open Scope Z_scope.

(** ** float64: IEEE 754 binary64 *)

Abbreviation float64 := spec_float.

#[global] Instance spec_float_eq_dec : EqDecision spec_float.
Proof. solve_decision. Defined.

Definition f64_add : float64 → float64 → float64 := SFadd 53 1024.
Definition f64_div : float64 → float64 → float64 := SFdiv 53 1024.
Definition f64_ltb : float64 → float64 → bool := SFltb.
Definition f64_leb : float64 → float64 → bool := SFleb.
Definition f64_eqb : float64 → float64 → bool := SFeqb.
(** [float64(n)] of an integer: round to nearest even. *)
Definition f64_of_Z (n : Z) : float64 := binary_normalize 53 1024 n 0 false.
Definition f64_zero : float64 := S754_zero false.

(** [math.Trunc] and the conversion [int64(x)] of an integral float. *)
Definition f64_truncZ (f : float64) : option Z :=
  match f with
  | S754_zero _ => Some 0
  | S754_finite s m e =>
      let a := if 0 <=? e then Z.shiftl (Zpos m) e else Z.shiftr (Zpos m) (- e) in
      Some (if s then - a else a)
  | _ => None
  end.
(** [x == math.Trunc(x)]; infinities are their own truncation. *)
Definition f64_is_integral (f : float64) : bool :=
  match f with
  | S754_nan => false
  | S754_infinity _ | S754_zero _ => true
  | S754_finite _ m e =>
      (0 <=? e) || (Z.shiftl (Z.shiftr (Zpos m) (- e)) (- e) =? Zpos m)
  end.

(** ** ASCII classes and case mapping *)

Definition is_ascii (s : str) : bool := forallb (λ c, c <? 128) s.
Definition lower_byte (c : byte) : byte := if (65 <=? c) && (c <=? 90) then c + 32 else c.
Definition upper_byte (c : byte) : byte := if (97 <=? c) && (c <=? 122) then c - 32 else c.

(** The Unicode- and float-text-dependent part of the standard library. *)
Class GoStd := {
  (** [strconv.ParseFloat(s, 64)] *)
  strconv_ParseFloat : str → float64 + NumErr;
  (** [strconv.FormatFloat(f, 'g', -1, 64)], also what [fmt.Sprint] prints *)
  strconv_FormatFloat : float64 → str;
  (** [strings.ToLower], [strings.ToUpper] and [strings.EqualFold] on strings
      that contain a non-ASCII byte *)
  unicode_ToLower : str → str;
  unicode_ToUpper : str → str;
  unicode_EqualFold : str → str → bool;
}.

Section Strings.
Context `{GoStd}.

Definition ToLower (s : str) : str :=
  if is_ascii s then map lower_byte s else unicode_ToLower s.
Definition ToUpper (s : str) : str :=
  if is_ascii s then map upper_byte s else unicode_ToUpper s.
Definition EqualFold (s t : str) : bool :=
  if is_ascii s && is_ascii t
  then bool_decide (map lower_byte s = map lower_byte t)
  else unicode_EqualFold s t.

End Strings.

(** ** White space: the UTF-8 encodings of the runes of [unicode.IsSpace] *)

Definition space_runes : list str :=
  [[9]; [10]; [11]; [12]; [13]; [32]; [194;133]; [194;160]; [225;154;128];
   [226;128;128]; [226;128;129]; [226;128;130]; [226;128;131]; [226;128;132];
   [226;128;133]; [226;128;134]; [226;128;135]; [226;128;136]; [226;128;137];
   [226;128;138]; [226;128;168]; [226;128;169]; [226;128;175]; [226;129;159];
   [227;128;128]].

Fixpoint has_prefix (s p : str) : bool :=
  match p, s with
  | [], _ => true
  | c :: p', d :: s' => (c =? d) && has_prefix s' p'
  | _ :: _, [] => false
  end.

(** Width of the space rune [s] starts with, 0 when it starts with none. *)
Definition space_width (runes : list str) (s : str) : nat :=
  match filter (λ r, has_prefix s r = true) runes with
  | r :: _ => length r
  | [] => 0%nat
  end.

(** [skip] is the number of bytes of the current rune still to pass over. *)
Fixpoint trim_left_aux (runes : list str) (skip : nat) (s : str) : str :=
  match s with
  | [] => []
  | c :: s' =>
      match skip with
      | S k => trim_left_aux runes k s'
      | O => match space_width runes s with
             | O => s
             | S k => trim_left_aux runes k s'
             end
      end
  end.

Definition trimLeft (s : str) : str := trim_left_aux space_runes 0 s.
Definition trimRight (s : str) : str :=
  reverse (trim_left_aux (map reverse space_runes) 0 (reverse s)).
(** [strings.TrimSpace] *)
Definition TrimSpace (s : str) : str := trimRight (trimLeft s).

(** [strings.Fields]: the maximal runs of non-space runes. *)
Fixpoint fields_aux (skip : nat) (cur : str) (s : str) : list str :=
  match s with
  | [] => if bool_decide (cur = []) then [] else [reverse cur]
  | c :: s' =>
      match skip with
      | S k => fields_aux k cur s'
      | O => match space_width space_runes s with
             | O => fields_aux 0 (c :: cur) s'
             | S k => (if bool_decide (cur = []) then [] else [reverse cur])
                        ++ fields_aux k [] s'
             end
      end
  end.
Definition Fields (s : str) : list str := fields_aux 0 [] s.

(** Position of the first space rune ([strings.IndexFunc(s, unicode.IsSpace)]). *)
Fixpoint index_space_aux (i : Z) (s : str) : Z :=
  match s with
  | [] => -1
  | _ :: s' => if (space_width space_runes s =? 0)%nat then index_space_aux (i + 1) s' else i
  end.
Definition IndexSpace (s : str) : Z := index_space_aux 0 s.

(** ** Searching and splitting *)

Fixpoint index_aux (i : Z) (s sub : str) : Z :=
  if has_prefix s sub then i
  else match s with [] => -1 | _ :: s' => index_aux (i + 1) s' sub end.
(** [strings.Index] *)
Definition Index (s sub : str) : Z := index_aux 0 s sub.

Fixpoint last_index_byte_aux (i best : Z) (s : str) (c : byte) : Z :=
  match s with
  | [] => best
  | d :: s' => last_index_byte_aux (i + 1) (if d =? c then i else best) s' c
  end.
(** [strings.LastIndex] for a one-byte needle *)
Definition LastIndexByte (s : str) (c : byte) : Z := last_index_byte_aux 0 (-1) s c.

(** [strings.Split] for a one-byte separator *)
Fixpoint split_byte_aux (cur : str) (s : str) (sep : byte) : list str :=
  match s with
  | [] => [reverse cur]
  | c :: s' => if c =? sep then reverse cur :: split_byte_aux [] s' sep
               else split_byte_aux (c :: cur) s' sep
  end.
Definition SplitByte (s : str) (sep : byte) : list str := split_byte_aux [] s sep.

(** [strings.SplitN(s, sep, 2)] for a one-byte separator: [None] when the
    separator is absent (Go returns a one-element slice). *)
Fixpoint split2 (s : str) (sep : byte) : option (str * str) :=
  match s with
  | [] => None
  | c :: s' => if c =? sep then Some ([], s')
               else match split2 s' sep with
                    | Some (a, b) => Some (c :: a, b)
                    | None => None
                    end
  end.

Definition ContainsByte (s : str) (c : byte) : bool := existsb (Z.eqb c) s.

Fixpoint drop_byte (c : byte) (s : str) : str :=
  match s with d :: s' => if d =? c then drop_byte c s' else s | [] => [] end.
(** [strings.Trim(s, "c")] *)
Definition TrimByte (s : str) (c : byte) : str :=
  reverse (drop_byte c (reverse (drop_byte c s))).

(** [strings.TrimSuffix] for a one-byte suffix *)
Definition TrimSuffixByte (s : str) (c : byte) : str :=
  match last s with
  | Some d => if d =? c then take (length s - 1) s else s
  | None => s
  end.

(** [strings.ReplaceAll(s, "''", "'")], left to right *)
Fixpoint collapse_quotes (s : str) : str :=
  match s with
  | c :: s' =>
      match s' with
      | d :: s'' => if (c =? 39) && (d =? 39) then 39 :: collapse_quotes s''
                    else c :: collapse_quotes s'
      | [] => [c]
      end
  | [] => []
  end.

(** [strings.ReplaceAll(s, "'", "''")] *)
Definition double_quotes (s : str) : str :=
  flat_map (λ c, if c =? 39 then [39; 39] else [c]) s.

(** Byte-wise string order, Go's [<] on strings. *)
Fixpoint str_ltb (a b : str) : bool :=
  match a, b with
  | [], [] => false
  | [], _ :: _ => true
  | _ :: _, [] => false
  | x :: a', y :: b' => if x <? y then true else if y <? x then false else str_ltb a' b'
  end.

(** ** strconv: integers and booleans *)

Definition int64_min : Z := - 2 ^ 63.
Definition int64_max : Z := 2 ^ 63 - 1.
Definition is_int64 (z : Z) : Prop := int64_min ≤ z ≤ int64_max.

Fixpoint fmt_digits (fuel : nat) (n : Z) (acc : str) : str :=
  match fuel with
  | O => acc
  | S f => let acc' := (48 + n mod 10) :: acc in
           if n <? 10 then acc' else fmt_digits f (n / 10) acc'
  end.
Definition FormatUint (n : Z) : str := fmt_digits (S (Z.to_nat (Z.log2 n))) n [].
(** [strconv.FormatInt(n, 10)] *)
Definition FormatInt (n : Z) : str :=
  if n <? 0 then 45 :: FormatUint (- n) else FormatUint n.

Definition is_digit (c : byte) : bool := (48 <=? c) && (c <=? 57).
(** The digit loop of [strconv.ParseUint(s, 10, 64)]. *)
Fixpoint parse_digits (acc : Z) (s : str) : Z + NumErr :=
  match s with
  | [] => inl acc
  | c :: s' => if is_digit c then
                 let acc' := acc * 10 + (c - 48) in
                 if acc' <? 2 ^ 64 then parse_digits acc' s' else inr ErrRange
               else inr ErrSyntax
  end.
Definition parse_uint (s : str) : Z + NumErr :=
  match s with [] => inr ErrSyntax | _ => parse_digits 0 s end.

(** [strconv.ParseInt(s, 10, 64)] *)
Definition ParseInt (s : str) : Z + NumErr :=
  let '(neg, digits) :=
    match s with
    | c :: s' => if c =? 45 then (true, s') else if c =? 43 then (false, s') else (false, s)
    | [] => (false, [])
    end in
  match parse_uint digits with
  | inr e => inr e
  | inl n =>
      if neg then (if n <=? 2 ^ 63 then inl (- n) else inr ErrRange)
      else (if n <? 2 ^ 63 then inl n else inr ErrRange)
  end.

(** [strconv.Atoi]: [int] has 64 bits. *)
Definition Atoi : str → Z + NumErr := ParseInt.

(** [strconv.ParseBool] *)
Definition ParseBool (s : str) : option bool :=
  if bool_decide (s ∈ map lit ["1"; "t"; "T"; "TRUE"; "true"; "True"]%string) then Some true
  else if bool_decide (s ∈ map lit ["0"; "f"; "F"; "FALSE"; "false"; "False"]%string)
  then Some false else None.

(** ** UTF-8

    [utf8.DecodeRune]: the rune and its width; an invalid or truncated sequence
    decodes to [RuneError] with width 1. *)

Definition RuneError : Z := 65533.
Definition cont (c : byte) : bool := (128 <=? c) && (c <=? 191).
Definition in_range (lo hi c : Z) : bool := (lo <=? c) && (c <=? hi).

Definition DecodeRune (s : str) : Z * nat :=
  match s with
  | [] => (RuneError, 0%nat)
  | a :: s1 =>
      if a <? 128 then (a, 1%nat)
      else if in_range 194 223 a then
        match s1 with
        | b :: _ => if cont b then ((a - 192) * 64 + (b - 128), 2%nat) else (RuneError, 1%nat)
        | [] => (RuneError, 1%nat)
        end
      else if in_range 224 239 a then
        match s1 with
        | b :: c :: _ =>
            let lo := if a =? 224 then 160 else 128 in
            let hi := if a =? 237 then 159 else 191 in
            if in_range lo hi b && cont c
            then ((a - 224) * 4096 + (b - 128) * 64 + (c - 128), 3%nat) else (RuneError, 1%nat)
        | _ => (RuneError, 1%nat)
        end
      else if in_range 240 244 a then
        match s1 with
        | b :: c :: d :: _ =>
            let lo := if a =? 240 then 144 else 128 in
            let hi := if a =? 244 then 143 else 191 in
            if in_range lo hi b && cont c && cont d
            then ((a - 240) * 262144 + (b - 128) * 4096 + (c - 128) * 64 + (d - 128), 4%nat)
            else (RuneError, 1%nat)
        | _ => (RuneError, 1%nat)
        end
      else (RuneError, 1%nat)
  end.

(** The conversion [[]rune(s)]. *)
Fixpoint runes_aux (skip : nat) (s : str) : list Z :=
  match s with
  | [] => []
  | _ :: s' =>
      match skip with
      | S k => runes_aux k s'
      | O => let '(r, w) := DecodeRune s in r :: runes_aux (w - 1) s'
      end
  end.
Definition to_runes (s : str) : list Z := runes_aux 0 s.
