(* ===== verification/GoFacts.v ===== *)
(** * Facts about the standard library model

    Decimal printing and parsing are inverse; quoting and unquoting. *)

From S2P Require Import Prelude GoLib.
Open Scope Z_scope.

(** ** Decimal text *)

Lemma fmt_digits_app f n acc : fmt_digits f n acc = fmt_digits f n [] ++ acc.
Proof.
  revert n acc. induction f as [|f IH]; intros n acc; [done|]. simpl.
  case_match; [done|]. rewrite IH, (IH _ [_]). by rewrite <- app_assoc.
Qed.

Lemma is_digit_of n : 0 ≤ n < 10 → is_digit (48 + n) = true.
Proof. intros. unfold is_digit. apply andb_true_iff. split; apply Z.leb_le; lia. Qed.

Lemma parse_fmt f n acc :
  0 ≤ n < 2 ^ 64 → n < 10 ^ Z.of_nat f →
  parse_digits 0 (fmt_digits f n [] ++ acc) = parse_digits n acc.
Proof.
  revert n acc. induction f as [|f IH]; intros n acc Hn Hf; [simpl in Hf; f_equal; lia|].
  simpl fmt_digits. pose proof (Z.mod_pos_bound n 10 ltac:(lia)).
  case_match; btoz.
  - rewrite Z.mod_small by lia. cbn [app parse_digits]. rewrite is_digit_of by lia.
    replace (0 * 10 + (48 + n - 48)) with n by lia.
    by rewrite (proj2 (Z.ltb_lt n (2 ^ 64))) by lia.
  - rewrite fmt_digits_app, <- app_assoc. rewrite IH.
    + cbn [app parse_digits]. rewrite is_digit_of by done.
      replace (n / 10 * 10 + (48 + n mod 10 - 48)) with n
        by (pose proof (Z.div_mod n 10 ltac:(lia)); lia).
      by rewrite (proj2 (Z.ltb_lt n (2 ^ 64))) by lia.
    + split; [apply Z.div_pos; lia|]. pose proof (Z.div_lt n 10). lia.
    + apply Z.div_lt_upper_bound; [lia|]. rewrite Nat2Z.inj_succ, Z.pow_succ_r in Hf by lia. lia.
Qed.

Lemma FormatUint_fuel n : 0 ≤ n → n < 10 ^ Z.of_nat (S (Z.to_nat (Z.log2 n))).
Proof.
  intros Hn. destruct (decide (n = 0)) as [->|]; [done|].
  pose proof (Z.log2_spec n ltac:(lia)) as [_ Hlt]. pose proof (Z.log2_nonneg n).
  rewrite Nat2Z.inj_succ, Z2Nat.id by done.
  eapply Z.lt_le_trans; [exact Hlt|]. apply Z.pow_le_mono_l. lia.
Qed.

Lemma FormatUint_parse n : 0 ≤ n < 2 ^ 64 → parse_digits 0 (FormatUint n) = inl n.
Proof.
  intros Hn. unfold FormatUint. rewrite <- (app_nil_r (fmt_digits _ _ _)).
  rewrite parse_fmt; [done | done | by apply FormatUint_fuel; lia].
Qed.

Lemma FormatUint_inj n m : 0 ≤ n < 2 ^ 64 → 0 ≤ m < 2 ^ 64 → FormatUint n = FormatUint m → n = m.
Proof.
  intros Hn Hm Heq. pose proof (FormatUint_parse n Hn) as H1.
  rewrite Heq, FormatUint_parse in H1 by done. congruence.
Qed.

Lemma FormatUint_cons n : 0 ≤ n < 2 ^ 64 → ∃ c s, FormatUint n = c :: s ∧ is_digit c = true.
Proof.
  intros Hn. pose proof (FormatUint_parse n Hn) as Hp.
  unfold FormatUint in *. destruct (fmt_digits _ n []) as [|c s] eqn:He.
  - exfalso. simpl in He. case_match; [done|]. rewrite fmt_digits_app in He.
    by destruct (fmt_digits _ _ []).
  - exists c, s. split; [done|]. simpl in Hp. by destruct (is_digit c).
Qed.

(** No leading zeros. *)
Lemma fmt_digits_head f n acc : 0 < n → n < 10 ^ Z.of_nat f →
  ∃ c s, fmt_digits f n acc = c :: s ∧ 49 ≤ c ≤ 57.
Proof.
  revert n acc. induction f as [|f IH]; intros n acc Hn Hf; [simpl in Hf; lia|]. simpl fmt_digits.
  case_match; btoz.
  - rewrite Z.mod_small by lia. eexists _, _. split; [done|lia].
  - apply IH; [apply Z.div_str_pos; lia|]. apply Z.div_lt_upper_bound; [lia|].
    rewrite Nat2Z.inj_succ, Z.pow_succ_r in Hf by lia. lia.
Qed.
Lemma FormatUint_head n : 0 < n → ∃ c s, FormatUint n = c :: s ∧ 49 ≤ c ≤ 57.
Proof. intros Hn. apply fmt_digits_head; [done|]. apply FormatUint_fuel. lia. Qed.

Lemma FormatInt_parse n : is_int64 n → ParseInt (FormatInt n) = inl n.
Proof.
  unfold is_int64, int64_min, int64_max, FormatInt. intros Hn. case_match; btoz.
  - unfold ParseInt. simpl. destruct (FormatUint_cons (- n)) as (c & s & He & _); [lia|].
    pose proof (FormatUint_parse (- n) ltac:(lia)) as Hp. rewrite He in *.
    unfold parse_uint. rewrite Hp. rewrite (proj2 (Z.leb_le (- n) (2 ^ 63))) by lia. f_equal. lia.
  - destruct (FormatUint_cons n) as (c & s & He & Hc); [lia|].
    pose proof (FormatUint_parse n ltac:(lia)) as Hp. rewrite He in *.
    unfold ParseInt. unfold is_digit in Hc. btoz.
    rewrite (proj2 (Z.eqb_neq c 45)), (proj2 (Z.eqb_neq c 43)) by lia.
    unfold parse_uint. rewrite Hp. by rewrite (proj2 (Z.ltb_lt n (2 ^ 63))) by lia.
Qed.

Lemma FormatInt_inj n m : is_int64 n → is_int64 m → FormatInt n = FormatInt m → n = m.
Proof.
  intros Hn Hm Heq. pose proof (FormatInt_parse n Hn) as H1.
  rewrite Heq, FormatInt_parse in H1 by done. congruence.
Qed.

(** ** TrimSpace *)

Lemma has_prefix_app s p : has_prefix s p = true ↔ ∃ k, s = p ++ k.
Proof.
  revert s. induction p as [|c p IH]; intros s.
  - split; [intros _; by exists s | by destruct s].
  - destruct s as [|d s]; [split; [done | by intros [k [=]]]|].
    cbn [has_prefix]. rewrite andb_true_iff, Z.eqb_eq, IH. naive_solver.
Qed.

Lemma space_width_0 runes s :
  (∀ r, r ∈ runes → r ≠ []) →
  space_width runes s = 0%nat ↔ ∀ r, r ∈ runes → has_prefix s r = false.
Proof.
  intros Hne. unfold space_width. destruct (filter _ runes) as [|r l] eqn:Hf.
  - split; [|done]. intros _ r Hr. apply not_true_is_false. intros Hp.
    assert (r ∈ filter (λ r, has_prefix s r = true) runes) by by apply list_elem_of_filter.
    rewrite Hf in *. by eapply elem_of_nil.
  - assert (Hr : r ∈ filter (λ r, has_prefix s r = true) runes) by (rewrite Hf; left).
    apply list_elem_of_filter in Hr as [Hp Hr]. split.
    + intros Hl. by destruct (Hne r Hr), r.
    + intros Hall. by rewrite Hall in Hp.
Qed.

(** A prefix of a string that starts with no space starts with no space. *)
Lemma space_width_prefix runes s k :
  (∀ r, r ∈ runes → r ≠ []) → space_width runes (s ++ k) = 0%nat → space_width runes s = 0%nat.
Proof.
  intros Hne. rewrite !space_width_0 by done. intros Hs r Hr. apply not_true_is_false.
  intros [x ->]%has_prefix_app. specialize (Hs r Hr). apply not_true_iff_false in Hs. apply Hs.
  apply has_prefix_app. exists (x ++ k). by rewrite app_assoc.
Qed.

(** Trimmed on the left: nothing more to trim. *)
Definition left_trimmed (runes : list str) (s : str) : Prop := s = [] ∨ space_width runes s = 0%nat.

Lemma trim_left_trimmed runes k s : left_trimmed runes (trim_left_aux runes k s).
Proof.
  revert k. induction s as [|c s IH]; intros k; [by left|]. cbn [trim_left_aux].
  destruct k; [|apply IH]. destruct (space_width runes (c :: s)) eqn:Hw; [by right | apply IH].
Qed.

Lemma trim_left_id runes s : left_trimmed runes s → trim_left_aux runes 0 s = s.
Proof. intros [->|Hw]; [done|]. destruct s; [done|]. cbn [trim_left_aux]. by rewrite Hw. Qed.

Lemma trim_left_suffix runes k s : ∃ p, s = p ++ trim_left_aux runes k s.
Proof.
  revert k. induction s as [|c s IH]; intros k; [by exists []|]. cbn [trim_left_aux].
  destruct k as [|k].
  - destruct (space_width runes (c :: s)) as [|w]; [by exists []|].
    destruct (IH w) as [p Hp]. exists (c :: p). simpl. by f_equal.
  - destruct (IH k) as [p Hp]. exists (c :: p). simpl. by f_equal.
Qed.

Lemma space_runes_nonempty r : r ∈ space_runes → r ≠ [].
Proof. unfold space_runes. rewrite !elem_of_cons, elem_of_nil. naive_solver. Qed.

Lemma trimRight_prefix s : ∃ k, s = trimRight s ++ k.
Proof.
  unfold trimRight. destruct (trim_left_suffix (map reverse space_runes) 0 (reverse s)) as [p Hp].
  exists (reverse p). rewrite <- reverse_app, <- Hp. by rewrite reverse_involutive.
Qed.

Lemma TrimSpace_trimmed s : left_trimmed space_runes (TrimSpace s).
Proof.
  unfold TrimSpace. destruct (trimRight_prefix (trimLeft s)) as [k Hk].
  destruct (trim_left_trimmed space_runes 0 s) as [Hs|Hs]; change (trim_left_aux space_runes 0 s) with (trimLeft s) in Hs.
  - left. rewrite Hs in *. symmetry in Hk. by apply app_eq_nil in Hk as [-> _].
  - right. rewrite Hk in Hs. eapply space_width_prefix; [apply space_runes_nonempty | done].
Qed.

Lemma TrimSpace_idemp s : TrimSpace (TrimSpace s) = TrimSpace s.
Proof.
  pose proof (TrimSpace_trimmed s) as Hl. unfold TrimSpace at 1, trimLeft at 1.
  rewrite (trim_left_id _ _ Hl). unfold TrimSpace, trimRight at 1.
  unfold trimRight at 1. rewrite reverse_involutive. rewrite trim_left_id; [done|].
  apply trim_left_trimmed.
Qed.

(** Printable ASCII without the blank: nothing to trim. *)
Definition graphic (c : Z) : bool := (33 <=? c) && (c <=? 126).

Lemma space_width_graphic runes c s :
  forallb (λ r, match r with d :: _ => negb (graphic d) | [] => false end) runes = true →
  graphic c = true → space_width runes (c :: s) = 0%nat.
Proof.
  intros Hr Hc. rewrite forallb_forall in Hr. apply space_width_0.
  - intros r Hin ->. apply list_elem_of_In in Hin. by specialize (Hr [] Hin).
  - intros r Hin. apply list_elem_of_In in Hin. specialize (Hr r Hin). destruct r as [|d r]; [done|].
    cbn [has_prefix]. destruct (d =? c) eqn:E; [|done]. btoz. congruence.
Qed.

Lemma TrimSpace_graphic s : forallb graphic s = true → TrimSpace s = s.
Proof.
  assert (Hid : ∀ runes s, forallb (λ r, match r with d :: _ => negb (graphic d) | [] => false end) runes = true →
            forallb graphic s = true → trim_left_aux runes 0 s = s).
  { intros runes [|c l] Hr Hs; [done|]. apply trim_left_id. right. cbn [forallb] in Hs. btoz.
    by apply space_width_graphic. }
  intros Hs. unfold TrimSpace, trimLeft, trimRight. rewrite (Hid space_runes s); [|reflexivity | done].
  rewrite Hid; [apply reverse_involutive | reflexivity |].
  apply forallb_forall. intros c Hc. rewrite forallb_forall in Hs. apply Hs.
  apply list_elem_of_In in Hc. apply list_elem_of_In. by rewrite elem_of_reverse in Hc.
Qed.

Lemma fmt_digits_digit f n acc :
  0 ≤ n → forallb is_digit acc = true → forallb is_digit (fmt_digits f n acc) = true.
Proof.
  revert n acc. induction f as [|f IH]; intros n acc Hn Ha; [done|]. cbn [fmt_digits].
  pose proof (Z.mod_pos_bound n 10 ltac:(lia)).
  assert (Ha' : forallb is_digit ((48 + n mod 10) :: acc) = true).
  { cbn [forallb]. by rewrite is_digit_of. }
  case_match; [done|]. apply IH; [|done]. apply Z.div_pos; lia.
Qed.

Lemma FormatUint_digits n : 0 ≤ n → forallb is_digit (FormatUint n) = true.
Proof. intros. by apply fmt_digits_digit. Qed.

Lemma digit_graphic s : forallb is_digit s = true → forallb graphic s = true.
Proof.
  rewrite !forallb_forall. intros Hs c Hc. specialize (Hs c Hc). unfold is_digit, graphic in *. btoz.
  apply andb_true_iff. split; apply Z.leb_le; lia.
Qed.

Lemma FormatInt_graphic n : forallb graphic (FormatInt n) = true.
Proof.
  unfold FormatInt. case_match; btoz; [|apply digit_graphic, FormatUint_digits; lia].
  cbn [forallb]. apply digit_graphic, FormatUint_digits. lia.
Qed.

Lemma FormatInt_head n : is_int64 n → ∃ c s, FormatInt n = c :: s ∧ (c = 45 ∨ is_digit c = true).
Proof.
  unfold is_int64, int64_min, int64_max, FormatInt. intros Hn. case_match; btoz; [eauto|].
  destruct (FormatUint_cons n) as (c & s & ? & ?); [lia|]. eauto.
Qed.

Section FoldFacts.
Context `{GoStd}.

Lemma graphic_ascii s : forallb graphic s = true → is_ascii s = true.
Proof.
  unfold is_ascii. rewrite !forallb_forall. intros Hs c Hc. specialize (Hs c Hc). unfold graphic in Hs. btoz.
  apply Z.ltb_lt. lia.
Qed.

(** A number is never the NULL keyword. *)
Lemma FormatInt_not_null n : is_int64 n → EqualFold (FormatInt n) (lit "NULL") = false.
Proof.
  intros Hn. unfold EqualFold. rewrite graphic_ascii by apply FormatInt_graphic. cbn [andb is_ascii].
  change (is_ascii (lit "NULL")) with true. cbn [andb]. apply bool_decide_eq_false.
  destruct (FormatInt_head n Hn) as (c & s & -> & Hc). cbn [map]. intros [= Hx _].
  unfold lower_byte in Hx. destruct Hc as [->|Hc]; [done|]. unfold is_digit in Hc. btoz.
  repeat case_match; btoz; lia.
Qed.

End FoldFacts.

(** ** Searching *)

Lemma Index_spec s sub :
  Index s sub = -1 ∨ ∃ k, Index s sub = Z.of_nat k ∧ (k ≤ length s)%nat ∧ has_prefix (drop k s) sub = true.
Proof.
  unfold Index. enough (Hg : ∀ i, index_aux i s sub = -1 ∨
    ∃ k, index_aux i s sub = i + Z.of_nat k ∧ (k ≤ length s)%nat ∧ has_prefix (drop k s) sub = true).
  { destruct (Hg 0) as [?|(k & ? & ?)]; [by left|]. right. exists k. split; [lia | done]. }
  induction s as [|c s IH]; intros i; cbn [index_aux]; destruct (has_prefix _ sub) eqn:Hp; auto.
  - right. exists 0%nat. split; [lia|]. split; [lia | done].
  - right. exists 0%nat. split; [lia|]. split; [simpl; lia | done].
  - destruct (IH (i + 1)) as [?|(k & ? & ? & ?)]; [by left|]. right. exists (S k). simpl. split_and!; [lia | lia | done].
Qed.

Lemma LastIndexByte_spec s c :
  LastIndexByte s c = -1 ∨ ∃ k, LastIndexByte s c = Z.of_nat k ∧ s !! k = Some c.
Proof.
  unfold LastIndexByte. enough (Hg : ∀ i b, last_index_byte_aux i b s c = b ∨
    ∃ k, last_index_byte_aux i b s c = i + Z.of_nat k ∧ s !! k = Some c).
  { destruct (Hg 0 (-1)) as [?|(k & ? & ?)]; [by left|]. right. exists k. split; [lia | done]. }
  induction s as [|d s IH]; intros i b; cbn [last_index_byte_aux]; [by left|].
  destruct (IH (i + 1) (if d =? c then i else b)) as [->|(k & -> & Hk)].
  - destruct (d =? c) eqn:E; [|by left]. btoz. subst. right. exists 0%nat. split; [lia | done].
  - right. exists (S k). split; [lia | done].
Qed.

Lemma gslice_ok {A} (s : list A) i j :
  0 ≤ i → i ≤ j → j ≤ Z.of_nat (length s) → gslice s i j = Ok (take (Z.to_nat (j - i)) (drop (Z.to_nat i) s)).
Proof.
  intros. unfold gslice. by rewrite !(proj2 (Z.leb_le _ _)) by lia.
Qed.

(** ** Trimming never reaches into graphic text *)

Definition blank_runes (runes : list str) : bool :=
  forallb (λ r, negb (bool_decide (r = [])) && forallb (λ c, negb (graphic c)) r) runes.

Lemma blank_runes_head runes :
  blank_runes runes = true →
  forallb (λ r, match r with d :: _ => negb (graphic d) | [] => false end) runes = true.
Proof.
  unfold blank_runes. rewrite !forallb_forall. intros Hr r Hin. specialize (Hr r Hin).
  destruct r as [|d r]; [done|]. cbn [forallb] in Hr. btoz. by apply negb_true_iff.
Qed.

Lemma space_width_bound runes x q :
  blank_runes runes = true → (∀ c, head q = Some c → graphic c = true) →
  (space_width runes (x ++ q) ≤ length x)%nat.
Proof.
  intros Hb Hq. unfold space_width. destruct (filter _ runes) as [|r l] eqn:Hf; [lia|].
  assert (Hr : r ∈ filter (λ r, has_prefix (x ++ q) r = true) runes) by (rewrite Hf; left).
  apply list_elem_of_filter in Hr as [Hp Hr]. apply has_prefix_app in Hp as [k Hk].
  unfold blank_runes in Hb. rewrite forallb_forall in Hb. apply list_elem_of_In in Hr. specialize (Hb r Hr).
  apply andb_true_iff in Hb as [_ Hb]. rewrite forallb_forall in Hb.
  destruct (decide (length r ≤ length x)%nat) as [|Hlt]; [done|exfalso].
  destruct q as [|c q]; [rewrite app_nil_r in Hk; subst; rewrite length_app in Hlt; lia|].
  assert (Hc : (x ++ c :: q) !! length x = Some c) by by rewrite lookup_app_r, Nat.sub_diag by lia.
  rewrite Hk, lookup_app_l in Hc by lia. apply list_elem_of_lookup_2, list_elem_of_In in Hc.
  specialize (Hb c Hc). rewrite (Hq c) in Hb by done. done.
Qed.

Lemma trim_left_keeps runes x q : blank_runes runes = true → (∀ c, head q = Some c → graphic c = true) →
  ∀ k, (k ≤ length x)%nat → ∃ x', trim_left_aux runes k (x ++ q) = x' ++ q.
Proof.
  intros Hb Hq. induction x as [|c x IH]; intros k Hk.
  - exists []. simpl in *. assert (k = 0%nat) as -> by lia. apply trim_left_id.
    destruct q as [|c q]; [by left|]. right. apply space_width_graphic; [by apply blank_runes_head | by apply Hq].
  - cbn [app trim_left_aux length] in *. destruct k as [|k]; [|apply IH; lia].
    destruct (space_width runes (c :: x ++ q)) as [|w] eqn:Hw; [by exists (c :: x)|].
    apply IH. pose proof (space_width_bound runes (c :: x) q Hb Hq) as Hbd. simpl in Hbd. rewrite Hw in Hbd. lia.
Qed.

(** A graphic prefix survives [TrimSpace]. *)
Lemma TrimSpace_prefix p k :
  p ≠ [] → forallb graphic p = true → ∃ k', TrimSpace (p ++ k) = p ++ k'.
Proof.
  intros Hne Hg. assert (Hp : ∃ c p', p = c :: p') by (destruct p; [done | eauto]). destruct Hp as (c & p' & Hp).
  assert (Hl : trimLeft (p ++ k) = p ++ k).
  { unfold trimLeft. apply trim_left_id. right. rewrite Hp. simpl. apply space_width_graphic; [reflexivity|].
    rewrite Hp in Hg. cbn [forallb] in Hg. by btoz. }
  unfold TrimSpace. rewrite Hl. unfold trimRight. rewrite reverse_app.
  destruct (trim_left_keeps (map reverse space_runes) (reverse k) (reverse p) eq_refl) with (k := 0%nat) as [x' ->]; [| lia |].
  - intros d Hd. rewrite forallb_forall in Hg. apply Hg. apply list_elem_of_In.
    apply elem_of_reverse. destruct (reverse p); [done|]. simpl in Hd. simplify_eq. left.
  - exists (reverse x'). by rewrite reverse_app, reverse_involutive.
Qed.

Lemma TrimSuffixByte_prefix p k c :
  last p ≠ Some c → p ≠ [] → ∃ k', TrimSuffixByte (p ++ k) c = p ++ k'.
Proof.
  intros Hl Hne. unfold TrimSuffixByte. destruct k as [|d k _] using rev_ind.
  - rewrite app_nil_r. destruct (last p) as [x|] eqn:Hx; [|exists []; by rewrite app_nil_r].
    destruct (x =? c) eqn:E; btoz; [congruence|]. exists []. by rewrite app_nil_r.
  - rewrite app_assoc, last_snoc. destruct (d =? c); [|exists (k ++ [d]); by rewrite app_assoc].
    exists k. rewrite length_app. simpl. rewrite Nat.add_sub. by rewrite take_app_length.
Qed.

