(* ===== verification/Fold.v ===== *)
(** * Keyword matching: internal/engine/fold.go

    ASCII case folding, and the search for a complete SQL keyword outside
    quoted text that every statement parser is built on. *)

From S2P Require Import Prelude GoLib.
Open Scope Z_scope.

Definition quote : byte := 39.

Definition identifierByte (c : byte) : bool :=
  (97 <=? c) && (c <=? 122) || (65 <=? c) && (c <=? 90) ||
  (48 <=? c) && (c <=? 57) || (c =? 95) || (128 <=? c).

(** [prefix]/[needle] is upper case: only the bytes of [s] are folded. *)
Fixpoint hasPrefixFold (s prefix : str) : bool :=
  match prefix, s with
  | [], _ => true
  | p :: prefix', c :: s' => if upper_byte c =? p then hasPrefixFold s' prefix' else false
  | _ :: _, [] => false
  end.

Definition foldEqualAt (s needle : str) : bool := hasPrefixFold s needle.

Fixpoint indexFold_loop (i : Z) (s sub : str) : Z :=
  if (length s <? length sub)%nat then -1
  else if foldEqualAt s sub then i
  else match s with [] => -1 | _ :: s' => indexFold_loop (i + 1) s' sub end.
Definition indexFold (s sub : str) : Z :=
  match sub with [] => 0 | _ => indexFold_loop 0 s sub end.

Definition identifierOpt (c : option byte) : bool :=
  match c with Some c => identifierByte c | None => false end.

(** The loop of [indexKeyword] at index [i]: [s] is the suffix [s[i:]] and
    [prev] the byte [s[i-1]]. *)
Fixpoint indexKeyword_loop (prev : option byte) (quoted : bool) (i : Z)
    (s keyword : str) : Z :=
  if (length s <? length keyword)%nat then -1
  else match s with
  | [] => -1
  | c :: s' =>
      if c =? quote then
        match s' with
        | d :: s'' =>
            if quoted && (d =? quote)
            then indexKeyword_loop (Some d) quoted (i + 2) s'' keyword
            else indexKeyword_loop (Some c) (negb quoted) (i + 1) s' keyword
        | [] => indexKeyword_loop (Some c) (negb quoted) (i + 1) s' keyword
        end
      else if quoted || identifierOpt prev
      then indexKeyword_loop (Some c) quoted (i + 1) s' keyword
      else if foldEqualAt s keyword && negb (identifierOpt (head (drop (length keyword) s)))
      then i
      else indexKeyword_loop (Some c) quoted (i + 1) s' keyword
  end.
Definition indexKeyword (s keyword : str) : Z := indexKeyword_loop None false 0 s keyword.

Definition firstField (s : str) : option str :=
  let s := TrimSpace s in
  match s with
  | [] => None
  | _ => let i := IndexSpace s in
         if 0 <=? i then Some (take (Z.to_nat i) s) else Some s
  end.

Definition isBlankByte (c : byte) : bool := (c =? 32) || (c =? 9) || (c =? 10) || (c =? 13).

(** Advance over an escaped quote: [s'] is what follows the quote at hand. *)
Definition skipQuoted (s' : str) (quoted : bool) : bool :=
  quoted && match s' with d :: _ => d =? quote | [] => false end.

Example indexKeyword_ex1 : indexKeyword (lit "UPDATE t SET a = 'x SET' WHERE b") (lit "SET") = 9.
Proof. reflexivity. Qed.
Example indexKeyword_ex2 : indexKeyword (lit "a = 'it''s where' where b") (lit "WHERE") = 18.
Proof. reflexivity. Qed.
