(* ===== verification/Value.v ===== *)
(** * Cell values: internal/engine/types.go and the value functions of
    schema.go, select.go and insert.go

    Column types, the dynamic values of a row, their canonical key text, the
    ordering shared by ORDER BY and MIN/MAX, and coercion. *)

From S2P Require Import Prelude GoLib.
Open Scope Z_scope.

(** [type Type string]: the four constants, and any other string. *)
Inductive ctype := Int | Float | Text | Bool | TOther (s : str).

Definition typeName (t : ctype) : str :=
  match t with
  | Int => lit "INT" | Float => lit "FLOAT" | Text => lit "TEXT" | Bool => lit "BOOL"
  | TOther s => s
  end.
Definition typeOf (s : str) : ctype :=
  if bool_decide (s = lit "INT") then Int
  else if bool_decide (s = lit "FLOAT") then Float
  else if bool_decide (s = lit "TEXT") then Text
  else if bool_decide (s = lit "BOOL") then Bool
  else TOther s.

Record Column := mkColumn { cName : str; cType : ctype; cPrimary : bool }.

(** The dynamic types an [any] cell can have.  Rows hold the first five;
    [VGoInt] is the plain [int] that COUNT produces. *)
Inductive value :=
| VNil
| VInt (n : Z)        (* int64 *)
| VFloat (f : float64)
| VStr (s : str)
| VBool (b : bool)
| VGoInt (n : Z).     (* int *)

#[global] Instance ctype_eq_dec : EqDecision ctype.
Proof. solve_decision. Defined.
#[global] Instance Column_eq_dec : EqDecision Column.
Proof. solve_decision. Defined.
#[global] Instance value_eq_dec : EqDecision value.
Proof. solve_decision. Defined.
#[global] Instance value_inhabited : Inhabited value := populate VNil.

(** [map[string]any]; [row[c]] on an absent key is nil. *)
Abbreviation row := (gmap str value).
Definition rowGet (r : row) (c : str) : value := default VNil (r !! c).

Section Values.
Context `{GoStd}.

Definition fmtBool (b : bool) : str := if b then lit "true" else lit "false".

(** [fmt.Sprint] of a cell *)
Definition Sprint (v : value) : str :=
  match v with
  | VNil => lit "<nil>"
  | VInt n | VGoInt n => FormatInt n
  | VFloat f => strconv_FormatFloat f
  | VStr s => s
  | VBool b => fmtBool b
  end.

Definition valueKey (v : value) : str :=
  match v with
  | VInt n => FormatInt n
  | VFloat f => strconv_FormatFloat f
  | VStr s => s
  | VBool b => fmtBool b
  | VNil => lit "NULL"
  | VGoInt n => Sprint v
  end.

Definition numeric (v : value) : option float64 :=
  match v with
  | VInt n => Some (f64_of_Z n)
  | VFloat f => Some f
  | _ => None
  end.

(** The tail of [valueLess]: numbers as float64, anything else as text. *)
Definition valueLess_mixed (l r : value) : bool :=
  match numeric l, numeric r with
  | Some x, Some y => f64_ltb x y
  | _, _ => str_ltb (Sprint l) (Sprint r)
  end.

Definition valueLess (left right : value) : bool :=
  match left, right with
  | VInt l, VInt r => l <? r
  | VStr l, VStr r => str_ltb l r
  | VBool l, VBool r => negb l && r
  | VFloat l, VFloat r => f64_ltb l r
  | _, _ => valueLess_mixed left right
  end.

(** One cell of the DISTINCT/GROUP BY key: tag, length, ':', key text. *)
Definition valueTag (v : value) : byte :=
  match v with
  | VInt _ => 105 | VFloat _ => 102 | VStr _ => 115 | VBool _ => 98
  | VNil | VGoInt _ => 110
  end.
Definition cellProjectionKey (v : value) : str :=
  let s := valueKey v in
  valueTag v :: FormatInt (Z.of_nat (length s)) ++ 58 :: s.
Definition rowProjectionKey (line : list value) : str := flat_map cellProjectionKey line.

Definition typeMismatch {A} : res A := errorsNew "type mismatch".

(** The two float64 bounds of [coerceValue] are [-2^63] and [2^63]. *)
Definition f64_2_63 : float64 := f64_of_Z (2 ^ 63).
(** [int64(x)] of a float64 in [[-2^63, 2^63]]; the conversion of [2^63] itself
    is out of range and amd64 yields the minimum int64. *)
Definition f64_to_int64 (f : float64) : Z :=
  match f64_truncZ f with
  | Some z => if (int64_min <=? z) && (z <=? int64_max) then z else int64_min
  | None => int64_min
  end.

Definition coerceValue (v : value) (typ : ctype) : res value :=
  match v with
  | VNil => Ok VNil
  | _ =>
      match typ with
      | Int =>
          match v with
          | VInt x => Ok (VInt x)
          | VFloat x =>
              if f64_is_integral x && f64_leb (SFopp f64_2_63) x && f64_leb x f64_2_63
              then Ok (VInt (f64_to_int64 x)) else typeMismatch
          | VStr x =>
              match ParseInt (TrimSpace x) with
              | inl n => Ok (VInt n) | inr _ => typeMismatch
              end
          | _ => typeMismatch
          end
      | Float =>
          match v with
          | VInt x => Ok (VFloat (f64_of_Z x))
          | VFloat x => Ok (VFloat x)
          | VStr x =>
              match strconv_ParseFloat (TrimSpace x) with
              | inl f => Ok (VFloat f) | inr _ => typeMismatch
              end
          | _ => typeMismatch
          end
      | Text => Ok (VStr (Sprint v))
      | Bool =>
          match v with
          | VBool x => Ok (VBool x)
          | VStr x =>
              match ParseBool (TrimSpace x) with
              | Some b => Ok (VBool b) | None => typeMismatch
              end
          | _ => typeMismatch
          end
      | TOther _ => typeMismatch
      end
  end.

(** ** Typing of cells *)

(** [v] may be stored in a column of type [t]. *)
Definition has_type (t : ctype) (v : value) : Prop :=
  match v, t with
  | VNil, _ => True
  | VInt n, Int => is_int64 n
  | VFloat _, Float | VStr _, Text | VBool _, Bool => True
  | _, _ => False
  end.

End Values.
