(* ===== verification/Parser.v ===== *)
(** * Literals and predicates: internal/engine/parser.go

    Quote-aware splitting, literal parsing, the WHERE grammar of SELECT
    ([compileCondition]) and of UPDATE/DELETE ([parseMutationWhere]), and the
    evaluation of compiled predicates. *)

From S2P Require Import Prelude GoLib Fold Value.
Open Scope Z_scope.

Inductive cmpop := opEq | opNe | opLt | opLe | opGt | opGe | opIn | opBetween | opLike.
#[global] Instance cmpop_eq_dec : EqDecision cmpop.
Proof. solve_decision. Defined.

(** ** Quote-aware scanning *)

Definition unquoteLiteral (s : str) : str :=
  let s := TrimSpace s in
  if (2 <=? length s)%nat && bool_decide (head s = Some quote) && bool_decide (last s = Some quote)
  then collapse_quotes (take (length s - 2) (drop 1 s))
  else TrimByte s quote.

(** [cur] is [s[start:i]] reversed. *)
Fixpoint splitVals_loop (cur : str) (quoted : bool) (s : str) : list str :=
  match s with
  | [] => [TrimSpace (reverse cur)]
  | c :: s' =>
      if c =? quote then
        match s' with
        | d :: s'' =>
            if quoted && (d =? quote) then splitVals_loop (d :: c :: cur) quoted s''
            else splitVals_loop (c :: cur) (negb quoted) s'
        | [] => splitVals_loop (c :: cur) (negb quoted) s'
        end
      else if (c =? 44) && negb quoted
      then TrimSpace (reverse cur) :: splitVals_loop [] quoted s'
      else splitVals_loop (c :: cur) quoted s'
  end.
Definition splitVals (s : str) : list str := splitVals_loop [] false s.

(** [s[i:]] is [s] and [prev] is [s[i-1]]. *)
Fixpoint skipBlank (s : str) : str :=
  match s with c :: s' => if isBlankByte c then skipBlank s' else s | [] => [] end.
Definition isBetweenOperator (prev : option byte) (s : str) : bool :=
  if identifierOpt prev then false
  else if negb (foldEqualAt s (lit "BETWEEN")) then false
  else let r := drop (length (lit "BETWEEN")) s in
       if identifierOpt (head r) then false
       else match skipBlank r with
            | [] => false
            | c :: _ => negb (c =? 61) && negb (c =? 60) && negb (c =? 62) && negb (c =? 33)
            end.

(** The loop of [splitLogical]: [skip] bytes of a matched separator are still
    to be passed over, [cur] is [s[start:i]] reversed. *)
Fixpoint splitLogical_loop (operator needle : str) (skip : nat) (prev : option byte)
    (cur : str) (quoted : bool) (pending : nat) (s : str) : list str :=
  match s with
  | [] => [TrimSpace (reverse cur)]
  | c :: s' =>
      match skip with
      | S k => splitLogical_loop operator needle k (Some c) [] quoted pending s'
      | O =>
          if (length s <? length needle)%nat then [TrimSpace (reverse cur ++ s)]
          else
            let next q p := splitLogical_loop operator needle 0 (Some c) (c :: cur) q p s' in
            let scan q :=
              if q : bool then next q pending
              else
                let pending' :=
                  if bool_decide (operator = lit "AND") && isBetweenOperator prev s
                  then S pending else pending in
                if foldEqualAt s needle then
                  match pending' with
                  | S p => next q p
                  | O => TrimSpace (reverse cur) ::
                         splitLogical_loop operator needle (length needle - 1) (Some c) [] q 0 s'
                  end
                else next q pending' in
            if c =? quote then
              match s' with
              | d :: s'' =>
                  if quoted && (d =? quote)
                  then splitLogical_loop operator needle 0 (Some d) (d :: c :: cur) quoted pending s''
                  else scan (negb quoted)
              | [] => scan (negb quoted)
              end
            else scan quoted
      end
  end.
Definition splitLogical (s operator : str) : list str :=
  splitLogical_loop operator (32 :: operator ++ [32]) 0 None [] false 0 s.

Definition opNeOrLe (c : byte) : cmpop := if c =? 33 then opNe else opLe.

Fixpoint splitConditionTerm_loop (cur : str) (quoted : bool) (s : str)
    : option (str * cmpop * str) :=
  match s with
  | [] => None
  | c :: s' =>
      let lhs := reverse cur in
      if c =? quote then
        match s' with
        | d :: s'' =>
            if quoted && (d =? quote) then splitConditionTerm_loop (d :: c :: cur) quoted s''
            else splitConditionTerm_loop (c :: cur) (negb quoted) s'
        | [] => splitConditionTerm_loop (c :: cur) (negb quoted) s'
        end
      else if quoted then splitConditionTerm_loop (c :: cur) quoted s'
      else if (c =? 33) || (c =? 60) then
        if bool_decide (head s' = Some 61) then Some (lhs, opNeOrLe c, drop 1 s')
        else if c =? 60 then
          if bool_decide (head s' = Some 62) then Some (lhs, opNe, drop 1 s')
          else Some (lhs, opLt, s')
        else None
      else if c =? 62 then
        if bool_decide (head s' = Some 61) then Some (lhs, opGe, drop 1 s')
        else Some (lhs, opGt, s')
      else if c =? 61 then Some (lhs, opEq, s')
      else splitConditionTerm_loop (c :: cur) quoted s'
  end.
Definition splitConditionTerm (s : str) : option (str * cmpop * str) :=
  splitConditionTerm_loop [] false s.

(** The earliest of BETWEEN, IN, LIKE; the first listed wins a tie. *)
Definition specialStep (s : str) (best : Z * option (str * cmpop)) (kw : str * cmpop)
    : Z * option (str * cmpop) :=
  let i := indexKeyword s kw.1 in
  if (0 <=? i) && ((best.1 <? 0) || (i <? best.1)) then (i, Some kw) else best.
Definition specialKeywords : list (str * cmpop) :=
  [(lit "BETWEEN", opBetween); (lit "IN", opIn); (lit "LIKE", opLike)].
Definition splitSpecialTerm (s : str) : option (str * cmpop * str) :=
  match foldl (specialStep s) (-1, None) specialKeywords with
  | (best, Some (kw, op)) =>
      Some (take (Z.to_nat best) s, op, drop (Z.to_nat best + length kw) s)
  | (_, None) => None
  end.

Definition splitTerm (s : str) : option (str * cmpop * str) :=
  match splitConditionTerm s with Some t => Some t | None => splitSpecialTerm s end.

Definition splitBetweenBounds (raw : str) : option (str * str) :=
  if 0 <=? indexKeyword raw (lit "OR") then None
  else match splitLogical raw (lit "AND") with
       | [lo; hi] =>
           let lo := TrimSpace lo in let hi := TrimSpace hi in
           if bool_decide (lo = []) || bool_decide (hi = []) then None else Some (lo, hi)
       | _ => None
       end.

(** The inside of a parenthesised operand. *)
Definition parenBody (raw : str) : option str :=
  let raw := TrimSpace raw in
  if (length raw <? 2)%nat || negb (bool_decide (head raw = Some 40))
     || negb (bool_decide (last raw = Some 41))
  then None else Some (take (length raw - 2) (drop 1 raw)).

Definition inListValues (raw : str) : list str :=
  match parenBody raw with
  | None => []
  | Some body => map unquoteLiteral (splitVals body)
  end.

(** ** LIKE *)

(** The loop of [likeMatch] with its four cursors; [starP < 0] means no '%'
    was seen.  [fuel] bounds the iterations. *)
Fixpoint likeMatch_loop (fuel : nat) (p v : list Z) (pi vi : nat) (star : option (nat * nat))
    : option bool :=
  match fuel with
  | O => None
  | S f =>
      match v !! vi with
      | None =>
          Some (bool_decide (drop_byte 37 (drop pi p) = []))
      | Some c =>
          if match p !! pi with Some d => (d =? 95) || (d =? c) | None => false end
          then likeMatch_loop f p v (S pi) (S vi) star
          else if bool_decide (p !! pi = Some 37)
          then likeMatch_loop f p v (S pi) vi (Some (pi, vi))
          else match star with
               | Some (sp, sv) => likeMatch_loop f p v (S sp) (S sv) (Some (sp, S sv))
               | None => Some false
               end
      end
  end.
Definition likeFuel (p v : list Z) : nat := (length v + 2) * (length p + length v + 2).
Definition likeMatch (pattern value : str) : bool :=
  let p := to_runes pattern in let v := to_runes value in
  default false (likeMatch_loop (likeFuel p v) p v 0 0 None).

Section Conditions.
Context `{GoStd}.

(** ** Literals *)

Definition numError {A} (fn : string) (num : str) (e : NumErr) : res A := Err (ENum (lit fn) num e).

Definition parseVal (raw : str) (typ : ctype) : res value :=
  let raw := TrimSpace raw in
  if EqualFold raw (lit "NULL") then Ok VNil
  else match typ with
  | Text => Ok (VStr (unquoteLiteral raw))
  | Int => match ParseInt raw with inl n => Ok (VInt n) | inr e => numError "ParseInt" raw e end
  | Float =>
      match strconv_ParseFloat raw with
      | inl f => Ok (VFloat f) | inr e => numError "ParseFloat" raw e
      end
  | Bool =>
      match ParseBool raw with
      | Some b => Ok (VBool b) | None => numError "ParseBool" raw ErrSyntax
      end
  | TOther _ => errorsNew "unknown type"
  end.

Definition literalValue (raw : str) (typ : ctype) : value :=
  let unq := unquoteLiteral (TrimSpace raw) in
  match parseVal unq typ with Ok v => v | _ => VStr unq end.

Definition parseInList (raw : str) (typ : ctype) : option (list value) :=
  match parenBody raw with
  | None => None
  | Some body =>
      let vals := splitVals body in
      if existsb (λ v, bool_decide (TrimSpace v = [])) vals then None
      else let out := map (λ v, literalValue v typ) vals in
           if bool_decide (out = []) then None else Some out
  end.

(** ** Comparisons *)

(** The resolved right-hand side: one value, or the list of IN / BETWEEN. *)
Inductive expected := XVal (v : value) | XList (l : list value).

(** [fmt.Sprint] of a [[]any] *)
Definition SprintList (l : list value) : str :=
  91 :: match map Sprint l with
        | [] => []
        | s :: ss => s ++ flat_map (λ t, 32 :: t) ss
        end ++ [93].

Definition lessX (actual : value) (x : expected) : bool :=
  match x with
  | XVal v => valueLess actual v
  | XList l => str_ltb (Sprint actual) (SprintList l)
  end.
Definition moreX (actual : value) (x : expected) : bool :=
  match x with
  | XVal v => valueLess v actual
  | XList l => str_ltb (SprintList l) (Sprint actual)
  end.

Definition orderedCompare (actual : value) (x : expected) (op : cmpop) : bool :=
  match op with
  | opLt => lessX actual x
  | opLe => negb (moreX actual x)
  | opGt => moreX actual x
  | opGe => negb (lessX actual x)
  | _ => false
  end.

Definition conditionValueEqual (actual expected : value) : bool :=
  match expected with
  | VNil => match actual with VNil => true | _ => false end
  | VStr s => match actual with VStr a => bool_decide (a = s) | _ => false end
  | VInt n => match actual with VInt a => a =? n | _ => false end
  | VFloat f => match actual with VFloat a => f64_eqb a f | _ => false end
  | VBool b => match actual with VBool a => eqb a b | _ => false end
  | VGoInt n => bool_decide (Sprint actual = Sprint expected)
  end.

Definition conditionEqualX (actual : value) (x : expected) : bool :=
  match x with
  | XVal v => conditionValueEqual actual v
  | XList l => bool_decide (Sprint actual = SprintList l)
  end.

Definition inBounds (actual : value) (x : expected) : bool :=
  match x with
  | XList [lo; hi] => orderedCompare actual (XVal lo) opGe && orderedCompare actual (XVal hi) opLe
  | _ => false
  end.

Definition conditionValueCompare (actual : value) (x : expected) (op : cmpop) : bool :=
  match op with
  | opEq => conditionEqualX actual x
  | opNe => negb (conditionEqualX actual x)
  | opIn => match x with XList l => existsb (conditionValueEqual actual) l | _ => false end
  | opBetween => inBounds actual x
  | opLike =>
      match x, actual with XVal (VStr p), VStr s => likeMatch p s | _, _ => false end
  | _ => orderedCompare actual x op
  end.

(** Mutation predicates compare equality on raw text. *)
Definition matchWhereValue (rowValue : value) (wv : str) : bool :=
  match rowValue with
  | VStr v => bool_decide (v = wv)
  | VBool v => (v && bool_decide (wv = lit "true")) || (negb v && bool_decide (wv = lit "false"))
  | _ => bool_decide (Sprint rowValue = wv)
  end.

Definition matchWhereOp (rowValue : value) (wv : str) (x : expected) (op : cmpop) : bool :=
  match op with
  | opEq => matchWhereValue rowValue wv
  | opNe => negb (matchWhereValue rowValue wv)
  | opIn => existsb (matchWhereValue rowValue) (inListValues wv)
  | opBetween => inBounds rowValue x
  | opLike =>
      match rowValue with
      | VStr s => likeMatch (match x with XVal (VStr p) => p | _ => [] end) s
      | _ => false
      end
  | _ => orderedCompare rowValue x op
  end.

(** ** WHERE *)

Definition invalidWhere {A} : res A := errorsNew "invalid WHERE expression".

(** The WHERE of UPDATE/DELETE: [None] when there is no WHERE keyword. *)
Definition parseMutationWhere (s : str) : res (option (str * str * cmpop)) :=
  let i := indexKeyword s (lit "WHERE") in
  if i <? 0 then Ok None
  else
    let rest := TrimSpace (drop (Z.to_nat (i + 5)) s) in
    match rest with
    | [] => invalidWhere
    | _ =>
        match splitTerm rest with
        | None => invalidWhere
        | Some (lhs, op, rhs) =>
            let bad :=
              if bool_decide (op = opBetween)
              then match splitBetweenBounds rhs with None => true | Some _ => false end
              else (0 <=? indexKeyword rest (lit "AND")) || (0 <=? indexKeyword rest (lit "OR")) in
            if bad then invalidWhere
            else
              let column := ToLower (TrimSpace lhs) in
              let raw := TrimSpace rhs in
              if bool_decide (column = []) || bool_decide (raw = []) then invalidWhere
              else Ok (Some (column, unquoteLiteral raw, op))
        end
    end.

Record conditionTerm := mkTerm { ctColumn : str; ctExpected : expected; ctOp : cmpop }.
Definition compiledCondition := list (list conditionTerm).

(** [types[column]] of the map built from the column list: the last one wins. *)
Definition columnType (columns : list Column) (name : str) : option ctype :=
  foldl (λ o c, if bool_decide (cName c = name) then Some (cType c) else o) None columns.

Definition compileTerm (columns : list Column) (conjunction : str) : option conditionTerm :=
  match splitTerm conjunction with
  | None => None
  | Some (lhs, op, rhs) =>
      let column := ToLower (TrimSpace lhs) in
      if bool_decide (column = []) then None
      else match columnType columns column with
      | None => None
      | Some typ =>
          let raw := TrimSpace rhs in
          if bool_decide (raw = []) then None
          else match op with
          | opIn =>
              match parseInList raw typ with
              | Some l => Some (mkTerm column (XList l) op) | None => None
              end
          | opBetween =>
              match splitBetweenBounds raw with
              | Some (lo, hi) =>
                  Some (mkTerm column (XList [literalValue lo typ; literalValue hi typ]) op)
              | None => None
              end
          | opLike => Some (mkTerm column (XVal (VStr (unquoteLiteral raw))) op)
          | _ => Some (mkTerm column (XVal (literalValue raw typ)) op)
          end
      end
  end.

Definition compileCondition (expression : str) (columns : list Column) : option compiledCondition :=
  if bool_decide (TrimSpace expression = []) then Some []
  else mapM (λ disjunction, mapM (compileTerm columns) (splitLogical disjunction (lit "AND")))
            (splitLogical expression (lit "OR")).

Definition matchesMap (c : compiledCondition) (r : row) : bool :=
  existsb (forallb (λ t, conditionValueCompare (rowGet r (ctColumn t)) (ctExpected t) (ctOp t))) c.

(** [columns] maps a column name to its position in [values]. *)
Definition matchesFast (c : compiledCondition) (values : list value) (columns : gmap str nat) : bool :=
  existsb (forallb (λ t,
    match columns !! ctColumn t with
    | None => false
    | Some i => conditionValueCompare (default VNil (values !! i)) (ctExpected t) (ctOp t)
    end)) c.

End Conditions.
