(* ===== verification/ParserProofs.v ===== *)
(** * LIKE terminates and means what it says

    The backtracking loop of [likeMatch] never exhausts its fuel, and on values
    without a '%' it decides the declarative meaning of the pattern. *)

From S2P Require Import Prelude GoLib Fold Value Parser.
Open Scope Z_scope.

(** Each iteration advances the value cursor, the pattern cursor, or the restart
    point behind the last wildcard. *)
Lemma likeMatch_loop_total p v fuel : ∀ pi vi star,
  (pi ≤ length p)%nat → (vi ≤ length v)%nat →
  match star with Some (sp, sv) => (sv ≤ vi)%nat ∧ (sp < pi)%nat | None => True end →
  ((match star with Some (_, sv) => length v - sv | None => S (length v) end) * (length p + length v + 2)
   + (length p - pi) + (length v - vi) < fuel)%nat →
  is_Some (likeMatch_loop fuel p v pi vi star).
Proof.
  induction fuel as [|f IH]; intros pi vi star Hp Hv Hs Hf; [lia|].
  cbn [likeMatch_loop]. destruct (v !! vi) eqn:Ev; [|by eauto].
  apply lookup_lt_Some in Ev as Hvi.
  destruct (p !! pi) as [d|] eqn:Ep.
  - apply lookup_lt_Some in Ep as Hpi.
    destruct ((d =? 95) || _).
    + apply IH; try lia. destruct star as [[sp sv]|]; [lia|done]. 
    + case_bool_decide as E.
      * apply IH; [lia|lia|lia|]. destruct star as [[sp sv]|]; nia.
      * destruct star as [[sp sv]|]; [|by eauto]. apply IH; [lia|lia|lia|]. nia.
  - rewrite bool_decide_eq_false_2 by done.
    destruct star as [[sp sv]|]; [|by eauto]. apply IH; [lia|lia|lia|]. nia.
Qed.

(** The meaning of a pattern: '%' stands for any run of runes, '_' for one rune,
    every other rune for itself. *)
Fixpoint likes (p : list Z) : list Z → bool :=
  match p with
  | [] => λ v, bool_decide (v = [])
  | c :: p' =>
      if c =? 37
      then fix run v := likes p' v || match v with [] => false | _ :: v' => run v' end
      else λ v, match v with [] => false | d :: v' => ((c =? 95) || (c =? d)) && likes p' v' end
  end.

Definition fitsRune (c d : Z) : Prop := c ≠ 37 ∧ (c = 95 ∨ c = d).

Lemma likes_star p v : likes (37 :: p) v = true ↔ ∃ k, likes p (drop k v) = true.
Proof.
  induction v as [|d v IH]; cbn [likes Z.eqb Pos.eqb] in *.
  - rewrite orb_false_r. split; [intros; by exists O | intros [k Hk]; by rewrite drop_nil in Hk].
  - rewrite orb_true_iff. split.
    + intros [Hl|Hr]; [by exists O|]. apply IH in Hr as [k Hk]. by exists (S k).
    + intros [[|k] Hk]; [by left|]. right. apply IH. by exists k.
Qed.

Lemma likes_star_step p d v : likes p (d :: v) = false → likes (37 :: p) (d :: v) = likes (37 :: p) v.
Proof. intros Hp. cbn [likes Z.eqb Pos.eqb] in *. by rewrite Hp. Qed.

Lemma likes_nil p : likes p [] = bool_decide (drop_byte 37 p = []).
Proof.
  induction p as [|c p IH]; [done|]. cbn [likes drop_byte].
  destruct (c =? 37); [by rewrite orb_false_r | done].
Qed.

Lemma likes_segment seg w p v : Forall2 fitsRune seg w → likes (seg ++ p) (w ++ v) = likes p v.
Proof.
  induction 1 as [|c d seg w [Hc Hcd] _ IH]; [done|]. cbn [likes app].
  rewrite (proj2 (Z.eqb_neq c 37)) by done.
  rewrite (proj2 (orb_true_iff (c =? 95) (c =? d))); [done|]. rewrite !Z.eqb_eq. tauto.
Qed.

Lemma likes_segment_inv seg p v : Forall (λ c, c ≠ 37) seg →
  likes (seg ++ p) v = true → (length seg ≤ length v)%nat ∧ likes p (drop (length seg) v) = true.
Proof.
  intros Hs. revert v. induction Hs as [|c seg Hc _ IH]; intros v; [intros Hp; split; [cbn [length]; lia|exact Hp]|]. cbn [likes app].
  rewrite (proj2 (Z.eqb_neq c 37)) by done.
  destruct v as [|d v]; [done|]. intros [_ Hl]%andb_true_iff. apply IH in Hl as [? ?]. cbn [length drop]. split; [lia|done].
Qed.

Lemma fits_plain seg w : Forall2 fitsRune seg w → Forall (λ c, c ≠ 37) seg.
Proof. induction 1 as [|c d ? ? [? _]]; by constructor. Qed.

(** Behind a wildcard the earliest occurrence of a segment is as good as any, when
    another wildcard follows it or the value ends with it. *)
Lemma likes_commit seg w p v :
  Forall2 fitsRune seg w → likes (37 :: seg ++ 37 :: p) (w ++ v) = likes (37 :: p) v.
Proof.
  intros Hf. apply eq_true_iff_eq. split.
  - intros [k Hk]%likes_star. apply likes_segment_inv in Hk as [_ Hk]; [|by eapply fits_plain].
    apply likes_star in Hk as [j Hj]. apply likes_star. exists (k + j)%nat.
    rewrite !drop_drop in Hj. rewrite <- Hj. f_equal.
    replace (k + (length seg + j))%nat with (length w + (k + j))%nat by (rewrite (Forall2_length _ _ _ Hf); lia).
    by rewrite <- (drop_drop (w ++ v)), drop_app_length.
  - intros Hp. apply likes_star. exists O. by rewrite drop_0, likes_segment.
Qed.

Lemma likes_ended seg w p :
  Forall2 fitsRune seg w → likes (37 :: seg ++ p) w = likes p [].
Proof.
  intros Hf. apply eq_true_iff_eq. split.
  - intros [k Hk]%likes_star. apply likes_segment_inv in Hk as [Hl Hk]; [|by eapply fits_plain].
    rewrite length_drop, (Forall2_length _ _ _ Hf) in Hl.
    rewrite drop_ge in Hk; [done|]. rewrite length_drop, (Forall2_length _ _ _ Hf). lia.
  - intros Hp. apply likes_star. exists O. rewrite drop_0, <- (app_nil_r w). by rewrite likes_segment.
Qed.

(** What the cursors stand for. *)
Definition likeState (p v : list Z) (pi vi : nat) (star : option (nat * nat)) : Prop :=
  match star with
  | None => likes p v = likes (drop pi p) (drop vi v)
  | Some (sp, sv) => ∃ seg w, Forall2 fitsRune seg w ∧ drop (S sp) p = seg ++ drop pi p ∧
      drop sv v = w ++ drop vi v ∧ likes p v = likes (37 :: drop (S sp) p) (drop sv v)
  end.

Lemma likeState_match p v pi vi star c d :
  p !! pi = Some c → v !! vi = Some d → fitsRune c d →
  likeState p v pi vi star → likeState p v (S pi) (S vi) star.
Proof.
  intros Hp Hv Hf. apply drop_S in Hp as Ep, Hv as Ev. destruct star as [[sp sv]|]; simpl.
  - intros (seg & w & HF & Ex & Ey & ->). exists (seg ++ [c]), (w ++ [d]).
    split_and!; [by apply Forall2_app; [|constructor]|rewrite <- app_assoc; simpl; congruence..|done].
  - intros ->. rewrite Ep, Ev. apply (likes_segment [c] [d]). by constructor.
Qed.

Lemma likeState_star p v pi vi star :
  p !! pi = Some 37 → likeState p v pi vi star → likeState p v (S pi) vi (Some (pi, vi)).
Proof.
  intros Hp Hs. apply drop_S in Hp as Ep. exists [], []. split_and!; [done..|].
  destruct star as [[sp sv]|]; simpl in Hs; [|by rewrite Hs, Ep].
  destruct Hs as (seg & w & HF & Ex & Ey & ->). rewrite Ex, Ey, Ep. by apply likes_commit.
Qed.

Lemma likeState_retry p v pi vi sp sv :
  likes (drop pi p) (drop vi v) = false → (vi < length v)%nat →
  likeState p v pi vi (Some (sp, sv)) → likeState p v (S sp) (S sv) (Some (sp, S sv)).
Proof.
  intros Hno Hv (seg & w & HF & Ex & Ey & He). exists [], []. split_and!; [done..|]. rewrite He.
  assert (Hno' : likes (drop (S sp) p) (drop sv v) = false) by (rewrite Ex, Ey; by rewrite likes_segment).
  destruct (v !! sv) as [d|] eqn:Ed.
  - apply drop_S in Ed as E. rewrite E in *. by apply likes_star_step.
  - apply lookup_ge_None in Ed. by rewrite !(drop_ge v) by lia.
Qed.

Lemma likeMatch_loop_likes p v fuel : Forall (λ d, d ≠ 37) v → ∀ pi vi star b,
  likeState p v pi vi star → likeMatch_loop fuel p v pi vi star = Some b → b = likes p v.
Proof.
  intros Hv. induction fuel as [|f IH]; intros pi vi star b Hs; [done|]. cbn [likeMatch_loop].
  destruct (v !! vi) as [c|] eqn:Ec; last first.
  { intros [= <-]. apply lookup_ge_None in Ec. rewrite <- likes_nil. symmetry.
    destruct star as [[sp sv]|]; simpl in Hs; [|by rewrite Hs, (drop_ge v)].
    destruct Hs as (seg & w & HF & Ex & Ey & ->). rewrite (drop_ge v vi), app_nil_r in Ey by lia.
    rewrite Ex, Ey. by apply likes_ended. }
  assert (Hc : c ≠ 37) by (by eapply (Forall_lookup_1 _ _ _ _ Hv)).
  apply lookup_lt_Some in Ec as Hl. apply drop_S in Ec as Ev.
  destruct (p !! pi) as [d|] eqn:Ep; [destruct ((d =? 95) || (d =? c)) eqn:Em|]; [|case_bool_decide as Ed|].
  - apply IH. eapply likeState_match; [done..| |done]. rewrite orb_true_iff, !Z.eqb_eq in Em. split; [lia|tauto].
  - injection Ed as ->. apply IH. by eapply likeState_star.
  - assert (Hno : likes (drop pi p) (drop vi v) = false).
    { rewrite (drop_S _ _ _ Ep), Ev. cbn [likes]. by rewrite (proj2 (Z.eqb_neq d 37)), Em by congruence. }
    destruct star as [[sp sv]|]; [apply IH; by apply (likeState_retry p v pi vi)|].
    intros [= <-]. simpl in Hs. congruence.
  - rewrite bool_decide_eq_false_2 by done.
    assert (Hno : likes (drop pi p) (drop vi v) = false).
    { apply lookup_ge_None in Ep. rewrite (drop_ge p), Ev by lia. done. }
    destruct star as [[sp sv]|]; [apply IH; by apply (likeState_retry p v pi vi)|].
    intros [= <-]. simpl in Hs. congruence.
Qed.

(** LIKE means what its documentation says on every value without a '%'. *)
Theorem likeMatch_correct pattern value :
  Forall (λ d, d ≠ 37) (to_runes value) →
  likeMatch pattern value = likes (to_runes pattern) (to_runes value).
Proof.
  intros Hv. unfold likeMatch. set (p := to_runes pattern) in *. set (v := to_runes value) in *.
  destruct (likeMatch_loop_total p v (likeFuel p v) 0 0 None) as [b Hb]; [lia|lia|done| |].
  { unfold likeFuel. nia. }
  rewrite Hb. simpl. by eapply likeMatch_loop_likes; [done| |exact Hb].
Qed.

(** A value with a '%' may be missed: the cursor takes the wildcard for the rune. *)
Example likeMatch_percent : likeMatch (lit "%a") (lit "%xa") = false ∧ likes (lit "%a") (lit "%xa") = true.
Proof. by vm_compute. Qed.
