(* ===== verification/GoConc.v ===== *)
(** * A concrete [GoStd]

    Decimal float text (correctly rounded parsing, shortest round-trip
    formatting in the 'g' layout) and ASCII case mapping.  It makes every
    definition of the development computable; no theorem depends on it, only
    the witnesses and examples do. *)

From S2P Require Import Prelude GoLib.
Open Scope Z_scope.

Definition f64_of_decimal (neg : bool) (m e : Z) : float64 :=
  match m with
  | Zpos p =>
      if 0 <=? e then binary_normalize 53 1024 ((if neg then -1 else 1) * (m * 10 ^ e)) 0 neg
      else SFdiv 53 1024 (S754_finite neg p 0) (S754_finite false (Z.to_pos (10 ^ (- e))) 0)
  | _ => S754_zero neg
  end.

(** Digits with an optional point: (mantissa, digits after the point, digits read, rest). *)
Fixpoint scan_mantissa (m frac : Z) (seen : nat) (dot : bool) (s : str) : Z * Z * nat * str :=
  match s with
  | c :: s' =>
      if is_digit c
      then scan_mantissa (m * 10 + (c - 48)) (if dot then frac + 1 else frac) (S seen) dot s'
      else if (c =? 46) && negb dot then scan_mantissa m frac seen true s'
      else (m, frac, seen, s)
  | [] => (m, frac, seen, [])
  end.

Definition conc_ParseFloat (s : str) : float64 + NumErr :=
  let '(neg, s1) :=
    match s with
    | c :: s' => if c =? 45 then (true, s') else if c =? 43 then (false, s') else (false, s)
    | [] => (false, [])
    end in
  if bool_decide (map lower_byte s1 ∈ [lit "inf"; lit "infinity"]) then inl (S754_infinity neg)
  else if bool_decide (map lower_byte s = lit "nan") then inl S754_nan
  else
    let '(m, frac, seen, rest) := scan_mantissa 0 0 0 false s1 in
    if (seen =? 0)%nat then inr ErrSyntax
    else
      let exp :=
        match rest with
        | [] => inl 0
        | c :: r => if (c =? 101) || (c =? 69) then ParseInt r else inr ErrSyntax
        end in
      match exp with
      | inr e => inr e
      | inl e =>
          match f64_of_decimal neg m (e - frac) with
          | S754_infinity b => inr ErrRange
          | f => inl f
          end
      end.

(** [x] with [10^(x-1) <= m * 2^e < 10^x]. *)
Fixpoint find_dp (fuel : nat) (num den x : Z) : Z :=
  match fuel with
  | O => x
  | S f =>
      if (if 0 <=? x then num <? den * 10 ^ x else num * 10 ^ (- x) <? den)
      then (if (if 0 <=? x - 1 then den * 10 ^ (x - 1) <=? num else den <=? num * 10 ^ (1 - x))
            then x else find_dp f num den (x - 1))
      else find_dp f num den (x + 1)
  end.

(** Round half even of [num/den * 10^k]. *)
Definition round_scaled (num den k : Z) : Z :=
  let n := if 0 <=? k then num * 10 ^ k else num in
  let d := if 0 <=? k then den else den * 10 ^ (- k) in
  let q := n / d in
  let r := 2 * (n - q * d) in
  if (d <? r) || ((r =? d) && Z.odd q) then q + 1 else q.

Fixpoint shortest (fuel : nat) (num den dp : Z) (f : float64) (nd : Z) : Z * Z :=
  let D := round_scaled num den (nd - dp) in
  match fuel with
  | O => (D, nd)
  | S k =>
      if bool_decide (f64_of_decimal false D (dp - nd) = f) then (D, nd)
      else shortest k num den dp f (nd + 1)
  end.

Fixpoint strip_zeros (s : str) : str := match s with 48 :: s' => strip_zeros s' | _ => s end.

Definition layout_g (digits : str) (dp : Z) : str :=
  let nd := Z.of_nat (length digits) in
  let ex := dp - 1 in
  if (ex <? -4) || (6 <=? ex) then
    let a := Z.abs ex in
    take 1 digits ++ (if 1 <? nd then 46 :: drop 1 digits else [])
      ++ 101 :: (if ex <? 0 then 45 else 43) :: (if a <? 10 then [48] else []) ++ FormatUint a
  else if dp <=? 0 then lit "0." ++ repeat 48 (Z.to_nat (- dp)) ++ digits
  else
    take (Z.to_nat dp) digits ++ repeat 48 (Z.to_nat (dp - nd))
      ++ (if dp <? nd then 46 :: drop (Z.to_nat dp) digits else []).

Definition conc_FormatFloat (f : float64) : str :=
  match f with
  | S754_nan => lit "NaN"
  | S754_infinity s => if s then lit "-Inf" else lit "+Inf"
  | S754_zero s => if s then lit "-0" else lit "0"
  | S754_finite s m e =>
      let num := if 0 <=? e then Z.shiftl (Zpos m) e else Zpos m in
      let den := if 0 <=? e then 1 else Z.shiftl 1 (- e) in
      let dp := find_dp 700 num den ((Z.log2 num - Z.log2 den) * 3 / 10) in
      let '(D, nd) := shortest 17 num den dp (S754_finite false m e) 1 in
      let ds := FormatUint D in
      let dp' := dp + (Z.of_nat (length ds) - nd) in
      (if s then [45] else []) ++ layout_g (reverse (strip_zeros (reverse ds))) dp'
  end.

#[export] Instance goConc : GoStd := {|
  strconv_ParseFloat := conc_ParseFloat;
  strconv_FormatFloat := conc_FormatFloat;
  unicode_ToLower := map lower_byte;
  unicode_ToUpper := map upper_byte;
  unicode_EqualFold s t := bool_decide (map lower_byte s = map lower_byte t);
|}.

Definition show_float (s : string) : str :=
  match conc_ParseFloat (lit s) with inl f => conc_FormatFloat f | inr _ => lit "error" end.

Example float_text :
  map show_float ["1.50"; "2.5"; "-0"; "100000"; "1000000"; "123456789"; "0.0001"; "0.00001";
                  "0.1"; "3.141592653589793"; "1e22"; "9.223372036854775808e18"; "x"]%string
  = map lit ["1.5"; "2.5"; "-0"; "100000"; "1e+06"; "1.23456789e+08"; "0.0001"; "1e-05";
             "0.1"; "3.141592653589793"; "1e+22"; "9.223372036854776e+18"; "error"]%string.
Proof. vm_compute. reflexivity. Qed.
