(* ===== verification/Table.v ===== *)
(** * Tables: internal/engine/types.go, fastpath.go, cancel.go and the index
    maintenance of schema.go

    The table record, its secondary indexes, the columnar fast path, tombstone
    compaction, the synthetic key allocator, and the representation invariant
    that ties them together. *)

From S2P Require Import Prelude GoLib Fold Value Parser.
Open Scope Z_scope.

(** ** Cancellation and map iteration

    [env_err site n] is what [ctx.Err()] answers at the [n]-th poll of the loop
    [site] of a statement; [env_range site ks] is the order in which a Go
    [range] over a map with key list [ks] visits it (Go leaves it unspecified). *)

Record Env := mkEnv {
  env_err : nat → Z → option CtxErr;
  env_range : nat → list str → list str;
}.

(** No cancellation. *)
Definition env_quiet (e : Env) : Prop := ∀ site n, env_err e site n = None.
(** A [range] visits every key once. *)
Definition env_fair (e : Env) : Prop := ∀ site ks, env_range e site ks ≡ₚ ks.
(** [context.Background()] with maps visited in key-list order. *)
Definition env0 : Env := mkEnv (λ _ _, None) (λ _ ks, ks).

(** [rowTicker.tick]: [n] is the counter (uint32) after the increment. *)
Definition tick (e : Env) (site : nat) (n : Z) : option CtxErr :=
  if negb (n =? 1) && negb (Z.land n 63 =? 0) then None else env_err e site n.

(** A [for ... range] loop polling a [rowTicker] at the head of its body; [step]
    returns the new state and whether the body executed [break]. *)
Fixpoint scan {S A} (e : Env) (site : nat) (n : Z) (step : S → A → S * bool) (l : list A) (s : S)
    : S * option CtxErr :=
  match l with
  | [] => (s, None)
  | a :: l' =>
      let n' := (n + 1) mod 2 ^ 32 in
      match tick e site n' with
      | Some c => (s, Some c)
      | None => let '(s', stop) := step s a in
                if stop : bool then (s', None) else scan e site n' step l' s'
      end
  end.
(** The same loop without [break]. *)
Definition scan_all {S A} (e : Env) (site : nat) (step : S → A → S) (l : list A) (s : S) :=
  scan e site 0 (λ s a, (step s a, false)) l s.

(** The loop without polling. *)
Fixpoint scan_pure {S A} (step : S → A → S * bool) (l : list A) (s : S) : S :=
  match l with
  | [] => s
  | a :: l' => let '(s', stop) := step s a in if stop : bool then s' else scan_pure step l' s'
  end.

Lemma tick_quiet e site n : env_quiet e → tick e site n = None.
Proof. intros Hq. unfold tick. case_match; [done | apply Hq]. Qed.

Lemma scan_quiet {S A} e site n (step : S → A → S * bool) l s :
  env_quiet e → scan e site n step l s = (scan_pure step l s, None).
Proof.
  intros Hq. revert n s. induction l as [|a l IH]; intros n s; simpl; [done|].
  rewrite tick_quiet by done. destruct (step s a) as [s' []]; [done | apply IH].
Qed.

Lemma scan_all_quiet {S A} e site (step : S → A → S) l s :
  env_quiet e → scan_all e site step l s = (foldl step s l, None).
Proof.
  intros Hq. unfold scan_all. rewrite scan_quiet by done. f_equal.
  revert s. induction l as [|a l IH]; intros s; simpl; [done | apply IH].
Qed.

(** ** State *)

(** A row of the fast array: the empty key marks a tombstone. *)
Record fastRow := mkFast { fKey : str; fValues : list value }.

(** The fields [fast], [columns], [fastPos] and [fastDead] of [Table]. *)
Record FastPath := mkFastPath {
  fRows : list fastRow;
  fCols : gmap str nat;
  fPos : gmap str nat;
  fDead : nat;
}.
Definition noFast : FastPath := mkFastPath [] ∅ ∅ 0.

(** One secondary index: value key to the set of row keys. *)
Abbreviation index := (gmap str (gset str)).

Record Table := mkTable {
  tName : str;
  tColumns : list Column;
  tRows : gmap str row;
  tOrder : list str;
  tIndexes : gmap str index;
  tIndexNames : gmap str str;
  tFast : FastPath;
  tDead : nat;
  tAutoKey : Z;           (* uint64 *)
}.

Definition set_columns t x := mkTable (tName t) x (tRows t) (tOrder t) (tIndexes t) (tIndexNames t) (tFast t) (tDead t) (tAutoKey t).
Definition set_rows t x := mkTable (tName t) (tColumns t) x (tOrder t) (tIndexes t) (tIndexNames t) (tFast t) (tDead t) (tAutoKey t).
Definition set_order t x := mkTable (tName t) (tColumns t) (tRows t) x (tIndexes t) (tIndexNames t) (tFast t) (tDead t) (tAutoKey t).
Definition set_indexes t x := mkTable (tName t) (tColumns t) (tRows t) (tOrder t) x (tIndexNames t) (tFast t) (tDead t) (tAutoKey t).
Definition set_indexNames t x := mkTable (tName t) (tColumns t) (tRows t) (tOrder t) (tIndexes t) x (tFast t) (tDead t) (tAutoKey t).
Definition set_fast t x := mkTable (tName t) (tColumns t) (tRows t) (tOrder t) (tIndexes t) (tIndexNames t) x (tDead t) (tAutoKey t).
Definition set_dead t x := mkTable (tName t) (tColumns t) (tRows t) (tOrder t) (tIndexes t) (tIndexNames t) (tFast t) x (tAutoKey t).
Definition set_autoKey t x := mkTable (tName t) (tColumns t) (tRows t) (tOrder t) (tIndexes t) (tIndexNames t) (tFast t) (tDead t) x.

Record Result := mkResult {
  rColumns : list str;
  rRows : list (list value);
  rAffected : Z;
  rMessage : str;
}.
Definition resultEmpty : Result := mkResult [] [] 0 [].
Definition resultAffected (n : Z) : Result := mkResult [] [] n [].
Definition resultMessage (s : string) : Result := mkResult [] [] 0 (lit s).

Definition primaryName (cols : list Column) : str :=
  match filter (λ c, cPrimary c = true) cols with c :: _ => cName c | [] => [] end.
Definition primaryColumn (t : Table) : str := primaryName (tColumns t).
Definition hasPrimaryColumn (cols : list Column) : bool := existsb cPrimary cols.
Definition hasColumn (cols : list Column) (name : str) : bool :=
  existsb (λ c, bool_decide (cName c = name)) cols.

Definition columnNotFound {A} (c : str) : res A := Err (EMsg (lit "column not found: " ++ c)).

(** ** Secondary indexes *)

Definition bucketAdd (m : index) (v k : str) : index :=
  <[v := {[k]} ∪ default ∅ (m !! v)]> m.
Definition bucketRemove (m : index) (v k : str) : index :=
  let s := default ∅ (m !! v) ∖ {[k]} in
  if bool_decide (s = ∅) then delete v m else <[v := s]> m.

Definition addIndexValue (t : Table) (column v k : str) : Table :=
  match tIndexes t !! column with
  | None => t
  | Some m => set_indexes t (<[column := bucketAdd m v k]> (tIndexes t))
  end.
Definition removeIndexValue (t : Table) (column v k : str) : Table :=
  match tIndexes t !! column with
  | None => t
  | Some m => set_indexes t (<[column := bucketRemove m v k]> (tIndexes t))
  end.

Section Tables.
Context `{GoStd}.

(** [for column := range t.Indexes { t.addIndexValue(column, valueKey(row[column]), k) }]:
    the iterations touch different buckets, so their order is immaterial. *)
Definition addRowIndexes (t : Table) (r : row) (k : str) : Table :=
  set_indexes t (map_imap (λ c m, Some (bucketAdd m (valueKey (rowGet r c)) k)) (tIndexes t)).
Definition removeRowIndexes (t : Table) (r : row) (k : str) : Table :=
  set_indexes t (map_imap (λ c m, Some (bucketRemove m (valueKey (rowGet r c)) k)) (tIndexes t)).

End Tables.

(** ** The fast path *)

Definition fastPathThreshold : nat := 256.
Definition fastOn (t : Table) : bool := negb (bool_decide (fRows (tFast t) = [])).

(** [values[i] = row[column.Name]] for every column *)
Definition fastValues (cols : list Column) (r : row) : list value :=
  map (λ c, rowGet r (cName c)) cols.

(** The name-to-position map of [rebuildFastPathLocked]. *)
Fixpoint colPos (i : nat) (cols : list Column) (m : gmap str nat) : gmap str nat :=
  match cols with [] => m | c :: cols' => colPos (S i) cols' (<[cName c := i]> m) end.

Definition rebuildStep (t : Table) (fp : FastPath) (key : str) : FastPath :=
  match tRows t !! key with
  | None => fp
  | Some r =>
      mkFastPath (fRows fp ++ [mkFast key (fastValues (tColumns t) r)]) (fCols fp)
                 (<[key := length (fRows fp)]> (fPos fp)) (fDead fp)
  end.
Definition rebuildFastPathLocked (t : Table) : Table :=
  if (length (tOrder t) <? fastPathThreshold)%nat then set_fast t noFast
  else set_fast t (foldl (rebuildStep t) (mkFastPath [] (colPos 0 (tColumns t) ∅) ∅ 0) (tOrder t)).

Definition appendFastRowLocked (t : Table) (key : str) (r : row) : Table :=
  let fp := tFast t in
  if (length (tOrder t) <? fastPathThreshold)%nat then t
  else if negb (fastOn t) || negb (length (fRows fp) + 1 =? length (tOrder t))%nat
  then rebuildFastPathLocked t
  else set_fast t (mkFastPath (fRows fp ++ [mkFast key (fastValues (tColumns t) r)]) (fCols fp)
                     (<[key := length (fRows fp)]> (fPos fp)) (fDead fp)).

Definition removeFastRowLocked (t : Table) (key : str) : Table :=
  let fp := tFast t in
  if negb (fastOn t) then t
  else if (length (tOrder t) <? fastPathThreshold)%nat then set_fast t noFast
  else match fPos fp !! key with
       | None => t
       | Some i => set_fast t (mkFastPath (<[i := mkFast [] []]> (fRows fp)) (fCols fp)
                                 (delete key (fPos fp)) (S (fDead fp)))
       end.

Definition replaceFastRowLocked (t : Table) (key : str) (r : row) : Table :=
  let fp := tFast t in
  if negb (fastOn t) then t
  else match fPos fp !! key with
       | None => t
       | Some i =>
           set_fast t (mkFastPath
             (alter (λ f, mkFast (fKey f) (fastValues (tColumns t) r)) i (fRows fp))
             (fCols fp) (fPos fp) (fDead fp))
       end.

Definition updateFastRowLocked (t : Table) (key column : str) (v : value) : Table :=
  let fp := tFast t in
  if negb (fastOn t) then t
  else match fCols fp !! column with
       | None => t
       | Some ci =>
           match fPos fp !! key with
           | None => t
           | Some i =>
               set_fast t (mkFastPath
                 (alter (λ f, mkFast (fKey f) (<[ci := v]> (fValues f))) i (fRows fp))
                 (fCols fp) (fPos fp) (fDead fp))
           end
       end.

Definition rekeyFastRowLocked (t : Table) (oldKey newKey : str) (v : value) : Table :=
  let fp := tFast t in
  if negb (fastOn t) then t
  else match fPos fp !! oldKey with
       | None => t
       | Some i =>
           let upd vs := match fCols fp !! primaryColumn t with
                         | Some ci => <[ci := v]> vs | None => vs end in
           set_fast t (mkFastPath
             (alter (λ f, mkFast newKey (upd (fValues f))) i (fRows fp))
             (fCols fp) (<[newKey := i]> (delete oldKey (fPos fp))) (fDead fp))
       end.

(** ** Tombstones in [Order] *)

Definition isLive (rows : gmap str row) (k : str) : bool := bool_decide (is_Some (rows !! k)).
Definition liveOrder (t : Table) : list str := filter (λ k, isLive (tRows t) k = true) (tOrder t).

(** Drop the stale keys and reset the counter. *)
Definition reapOrder (t : Table) : Table :=
  let t1 := set_dead (set_order t (liveOrder t)) 0 in
  if fastOn t1 then rebuildFastPathLocked t1 else t1.

Definition compactOrderLocked (t : Table) : Table :=
  match tOrder t with
  | [] => set_dead t 0
  | _ => if (tDead t * 4 <? length (tOrder t))%nat then t else reapOrder t
  end.

(** [if len(t.fast) > 0 && t.fastDead*4 >= len(t.fast)+t.fastDead { rebuild }] *)
Definition reapFast (t : Table) : Table :=
  let fp := tFast t in
  if fastOn t && (length (fRows fp) + fDead fp <=? fDead fp * 4)%nat
  then rebuildFastPathLocked t else t.

(** ** Synthetic keys *)

Definition syntheticKey (n : Z) : str := 35 :: FormatUint n.

(** The unbounded [for] of [nextSyntheticKeyLocked]; one more iteration than
    there are rows always suffices (see [nextSyntheticKey_total]). *)
Fixpoint nextSyntheticKey_loop (fuel : nat) (rows : gmap str row) (auto : Z) : option (str * Z) :=
  match fuel with
  | O => None
  | S f =>
      let key := syntheticKey auto in
      let auto' := (auto + 1) mod 2 ^ 64 in
      match rows !! key with
      | None => Some (key, auto')
      | Some _ => nextSyntheticKey_loop f rows auto'
      end
  end.
Definition nextSyntheticKeyLocked (t : Table) : option (str * Table) :=
  match nextSyntheticKey_loop (S (size (tRows t))) (tRows t) (tAutoKey t) with
  | Some (k, a) => Some (k, set_autoKey t a)
  | None => None
  end.
