(* ===== verification/TableInv.v ===== *)
(** * The table invariant

    [table_wf] ties [Rows], [Order], the secondary indexes, the fast path and
    the tombstone counters together; [absRows] is the abstract content of a
    table, the ordered list of its live rows.  The lemmas say how each
    primitive of [Table] moves the invariant and the abstract content. *)

From S2P Require Import Prelude GoLib Fold Value Parser Table.
Open Scope Z_scope.

(** ** Abstract content *)

Definition absL (rows : gmap str row) (order : list str) : list (str * row) :=
  omap (λ k, (λ r, (k, r)) <$> rows !! k) order.
Definition absRows (t : Table) : list (str * row) := absL (tRows t) (tOrder t).

(** The live entries of the fast array. *)
Definition viewL (l : list fastRow) : list (str * list value) :=
  omap (λ f, if bool_decide (fKey f = []) then None else Some (fKey f, fValues f)) l.
Definition fastView (fp : FastPath) : list (str * list value) := viewL (fRows fp).

Definition projectRows (cols : list Column) (l : list (str * row)) : list (str * list value) :=
  map (λ p, (p.1, fastValues cols p.2)) l.

#[global] Arguments absL : simpl never.
#[global] Arguments viewL : simpl never.
#[global] Arguments projectRows : simpl never.

(** ** The invariant *)

Definition pos_ok (fp : FastPath) : Prop :=
  ∀ k i, fPos fp !! k = Some i ↔ k ≠ [] ∧ fKey <$> (fRows fp !! i) = Some k.

Record fast_ok (cols : list Column) (content : list (str * row)) (fp : FastPath) : Prop := {
  fast_cols : fRows fp ≠ [] → fCols fp = colPos 0 cols ∅;
  fast_pos : pos_ok fp;
  fast_view : fRows fp ≠ [] → fastView fp = projectRows cols content;
  fast_dead : length (fRows fp) = (length (fastView fp) + fDead fp)%nat;
}.

Record order_ok (rows : gmap str row) (order : list str) (dead : nat) : Prop := {
  order_nodup : NoDup order;
  order_live : ∀ k, is_Some (rows !! k) → k ∈ order;
  order_dead : length order = (size rows + dead)%nat;
}.

Record cols_ok (cols : list Column) : Prop := {
  cols_nodup : NoDup (map cName cols);
  cols_primary : (length (filter (λ c, cPrimary c = true) cols) ≤ 1)%nat;
}.

Definition row_ok (cols : list Column) (r : row) : Prop :=
  (∀ c, is_Some (r !! c) ↔ hasColumn cols c = true) ∧
  ∀ c, c ∈ cols → has_type (cType c) (rowGet r (cName c)).

Section Inv.
Context `{GoStd}.

Definition index_ok (rows : gmap str row) (c : str) (m : index) : Prop :=
  (∀ v k, k ∈ default ∅ (m !! v) ↔ ∃ r, rows !! k = Some r ∧ valueKey (rowGet r c) = v) ∧
  ∀ v, m !! v ≠ Some ∅.

Definition indexes_ok (rows : gmap str row) (ix : gmap str index) : Prop :=
  map_Forall (λ c m, index_ok rows c m) ix.

(** Key discipline: keys are nonempty, and name the primary cell if there is one. *)
Definition key_ok (pk k : str) (r : row) : Prop :=
  k ≠ [] ∧ (pk ≠ [] → k = valueKey (rowGet r pk)).

Record table_wf (t : Table) : Prop := {
  wf_cols : cols_ok (tColumns t);
  wf_rows : map_Forall (λ _ r, row_ok (tColumns t) r) (tRows t);
  wf_keys : map_Forall (key_ok (primaryColumn t)) (tRows t);
  wf_order : order_ok (tRows t) (tOrder t) (tDead t);
  wf_indexes : indexes_ok (tRows t) (tIndexes t);
  wf_indexed : ∀ c, is_Some (tIndexes t !! c) → hasColumn (tColumns t) c = true;
  wf_names : map_Forall (λ _ c, is_Some (tIndexes t !! c)) (tIndexNames t);
  wf_fast : fast_ok (tColumns t) (absRows t) (tFast t);
  wf_auto : 0 ≤ tAutoKey t < 2 ^ 64;
}.

(** ** Index lemmas *)

Lemma bucketAdd_ok rows c m k r :
  index_ok rows c m → rows !! k = None →
  index_ok (<[k := r]> rows) c (bucketAdd m (valueKey (rowGet r c)) k).
Proof.
  intros [Hm Hne] Hk. split.
  - intros v k'. unfold bucketAdd. rewrite lookup_insert.
    case_decide as Hv; simpl.
    + subst v. rewrite elem_of_union, elem_of_singleton, Hm. split.
      * intros [->|(r' & Hr' & Hv)].
        { exists r. by rewrite lookup_insert_eq. }
        exists r'. rewrite lookup_insert_ne; [done | congruence].
      * intros (r' & Hr' & Hv). apply lookup_insert_Some in Hr' as [[-> ->]|[? ?]]; eauto.
    + rewrite Hm. split; intros (r' & Hr' & Hv').
      * exists r'. rewrite lookup_insert_ne; [done | congruence].
      * apply lookup_insert_Some in Hr' as [[-> ->]|[? ?]]; [congruence | eauto].
  - intros v. unfold bucketAdd. rewrite lookup_insert. case_decide; [|apply Hne].
    intros [= Heq]. set_solver.
Qed.

Lemma bucketRemove_ok rows c m k r :
  index_ok rows c m → rows !! k = Some r →
  index_ok (delete k rows) c (bucketRemove m (valueKey (rowGet r c)) k).
Proof.
  intros [Hm Hne] Hk.
  assert (Hl : ∀ v, default ∅ (bucketRemove m (valueKey (rowGet r c)) k !! v)
               = if decide (valueKey (rowGet r c) = v)
                 then default ∅ (m !! v) ∖ {[k]} else default ∅ (m !! v)).
  { intros v. unfold bucketRemove. case_bool_decide as Hs.
    - rewrite lookup_delete. case_decide; subst; [done | done].
    - rewrite lookup_insert. case_decide; by subst. }
  split.
  - intros v k'. rewrite Hl. case_decide as Hv.
    + subst v. rewrite elem_of_difference, elem_of_singleton, Hm. split.
      * intros [(r' & Hr' & Hv) Hkk]. exists r'. rewrite lookup_delete_ne; done.
      * intros (r' & Hr' & Hv). apply lookup_delete_Some in Hr' as [? ?]. naive_solver.
    + rewrite Hm. split; intros (r' & Hr' & Hv').
      * exists r'. rewrite lookup_delete_ne; [done | congruence].
      * apply lookup_delete_Some in Hr' as [? ?]. eauto.
  - intros v. unfold bucketRemove. case_bool_decide as Hs.
    + intros [_ ?]%lookup_delete_Some. by eapply Hne.
    + rewrite lookup_insert. case_decide; [congruence | apply Hne].
Qed.

Lemma addRowIndexes_ok rows ix k r :
  indexes_ok rows ix → rows !! k = None →
  indexes_ok (<[k := r]> rows) (map_imap (λ c m, Some (bucketAdd m (valueKey (rowGet r c)) k)) ix).
Proof.
  intros Hix Hk c m' Hm'. rewrite map_lookup_imap in Hm'.
  destruct (ix !! c) as [m|] eqn:Hm; simplify_eq/=. apply bucketAdd_ok; eauto.
Qed.

Lemma removeRowIndexes_ok rows ix k r :
  indexes_ok rows ix → rows !! k = Some r →
  indexes_ok (delete k rows) (map_imap (λ c m, Some (bucketRemove m (valueKey (rowGet r c)) k)) ix).
Proof.
  intros Hix Hk c m' Hm'. rewrite map_lookup_imap in Hm'.
  destruct (ix !! c) as [m|] eqn:Hm; simplify_eq/=. apply bucketRemove_ok; eauto.
Qed.

Lemma index_ok_congr rows rows' c m :
  (∀ k, valueKey <$> ((λ r, rowGet r c) <$> rows !! k) = valueKey <$> ((λ r, rowGet r c) <$> rows' !! k)) →
  index_ok rows c m → index_ok rows' c m.
Proof.
  intros Heq [Hm Hne]. split; [|done]. intros v k. rewrite Hm. specialize (Heq k).
  destruct (rows !! k), (rows' !! k); simplify_eq/=; naive_solver.
Qed.

Lemma rowGet_insert r c v c' : rowGet (<[c := v]> r) c' = if decide (c = c') then v else rowGet r c'.
Proof. unfold rowGet. rewrite lookup_insert. by case_decide. Qed.

(** Setting one cell of a live row re-files it in the index of that column. *)
Lemma updateCell_indexes_ok rows ix k r col v :
  indexes_ok rows ix → rows !! k = Some r →
  indexes_ok (<[k := <[col := v]> r]> rows)
    (match ix !! col with
     | None => ix
     | Some m => <[col := bucketAdd (bucketRemove m (valueKey (rowGet r col)) k) (valueKey v) k]> ix
     end).
Proof.
  intros Hix Hk.
  assert (Hoth : ∀ c m, c ≠ col → ix !! c = Some m → index_ok (<[k:=<[col:=v]> r]> rows) c m).
  { intros c m Hc Hm. eapply index_ok_congr; [|by apply (Hix c)]. intros k'.
    rewrite lookup_insert. case_decide; [subst|done]. rewrite Hk. simpl.
    rewrite rowGet_insert. case_decide; congruence. }
  destruct (ix !! col) as [m|] eqn:Hcol; intros c m' Hm'.
  - apply lookup_insert_Some in Hm' as [[<- <-]|[Hc Hm']]; [|by apply Hoth].
    rewrite <- (insert_delete_eq rows k).
    replace (valueKey v) with (valueKey (rowGet (<[col := v]> r) col))
      by (rewrite rowGet_insert; by case_decide).
    apply bucketAdd_ok; [|apply lookup_delete_eq].
    apply bucketRemove_ok; [by apply Hix | done].
  - apply Hoth; [congruence | done].
Qed.

Lemma imap_is_Some {f : str → index → index} (ix : gmap str index) c :
  is_Some (map_imap (λ c m, Some (f c m)) ix !! c) ↔ is_Some (ix !! c).
Proof. rewrite map_lookup_imap. destruct (ix !! c); simpl; split; intros [? ?]; eauto; done. Qed.

End Inv.

(** ** Abstract content lemmas *)

Lemma isLive_true rows k : isLive rows k = true ↔ is_Some (rows !! k).
Proof. apply bool_decide_eq_true. Qed.
Lemma isLive_false rows k : isLive rows k = false ↔ rows !! k = None.
Proof. unfold isLive. rewrite bool_decide_eq_false. symmetry. apply eq_None_not_Some. Qed.

Lemma absL_app rows l1 l2 : absL rows (l1 ++ l2) = absL rows l1 ++ absL rows l2.
Proof. apply omap_app. Qed.

Lemma absL_cons rows k l :
  absL rows (k :: l) = match rows !! k with Some r => (k, r) :: absL rows l | None => absL rows l end.
Proof. unfold absL. simpl. by destruct (rows !! k). Qed.

Lemma absL_keys rows l : (absL rows l).*1 = filter (λ k, isLive rows k = true) l.
Proof.
  induction l as [|k l IH]; [done|]. rewrite absL_cons, filter_cons.
  case_decide as Hl.
  - apply isLive_true in Hl as [r Hl]. rewrite Hl. csimpl. by rewrite IH.
  - apply not_true_iff_false, isLive_false in Hl. by rewrite Hl.
Qed.

Lemma absRows_live t : (absRows t).*1 = liveOrder t.
Proof. apply absL_keys. Qed.

Lemma elem_of_absL rows l k r : (k, r) ∈ absL rows l ↔ k ∈ l ∧ rows !! k = Some r.
Proof.
  unfold absL. rewrite list_elem_of_omap. split.
  - intros (k' & Hk' & Hr). destruct (rows !! k') eqn:?; naive_solver.
  - intros [Hk Hr]. exists k. by rewrite Hr.
Qed.

Lemma absL_congr rows rows' l :
  (∀ k, k ∈ l → rows !! k = rows' !! k) → absL rows l = absL rows' l.
Proof.
  intros Heq. induction l as [|k l IH]; [done|].
  rewrite !absL_cons, (Heq k), IH; [done| |]; intros; try apply Heq; set_solver.
Qed.

Lemma absL_insert_notin rows l k r : k ∉ l → absL (<[k := r]> rows) l = absL rows l.
Proof. intros Hk. apply absL_congr. intros k' ?. rewrite lookup_insert_ne; [done | set_solver]. Qed.

(** Appending a fresh key. *)
Lemma absL_snoc rows l k r : k ∉ l → absL (<[k := r]> rows) (l ++ [k]) = absL rows l ++ [(k, r)].
Proof.
  intros Hk. rewrite absL_app, absL_insert_notin by done. f_equal.
  rewrite absL_cons, lookup_insert_eq. done.
Qed.

(** Overwriting a live row. *)
Lemma absL_overwrite rows l k r :
  is_Some (rows !! k) →
  absL (<[k := r]> rows) l = map (λ p, if bool_decide (p.1 = k) then (k, r) else p) (absL rows l).
Proof.
  intros [r0 Hk]. induction l as [|k' l IH]; [done|]. rewrite !absL_cons, lookup_insert.
  case_decide as Hkk.
  - subst k'. rewrite Hk. simpl. rewrite bool_decide_true by done. by rewrite IH.
  - destruct (rows !! k') eqn:?; simpl; [rewrite bool_decide_false by done|]; by rewrite IH.
Qed.

(** Removing a row. *)
Lemma absL_delete rows l k :
  absL (delete k rows) l = filter (λ p, p.1 ≠ k) (absL rows l).
Proof.
  induction l as [|k' l IH]; [done|]. rewrite !absL_cons, lookup_delete.
  case_decide as Hkk.
  - subst k'. destruct (rows !! k) eqn:?; [rewrite filter_cons_False by naive_solver|]; done.
  - destruct (rows !! k') eqn:?; [rewrite filter_cons_True by naive_solver; by rewrite IH | done].
Qed.

(** Dropping stale keys does not change the content. *)
Lemma absL_live rows l : absL rows (filter (λ k, isLive rows k = true) l) = absL rows l.
Proof.
  induction l as [|k l IH]; [done|]. rewrite absL_cons, filter_cons.
  case_decide as Hl.
  - rewrite absL_cons, IH. done.
  - apply not_true_iff_false, isLive_false in Hl. rewrite Hl. done.
Qed.

Lemma absL_length rows l :
  NoDup l → (∀ k, is_Some (rows !! k) → k ∈ l) → length (absL rows l) = size rows.
Proof.
  intros Hnd Hlive. rewrite <- (length_fmap fst), absL_keys.
  rewrite <- size_dom, <- (size_list_to_set (C := gset str)); [|by apply NoDup_filter].
  f_equal. apply set_eq. intros k.
  rewrite elem_of_list_to_set, list_elem_of_filter, isLive_true, elem_of_dom. naive_solver.
Qed.

Lemma absL_nodup rows l : NoDup l → NoDup (absL rows l).*1.
Proof. intros. rewrite absL_keys. by apply NoDup_filter. Qed.

(** ** Fast path lemmas *)

(** [fastPos] against the key column of the fast array. *)
Definition pos_keys (pos : gmap str nat) (keys : list str) : Prop :=
  ∀ k i, pos !! k = Some i ↔ k ≠ [] ∧ keys !! i = Some k.

Lemma pos_ok_keys fp : pos_ok fp ↔ pos_keys (fPos fp) (fKey <$> fRows fp).
Proof. unfold pos_ok, pos_keys. by setoid_rewrite list_lookup_fmap. Qed.

Lemma pos_keys_snoc pos keys k :
  pos_keys pos keys → k ≠ [] → k ∉ keys → pos_keys (<[k := length keys]> pos) (keys ++ [k]).
Proof.
  intros Hp Hne Hk k' i. rewrite lookup_insert. case_decide as Hkk.
  - subst k'. split.
    + intros [= <-]. split; [done|]. by rewrite lookup_app_r, Nat.sub_diag by lia.
    + intros [_ Hi]. apply lookup_app_Some in Hi as [Hi|[Hl Hi]].
      * exfalso. apply Hk. by eapply list_elem_of_lookup_2.
      * apply list_lookup_singleton_Some in Hi as [? _]. f_equal. lia.
  - rewrite (Hp k' i). split; intros [? Hi]; (split; [done|]).
    + by apply lookup_app_l_Some.
    + apply lookup_app_Some in Hi as [Hi|[Hl Hi]]; [done|].
      apply list_lookup_singleton_Some in Hi as [_ ?]. congruence.
Qed.

Lemma pos_keys_tombstone pos keys k i :
  pos_keys pos keys → pos !! k = Some i → pos_keys (delete k pos) (<[i := []]> keys).
Proof.
  intros Hp Hk k' j. rewrite lookup_delete_Some, (Hp k' j).
  pose proof (proj1 (Hp k i) Hk) as [Hne Hi]. split.
  - intros (Hkk & Hne' & Hj). split; [done|].
    rewrite list_lookup_insert_ne; [done | intros ->; congruence].
  - intros [Hne' Hj]. apply list_lookup_insert_Some in Hj as [(_ & ? & _)|[? Hj]]; [congruence|].
    split; [|done]. intros <-. specialize (proj2 (Hp k j) (conj Hne' Hj)). congruence.
Qed.

Lemma pos_keys_rekey pos keys k k' i :
  pos_keys pos keys → pos !! k = Some i → k' ≠ [] → k' ∉ keys →
  pos_keys (<[k' := i]> (delete k pos)) (<[i := k']> keys).
Proof.
  intros Hp Hk Hne' Hk' x j.
  pose proof (proj1 (Hp k i) Hk) as [Hne Hi].
  pose proof (lookup_lt_Some _ _ _ Hi) as Hlt.
  rewrite lookup_insert. case_decide as Hx.
  - subst x. split.
    + intros [= <-]. split; [done|]. by apply list_lookup_insert_eq.
    + intros [_ Hj]. apply list_lookup_insert_Some in Hj as [(-> & _ & _)|[? Hj]]; [done|].
      exfalso. apply Hk'. by eapply list_elem_of_lookup_2.
  - rewrite lookup_delete_Some, (Hp x j). split.
    + intros (Hkk & Hne2 & Hj). split; [done|].
      rewrite list_lookup_insert_ne; [done | intros ->; congruence].
    + intros [Hne2 Hj]. apply list_lookup_insert_Some in Hj as [(_ & ? & _)|[? Hj]]; [congruence|].
      split; [|done]. intros <-. specialize (proj2 (Hp k j) (conj Hne2 Hj)). congruence.
Qed.

Lemma viewL_app l1 l2 : viewL (l1 ++ l2) = viewL l1 ++ viewL l2.
Proof. apply omap_app. Qed.
Lemma viewL_cons f l :
  viewL (f :: l) = (if bool_decide (fKey f = []) then [] else [(fKey f, fValues f)]) ++ viewL l.
Proof. unfold viewL. simpl. by case_bool_decide. Qed.
Lemma viewL_length l : (length (viewL l) ≤ length l)%nat.
Proof.
  induction l as [|f l IH]; [done|]. rewrite viewL_cons. case_bool_decide; simpl; lia.
Qed.

Lemma elem_of_viewL k vs l : (k, vs) ∈ viewL l ↔ k ≠ [] ∧ mkFast k vs ∈ l.
Proof.
  unfold viewL. rewrite list_elem_of_omap. split.
  - intros ([k' vs'] & Hin & Hf). case_bool_decide; simplify_eq/=. done.
  - intros [Hne Hin]. exists (mkFast k vs). simpl. by rewrite bool_decide_false.
Qed.

Lemma viewL_key_in k l : k ∈ (viewL l).*1 ↔ k ≠ [] ∧ k ∈ fKey <$> l.
Proof.
  rewrite !list_elem_of_fmap. split.
  - intros ([k' vs] & -> & Hin). apply elem_of_viewL in Hin as [? Hin]. split; [done|].
    by exists (mkFast k' vs).
  - intros (Hne & [k' vs] & -> & Hin). exists (k', vs). split; [done|]. by apply elem_of_viewL.
Qed.

Lemma project_keys cols l : (projectRows cols l).*1 = l.*1.
Proof. unfold projectRows. rewrite map_map. done. Qed.

(** The fast row of a key splits the array and the content at the same place. *)
Lemma fast_split cols content fp k i :
  fast_ok cols content fp → NoDup content.*1 → fPos fp !! k = Some i →
  ∃ l1 vs l2 c1 r c2,
    fRows fp = l1 ++ mkFast k vs :: l2 ∧ length l1 = i ∧ k ≠ [] ∧
    content = c1 ++ (k, r) :: c2 ∧ vs = fastValues cols r ∧
    viewL l1 = projectRows cols c1 ∧ viewL l2 = projectRows cols c2 ∧
    (k ∉ c1.*1) ∧ (k ∉ c2.*1).
Proof.
  intros [_ Hpos Hview _] Hnd Hk.
  destruct (proj1 (Hpos k i) Hk) as [Hne Hi].
  apply fmap_Some in Hi as ([k' vs] & Hi & ->). simpl in *.
  pose proof Hi as Hi'. apply list_elem_of_split_length in Hi as (l1 & l2 & Hl & Hlen).
  assert (Hv : viewL (fRows fp) = projectRows cols content).
  { apply Hview. rewrite Hl. by destruct l1. }
  rewrite Hl, viewL_app, viewL_cons, bool_decide_false in Hv by done.
  symmetry in Hv. apply fmap_app_inv in Hv as (c1 & c' & H1 & H2 & ->).
  symmetry in H2. apply fmap_cons_inv in H2 as ([k2 r] & c2 & [= -> ->] & H2 & ->).
  rewrite fmap_app, fmap_cons in Hnd. apply NoDup_app in Hnd as (_ & Hd & Hnd).
  apply NoDup_cons in Hnd as [Hk2 _].
  exists l1, (fastValues cols r), l2, c1, r, c2. repeat split; try done.
  intros Hin. apply (Hd k2); [done|]. left.
Qed.

Lemma fast_ok_none cols content : fast_ok cols content noFast.
Proof. split; try done. intros k i. simpl. rewrite lookup_empty. split; [done|]. by intros [_ ?]. Qed.

Lemma fast_ok_absent cols content fp k :
  fast_ok cols content fp → fRows fp ≠ [] → fPos fp !! k = None → k ≠ [] → k ∉ content.*1.
Proof.
  intros [_ Hpos Hview _] Hon Hk Hne Hin.
  rewrite <- (project_keys cols), <- Hview in Hin by done.
  apply viewL_key_in in Hin as [_ Hin]. apply list_elem_of_lookup_1 in Hin as [i Hi].
  rewrite list_lookup_fmap in Hi. specialize (proj2 (Hpos k i) (conj Hne Hi)). congruence.
Qed.

Lemma fast_ok_keys cols content fp k :
  fast_ok cols content fp → k ≠ [] → k ∉ content.*1 → k ∉ (fKey <$> fRows fp).
Proof.
  intros [_ _ Hview _] Hne Hk Hin. apply Hk.
  rewrite <- (project_keys cols), <- Hview; [by apply viewL_key_in|].
  intros Hnil. rewrite Hnil in Hin. by apply elem_of_nil in Hin.
Qed.

Lemma fast_ok_append cols content fp k r :
  fast_ok cols content fp → fRows fp ≠ [] → k ≠ [] → k ∉ content.*1 →
  fast_ok cols (content ++ [(k, r)])
    (mkFastPath (fRows fp ++ [mkFast k (fastValues cols r)]) (fCols fp)
                (<[k := length (fRows fp)]> (fPos fp)) (fDead fp)).
Proof.
  intros Hf Hon Hne Hk. pose proof (fast_ok_keys _ _ _ _ Hf Hne Hk) as Hk'.
  destruct Hf as [Hcols Hpos Hview Hdead]. unfold fastView in *. split; simpl; unfold fastView; simpl.
  - by intros _; apply Hcols.
  - apply pos_ok_keys. simpl. rewrite fmap_app. simpl.
    rewrite <- (length_fmap fKey (fRows fp)). by apply pos_keys_snoc; [apply pos_ok_keys|..].
  - intros _. rewrite viewL_app, viewL_cons. simpl. rewrite bool_decide_false by done.
    replace (viewL (fRows fp)) with (projectRows cols content) by (symmetry; by apply Hview).
    unfold projectRows. by rewrite map_app.
  - rewrite viewL_app, viewL_cons, !length_app, Hdead. simpl.
    rewrite bool_decide_false by done. simpl. lia.
Qed.

Lemma fast_ok_remove cols content fp k i :
  fast_ok cols content fp → NoDup content.*1 → fPos fp !! k = Some i →
  fast_ok cols (filter (λ p, p.1 ≠ k) content)
    (mkFastPath (<[i := mkFast [] []]> (fRows fp)) (fCols fp) (delete k (fPos fp)) (S (fDead fp))).
Proof.
  intros Hf Hnd Hk. pose proof Hf as [Hcols Hpos _ Hdead].
  destruct (fast_split _ _ _ _ _ Hf Hnd Hk)
    as (l1 & vs & l2 & c1 & r & c2 & Hl & Hlen & Hne & Hc & Hvs & H1 & H2 & Hn1 & Hn2).
  assert (Hfil : filter (λ p, p.1 ≠ k) content = c1 ++ c2).
  { assert (Hid : ∀ c : list (str * row), k ∉ c.*1 → filter (λ p, p.1 ≠ k) c = c).
    { intros c Hc'. apply filter_all. intros p Hp <-. apply Hc'. by apply list_elem_of_fmap_2. }
    rewrite Hc, filter_app, filter_cons_False by (simpl; naive_solver). by rewrite !Hid. }
  assert (Hrows : <[i := mkFast [] []]> (fRows fp) = l1 ++ mkFast [] [] :: l2).
  { rewrite Hl, <- Hlen. by rewrite insert_app_r_alt, Nat.sub_diag by lia. }
  unfold fastView in *. split; simpl; unfold fastView; simpl; rewrite ?Hrows.
  - intros _. apply Hcols. rewrite Hl. by destruct l1.
  - apply pos_ok_keys. simpl. rewrite <- Hrows, list_fmap_insert. simpl.
    apply pos_keys_tombstone; [by apply pos_ok_keys | done].
  - intros _. rewrite viewL_app, viewL_cons, bool_decide_true by done. simpl.
    rewrite Hfil, H1, H2. unfold projectRows. by rewrite map_app.
  - rewrite Hl, !viewL_app, !viewL_cons, !length_app in Hdead.
    rewrite !viewL_app, !viewL_cons, !length_app. simpl in *.
    rewrite bool_decide_false in Hdead by done. simpl in *. lia.
Qed.

(** Overwriting the row of a key, in place, possibly under a new key. *)
Lemma fast_ok_overwrite cols content fp k k' r' i g :
  fast_ok cols content fp → NoDup content.*1 → fPos fp !! k = Some i →
  k' ≠ [] → (k' = k ∨ k' ∉ content.*1) →
  (∀ r, (k, r) ∈ content → g (fastValues cols r) = fastValues cols r') →
  fast_ok cols (map (λ p, if bool_decide (p.1 = k) then (k', r') else p) content)
    (mkFastPath (alter (λ f, mkFast k' (g (fValues f))) i (fRows fp)) (fCols fp)
                (<[k' := i]> (delete k (fPos fp))) (fDead fp)).
Proof.
  intros Hf Hnd Hk Hne' Hfresh Hg. pose proof Hf as [Hcols Hpos _ Hdead].
  destruct (fast_split _ _ _ _ _ Hf Hnd Hk)
    as (l1 & vs & l2 & c1 & r & c2 & Hl & Hlen & Hne & Hc & Hvs & H1 & H2 & Hn1 & Hn2).
  assert (Hmap : map (λ p, if bool_decide (p.1 = k) then (k', r') else p) content
                 = c1 ++ (k', r') :: c2).
  { assert (Hid : ∀ c : list (str * row), k ∉ c.*1 →
              map (λ p, if bool_decide (p.1 = k) then (k', r') else p) c = c).
    { intros c Hc'. apply map_id_on. intros p Hp. rewrite bool_decide_false; [done|].
      intros <-. apply Hc'. by apply list_elem_of_fmap_2. }
    rewrite Hc, map_app, map_cons. simpl. rewrite bool_decide_true by done. by rewrite !Hid. }
  assert (Hrows : alter (λ f, mkFast k' (g (fValues f))) i (fRows fp)
                  = l1 ++ mkFast k' (fastValues cols r') :: l2).
  { rewrite Hl, <- Hlen, alter_app_r_alt, Nat.sub_diag by lia. simpl. repeat f_equal.
    rewrite Hvs. apply Hg. rewrite Hc. set_solver. }
  assert (Hkeys : fKey <$> (l1 ++ mkFast k' (fastValues cols r') :: l2)
                  = <[i := k']> (fKey <$> fRows fp)).
  { rewrite Hl, !fmap_app, <- Hlen, <- (length_fmap fKey l1). simpl.
    by rewrite insert_app_r_alt, Nat.sub_diag by lia. }
  unfold fastView in *. split; simpl; unfold fastView; simpl; rewrite ?Hrows.
  - intros _. apply Hcols. rewrite Hl. by destruct l1.
  - apply pos_ok_keys. simpl. rewrite Hkeys. destruct (decide (k' = k)) as [->|Hkk].
    + rewrite insert_delete_eq, insert_id by done. rewrite list_insert_id; [by apply pos_ok_keys|].
      rewrite list_lookup_fmap. by apply Hpos.
    + destruct Hfresh as [?|Hfresh]; [done|].
      apply pos_keys_rekey; [by apply pos_ok_keys | done | done |].
      by apply (fast_ok_keys cols content).
  - intros _. rewrite viewL_app, viewL_cons, bool_decide_false by done. simpl.
    rewrite Hmap, H1, H2. unfold projectRows. by rewrite map_app.
  - rewrite Hl, !viewL_app, !viewL_cons, !length_app in Hdead.
    rewrite !viewL_app, !viewL_cons, !length_app. simpl in *.
    rewrite bool_decide_false in Hdead by done. rewrite bool_decide_false by done. simpl in *. lia.
Qed.

(** ** Column positions *)

Lemma colPos_lookup cols i m c :
  NoDup (map cName cols) →
  colPos i cols m !! c =
    match list_find (λ x, cName x = c) cols with
    | Some (j, _) => Some (i + j)%nat
    | None => m !! c
    end.
Proof.
  revert i m. induction cols as [|x cols IH]; intros i m Hnd; [done|].
  simpl in Hnd. apply NoDup_cons in Hnd as [Hx Hnd]. simpl. rewrite IH by done.
  case_decide as Hc.
  - subst c. rewrite Nat.add_0_r.
    destruct (list_find _ cols) as [[j y]|] eqn:Hf; [|apply lookup_insert_eq].
    apply list_find_Some in Hf as (Hj & Hy & _). exfalso. apply Hx.
    rewrite <- Hy. apply list_elem_of_fmap_2. by eapply list_elem_of_lookup_2.
  - destruct (list_find _ cols) as [[j y]|] eqn:Hf; simpl; [f_equal; lia|].
    by rewrite lookup_insert_ne.
Qed.

Lemma colPos_Some cols c i :
  NoDup (map cName cols) → colPos 0 cols ∅ !! c = Some i → ∃ x, cols !! i = Some x ∧ cName x = c.
Proof.
  intros Hnd. rewrite colPos_lookup by done.
  destruct (list_find _ cols) as [[j y]|] eqn:Hf; [|by rewrite lookup_empty].
  intros [= <-]. apply list_find_Some in Hf as (? & ? & _). eauto.
Qed.

Lemma colPos_None cols c :
  NoDup (map cName cols) → colPos 0 cols ∅ !! c = None → hasColumn cols c = false.
Proof.
  intros Hnd. rewrite colPos_lookup by done.
  destruct (list_find _ cols) as [[j y]|] eqn:Hf; [done|]. intros _.
  apply list_find_None in Hf. unfold hasColumn. apply not_true_is_false.
  rewrite existsb_exists. intros (x & Hin & Hx%bool_decide_eq_true).
  rewrite Forall_forall in Hf. eapply Hf; [by apply list_elem_of_In | done].
Qed.

Lemma fastValues_lookup cols r i x :
  cols !! i = Some x → fastValues cols r !! i = Some (rowGet r (cName x)).
Proof.
  intros Hi. unfold fastValues. change (map ?f cols) with (f <$> cols).
  by rewrite list_lookup_fmap, Hi.
Qed.

(** Writing the cell of a column into the value array. *)
Lemma fastValues_set cols r c v i :
  NoDup (map cName cols) → colPos 0 cols ∅ !! c = Some i →
  <[i := v]> (fastValues cols r) = fastValues cols (<[c := v]> r).
Proof.
  intros Hnd Hi. destruct (colPos_Some _ _ _ Hnd Hi) as (x & Hx & <-).
  apply list_eq. intros j. destruct (cols !! j) as [y|] eqn:Hj.
  - rewrite (fastValues_lookup _ _ _ _ Hj), rowGet_insert. case_decide as Hc.
    + assert (i = j) as <-.
      { apply (NoDup_lookup (map cName cols) i j (cName x)); [done|..];
          change (map cName cols) with (cName <$> cols); rewrite list_lookup_fmap.
        - by rewrite Hx. - rewrite Hj. simpl. by f_equal. }
      apply list_lookup_insert_eq. unfold fastValues. rewrite length_map.
      by eapply lookup_lt_Some.
    + rewrite list_lookup_insert_ne; [by apply fastValues_lookup|]. intros ->. congruence.
  - rewrite !lookup_ge_None_2; [done|..]; rewrite ?length_insert; unfold fastValues;
      rewrite length_map; by apply lookup_ge_None.
Qed.

(** ** Rebuilding *)

Lemma rebuild_fold t fp l :
  pos_ok fp → NoDup l → (∀ k, k ∈ l → k ∉ (fKey <$> fRows fp)) →
  (∀ k r, tRows t !! k = Some r → k ≠ []) →
  let fp' := foldl (rebuildStep t) fp l in
  pos_ok fp' ∧ fCols fp' = fCols fp ∧ fDead fp' = fDead fp ∧
  fRows fp' = fRows fp ++ map (λ p, mkFast p.1 (fastValues (tColumns t) p.2)) (absL (tRows t) l).
Proof.
  intros Hpos Hnd Hfresh Hne. revert fp Hpos Hfresh.
  induction l as [|k l IH]; intros fp Hpos Hfresh; simpl.
  - by rewrite app_nil_r.
  - apply NoDup_cons in Hnd as [Hk Hnd]. rewrite absL_cons. unfold rebuildStep at 2 4 6 8.
    destruct (tRows t !! k) as [r|] eqn:Hr; simpl.
    + set (fp1 := mkFastPath _ _ _ _).
      destruct (IH Hnd fp1) as (H1 & H2 & H3 & H4).
      * apply pos_ok_keys. subst fp1. simpl. rewrite fmap_app. simpl.
        rewrite <- (length_fmap fKey (fRows fp)).
        apply pos_keys_snoc; [by apply pos_ok_keys | by eapply Hne | apply Hfresh; left].
      * intros k' Hk'. subst fp1. simpl. rewrite fmap_app. intros [Hin|Hin]%elem_of_app.
        -- by eapply (Hfresh k'); [right|].
        -- simpl in Hin. apply list_elem_of_singleton in Hin as ->. done.
      * split_and!; [done..|]. rewrite H4. subst fp1. simpl. by rewrite <- app_assoc.
    + apply IH; [done | done |]. intros. apply Hfresh. by right.
Qed.

Lemma viewL_live l :
  (∀ f, f ∈ l → fKey f ≠ []) → viewL l = map (λ f, (fKey f, fValues f)) l.
Proof.
  induction l as [|f l IH]; intros Hl; [done|]. rewrite viewL_cons.
  rewrite bool_decide_false by (apply Hl; left). simpl. f_equal. apply IH. intros. apply Hl. by right.
Qed.

Lemma rebuild_fast_ok t :
  NoDup (tOrder t) → (∀ k r, tRows t !! k = Some r → k ≠ []) →
  fast_ok (tColumns t) (absRows t) (tFast (rebuildFastPathLocked t)).
Proof.
  intros Hnd Hne. unfold rebuildFastPathLocked. case_match; [apply fast_ok_none|].
  set (fp0 := mkFastPath [] (colPos 0 (tColumns t) ∅) ∅ 0).
  destruct (rebuild_fold t fp0 (tOrder t)) as (Hp & Hc & Hd & Hr); try done.
  { intros k i. subst fp0. simpl. rewrite lookup_empty. split; [done|]. by intros [_ ?]. }
  { intros k _ Hin. by apply elem_of_nil in Hin. }
  simpl in Hr.
  assert (Hv : viewL (fRows (foldl (rebuildStep t) fp0 (tOrder t)))
               = projectRows (tColumns t) (absRows t)).
  { rewrite Hr. rewrite viewL_live; [by rewrite map_map|].
    intros f Hf. apply list_elem_of_fmap in Hf as ([k r] & -> & Hin). simpl.
    apply elem_of_absL in Hin as [_ Hin]. by eapply Hne. }
  split; simpl.
  - done.
  - done.
  - done.
  - unfold fastView. rewrite Hv, Hd, Hr. unfold projectRows, absRows. simpl.
    rewrite !length_map. lia.
Qed.

Lemma rebuild_fields t :
  let t' := rebuildFastPathLocked t in
  tName t' = tName t ∧ tColumns t' = tColumns t ∧ tRows t' = tRows t ∧ tOrder t' = tOrder t ∧
  tIndexes t' = tIndexes t ∧ tIndexNames t' = tIndexNames t ∧ tDead t' = tDead t ∧
  tAutoKey t' = tAutoKey t.
Proof. unfold rebuildFastPathLocked. case_match; done. Qed.

Section Wf.
Context `{GoStd}.

(** Everything of the invariant but the fast path. *)
Record base_wf (t : Table) : Prop := {
  bw_cols : cols_ok (tColumns t);
  bw_rows : map_Forall (λ _ r, row_ok (tColumns t) r) (tRows t);
  bw_keys : map_Forall (key_ok (primaryColumn t)) (tRows t);
  bw_order : order_ok (tRows t) (tOrder t) (tDead t);
  bw_indexes : indexes_ok (tRows t) (tIndexes t);
  bw_indexed : ∀ c, is_Some (tIndexes t !! c) → hasColumn (tColumns t) c = true;
  bw_names : map_Forall (λ _ c, is_Some (tIndexes t !! c)) (tIndexNames t);
  bw_auto : 0 ≤ tAutoKey t < 2 ^ 64;
}.

Lemma table_wf_base t :
  table_wf t ↔ base_wf t ∧ fast_ok (tColumns t) (absRows t) (tFast t).
Proof. split; [intros []; split; [split|]; done | intros [[] ?]; by split]. Qed.

Lemma base_wf_fast t fp : base_wf t ↔ base_wf (set_fast t fp).
Proof. split; intros []; by split. Qed.

Lemma base_wf_nonempty t k r : base_wf t → tRows t !! k = Some r → k ≠ [].
Proof. intros [] Hk. by destruct (bw_keys0 k r Hk). Qed.

Lemma rebuild_wf t : base_wf t → table_wf (rebuildFastPathLocked t).
Proof.
  intros Hb. apply table_wf_base. split.
  - unfold rebuildFastPathLocked. case_match; by apply base_wf_fast.
  - pose proof (rebuild_fields t) as (_ & Hc & Hr & Ho & _). simpl in *.
    unfold absRows. rewrite Hc, Hr, Ho. apply rebuild_fast_ok; [apply Hb|].
    intros k r Hk. by eapply base_wf_nonempty.
Qed.

Lemma rebuild_abs t : absRows (rebuildFastPathLocked t) = absRows t.
Proof. pose proof (rebuild_fields t) as (_ & _ & Hr & Ho & _). simpl in *. unfold absRows. by rewrite Hr, Ho. Qed.

Lemma reapFast_wf t : table_wf t → table_wf (reapFast t).
Proof. intros Ht. unfold reapFast. case_match; [|done]. apply rebuild_wf. by apply table_wf_base. Qed.
Lemma reapFast_abs t : absRows (reapFast t) = absRows t.
Proof. unfold reapFast. case_match; [apply rebuild_abs | done]. Qed.

Lemma order_ok_reap rows order dead :
  order_ok rows order dead → order_ok rows (filter (λ k, isLive rows k = true) order) 0.
Proof.
  intros [Hnd Hlive Hdead]. split.
  - by apply NoDup_filter.
  - intros k Hk. apply list_elem_of_filter. split; [by apply isLive_true | by apply Hlive].
  - rewrite <- absL_keys, length_fmap, absL_length by done. lia.
Qed.

(** Reclaiming tombstones keeps the invariant and the content. *)
Lemma reapOrder_wf t : table_wf t → table_wf (reapOrder t).
Proof.
  intros Ht. unfold reapOrder. apply table_wf_base in Ht as [[] Hf].
  set (t1 := set_dead _ _).
  assert (Hb : base_wf t1) by (split; try done; subst t1; simpl; by eapply order_ok_reap).
  case_match; [by apply rebuild_wf|]. apply table_wf_base. split; [done|].
  replace (absRows t1) with (absRows t); [done|]. symmetry. apply absL_live.
Qed.
Lemma reapOrder_abs t : absRows (reapOrder t) = absRows t.
Proof. unfold reapOrder. case_match; rewrite ?rebuild_abs; apply absL_live. Qed.
Lemma reapOrder_dead t : tDead (reapOrder t) = 0%nat.
Proof. unfold reapOrder. case_match; [apply rebuild_fields | done]. Qed.
Lemma reapOrder_rows t : tRows (reapOrder t) = tRows t.
Proof. unfold reapOrder. case_match; [|done]. rewrite (proj1 (proj2 (proj2 (rebuild_fields _)))). done. Qed.
Lemma reapOrder_cols t : tColumns (reapOrder t) = tColumns t.
Proof. unfold reapOrder. case_match; [|done]. rewrite (proj1 (proj2 (rebuild_fields _))). done. Qed.

Lemma compactOrder_wf t : table_wf t → table_wf (compactOrderLocked t).
Proof.
  intros Ht. unfold compactOrderLocked. destruct (tOrder t) eqn:Ho.
  - destruct Ht. split; try done. simpl. destruct wf_order0 as [Hn Hl Hd].
    rewrite Ho in *. split; [done|done|]. simpl in *. lia.
  - case_match; [done | by apply reapOrder_wf].
Qed.
Lemma compactOrder_abs t : absRows (compactOrderLocked t) = absRows t.
Proof.
  unfold compactOrderLocked. destruct (tOrder t); [done|].
  case_match; [done | apply reapOrder_abs].
Qed.

(** The fast array is only in use for tables of at least [fastPathThreshold]
    keys.  [appendFastRowLocked] relies on it; DELETE scans can break it. *)
Definition fast_sized (t : Table) : Prop :=
  fRows (tFast t) ≠ [] → (fastPathThreshold ≤ length (tOrder t))%nat.

Lemma rebuild_sized t : fast_sized (rebuildFastPathLocked t).
Proof.
  unfold fast_sized, rebuildFastPathLocked. case_match; [done|]. intros _. simpl. btoz. done.
Qed.
Lemma reapOrder_sized t : fast_sized (reapOrder t).
Proof.
  unfold reapOrder. case_match eqn:Hon; [apply rebuild_sized|].
  unfold fast_sized. unfold fastOn in Hon. btoz. done.
Qed.
Lemma reapFast_sized t : fast_sized t → fast_sized (reapFast t).
Proof. intros. unfold reapFast. case_match; [apply rebuild_sized | done]. Qed.
Lemma compactOrder_sized t : fast_sized t → fast_sized (compactOrderLocked t).
Proof.
  intros Hs. unfold compactOrderLocked. destruct (tOrder t) eqn:Ho; [done|].
  case_match; [done | apply reapOrder_sized].
Qed.

(** With no tombstones every key of [Order] is live. *)
Lemma order_all_live rows order k : order_ok rows order 0 → k ∈ order → is_Some (rows !! k).
Proof.
  intros [Hnd Hlive Hdead] Hk. apply isLive_true.
  assert (Hlen : length (filter (λ k, isLive rows k = true) order) = length order).
  { rewrite <- absL_keys, length_fmap, absL_length by done. lia. }
  apply (filter_length_eq _ _ Hlen), Hk.
Qed.

(** Distinct live keys. *)
Lemma absRows_nodup t : base_wf t → NoDup (absRows t).*1.
Proof. intros Hb. apply absL_nodup, Hb. Qed.

Lemma absRows_key t k r : base_wf t → (k, r) ∈ absRows t ↔ tRows t !! k = Some r.
Proof.
  intros Hb. unfold absRows. rewrite elem_of_absL. split; [by intros []|].
  intros Hr. split; [|done]. apply Hb. by rewrite Hr.
Qed.

Lemma absRows_key_in t k : base_wf t → k ∈ (absRows t).*1 ↔ is_Some (tRows t !! k).
Proof.
  intros Hb. rewrite list_elem_of_fmap. split.
  - intros ([k' r] & -> & Hin). apply absRows_key in Hin; [|done]. simpl. eauto.
  - intros [r Hr]. exists (k, r). split; [done|]. by apply absRows_key.
Qed.

End Wf.

#[export] Hint Resolve rebuild_wf reapFast_wf reapOrder_wf compactOrder_wf : go.
#[export] Hint Rewrite @rebuild_abs @reapFast_abs @reapOrder_abs @compactOrder_abs : go.
