(* ===== verification/Insert.v ===== *)
(** * INSERT: internal/engine/insert.go and insertfast.go

    The VALUES payload parsers (the reference [parseInsertRows] and the
    single-pass [parseInsertRowsMode]) and the shared tail of INSERT,
    [applyInsertRows]. *)

From S2P Require Import Prelude GoLib Fold Value Parser Table.
Open Scope Z_scope.

Record insertRow := mkInsert { iKey : str; iRow : row }.

Section Insert.
Context `{GoStd}.

(** ** Parsing VALUES *)

(** The column loop shared by both parsers: the row, and the key text of the
    (last) primary column. *)
Fixpoint buildRow (cols : list Column) (vals : list str) (r : row) (key : str) : res (row * str) :=
  match cols, vals with
  | c :: cols', raw :: vals' =>
      let* v := parseVal raw (cType c) in
      buildRow cols' vals' (<[cName c := v]> r) (if cPrimary c then valueKey v else key)
  | _, _ => Ok (r, key)
  end.

(** The body of one row group once its raw values are known; [rows] are the
    rows accepted so far. *)
Definition parseGroup (cols : list Column) (keepLast : bool) (rows : list insertRow)
    (vals : list str) : res (list insertRow) :=
  if negb (length vals =? length cols)%nat then errorsNew "column count mismatch"
  else
    let* (r, key) := buildRow cols vals ∅ [] in
    if bool_decide (key = []) && hasPrimaryColumn cols then errorsNew "primary key required"
    else if negb (bool_decide (key = [])) && negb keepLast && bool_decide (key ∈ map iKey rows)
    then errorsNew "duplicate primary key"
    else Ok (rows ++ [mkInsert key r]).

(** The reference: split into groups, then each group into values. *)
Fixpoint splitRows_loop (cur : str) (started : bool) (depth : Z) (quoted : bool) (s : str)
    : list str :=
  match s with
  | [] => []
  | c :: s' =>
      if c =? quote then
        match s' with
        | d :: s'' =>
            if quoted && (d =? quote) then splitRows_loop (d :: c :: cur) started depth quoted s''
            else splitRows_loop (c :: cur) started depth (negb quoted) s'
        | [] => splitRows_loop (c :: cur) started depth (negb quoted) s'
        end
      else if quoted then splitRows_loop (c :: cur) started depth quoted s'
      else if c =? 40 then
        if depth =? 0 then splitRows_loop [] true (depth + 1) quoted s'
        else splitRows_loop (c :: cur) started (depth + 1) quoted s'
      else if c =? 41 then
        if (depth - 1 =? 0) && started
        then TrimSpace (reverse cur) :: splitRows_loop (c :: cur) started (depth - 1) quoted s'
        else splitRows_loop (c :: cur) started (depth - 1) quoted s'
      else splitRows_loop (c :: cur) started depth quoted s'
  end.
Definition splitRows (s : str) : list str := splitRows_loop [] false 0 false s.

Fixpoint parseGroups (cols : list Column) (rows : list insertRow) (groups : list str)
    : res (list insertRow) :=
  match groups with
  | [] => Ok rows
  | g :: gs =>
      let* rows' := parseGroup cols false rows (splitVals g) in
      parseGroups cols rows' gs
  end.
Definition parseInsertRows (raw : str) (cols : list Column) : res (list insertRow) :=
  match splitRows (TrimSpace raw) with
  | [] => errorsNew "INSERT requires VALUES"
  | groups => parseGroups cols [] groups
  end.

(** The single-pass parser: [cur] is [payload[valStart:i]] reversed, [spans] the
    completed values of the current row, [open] says [rowStart >= 0]. *)
Fixpoint insertRows_loop (cols : list Column) (keepLast : bool) (rows : list insertRow)
    (spans : list str) (cur : str) (open : bool) (depth : Z) (quoted : bool) (s : str)
    : res (list insertRow) :=
  match s with
  | [] => Ok rows
  | c :: s' =>
      if c =? quote then
        match s' with
        | d :: s'' =>
            if quoted && (d =? quote)
            then insertRows_loop cols keepLast rows spans (d :: c :: cur) open depth quoted s''
            else insertRows_loop cols keepLast rows spans (c :: cur) open depth (negb quoted) s'
        | [] => insertRows_loop cols keepLast rows spans (c :: cur) open depth (negb quoted) s'
        end
      else if quoted
      then insertRows_loop cols keepLast rows spans (c :: cur) open depth quoted s'
      else if c =? 40 then
        if depth =? 0
        then insertRows_loop cols keepLast rows [] [] true (depth + 1) quoted s'
        else insertRows_loop cols keepLast rows spans (c :: cur) open (depth + 1) quoted s'
      else if c =? 41 then
        if (depth - 1 =? 0) && open
        then
          let* rows' := parseGroup cols keepLast rows (spans ++ [reverse cur]) in
          insertRows_loop cols keepLast rows' (spans ++ [reverse cur]) (c :: cur) false (depth - 1) quoted s'
        else insertRows_loop cols keepLast rows spans (c :: cur) open (depth - 1) quoted s'
      else if (c =? 44) && open && (1 <=? depth)
      then insertRows_loop cols keepLast rows (spans ++ [reverse cur]) [] open depth quoted s'
      else insertRows_loop cols keepLast rows spans (c :: cur) open depth quoted s'
  end.
Definition parseInsertRowsMode (raw : str) (cols : list Column) (keepLast : bool)
    : res (list insertRow) :=
  let* rows := insertRows_loop cols keepLast [] [] [] false 0 false (TrimSpace raw) in
  match rows with [] => errorsNew "INSERT requires VALUES" | _ => Ok rows end.
Definition parseInsertRowsFast (raw : str) (cols : list Column) : res (list insertRow) :=
  parseInsertRowsMode raw cols false.

(** ** Applying parsed rows *)

Definition site_insert : nat := 10.

Definition duplicateKey {A} : res A := errorsNew "duplicate primary key".

(** The duplicate scan: the state is the set [batch] and whether a duplicate
    ended the loop. *)
Definition dupStep (t : Table) (s : gset str * bool) (item : insertRow) : (gset str * bool) * bool :=
  let '(batch, _) := s in
  let k := iKey item in
  if bool_decide (k = []) then ((batch, false), false)
  else if isLive (tRows t) k || bool_decide (k ∈ batch) then ((batch, true), true)
  else (({[k]} ∪ batch, false), false).

Definition insertOne (t : Table) (k : str) (r : row) : Table :=
  let t1 := set_rows t (<[k := r]> (tRows t)) in
  let t2 := set_order t1 (tOrder t1 ++ [k]) in
  let t3 := addRowIndexes t2 r k in
  appendFastRowLocked t3 k r.

Definition replaceOne (t : Table) (k : str) (old r : row) : Table :=
  let t1 := removeRowIndexes t old k in
  let t2 := set_rows t1 (<[k := r]> (tRows t1)) in
  let t3 := addRowIndexes t2 r k in
  replaceFastRowLocked t3 k r.

(** One iteration of the apply loop: allocate a synthetic key when the row has
    none, then replace or append. *)
Definition applyRow (replace : bool) (t : Table) (item : insertRow) : option Table :=
  let keyed :=
    if bool_decide (iKey item = []) then nextSyntheticKeyLocked t else Some (iKey item, t) in
  match keyed with
  | None => None
  | Some (k, t1) =>
      match (if replace then tRows t1 !! k else None) with
      | Some old => Some (replaceOne t1 k old (iRow item))
      | None => Some (insertOne t1 k (iRow item))
      end
  end.
Fixpoint applyRows (replace : bool) (t : Table) (items : list insertRow) : option Table :=
  match items with
  | [] => Some t
  | it :: items' =>
      match applyRow replace t it with
      | Some t' => applyRows replace t' items'
      | None => None
      end
  end.

(** [None] in the table component: the key allocator of the model ran out of
    fuel (excluded by [applyRows_total]). *)
Definition applyInsertRows (e : Env) (t : Table) (rows : list insertRow) (replace : bool)
    : res Result * option Table :=
  let check :=
    if replace then Ok tt
    else match scan e site_insert 0 (dupStep t) rows (∅, false) with
         | (_, Some c) => Err (ECtx c)
         | ((_, true), None) => duplicateKey
         | ((_, false), None) => Ok tt
         end in
  match check with
  | Ok _ =>
      let t1 := if (0 <? tDead t)%nat then reapOrder t else t in
      (Ok (resultAffected (Z.of_nat (length rows))), applyRows replace t1 rows)
  | Err er => (Err er, Some t)
  | Panic => (Panic, Some t)
  end.

End Insert.
