(* ===== verification/InsertProofs.v ===== *)
(** * INSERT is correct

    Key allocation is total and fresh; each applied row keeps the table
    invariant and extends (or overwrites one entry of) the abstract content;
    the duplicate scan accepts exactly the batches without a key clash. *)

From S2P Require Import Prelude GoLib GoFacts Fold Value Parser Table TableInv Insert.
Open Scope Z_scope.

(** ** Synthetic keys *)

Lemma syntheticKey_inj n m :
  0 ≤ n < 2 ^ 64 → 0 ≤ m < 2 ^ 64 → syntheticKey n = syntheticKey m → n = m.
Proof. intros Hn Hm [= Heq]. by apply FormatUint_inj. Qed.

(** The keys tried by [n] iterations from [auto]. *)
Fixpoint syntheticRun (n : nat) (auto : Z) : list Z :=
  match n with O => [] | S n' => auto :: syntheticRun n' ((auto + 1) mod 2 ^ 64) end.

Lemma syntheticRun_elem n auto x :
  0 ≤ auto < 2 ^ 64 → x ∈ syntheticRun n auto → ∃ i, (i < n)%nat ∧ x = (auto + Z.of_nat i) mod 2 ^ 64.
Proof.
  revert auto. induction n as [|n IH]; intros auto Ha Hx; simpl in Hx; [by apply elem_of_nil in Hx|].
  apply elem_of_cons in Hx as [->|Hx].
  - exists 0%nat. split; [lia|]. rewrite Z.add_0_r. by rewrite Z.mod_small.
  - apply IH in Hx as (i & Hi & ->); [|apply Z.mod_pos_bound; lia].
    exists (S i). split; [lia|]. rewrite Zplus_mod_idemp_l. f_equal. lia.
Qed.

Lemma syntheticRun_nodup n auto :
  0 ≤ auto < 2 ^ 64 → Z.of_nat n ≤ 2 ^ 64 → NoDup (syntheticRun n auto).
Proof.
  revert auto. induction n as [|n IH]; intros auto Ha Hn; simpl; [constructor|].
  constructor; [|apply IH; [apply Z.mod_pos_bound; lia | lia]].
  intros Hin. apply syntheticRun_elem in Hin as (i & Hi & Heq); [|apply Z.mod_pos_bound; lia].
  rewrite Zplus_mod_idemp_l in Heq.
  assert (Hm : (auto + 1 + Z.of_nat i) mod 2 ^ 64 = auto mod 2 ^ 64)
    by (rewrite <- Heq; by rewrite Z.mod_small).
  clear Heq. destruct (decide (auto + 1 + Z.of_nat i < 2 ^ 64)).
  - rewrite !Z.mod_small in Hm by lia. lia.
  - rewrite (Z.mod_small auto) in Hm by lia.
    replace (auto + 1 + Z.of_nat i) with (auto + 1 + Z.of_nat i - 2 ^ 64 + 1 * 2 ^ 64) in Hm by lia.
    rewrite Z.mod_add, Z.mod_small in Hm by lia. lia.
Qed.

Lemma syntheticRun_range n auto x :
  0 ≤ auto < 2 ^ 64 → x ∈ syntheticRun n auto → 0 ≤ x < 2 ^ 64.
Proof.
  intros Ha Hx. apply syntheticRun_elem in Hx as (i & _ & ->); [|done].
  apply Z.mod_pos_bound. lia.
Qed.

Lemma nextSyntheticKey_loop_None fuel rows auto :
  nextSyntheticKey_loop fuel rows auto = None →
  ∀ x, x ∈ syntheticRun fuel auto → is_Some (rows !! syntheticKey x).
Proof.
  revert auto. induction fuel as [|f IH]; intros auto Hl x Hx; simpl in *; [by apply elem_of_nil in Hx|].
  destruct (rows !! syntheticKey auto) eqn:Hr; [|done].
  apply elem_of_cons in Hx as [->|Hx]; [by rewrite Hr | by eapply IH].
Qed.

Lemma nextSyntheticKey_loop_Some fuel rows auto k a :
  0 ≤ auto < 2 ^ 64 → nextSyntheticKey_loop fuel rows auto = Some (k, a) →
  rows !! k = None ∧ k ≠ [] ∧ 0 ≤ a < 2 ^ 64.
Proof.
  revert auto. induction fuel as [|f IH]; intros auto Ha Hl; simpl in Hl; [done|].
  destruct (rows !! syntheticKey auto) eqn:Hr; simplify_eq.
  - eapply IH; [apply Z.mod_pos_bound; lia | done].
  - split_and!; [done | done | apply Z.mod_pos_bound; lia..].
Qed.

(** The unbounded allocation loop stops within [size rows + 1] iterations. *)
Lemma nextSyntheticKey_total rows auto :
  0 ≤ auto < 2 ^ 64 → Z.of_nat (size rows) < 2 ^ 64 →
  ∃ k a, nextSyntheticKey_loop (S (size rows)) rows auto = Some (k, a) ∧
         rows !! k = None ∧ k ≠ [] ∧ 0 ≤ a < 2 ^ 64.
Proof.
  intros Ha Hsz. destruct (nextSyntheticKey_loop _ _ _) as [[k a]|] eqn:Hl.
  - exists k, a. split; [done|]. by eapply nextSyntheticKey_loop_Some.
  - exfalso. pose proof (nextSyntheticKey_loop_None _ _ _ Hl) as Hall.
    set (run := syntheticRun (S (size rows)) auto) in *.
    assert (Hnd : NoDup (syntheticKey <$> run)).
    { apply NoDup_fmap_2_strong; [|by apply syntheticRun_nodup; lia].
      intros x y Hx Hy. apply syntheticKey_inj; by eapply syntheticRun_range. }
    assert (Hsub : list_to_set (syntheticKey <$> run) ⊆@{gset str} dom rows).
    { intros k. rewrite elem_of_list_to_set, list_elem_of_fmap. intros (x & -> & Hx).
      apply elem_of_dom. by apply Hall. }
    apply subseteq_size in Hsub. rewrite size_list_to_set, size_dom, length_fmap in Hsub by done.
    assert (Hlen : ∀ n a, length (syntheticRun n a) = n) by (induction n; simpl; intros; auto).
    subst run. rewrite Hlen in Hsub. lia.
Qed.

(** ** One row *)

Section InsertProofs.
Context `{GoStd}.

Lemma appendFast_wf t k r :
  base_wf t → absRows t = absL (tRows t) (tOrder t) →
  ∀ content, absRows t = content ++ [(k, r)] → k ∉ content.*1 → k ≠ [] →
  fast_ok (tColumns t) content (tFast t) →
  (fRows (tFast t) ≠ [] → (fastPathThreshold ≤ length (tOrder t))%nat) →
  table_wf (appendFastRowLocked t k r) ∧ fast_sized (appendFastRowLocked t k r).
Proof.
  intros Hb _ content Habs Hk Hne Hf Hs. unfold appendFastRowLocked.
  case_match eqn:Hlt; btoz.
  - assert (Hoff : fRows (tFast t) = []).
    { destruct (fRows (tFast t)) eqn:E; [done|]. specialize (Hs ltac:(done)). lia. }
    split; [|intros ?; congruence].
    apply table_wf_base. split; [done|]. destruct Hf as [? Hp ? Hd]. split; [| |congruence|]; done.
  - case_match eqn:Hre; [split; [by apply rebuild_wf | apply rebuild_sized]|].
    apply orb_false_iff in Hre as [Hon Hlen]. unfold fastOn in Hon. btoz.
    split; [|intros _; simpl; lia].
    apply table_wf_base. split; [by apply base_wf_fast|].
    change (absRows (set_fast t _)) with (absRows t). rewrite Habs.
    by apply fast_ok_append.
Qed.

(** Appending a row under a fresh key. *)
Lemma insertOne_wf t k r :
  table_wf t → fast_sized t → tDead t = 0%nat → tRows t !! k = None →
  row_ok (tColumns t) r → key_ok (primaryColumn t) k r →
  table_wf (insertOne t k r) ∧ fast_sized (insertOne t k r).
Proof.
  intros Ht Hs Hd Hk Hr Hkey. pose proof (proj1 (table_wf_base t) Ht) as [Hb Hf].
  assert (Hnin : k ∉ tOrder t).
  { intros Hin. pose proof (wf_order _ Ht) as Ho. rewrite Hd in Ho.
    destruct (order_all_live _ _ _ Ho Hin). congruence. }
  unfold insertOne. cbv zeta. set (t3 := addRowIndexes _ r k).
  assert (Habs : absRows t3 = absRows t ++ [(k, r)]) by by apply absL_snoc.
  assert (Hb3 : base_wf t3).
  { destruct Hb as [Bc Br Bk Bo Bi Bx Bn Ba]. split; subst t3; simpl.
    - done.
    - by apply map_Forall_insert_2.
    - by apply map_Forall_insert_2.
    - destruct Bo as [Hn Hl Hlen]. split.
      + apply NoDup_app. split_and!; [done | set_solver | apply NoDup_singleton].
      + intros k'. rewrite lookup_insert. case_decide; [set_solver|]. intros ?%Hl. set_solver.
      + rewrite length_app, map_size_insert_None by done. simpl. lia.
    - by apply addRowIndexes_ok.
    - intros c. rewrite imap_is_Some. apply Bx.
    - intros n c Hc. apply imap_is_Some. by eapply Bn.
    - done. }
  eapply (appendFast_wf t3 k r Hb3 eq_refl (absRows t)); try done.
  - rewrite absRows_key_in by done. rewrite Hk. by intros [].
  - apply Hkey.
  - intros Hon. subst t3. simpl in *. rewrite length_app. simpl. specialize (Hs Hon). lia.
Qed.

Lemma appendFast_fields t k r :
  let t' := appendFastRowLocked t k r in
  tColumns t' = tColumns t ∧ tRows t' = tRows t ∧ tOrder t' = tOrder t ∧
  tIndexes t' = tIndexes t ∧ tIndexNames t' = tIndexNames t ∧ tDead t' = tDead t ∧
  tAutoKey t' = tAutoKey t ∧ tName t' = tName t.
Proof.
  unfold appendFastRowLocked, rebuildFastPathLocked. repeat case_match; done.
Qed.

Lemma insertOne_abs t k r :
  k ∉ tOrder t → absRows (insertOne t k r) = absRows t ++ [(k, r)].
Proof.
  intros Hk. unfold insertOne. cbv zeta. unfold absRows.
  rewrite (proj1 (proj2 (appendFast_fields _ _ _))), (proj1 (proj2 (proj2 (appendFast_fields _ _ _)))).
  by apply absL_snoc.
Qed.

(** Overwriting a row in place. *)
Lemma replaceFast_ok t content k r0 r :
  fast_ok (tColumns t) content (tFast t) → NoDup content.*1 → (k, r0) ∈ content → k ≠ [] →
  fast_ok (tColumns t) (map (λ p, if bool_decide (p.1 = k) then (k, r) else p) content)
    (tFast (replaceFastRowLocked t k r)).
Proof.
  intros Hf Hnd Hin Hne. unfold replaceFastRowLocked, fastOn.
  case_match eqn:Hon; btoz.
  - destruct Hf as [? Hp ? Hd]. by split.
  - destruct (fPos (tFast t) !! k) as [i|] eqn:Hi; simpl.
    + pose proof (fast_ok_overwrite _ _ _ k k r i (λ _, fastValues (tColumns t) r) Hf Hnd Hi Hne
                    (or_introl eq_refl) ltac:(done)) as Hov.
      rewrite insert_delete_eq, insert_id in Hov by done.
      destruct (fast_split _ _ _ _ _ Hf Hnd Hi) as (l1 & vs & l2 & _ & _ & _ & Hl & Hlen & _).
      replace (alter (λ f, mkFast (fKey f) (fastValues (tColumns t) r)) i (fRows (tFast t)))
        with (alter (λ f, mkFast k (fastValues (tColumns t) r)) i (fRows (tFast t))); [done|].
      rewrite Hl, <- Hlen. by rewrite !alter_app_r_alt, !Nat.sub_diag by lia.
    + exfalso. apply (fast_ok_absent _ _ _ k Hf Hon Hi Hne). by apply (list_elem_of_fmap_2 fst) in Hin.
Qed.

Lemma replaceFast_fields t k r :
  let t' := replaceFastRowLocked t k r in
  tColumns t' = tColumns t ∧ tRows t' = tRows t ∧ tOrder t' = tOrder t ∧
  tIndexes t' = tIndexes t ∧ tIndexNames t' = tIndexNames t ∧ tDead t' = tDead t ∧
  tAutoKey t' = tAutoKey t ∧ tName t' = tName t ∧
  (fRows (tFast t') = [] ↔ fRows (tFast t) = []).
Proof.
  unfold replaceFastRowLocked. repeat case_match; split_and!; try done. simpl.
  by rewrite <- !length_zero_iff_nil, length_alter.
Qed.

Lemma replaceOne_wf t k old r :
  table_wf t → tRows t !! k = Some old → row_ok (tColumns t) r → key_ok (primaryColumn t) k r →
  table_wf (replaceOne t k old r) ∧
  absRows (replaceOne t k old r)
    = map (λ p, if bool_decide (p.1 = k) then (k, r) else p) (absRows t).
Proof.
  intros Ht Hk Hr Hkey. pose proof (proj1 (table_wf_base t) Ht) as [Hb Hf].
  unfold replaceOne. cbv zeta. set (t3 := addRowIndexes _ r k).
  assert (Habs : absRows t3 = map (λ p, if bool_decide (p.1 = k) then (k, r) else p) (absRows t))
    by (apply absL_overwrite; eauto).
  assert (Hb3 : base_wf t3).
  { destruct Hb as [Bc Br Bk Bo Bi Bx Bn Ba]. split; subst t3; simpl.
    - done.
    - by apply map_Forall_insert_2.
    - by apply map_Forall_insert_2.
    - destruct Bo as [Hn Hl Hlen]. split; [done| |].
      + intros k'. rewrite lookup_insert. case_decide; [subst; intros; apply Hl; eauto | apply Hl].
      + by rewrite map_size_insert, Hk.
    - rewrite <- (insert_delete_eq (tRows t) k).
      apply addRowIndexes_ok; [by apply removeRowIndexes_ok | apply lookup_delete_eq].
    - intros c. rewrite !imap_is_Some. apply Bx.
    - intros n c Hc. rewrite !imap_is_Some. by eapply Bn.
    - done. }
  pose proof (replaceFast_fields t3 k r) as (Hc & Hrows & Ho & Hi & Hn & Hd & Ha & _).
  cbv zeta in Hc, Hrows, Ho, Hi, Hn, Hd, Ha.
  assert (Habs' : absRows (replaceFastRowLocked t3 k r) = absRows t3)
    by (unfold absRows; by rewrite Hrows, Ho).
  split; [|by rewrite Habs', Habs].
  apply table_wf_base. split.
  - destruct Hb3 as [Bc Br Bk Bo Bi Bx Bn Ba]. split; unfold primaryColumn; rewrite ?Hc, ?Hrows, ?Ho, ?Hi, ?Hn, ?Hd, ?Ha; done.
  - rewrite Habs', Habs, Hc. apply (replaceFast_ok t3 (absRows t) k old r).
    + done.
    + by apply absRows_nodup.
    + by apply absRows_key.
    + apply Hkey.
Qed.

(** ** A batch *)

(** What the INSERT parsers guarantee about the rows they return. *)
Definition item_ok (t : Table) (it : insertRow) : Prop :=
  row_ok (tColumns t) (iRow it) ∧
  if bool_decide (iKey it = []) then primaryColumn t = []
  else key_ok (primaryColumn t) (iKey it) (iRow it).

(** Keyed tables get keyed rows only, keyless tables keyless ones. *)
Definition uniform (items : list insertRow) : Prop :=
  (∀ it, it ∈ items → iKey it = []) ∨ (∀ it, it ∈ items → iKey it ≠ []).

(** Insert-or-overwrite on the abstract content. *)
Definition upsert (content : list (str * row)) (p : str * row) : list (str * row) :=
  if bool_decide (p.1 ∈ content.*1)
  then map (λ q, if bool_decide (q.1 = p.1) then p else q) content
  else content ++ [p].

Definition item_fresh (replace : bool) (t : Table) (it : insertRow) : Prop :=
  replace = true ∨ iKey it = [] ∨ tRows t !! iKey it = None.

(** Invariant of the apply loop. *)
Record apply_inv (t : Table) : Prop := {
  ai_wf : table_wf t;
  ai_sized : fast_sized t;
  ai_dead : tDead t = 0%nat;
}.

Lemma insertOne_fields t k r :
  let t' := insertOne t k r in
  tColumns t' = tColumns t ∧ tRows t' = <[k := r]> (tRows t) ∧ tDead t' = tDead t.
Proof.
  unfold insertOne. cbv zeta.
  destruct (appendFast_fields (addRowIndexes (set_order (set_rows t (<[k:=r]> (tRows t)))
    (tOrder (set_rows t (<[k:=r]> (tRows t))) ++ [k])) r k) k r) as (-> & -> & _ & _ & _ & -> & _).
  done.
Qed.

Lemma replaceOne_fields t k old r :
  let t' := replaceOne t k old r in
  tColumns t' = tColumns t ∧ tRows t' = <[k := r]> (tRows t) ∧ tDead t' = tDead t ∧
  (fast_sized t → fast_sized t').
Proof.
  unfold replaceOne. cbv zeta. set (t3 := addRowIndexes _ r k).
  destruct (replaceFast_fields t3 k r) as (-> & -> & Ho & _ & _ & -> & _ & _ & Hon).
  split_and!; try done. intros Hs Hne. rewrite Ho. apply Hs. intros E. apply Hne. by apply Hon.
Qed.

Lemma order_fresh t k : table_wf t → tDead t = 0%nat → tRows t !! k = None → k ∉ tOrder t.
Proof.
  intros Ht Hd Hk Hin. pose proof (wf_order _ Ht) as Ho. rewrite Hd in Ho.
  destruct (order_all_live _ _ _ Ho Hin). congruence.
Qed.

Lemma set_autoKey_wf t a : table_wf t → 0 ≤ a < 2 ^ 64 → table_wf (set_autoKey t a).
Proof. intros [] Ha. by split. Qed.

(** Insert or replace under a known key. *)
Lemma applyKeyed t k r (replace : bool) :
  apply_inv t → row_ok (tColumns t) r → key_ok (primaryColumn t) k r →
  (replace = true ∨ tRows t !! k = None) →
  let t' := match (if replace then tRows t !! k else None) with
            | Some old => replaceOne t k old r | None => insertOne t k r end in
  apply_inv t' ∧ tColumns t' = tColumns t ∧ tRows t' = <[k := r]> (tRows t) ∧
  absRows t' = upsert (absRows t) (k, r).
Proof.
  intros [Ht Hs Hd] Hr Hk Hf. pose proof (proj1 (proj1 (table_wf_base t) Ht)) as Hb.
  unfold upsert. simpl. destruct (if replace then tRows t !! k else None) as [old|] eqn:Ho; simpl.
  - destruct replace; [|done].
    destruct (replaceOne_wf t k old r) as [Hw Ha]; try done.
    destruct (replaceOne_fields t k old r) as (Hc & Hrows & Hdd & Hss).
    rewrite bool_decide_true by (apply absRows_key_in; eauto).
    split_and!; try done. split; [done | by apply Hss | by rewrite Hdd].
  - assert (Hnone : tRows t !! k = None) by (destruct replace; [done | naive_solver]).
    destruct (insertOne_wf t k r) as [Hw Hss]; try done.
    destruct (insertOne_fields t k r) as (Hc & Hrows & Hdd).
    rewrite bool_decide_false by (rewrite absRows_key_in, Hnone by done; by intros []).
    split_and!; try done; [split; [done | done | by rewrite Hdd]|].
    apply insertOne_abs. by apply order_fresh.
Qed.

Lemma applyRow_ok (replace : bool) t it :
  apply_inv t → item_ok t it → item_fresh replace t it → Z.of_nat (size (tRows t)) < 2 ^ 64 →
  ∃ k t', applyRow replace t it = Some t' ∧ apply_inv t' ∧
    tColumns t' = tColumns t ∧ tRows t' = <[k := iRow it]> (tRows t) ∧
    absRows t' = upsert (absRows t) (k, iRow it) ∧
    (iKey it ≠ [] → k = iKey it) ∧ (replace = false → tRows t !! k = None).
Proof.
  intros Hinv [Hr Hkey] Hf Hsz. unfold applyRow.
  case_bool_decide as Hk.
  - unfold nextSyntheticKeyLocked.
    destruct (nextSyntheticKey_total (tRows t) (tAutoKey t)) as (k & a & -> & Hnone & Hne & Ha);
      [apply Hinv | done|].
    destruct Hinv as [Ht Hs Hd]. set (t1 := set_autoKey t a).
    assert (Hi1 : apply_inv t1) by (split; [by apply set_autoKey_wf | done | done]).
    destruct (applyKeyed t1 k (iRow it) replace Hi1) as (H1 & H2 & H3 & H4); [done| |by right|].
    { split; [done|]. intros Hpk. exfalso. apply Hpk. done. }
    exists k. eexists. split; [|split_and!; [exact H1 | exact H2 | exact H3 | exact H4 | done | done]].
    by case_match.
  - destruct (applyKeyed t (iKey it) (iRow it) replace Hinv) as (H1 & H2 & H3 & H4); try done.
    { destruct Hf as [?|[?|?]]; [by left | done | by right]. }
    exists (iKey it). eexists.
    split; [|split_and!; [exact H1 | exact H2 | exact H3 | exact H4 | done |]]; [by case_match|].
    intros ->. destruct Hf as [?|[?|?]]; done.
Qed.

Lemma item_ok_cols t t' it : tColumns t' = tColumns t → item_ok t it → item_ok t' it.
Proof. unfold item_ok, primaryColumn. by intros ->. Qed.

(** The assigned keys of a batch: given keys are kept. *)
Definition keys_for (items : list insertRow) (keys : list str) : Prop :=
  Forall2 (λ it k, iKey it ≠ [] → k = iKey it) items keys.

Lemma applyRows_ok (replace : bool) t items :
  apply_inv t → Forall (item_ok t) items →
  (replace = true ∨ (∀ it, it ∈ items → iKey it = []) ∨
   NoDup (map iKey items) ∧ ∀ it, it ∈ items → iKey it ≠ [] ∧ tRows t !! iKey it = None) →
  Z.of_nat (size (tRows t) + length items) < 2 ^ 64 →
  ∃ keys t', applyRows replace t items = Some t' ∧ apply_inv t' ∧ keys_for items keys ∧
    tColumns t' = tColumns t ∧
    absRows t' = foldl upsert (absRows t) (zip keys (map iRow items)) ∧
    (replace = false → absRows t' = absRows t ++ zip keys (map iRow items)).
Proof.
  revert t. induction items as [|it items IH]; intros t Hinv Hok Hfr Hsz; simpl.
  - exists [], t. split_and!; try done; [constructor|]. by rewrite app_nil_r.
  - apply Forall_cons in Hok as [Hit Hok]. simpl in Hsz.
    destruct (applyRow_ok replace t it) as (k & t1 & -> & Hi1 & Hc1 & Hr1 & Ha1 & Hkk & Hkn); try done.
    { destruct Hfr as [->|[Hfr|[_ Hfr]]]; [by left | right; left; apply Hfr; left|].
      right; right. apply Hfr. left. }
    { lia. }
    destruct (IH t1) as (keys & t' & Hap & Hi' & Hks & Hc' & Ha' & Hp'); [done| | | |].
    + eapply Forall_impl; [exact Hok|]. intros. by eapply item_ok_cols.
    + destruct Hfr as [->|[Hfr|[Hnd Hfr]]]; [by left | right; left; intros; apply Hfr; by right|].
      simpl in Hnd. apply NoDup_cons in Hnd as [Hnin Hnd]. right; right. split; [done|].
      intros it' Hin. destruct (Hfr it') as [? Hn]; [by right|]. split; [done|].
      destruct (Hfr it ltac:(left)) as [Hne _]. rewrite Hr1, lookup_insert_ne; [done|].
      rewrite Hkk by done. intros Heq. apply Hnin. rewrite Heq.
      by apply (list_elem_of_fmap_2 iKey).
    + rewrite Hr1, map_size_insert. case_match; unfold id; lia.
    + exists (k :: keys), t'. split_and!; try done.
      * by constructor.
      * congruence.
      * rewrite Ha', Ha1. done.
      * intros Hrep. rewrite Hp', Ha1 by done. unfold upsert. simpl.
        rewrite bool_decide_false; [by rewrite <- app_assoc|].
        rewrite absRows_key_in by (apply table_wf_base, Hinv). rewrite Hkn by done. by intros [].
Qed.

(** ** The duplicate scan *)

(** No nonempty key occurs in the table or twice in the batch. *)
Definition batch_free (t : Table) (items : list insertRow) : Prop :=
  NoDup (filter (λ k, k ≠ []) (map iKey items)) ∧
  ∀ k, k ∈ map iKey items → k ≠ [] → tRows t !! k = None.

Lemma dup_scan t items batch :
  (scan_pure (dupStep t) items (batch, false)).2 = false ↔
  batch_free t items ∧ (∀ k, k ∈ map iKey items → k ≠ [] → k ∉ batch).
Proof.
  revert batch. induction items as [|it items IH]; intros batch; simpl.
  - split; [|done]. intros _. split; [split; [constructor|]|]; intros k Hk; by apply elem_of_nil in Hk.
  - unfold batch_free in *. simpl. rewrite filter_cons.
    case_bool_decide as Hk.
    + rewrite IH, Hk. rewrite decide_False by naive_solver. set_solver.
    + rewrite decide_True by done.
      destruct (isLive (tRows t) (iKey it) || bool_decide (iKey it ∈ batch)) eqn:Hd; simpl.
      * split; [done|]. intros [[_ Hf] Hb]. apply orb_true_iff in Hd as [Hl|Hin].
        -- apply isLive_true in Hl as [r Hl]. rewrite Hf in Hl; [done | left | done].
        -- btoz. by destruct (Hb (iKey it)); [left | done |].
      * apply orb_false_iff in Hd as [Hl Hin]. apply isLive_false in Hl. btoz.
        rewrite IH, NoDup_cons, list_elem_of_filter. set_solver.
Qed.

Lemma batch_free_reap t items : batch_free (reapOrder t) items ↔ batch_free t items.
Proof. unfold batch_free. by rewrite reapOrder_rows. Qed.

(** The table the apply loop starts from. *)
Lemma apply_start t :
  table_wf t → fast_sized t →
  let t1 := if (0 <? tDead t)%nat then reapOrder t else t in
  apply_inv t1 ∧ absRows t1 = absRows t ∧ tRows t1 = tRows t ∧ tColumns t1 = tColumns t.
Proof.
  intros Ht Hs. case_match eqn:Hd; simpl; btoz.
  - split_and!; [split|..].
    + by apply reapOrder_wf. + apply reapOrder_sized. + apply reapOrder_dead.
    + apply reapOrder_abs. + apply reapOrder_rows. + apply reapOrder_cols.
  - split_and!; try done. split; [done | done | lia].
Qed.

(** ** Parsed rows *)

Lemma parse_digits_nonneg acc s n : 0 ≤ acc → parse_digits acc s = inl n → 0 ≤ n.
Proof.
  revert acc. induction s as [|c s IH]; intros acc Ha Hp; simpl in Hp; [congruence|].
  unfold is_digit in Hp. repeat case_match; try done. btoz. eapply IH; [|done]. lia.
Qed.

Lemma ParseInt_range s n : ParseInt s = inl n → is_int64 n.
Proof.
  unfold ParseInt, is_int64, int64_min, int64_max, parse_uint. intros Hp.
  repeat (case_match; simplify_eq); btoz;
    match goal with H : parse_digits _ _ = inl _ |- _ => apply parse_digits_nonneg in H end; lia.
Qed.

Lemma parseVal_type raw ty v : parseVal raw ty = Ok v → has_type ty v.
Proof.
  unfold parseVal, numError, errorsNew. intros Hp.
  case_match; simplify_eq; [done|]. destruct ty; simplify_eq; try done.
  - destruct (ParseInt _) eqn:Hi; simplify_eq. by apply ParseInt_range in Hi.
  - destruct (strconv_ParseFloat _); simplify_eq. done.
  - destruct (ParseBool _); simplify_eq. done.
Qed.

Lemma hasColumn_in cols c : hasColumn cols c = true ↔ c ∈ map cName cols.
Proof.
  unfold hasColumn. rewrite existsb_exists, list_elem_of_fmap. split.
  - intros (x & Hin & Hx%bool_decide_eq_true). exists x. by rewrite list_elem_of_In.
  - intros (x & -> & Hin). exists x. rewrite <- list_elem_of_In. by rewrite bool_decide_eq_true.
Qed.

(** The column loop: cells of the columns seen are set, others untouched. *)
Lemma buildRow_spec cols vals r0 k0 r k :
  buildRow cols vals r0 k0 = Ok (r, k) → length vals = length cols → NoDup (map cName cols) →
  (length (filter (λ c, cPrimary c = true) cols) ≤ 1)%nat →
  (∀ c, c ∉ map cName cols → r !! c = r0 !! c) ∧
  (∀ c, c ∈ cols → ∃ v, r !! cName c = Some v ∧ has_type (cType c) v) ∧
  k = match filter (λ c, cPrimary c = true) cols with
      | c :: _ => valueKey (rowGet r (cName c)) | [] => k0 end.
Proof.
  revert vals r0 k0. induction cols as [|c cols IH]; intros [|raw vals] r0 k0 Hb Hlen Hnd Hp;
    simplify_eq/=; [split_and!; [done | intros c Hc; by apply elem_of_nil in Hc | done]|].
  apply NoDup_cons in Hnd as [Hc Hnd]. inv_bind Hb. rename a into v.
  destruct (IH vals _ _ Hb) as (H1 & H2 & H3); [lia | done | rewrite filter_cons in Hp; case_decide; simpl in Hp; lia|].
  assert (Hv : r !! cName c = Some v) by (rewrite H1 by done; apply lookup_insert_eq).
  split_and!.
  - intros c' Hn. rewrite H1 by set_solver. apply lookup_insert_ne. set_solver.
  - intros c' [->|Hin]%elem_of_cons; [|by apply H2]. exists v. split; [done|]. by eapply parseVal_type.
  - rewrite filter_cons in *. case_decide as Hpr; simpl in *.
    + rewrite H3. destruct (filter _ cols); [|simpl in Hp; lia].
      rewrite Hpr. unfold rowGet. by rewrite Hv.
    + destruct (cPrimary c); [done|]. done.
Qed.

Lemma buildRow_ok cols vals r k :
  cols_ok cols → length vals = length cols → buildRow cols vals ∅ [] = Ok (r, k) →
  row_ok cols r ∧ (k ≠ [] → key_ok (primaryName cols) k r) ∧
  (hasPrimaryColumn cols = false → k = []).
Proof.
  intros [Hnd Hp] Hlen Hb. destruct (buildRow_spec _ _ _ _ _ _ Hb Hlen Hnd Hp) as (H1 & H2 & H3).
  split_and!.
  - split.
    + intros c. rewrite hasColumn_in. split.
      * intros Hs. destruct (decide (c ∈ map cName cols)) as [|Hn]; [done|].
        rewrite H1 in Hs by done. by destruct Hs.
      * intros (x & -> & Hin)%list_elem_of_fmap. destruct (H2 x Hin) as (v & -> & _). eauto.
    + intros c Hin. destruct (H2 c Hin) as (v & Hv & Ht). unfold rowGet. by rewrite Hv.
  - intros Hne. split; [done|]. unfold primaryName. by destruct (filter _ cols).
  - intros Hno. rewrite H3. rewrite filter_none; [done|]. intros c Hin Hc.
    unfold hasPrimaryColumn in Hno. apply not_true_iff_false in Hno. apply Hno.
    apply existsb_exists. exists c. by rewrite <- list_elem_of_In.
Qed.

(** A parsed row: well-typed, and keyed exactly when the table is. *)
Definition parsed_ok (cols : list Column) (it : insertRow) : Prop :=
  row_ok cols (iRow it) ∧
  if hasPrimaryColumn cols then key_ok (primaryName cols) (iKey it) (iRow it) else iKey it = [].

Lemma parseGroup_ok cols keepLast rows vals rows' :
  cols_ok cols → parseGroup cols keepLast rows vals = Ok rows' →
  Forall (parsed_ok cols) rows → Forall (parsed_ok cols) rows'.
Proof.
  intros Hc Hp Hrows. unfold parseGroup in Hp. case_match eqn:Hlen; [done|]. btoz.
  inv_bind Hp. destruct a as [r k].
  destruct (buildRow_ok _ _ _ _ Hc Hlen Ha) as (Hr & Hk & Hn).
  case_match eqn:Hreq; [done|]. case_match; [done|]. simplify_eq/=.
  apply Forall_app. split; [done|]. constructor; [|constructor]. split; [done|]. simpl.
  destruct (hasPrimaryColumn cols); [|by apply Hn].
  apply Hk. intros ->. by rewrite bool_decide_true in Hreq.
Qed.

Lemma insertRows_loop_ok cols keepLast s : ∀ rows spans cur open depth quoted rows',
  cols_ok cols →
  insertRows_loop cols keepLast rows spans cur open depth quoted s = Ok rows' →
  Forall (parsed_ok cols) rows → Forall (parsed_ok cols) rows'.
Proof.
  induction s as [|c s IH1 IH2] using list_ind2; intros rows spans cur open depth quoted rows' Hc Hl Hr.
  - simpl in Hl. congruence.
  - simpl in Hl. destruct (c =? quote).
    { destruct s as [|d s']; [by eapply IH1|]. case_match; [by eapply IH2 | by eapply IH1]. }
    destruct quoted; [by eapply IH1|].
    destruct (c =? 40); [case_match; by eapply IH1|].
    destruct (c =? 41); [|case_match; by eapply IH1].
    case_match; [|by eapply IH1]. inv_bind Hl. eapply IH1; [done | done |].
    by eapply parseGroup_ok.
Qed.

(** ** Statements *)

(** C36: the production VALUES parser is total on its domain's type discipline:
    every row it returns has exactly the table's columns with values of the
    declared types, its key is the key text of its primary cell (nonempty), and
    keyless tables get keyless rows. *)
Theorem parsed_rows_are_insertable raw t keepLast rows :
  cols_ok (tColumns t) → parseInsertRowsMode raw (tColumns t) keepLast = Ok rows →
  rows ≠ [] ∧ Forall (item_ok t) rows ∧ uniform rows.
Proof.
  intros Hc Hp. unfold parseInsertRowsMode in Hp. inv_bind Hp.
  assert (Hall : Forall (parsed_ok (tColumns t)) a) by (eapply insertRows_loop_ok; [done | done | constructor]).
  destruct a as [|it a]; [done|]. simplify_eq. split; [done|].
  rewrite Forall_forall in Hall. split.
  - apply Forall_forall. intros x Hx. destruct (Hall x Hx) as [Hr Hk]. split; [done|].
    destruct (hasPrimaryColumn (tColumns t)) eqn:Hpr.
    + rewrite bool_decide_false; [done|]. apply Hk.
    + rewrite bool_decide_true by done. unfold primaryColumn, primaryName.
      rewrite filter_none; [done|]. intros c Hin Hcp. apply not_true_iff_false in Hpr. apply Hpr.
      apply existsb_exists. exists c. by rewrite <- list_elem_of_In.
  - destruct (hasPrimaryColumn (tColumns t)) eqn:Hpr; [right|left]; intros x Hx;
      destruct (Hall x Hx) as [_ Hk]; rewrite Hpr in Hk; [apply Hk | done].
Qed.

Lemma uniform_free t rows :
  uniform rows → batch_free t rows →
  (∀ it, it ∈ rows → iKey it = []) ∨
  NoDup (map iKey rows) ∧ ∀ it, it ∈ rows → iKey it ≠ [] ∧ tRows t !! iKey it = None.
Proof.
  intros [Hu|Hu] [Hnd Hf]; [by left|]. right. split.
  - rewrite filter_all in Hnd; [done|]. intros k Hk. apply list_elem_of_fmap in Hk as (it & -> & Hin).
    by apply Hu.
  - intros it Hin. split; [by apply Hu|]. apply Hf; [by apply (list_elem_of_fmap_2 iKey) | by apply Hu].
Qed.

(** C9: plain INSERT on a well-formed table whose fast array, if it has one, belongs to an
    order of at least [fastPathThreshold] keys ([fast_sized]: a DELETE by scan can leave
    a shorter one, and then it does not hold), not cancelled.  A batch whose keys
    are new and distinct is accepted: every row is appended, in order, to the
    abstract content under its own (or a synthetic) key, the affected count is
    the batch size, and the table stays well-formed and sized so.  Any other batch is
    rejected with the duplicate-key error and the table is unchanged. *)
Theorem insert_appends_or_rejects e t rows :
  env_quiet e → table_wf t → fast_sized t → Forall (item_ok t) rows → uniform rows →
  Z.of_nat (size (tRows t) + length rows) < 2 ^ 64 →
  (batch_free t rows ∧ ∃ keys t',
     applyInsertRows e t rows false = (Ok (resultAffected (Z.of_nat (length rows))), Some t') ∧
     table_wf t' ∧ fast_sized t' ∧ keys_for rows keys ∧
     absRows t' = absRows t ++ zip keys (map iRow rows)) ∨
  (¬ batch_free t rows ∧ applyInsertRows e t rows false = (duplicateKey, Some t)).
Proof.
  intros Hq Ht Hs Hok Hu Hsz. unfold applyInsertRows. rewrite scan_quiet by done.
  pose proof (dup_scan t rows ∅) as Hdup.
  destruct (scan_pure (dupStep t) rows (∅, false)) as [b []]; simpl in Hdup; cbv beta iota.
  - right. split; [|done]. intros Hf. discriminate (proj2 Hdup). by split; [|set_solver].
  - left. destruct (proj1 Hdup eq_refl) as [Hf _]. split; [done|].
    destruct (apply_start t Ht Hs) as (Hinv & Ha & Hr & Hc). cbv zeta in *.
    set (t1 := if (0 <? tDead t)%nat then reapOrder t else t) in *.
    destruct (applyRows_ok false t1 rows) as (keys & t' & -> & [Hw Hss _] & Hks & _ & _ & Habs).
    + done.
    + eapply Forall_impl; [exact Hok|]. intros. by eapply item_ok_cols.
    + right. rewrite Hr. by apply uniform_free.
    + by rewrite Hr.
    + exists keys, t'. rewrite Habs, Ha by done. done.
Qed.

(** C10: INSERT OR REPLACE never fails on a well-formed table whose fast array is not
    shorter than the threshold ([fast_sized]): the content becomes the left-to-right
    upsert of the batch, existing keys keep their position, and the table stays
    well-formed and sized so. *)
Theorem insert_or_replace_upserts e t rows :
  table_wf t → fast_sized t → Forall (item_ok t) rows →
  Z.of_nat (size (tRows t) + length rows) < 2 ^ 64 →
  ∃ keys t',
    applyInsertRows e t rows true = (Ok (resultAffected (Z.of_nat (length rows))), Some t') ∧
    table_wf t' ∧ fast_sized t' ∧ keys_for rows keys ∧
    absRows t' = foldl upsert (absRows t) (zip keys (map iRow rows)).
Proof.
  intros Ht Hs Hok Hsz. unfold applyInsertRows.
  destruct (apply_start t Ht Hs) as (Hinv & Ha & Hr & Hc). cbv zeta in *.
  set (t1 := if (0 <? tDead t)%nat then reapOrder t else t) in *.
  destruct (applyRows_ok true t1 rows) as (keys & t' & -> & [Hw Hss _] & Hks & _ & Habs & _).
  - done.
  - eapply Forall_impl; [exact Hok|]. intros. by eapply item_ok_cols.
  - by left.
  - by rewrite Hr.
  - exists keys, t'. rewrite Habs, Ha. done.
Qed.

End InsertProofs.
