(* ===== verification/Mutate.v ===== *)
(** * UPDATE and DELETE: internal/engine/update.go and delete.go

    Resolution of the mutation predicate, the primary-key and scan paths of
    both statements, and primary-key moves. *)

From S2P Require Import Prelude GoLib Fold Value Parser Table.
Open Scope Z_scope.

Section Mutate.
Context `{GoStd}.

(** The parsed WHERE of a mutation: column (empty when there is no WHERE), raw
    value, operator. *)
Record mwhere := mkMWhere { mwColumn : str; mwValue : str; mwOp : cmpop }.
Definition noWhere : mwhere := mkMWhere [] [] opEq.

Definition findColumn (cols : list Column) (name : str) : option Column :=
  match filter (λ c, cName c = name) cols with c :: _ => Some c | [] => None end.

Definition mutationExpected (t : Table) (w : mwhere) : res expected :=
  match mwColumn w with
  | [] => Ok (XVal (VStr (mwValue w)))
  | _ =>
      match findColumn (tColumns t) (mwColumn w) with
      | None => invalidWhere
      | Some col =>
          match mwOp w with
          | opEq | opNe | opIn | opLike => Ok (XVal (VStr (mwValue w)))
          | opBetween =>
              match splitBetweenBounds (mwValue w) with
              | None => invalidWhere
              | Some (lo, hi) =>
                  Ok (XList [literalValue lo (cType col); literalValue hi (cType col)])
              end
          | _ =>
              match parseVal (mwValue w) (cType col) with
              | Ok v => Ok (XVal v)
              | _ => Ok (XVal (VStr (mwValue w)))
              end
          end
      end
  end.

(** [c == "" || matchWhereOp(row[c], v, expected, op)] *)
Definition mutationMatches (w : mwhere) (x : expected) (r : row) : bool :=
  match mwColumn w with
  | [] => true
  | c => matchWhereOp (rowGet r c) (mwValue w) x (mwOp w)
  end.

(** ** DELETE *)

Definition site_delete : nat := 20.

(** The primary-key path: tombstone in [Order]. *)
Definition deleteKey (t : Table) (k : str) : res Result * Table :=
  match tRows t !! k with
  | None => (Ok resultEmpty, t)
  | Some r =>
      let t1 := removeRowIndexes t r k in
      let t2 := set_rows t1 (delete k (tRows t1)) in
      let t3 := set_dead t2 (S (tDead t2)) in
      let t4 := removeFastRowLocked t3 k in
      let t5 := compactOrderLocked t4 in
      (Ok (resultAffected 1), reapFast t5)
  end.

(** The scan path.  [remaining] shares [t.Order]'s backing array, so [dlOrder]
    is that array: the kept keys are written over its prefix while the loop
    reads ahead.  The loop ranges over the [n] elements the slice had. *)
Record delState := mkDel { dlTable : Table; dlArray : list str; dlKept : nat; dlCount : Z }.

Definition deleteStep (w : mwhere) (x : expected) (s : delState) (i : nat) : delState :=
  let t := dlTable s in
  match dlArray s !! i with
  | None => s
  | Some k =>
      match tRows t !! k with
      | None => s
      | Some r =>
          if mutationMatches w x r then
            let t1 := removeRowIndexes t r k in
            let t2 := set_rows t1 (delete k (tRows t1)) in
            let t3 := removeFastRowLocked t2 k in
            mkDel t3 (dlArray s) (dlKept s) (dlCount s + 1)
          else mkDel t (<[dlKept s := k]> (dlArray s)) (S (dlKept s)) (dlCount s)
      end
  end.

Definition deleteScan (e : Env) (t : Table) (w : mwhere) (x : expected) : res Result * Table :=
  match scan_all e site_delete (deleteStep w x) (seq 0 (length (tOrder t)))
                 (mkDel t (tOrder t) 0 0) with
  | (s, Some c) => (Err (ECtx c), set_order (dlTable s) (dlArray s))
  | (s, None) =>
      let t1 := set_dead (set_order (dlTable s) (take (dlKept s) (dlArray s))) 0 in
      (Ok (resultAffected (dlCount s)), reapFast t1)
  end.

Definition deleteRows (e : Env) (t : Table) (w : mwhere) (x : expected) : res Result * Table :=
  if negb (bool_decide (mwColumn w = [])) && bool_decide (mwColumn w = primaryColumn t)
     && bool_decide (mwOp w = opEq)
  then deleteKey t (mwValue w)
  else deleteScan e t w x.

(** ** UPDATE *)

Definition site_update : nat := 21.
Definition site_updatePrimary : nat := 22.

(** Overwrite the first occurrence of [k] in [Order]. *)
Fixpoint replaceFirst (l : list str) (k k' : str) : list str :=
  match l with
  | [] => []
  | x :: l' => if bool_decide (x = k) then k' :: l' else x :: replaceFirst l' k k'
  end.

(** Set one cell, with its index entry and fast cell. *)
Definition updateCell (t : Table) (col : str) (v : value) (k : str) (r : row) : Table :=
  let old := valueKey (rowGet r col) in
  let t1 := set_rows t (<[k := <[col := v]> r]> (tRows t)) in
  let t2 := removeIndexValue t1 col old k in
  let t3 := addIndexValue t2 col (valueKey v) k in
  updateFastRowLocked t3 k col v.

Definition rekeyPrimaryLocked (t : Table) (oldKey : str) (newVal : value) : res Result * Table :=
  let newKey := valueKey newVal in
  let r := default ∅ (tRows t !! oldKey) in
  let pk := primaryColumn t in
  if bool_decide (newKey = oldKey)
  then (Ok (resultAffected 1), updateCell t pk newVal oldKey r)
  else if isLive (tRows t) newKey
  then (errorsNew "duplicate primary key", t)
  else
    let t1 := removeRowIndexes t r oldKey in
    let r' := <[pk := newVal]> r in
    let t2 := set_rows t1 (<[newKey := r']> (delete oldKey (tRows t1))) in
    let t3 := set_order t2 (replaceFirst (tOrder t2) oldKey newKey) in
    let t4 := addRowIndexes t3 r' newKey in
    (Ok (resultAffected 1), rekeyFastRowLocked t4 oldKey newKey newVal).

(** The keys of the rows that match, in map-iteration order. *)
Definition matchingKeys (e : Env) (site : nat) (t : Table) (w : mwhere) (x : expected) : list str :=
  filter (λ k, match tRows t !! k with Some r => mutationMatches w x r | None => false end = true)
         (env_range e site (map_to_list (tRows t)).*1).

Definition updatePrimaryMultiLocked (e : Env) (t : Table) (w : mwhere) (x : expected) (v : value)
    : res Result * Table :=
  match matchingKeys e site_updatePrimary t w x with
  | [] => (Ok (resultAffected 0), t)
  | [k] =>
      if isLive (tRows t) (valueKey v) && negb (bool_decide (valueKey v = k))
      then (errorsNew "duplicate primary key", t)
      else rekeyPrimaryLocked t k v
  | _ => (errorsNew "duplicate primary key", t)
  end.

(** The scan path: every row of the map, in map-iteration order. *)
Definition updateStep (w : mwhere) (x : expected) (col : str) (v : value) (s : Table * Z) (k : str)
    : Table * Z :=
  let '(t, n) := s in
  match tRows t !! k with
  | None => s
  | Some r => if mutationMatches w x r then (updateCell t col v k r, n + 1) else s
  end.
Definition updateScan (e : Env) (t : Table) (w : mwhere) (x : expected) (col : str) (v : value)
    : res Result * Table :=
  match scan_all e site_update (updateStep w x col v)
                 (env_range e site_update (map_to_list (tRows t)).*1) (t, 0) with
  | ((t', _), Some c) => (Err (ECtx c), t')
  | ((t', n), None) => (Ok (resultAffected n), t')
  end.

Definition updateRows (e : Env) (t : Table) (w : mwhere) (x : expected) (col : str) (v : value)
    : res Result * Table :=
  let pk := primaryColumn t in
  let isPKUpdate := bool_decide (col = pk) && negb (bool_decide (pk = [])) in
  if negb (bool_decide (mwColumn w = [])) && bool_decide (mwColumn w = pk)
     && bool_decide (mwOp w = opEq)
  then match tRows t !! mwValue w with
       | None => (Ok resultEmpty, t)
       | Some r =>
           if isPKUpdate then rekeyPrimaryLocked t (mwValue w) v
           else (Ok (resultAffected 1), updateCell t col v (mwValue w) r)
       end
  else if isPKUpdate then updatePrimaryMultiLocked e t w x v
  else updateScan e t w x col v.

End Mutate.
