(* ===== verification/MutateProofs.v ===== *)
(** * UPDATE and DELETE are correct

    DELETE filters the abstract content, UPDATE maps it, primary-key moves
    rename one entry in place; all keep the table invariant.  The hypotheses
    that are not part of the invariant mark the inputs on which the code breaks
    it. *)

From S2P Require Import Prelude GoLib GoFacts Fold Value Parser Table TableInv Insert InsertProofs Mutate.
Open Scope Z_scope.

Section MutateProofs.
Context `{GoStd}.

(** ** Removing one row *)

Definition removeRow (t : Table) (k : str) (r : row) : Table :=
  removeFastRowLocked (set_rows (removeRowIndexes t r k) (delete k (tRows t))) k.

Lemma removeFast_fields t k :
  let t' := removeFastRowLocked t k in
  tColumns t' = tColumns t ∧ tRows t' = tRows t ∧ tOrder t' = tOrder t ∧
  tIndexes t' = tIndexes t ∧ tIndexNames t' = tIndexNames t ∧ tDead t' = tDead t ∧
  tAutoKey t' = tAutoKey t ∧ tName t' = tName t.
Proof. unfold removeFastRowLocked. repeat case_match; done. Qed.

Lemma removeFast_dead t k d : removeFastRowLocked (set_dead t d) k = set_dead (removeFastRowLocked t k) d.
Proof. unfold removeFastRowLocked, fastOn. simpl. repeat case_match; done. Qed.

Lemma removeFast_ok t content k :
  fast_ok (tColumns t) content (tFast t) → NoDup content.*1 → k ≠ [] →
  fast_ok (tColumns t) (filter (λ p, p.1 ≠ k) content) (tFast (removeFastRowLocked t k)).
Proof.
  intros Hf Hnd Hne. unfold removeFastRowLocked, fastOn. case_match eqn:Hon; btoz.
  - destruct Hf as [? Hp ? Hd]. by split.
  - case_match; [apply fast_ok_none|].
    destruct (fPos (tFast t) !! k) as [i|] eqn:Hi; simpl.
    + by apply fast_ok_remove.
    + pose proof (fast_ok_absent _ _ _ k Hf Hon Hi Hne) as Hk.
      rewrite filter_all; [done|]. intros p Hp <-. apply Hk. by apply list_elem_of_fmap_2.
Qed.

Lemma removeFast_sized t k : fast_sized t → fast_sized (removeFastRowLocked t k).
Proof.
  unfold removeFastRowLocked, fastOn, fast_sized. intros Hs.
  repeat case_match; simpl; try done. intros _. btoz. by apply Hs.
Qed.

(** The invariant with an explicit tombstone count. *)
Definition wf_dead (t : Table) (d : nat) : Prop := table_wf (set_dead t d).

Lemma removeRow_wf t d k r :
  wf_dead t d → tRows t !! k = Some r →
  wf_dead (removeRow t k r) (S d) ∧ absRows (removeRow t k r) = filter (λ p, p.1 ≠ k) (absRows t).
Proof.
  unfold wf_dead, removeRow. intros Ht Hk.
  pose proof (proj1 (table_wf_base _) Ht) as [Hb Hf].
  pose proof (base_wf_nonempty _ _ _ Hb Hk) as Hne.
  set (t2 := set_rows _ _). rewrite <- removeFast_dead.
  destruct (removeFast_fields t2 k) as (_ & Hr0 & Ho0 & _).
  assert (Habs : absRows t2 = filter (λ p, p.1 ≠ k) (absRows t)) by apply absL_delete.
  split; [|unfold absRows in *; by rewrite Hr0, Ho0].
  destruct (removeFast_fields (set_dead t2 (S d)) k) as (Hc & Hr & Ho & Hi & Hn & Hd & Ha & _).
  cbv zeta in Hc, Hr, Ho, Hi, Hn, Hd, Ha.
  apply table_wf_base. split.
  - destruct Hb as [Bc Br Bk Bo Bi Bx Bn Ba].
    split; unfold primaryColumn in *; rewrite ?Hc, ?Hr, ?Ho, ?Hi, ?Hn, ?Hd, ?Ha; subst t2; simpl in *.
    + done.
    + by apply map_Forall_delete.
    + by apply map_Forall_delete.
    + destruct Bo as [On Ol Od]. split; [done| |].
      * intros k' [_ ?]%lookup_delete_is_Some. by apply Ol.
      * rewrite map_size_delete, Hk. simpl in Od.
        assert (size (tRows t) ≠ 0%nat) by (apply map_size_ne_0_lookup_2 with k; by rewrite Hk).
        lia.
    + by apply removeRowIndexes_ok.
    + intros c. rewrite imap_is_Some. apply Bx.
    + intros n c Hc'. apply imap_is_Some. by eapply Bn.
    + done.
  - unfold absRows at 1. rewrite Hr, Ho, Hc. change (absL _ _) with (absRows t2). rewrite Habs.
    apply (removeFast_ok (set_dead t2 (S d)) (absRows t)); [done | | done].
    by apply (absRows_nodup (set_dead t d)).
Qed.

(** ** DELETE by primary key *)

Lemma deleteKey_unfold t k r :
  tRows t !! k = Some r →
  deleteKey t k = (Ok (resultAffected 1),
    reapFast (compactOrderLocked (set_dead (removeRow t k r) (S (tDead t))))).
Proof.
  intros Hk. unfold deleteKey. rewrite Hk. cbv zeta. by rewrite removeFast_dead.
Qed.

Lemma set_dead_same t : set_dead t (tDead t) = t.
Proof. by destruct t. Qed.

(** DELETE ... WHERE pk = v on a well-formed table removes exactly the row of
    that key from the content (reporting 1, or 0 and no change when there is
    none), and keeps the table well-formed, whichever of tombstoning, compaction
    and fast-path rebuild it triggers. *)
Theorem deleteKey_removes t k :
  table_wf t → fast_sized t →
  let '(res, t') := deleteKey t k in
  table_wf t' ∧ fast_sized t' ∧ absRows t' = filter (λ p, p.1 ≠ k) (absRows t) ∧
  res = Ok (resultAffected (if isLive (tRows t) k then 1 else 0)).
Proof.
  intros Ht Hs. pose proof (proj1 (proj1 (table_wf_base t) Ht)) as Hb.
  destruct (tRows t !! k) as [r|] eqn:Hk.
  - rewrite (deleteKey_unfold _ _ _ Hk).
    rewrite <- (set_dead_same t) in Ht.
    destruct (removeRow_wf t (tDead t) k r Ht Hk) as [Hw Ha]. unfold wf_dead in Hw.
    split_and!.
    + by apply reapFast_wf, compactOrder_wf.
    + apply reapFast_sized, compactOrder_sized. by apply (removeFast_sized _ k).
    + rewrite reapFast_abs, compactOrder_abs. exact Ha.
    + by rewrite (proj2 (isLive_true _ _)) by eauto.
  - unfold deleteKey. rewrite Hk. split_and!; try done.
    + rewrite filter_all; [done|]. intros [k' r'] Hin Heq. simpl in Heq. subst k'.
      apply absRows_key in Hin; [congruence | done].
    + by rewrite (proj2 (isLive_false _ _)).
Qed.

(** ** DELETE by scan *)

Definition removeMatching (w : mwhere) (x : expected) (t : Table) (k : str) : Table :=
  match tRows t !! k with
  | Some r => if mutationMatches w x r then removeRow t k r else t
  | None => t
  end.

(** Live and not matching: the key stays in [Order]. *)
Definition keeps (w : mwhere) (x : expected) (t : Table) (k : str) : bool :=
  match tRows t !! k with Some r => negb (mutationMatches w x r) | None => false end.
Definition drops (w : mwhere) (x : expected) (t : Table) (k : str) : bool :=
  match tRows t !! k with Some r => mutationMatches w x r | None => false end.

Lemma removeRow_rows t k r : tRows (removeRow t k r) = delete k (tRows t).
Proof. unfold removeRow. by rewrite (proj1 (proj2 (removeFast_fields _ _))). Qed.
Lemma removeRow_order t k r : tOrder (removeRow t k r) = tOrder t.
Proof. unfold removeRow. by rewrite (proj1 (proj2 (proj2 (removeFast_fields _ _)))). Qed.

Lemma removeMatching_other w x t k k' :
  k ≠ k' → tRows (removeMatching w x t k) !! k' = tRows t !! k'.
Proof.
  intros Hk. unfold removeMatching. repeat case_match; try done.
  rewrite removeRow_rows. by apply lookup_delete_ne.
Qed.
Lemma removeMatching_order w x t k : tOrder (removeMatching w x t k) = tOrder t.
Proof. unfold removeMatching. repeat case_match; try done. apply removeRow_order. Qed.

Lemma filter_ext_on {A} (f g : A → bool) (l : list A) :
  (∀ a, a ∈ l → f a = g a) → filter (λ a, f a = true) l = filter (λ a, g a = true) l.
Proof.
  induction l as [|a l IH]; intros Heq; [done|]. rewrite !filter_cons, (Heq a) by left.
  rewrite IH by (intros; apply Heq; by right). done.
Qed.

(** The in-place compaction loop.  The array is [K ++ M ++ l]: kept keys, a gap,
    and the keys still to be read. *)
Lemma deleteStep_fold w x l : ∀ t K M n,
  NoDup l →
  ∃ M', foldl (deleteStep w x) (mkDel t (K ++ M ++ l) (length K) n) (seq (length K + length M) (length l))
    = let kept := K ++ filter (λ k, keeps w x t k = true) l in
      mkDel (foldl (removeMatching w x) t l) (kept ++ M') (length kept)
            (n + Z.of_nat (length (filter (λ k, drops w x t k = true) l))).
Proof.
  induction l as [|k l IH]; intros t K M n Hnd; simpl.
  - exists M. by rewrite !app_nil_r, Z.add_0_r.
  - apply NoDup_cons in Hnd as [Hk Hnd]. rewrite !filter_cons.
    assert (Hoth : ∀ k', k' ∈ l → tRows (removeMatching w x t k) !! k' = tRows t !! k')
      by (intros; apply removeMatching_other; set_solver).
    assert (Hkeep : filter (λ k', keeps w x (removeMatching w x t k) k' = true) l
                    = filter (λ k', keeps w x t k' = true) l).
    { apply filter_ext_on. intros k' Hk'. unfold keeps. by rewrite Hoth. }
    assert (Hdrop : filter (λ k', drops w x (removeMatching w x t k) k' = true) l
                    = filter (λ k', drops w x t k' = true) l).
    { apply filter_ext_on. intros k' Hk'. unfold drops. by rewrite Hoth. }
    assert (Hget : (K ++ M ++ k :: l) !! (length K + length M)%nat = Some k).
    { rewrite app_assoc, lookup_app_r by (rewrite length_app; lia).
      rewrite length_app, Nat.sub_diag. done. }
    destruct (tRows t !! k) as [r|] eqn:Hr; [destruct (mutationMatches w x r) eqn:Hm|].
    + assert (Hrm : removeMatching w x t k = removeRow t k r) by (unfold removeMatching; by rewrite Hr, Hm).
      assert (Hst : deleteStep w x (mkDel t (K ++ M ++ k :: l) (length K) n) (length K + length M)
                    = mkDel (removeRow t k r) (K ++ M ++ k :: l) (length K) (n + 1))
        by (unfold deleteStep; simpl; by rewrite Hget, Hr, Hm).
      rewrite Hst, Hrm in *.
      rewrite decide_False by (unfold keeps; by rewrite Hr, Hm).
      rewrite decide_True by (unfold drops; by rewrite Hr, Hm).
      destruct (IH (removeRow t k r) K (M ++ [k]) (n + 1) Hnd) as [M' HM].
      exists M'. rewrite <- app_assoc in HM. simpl in HM.
      rewrite length_app, Nat.add_assoc, Nat.add_1_r in HM. simpl in HM.
      etrans; [exact HM|]. rewrite Hkeep, Hdrop. simpl length. f_equal.
      rewrite Nat2Z.inj_succ. lia.
    + assert (Hrm : removeMatching w x t k = t) by (unfold removeMatching; by rewrite Hr, Hm).
      assert (Hst : deleteStep w x (mkDel t (K ++ M ++ k :: l) (length K) n) (length K + length M)
                    = mkDel t (<[length K := k]> (K ++ M ++ k :: l)) (S (length K)) n)
        by (unfold deleteStep; simpl; by rewrite Hget, Hr, Hm).
      rewrite Hst, Hrm in *.
      rewrite decide_True by (unfold keeps; by rewrite Hr, Hm).
      rewrite decide_False by (unfold drops; by rewrite Hr, Hm).
      rewrite insert_app_r_alt, Nat.sub_diag by lia.
      destruct M as [|m M]; simpl.
      * destruct (IH t (K ++ [k]) [] n Hnd) as [M' HM]. exists M'.
        rewrite <- !app_assoc in HM. simpl in HM.
        rewrite length_app in HM. simpl in HM. rewrite Nat.add_0_r, Nat.add_1_r in HM.
        rewrite Nat.add_0_r. etrans; [exact HM|]. by rewrite <- app_assoc.
      * destruct (IH t (K ++ [k]) (M ++ [k]) n Hnd) as [M' HM]. exists M'.
        rewrite <- !app_assoc in HM. simpl in HM.
        rewrite !length_app in HM. simpl in HM.
        replace (length K + 1 + (length M + 1))%nat with (S (length K + S (length M)))%nat in HM by lia.
        rewrite Nat.add_1_r in HM. etrans; [exact HM|]. rewrite !length_app, <- app_assoc. done.
    + assert (Hrm : removeMatching w x t k = t) by (unfold removeMatching; by rewrite Hr).
      assert (Hst : deleteStep w x (mkDel t (K ++ M ++ k :: l) (length K) n) (length K + length M)
                    = mkDel t (K ++ M ++ k :: l) (length K) n)
        by (unfold deleteStep; simpl; by rewrite Hget, Hr).
      rewrite Hst, Hrm in *.
      rewrite decide_False by (unfold keeps; by rewrite Hr).
      rewrite decide_False by (unfold drops; by rewrite Hr).
      destruct (IH t K (M ++ [k]) n Hnd) as [M' HM]. exists M'.
      rewrite <- app_assoc in HM. simpl in HM.
      rewrite length_app, Nat.add_assoc, Nat.add_1_r in HM. simpl in HM. exact HM.
Qed.

Lemma removeMatching_fold w x l : ∀ t d,
  NoDup l → wf_dead t d →
  let t' := foldl (removeMatching w x) t l in
  (∃ d', wf_dead t' d') ∧ tOrder t' = tOrder t ∧
  (∀ k, tRows t' !! k = if bool_decide (k ∈ l) && drops w x t k then None else tRows t !! k).
Proof.
  induction l as [|k l IH]; intros t d Hnd Hw; simpl.
  - split_and!; [by exists d | done | done].
  - apply NoDup_cons in Hnd as [Hk Hnd].
    assert (Hw1 : ∃ d1, wf_dead (removeMatching w x t k) d1).
    { unfold removeMatching. repeat case_match; eauto. exists (S d). by apply removeRow_wf. }
    destruct Hw1 as [d1 Hw1]. destruct (IH _ _ Hnd Hw1) as (H1 & H2 & H3).
    split_and!; [done | by rewrite H2, removeMatching_order |].
    intros k'. rewrite H3. unfold drops. destruct (decide (k = k')) as [<-|Hne].
    + rewrite bool_decide_false by done. rewrite bool_decide_true by left. simpl.
      unfold removeMatching. destruct (tRows t !! k) as [r|] eqn:Hr; [|done].
      case_match; [rewrite removeRow_rows; by rewrite lookup_delete_eq | done].
    + rewrite removeMatching_other by done.
      rewrite (bool_decide_ext (k' ∈ k :: l) (k' ∈ l)) by (rewrite elem_of_cons; naive_solver). done.
Qed.

(** The predicate of the statement on a row, as UPDATE and DELETE see it. *)
Definition rowMatches (w : mwhere) (x : expected) (p : str * row) : bool := mutationMatches w x p.2.

(** The rows of either verdict, by key. *)
Lemma absL_matching w x t l b :
  filter (λ p, rowMatches w x p = b) (absL (tRows t) l)
  = absL (tRows t) (filter (λ k, (if b then drops w x t k else keeps w x t k) = true) l).
Proof.
  induction l as [|k l IH]; [by destruct b|]. rewrite absL_cons, filter_cons.
  assert (Hb : (if b then drops w x t k else keeps w x t k)
               = match tRows t !! k with Some r => bool_decide (mutationMatches w x r = b) | None => false end).
  { unfold drops, keeps. destruct (tRows t !! k) as [r|]; [|by destruct b].
    by destruct (mutationMatches w x r), b. }
  rewrite Hb. clear Hb. destruct (tRows t !! k) as [r|] eqn:Hk.
  - rewrite filter_cons. unfold rowMatches at 1. simpl.
    destruct (decide (mutationMatches w x r = b)) as [Hm|Hm].
    + rewrite decide_True by by apply bool_decide_eq_true. by rewrite absL_cons, Hk, IH.
    + rewrite decide_False; [done|]. by rewrite bool_decide_eq_true.
  - rewrite IH. by rewrite decide_False.
Qed.

(** Reading the map after the removals gives the rows that did not match. *)
Lemma absL_removed w x t rows' l0 :
  (∀ k, rows' !! k = if bool_decide (k ∈ l0) && drops w x t k then None else tRows t !! k) →
  absL rows' l0 = absL (tRows t) (filter (λ k, keeps w x t k = true) l0).
Proof.
  intros Hr. enough (Hall : ∀ l, l ⊆ l0 →
    absL rows' l = absL (tRows t) (filter (λ k, keeps w x t k = true) l)) by by apply Hall.
  induction l as [|k l IH]; intros Hl; [done|]. rewrite absL_cons, filter_cons, Hr.
  rewrite bool_decide_true by set_solver. rewrite IH by set_solver. simpl.
  assert (Hd : drops w x t k = match tRows t !! k with Some _ => negb (keeps w x t k) | None => false end).
  { unfold drops, keeps. destruct (tRows t !! k); [|done]. by rewrite negb_involutive. }
  rewrite Hd. clear Hd. destruct (keeps w x t k) eqn:Hkp; simpl.
  - rewrite absL_cons. by destruct (tRows t !! k).
  - by destruct (tRows t !! k).
Qed.

Lemma dropped_length w x t l :
  length (absL (tRows t) (filter (λ k, drops w x t k = true) l))
  = length (filter (λ k, drops w x t k = true) l).
Proof.
  induction l as [|k l IH]; [done|]. rewrite !filter_cons.
  destruct (drops w x t k) eqn:Hd; simpl; [|done]. rewrite absL_cons.
  unfold drops in Hd. destruct (tRows t !! k); [simpl; by rewrite IH | done].
Qed.

(** C14: DELETE by scan (any predicate that is not a primary-key equality, or no
    predicate), not cancelled.  The rows that match are removed and no others,
    the remaining rows keep their relative order, the affected count is the
    number of matching rows, and the table stays well-formed: the in-place
    rewriting of the order slice is sound. *)
Theorem deleteScan_filters e t w x :
  env_quiet e → table_wf t →
  let '(res, t') := deleteScan e t w x in
  table_wf t' ∧
  absRows t' = filter (λ p, rowMatches w x p = false) (absRows t) ∧
  res = Ok (resultAffected (Z.of_nat (length (filter (λ p, rowMatches w x p = true) (absRows t))))).
Proof.
  intros Hq Ht. pose proof (wf_order _ Ht) as [Hnd Hlive _].
  unfold deleteScan. rewrite scan_all_quiet by done.
  destruct (deleteStep_fold w x (tOrder t) t [] [] 0 Hnd) as [M' HM]. simpl in HM. rewrite HM. simpl.
  rewrite <- (set_dead_same t) in Ht.
  destruct (removeMatching_fold w x (tOrder t) t (tDead t) Hnd Ht) as ([d' Hw] & Ho & Hr).
  cbv zeta in Hr, Ho. set (tn := foldl (removeMatching w x) t (tOrder t)) in *.
  rewrite take_app_length.
  assert (Hkept : filter (λ k, keeps w x t k = true) (tOrder t)
                  = filter (λ k, isLive (tRows tn) k = true) (tOrder tn)).
  { rewrite Ho. apply filter_ext_on. intros k Hk. unfold keeps, isLive. rewrite Hr.
    rewrite (bool_decide_true (k ∈ tOrder t)) by done. simpl. unfold drops.
    destruct (tRows t !! k) as [r|] eqn:Hk'; [destruct (mutationMatches w x r)|]; simpl; rewrite ?Hk'; done. }
  rewrite Hkept. set (t1 := set_dead (set_order tn _) 0).
  assert (Habs1 : absRows t1 = absL (tRows tn) (tOrder t)) by (rewrite <- Ho; apply absL_live).
  split_and!.
  - apply reapFast_wf, table_wf_base. unfold wf_dead in Hw.
    apply table_wf_base in Hw as [Hb Hf]. split.
    + destruct Hb as [Bc Br Bk Bo Bi Bx Bn Ba]. split; subst t1; simpl; try done.
      by eapply order_ok_reap.
    + rewrite Habs1, <- Ho. exact Hf.
  - unfold absRows at 2. rewrite reapFast_abs, Habs1, absL_matching. by apply absL_removed.
  - unfold absRows. by rewrite absL_matching, Z.add_0_l, dropped_length.
Qed.

(** ** UPDATE of one cell *)

(** A value the column [col] can hold. *)
Definition cell_ok (t : Table) (col : str) (v : value) : Prop :=
  hasColumn (tColumns t) col = true ∧ ∀ c, c ∈ tColumns t → cName c = col → has_type (cType c) v.

Lemma row_ok_set t col v r :
  cell_ok t col v → row_ok (tColumns t) r → row_ok (tColumns t) (<[col := v]> r).
Proof.
  intros [Hcol Hty] [Hdom Hrow]. split.
  - intros c. rewrite lookup_insert_is_Some'. rewrite Hdom. naive_solver.
  - intros c Hc. rewrite rowGet_insert. case_decide; [by apply Hty | by apply Hrow].
Qed.

(** The index half of [updateCell]. *)
Definition refile (ix : gmap str index) (col old new k : str) : gmap str index :=
  match ix !! col with
  | None => ix
  | Some m => <[col := bucketAdd (bucketRemove m old k) new k]> ix
  end.

Lemma updateCell_refile t col v k r :
  updateCell t col v k r
  = updateFastRowLocked (set_indexes (set_rows t (<[k := <[col := v]> r]> (tRows t)))
      (refile (tIndexes t) col (valueKey (rowGet r col)) (valueKey v) k)) k col v.
Proof.
  unfold updateCell, refile, removeIndexValue, addIndexValue. simpl.
  destruct (tIndexes t !! col) as [m|] eqn:Hm; simpl.
  - rewrite lookup_insert_eq. simpl. by rewrite insert_insert_eq.
  - rewrite Hm. by destruct t.
Qed.

Lemma refile_is_Some ix col old new k c :
  is_Some (refile ix col old new k !! c) ↔ is_Some (ix !! c).
Proof.
  unfold refile. destruct (ix !! col) eqn:Hm; [|done].
  rewrite lookup_insert_is_Some'. split; [intros [<-|?]; eauto | by right].
Qed.

Lemma updateFast_fields t k col v :
  let t' := updateFastRowLocked t k col v in
  tColumns t' = tColumns t ∧ tRows t' = tRows t ∧ tOrder t' = tOrder t ∧
  tIndexes t' = tIndexes t ∧ tIndexNames t' = tIndexNames t ∧ tDead t' = tDead t ∧
  tAutoKey t' = tAutoKey t ∧ tName t' = tName t ∧
  (fRows (tFast t') = [] ↔ fRows (tFast t) = []).
Proof.
  unfold updateFastRowLocked. repeat case_match; split_and!; try done. simpl.
  by rewrite <- !length_zero_iff_nil, length_alter.
Qed.

(** An in-place rewrite of the values of one row of the fast array. *)
Lemma fast_ok_same_key cols content fp k r' i g :
  fast_ok cols content fp → NoDup content.*1 → fPos fp !! k = Some i →
  (∀ r, (k, r) ∈ content → g (fastValues cols r) = fastValues cols r') →
  fast_ok cols (map (λ p, if bool_decide (p.1 = k) then (k, r') else p) content)
    (mkFastPath (alter (λ f, mkFast (fKey f) (g (fValues f))) i (fRows fp)) (fCols fp) (fPos fp) (fDead fp)).
Proof.
  intros Hf Hnd Hi Hg.
  destruct (fast_split _ _ _ _ _ Hf Hnd Hi) as (l1 & vs & l2 & _ & _ & _ & Hl & Hlen & Hne & _).
  pose proof (fast_ok_overwrite _ _ _ k k r' i g Hf Hnd Hi Hne (or_introl eq_refl) Hg) as Hov.
  rewrite insert_delete_eq, insert_id in Hov by done.
  replace (alter (λ f, mkFast (fKey f) (g (fValues f))) i (fRows fp))
    with (alter (λ f, mkFast k (g (fValues f))) i (fRows fp)); [done|].
  rewrite Hl, <- Hlen. by rewrite !alter_app_r_alt, !Nat.sub_diag by lia.
Qed.

Lemma updateFast_ok t content k r0 col v :
  cols_ok (tColumns t) → hasColumn (tColumns t) col = true →
  fast_ok (tColumns t) content (tFast t) → NoDup content.*1 → (k, r0) ∈ content → k ≠ [] →
  fast_ok (tColumns t) (map (λ p, if bool_decide (p.1 = k) then (k, <[col := v]> r0) else p) content)
    (tFast (updateFastRowLocked t k col v)).
Proof.
  intros [Hcn _] Hcol Hf Hnd Hin Hne. unfold updateFastRowLocked, fastOn.
  case_match eqn:Hon; btoz.
  - destruct Hf as [? Hp ? Hd]. by split.
  - rewrite (fast_cols _ _ _ Hf Hon).
    destruct (colPos 0 (tColumns t) ∅ !! col) as [ci|] eqn:Hci;
      [|by rewrite (colPos_None _ _ Hcn Hci) in Hcol].
    destruct (fPos (tFast t) !! k) as [i|] eqn:Hi; simpl.
    + rewrite <- (fast_cols _ _ _ Hf Hon). apply (fast_ok_same_key _ _ _ _ _ _ (λ vs, <[ci := v]> vs)); try done.
      intros r Hr. assert (r = r0) as -> by (by eapply nodup_fst_unique).
      by apply fastValues_set.
    + exfalso. apply (fast_ok_absent _ _ _ k Hf Hon Hi Hne). by apply (list_elem_of_fmap_2 fst) in Hin.
Qed.

(** The primary cell may only be overwritten with a value of the same key. *)
Definition keeps_key (t : Table) (col : str) (v : value) (k : str) : Prop :=
  primaryColumn t ≠ [] → col = primaryColumn t → valueKey v = k.

Lemma updateCell_fields t col v k r :
  let t' := updateCell t col v k r in
  tColumns t' = tColumns t ∧ tRows t' = <[k := <[col := v]> r]> (tRows t) ∧ tOrder t' = tOrder t ∧
  (fast_sized t → fast_sized t').
Proof.
  cbv zeta. rewrite updateCell_refile. set (t3 := set_indexes _ _).
  destruct (updateFast_fields t3 k col v) as (-> & -> & Ho & _ & _ & _ & _ & _ & Hon).
  split_and!; try done. intros Hs Hne. rewrite Ho. apply Hs. intros E. apply Hne. by apply Hon.
Qed.

Lemma updateCell_wf t col v k r :
  table_wf t → tRows t !! k = Some r → cell_ok t col v → keeps_key t col v k →
  table_wf (updateCell t col v k r).
Proof.
  intros Ht Hk Hcell Hkey. pose proof (proj1 (table_wf_base t) Ht) as [Hb Hf].
  rewrite updateCell_refile. set (t3 := set_indexes _ _).
  destruct (updateFast_fields t3 k col v) as (Hc & Hr & Ho & Hi & Hn & Hd & Ha & _ & _).
  cbv zeta in Hc, Hr, Ho, Hi, Hn, Hd, Ha.
  apply table_wf_base. split.
  - destruct Hb as [Bc Br Bk Bo Bi Bx Bn Ba].
    split; unfold primaryColumn; rewrite ?Hc, ?Hr, ?Ho, ?Hi, ?Hn, ?Hd, ?Ha; subst t3; simpl; try done.
    + apply map_Forall_insert_2; [|done]. apply row_ok_set; [done | by eapply Br].
    + apply map_Forall_insert_2; [|done]. destruct (Bk _ _ Hk) as [Hne Hpk]. split; [done|].
      intros Hp. rewrite rowGet_insert. case_decide; [symmetry; by apply Hkey | by apply Hpk].
    + destruct Bo as [On Ol Od]. split; [done| |].
      * intros k'. rewrite lookup_insert_is_Some'. intros [<-|?]; apply Ol; eauto.
      * by rewrite map_size_insert, Hk.
    + by apply updateCell_indexes_ok.
    + intros c. rewrite refile_is_Some. apply Bx.
    + intros n c Hc'. apply refile_is_Some. by eapply Bn.
  - unfold absRows at 1. rewrite Hr, Ho, Hc. change (tRows t3) with (<[k:=<[col:=v]> r]> (tRows t)).
    rewrite absL_overwrite by eauto.
    apply (updateFast_ok t3 (absRows t)); [apply Hb | apply Hcell | done |..].
    + by apply absRows_nodup.
    + by apply absRows_key.
    + by eapply base_wf_nonempty.
Qed.

(** ** UPDATE by scan *)

Lemma updateStep_fold w x col v l : ∀ t n,
  NoDup l → table_wf t → cell_ok t col v → (∀ k, keeps_key t col v k) →
  let '(t', n') := foldl (updateStep w x col v) (t, n) l in
  table_wf t' ∧ (fast_sized t → fast_sized t') ∧ tOrder t' = tOrder t ∧
  n' = n + Z.of_nat (length (filter (λ k, drops w x t k = true) l)) ∧
  (∀ k, tRows t' !! k = if bool_decide (k ∈ l) && drops w x t k
                        then (λ r, <[col := v]> r) <$> tRows t !! k else tRows t !! k).
Proof.
  induction l as [|k l IH]; intros t n Hnd Ht Hcell Hkey; cbn [foldl].
  { split_and!; [done | done | done | simpl; lia | done]. }
  apply NoDup_cons in Hnd as [Hk Hnd].
  set (t1 := match tRows t !! k with
             | Some r => if mutationMatches w x r then updateCell t col v k r else t | None => t end).
  set (n1 := if drops w x t k then n + 1 else n).
  assert (Hst : updateStep w x col v (t, n) k = (t1, n1)).
  { subst t1 n1. unfold updateStep, drops. repeat case_match; done. }
  assert (H1 : table_wf t1 ∧ (fast_sized t → fast_sized t1) ∧ tOrder t1 = tOrder t ∧ tColumns t1 = tColumns t ∧
     ∀ k', tRows t1 !! k' = if bool_decide (k' = k) && drops w x t k'
                        then (λ r, <[col := v]> r) <$> tRows t !! k' else tRows t !! k').
  { subst t1. unfold drops. destruct (tRows t !! k) as [r|] eqn:Hr; [destruct (mutationMatches w x r) eqn:Hm|];
      split_and!; try done; try (by intros k'; case_bool_decide; [subst; rewrite Hr, ?Hm|]).
    - by apply updateCell_wf.
    - apply updateCell_fields.
    - apply updateCell_fields.
    - apply updateCell_fields.
    - intros k'. rewrite (proj1 (proj2 (updateCell_fields _ _ _ _ _))), lookup_insert.
      case_bool_decide as Hkk; [subst; by rewrite decide_True, Hr, Hm | by rewrite decide_False]. }
  destruct H1 as (Hw1 & Hs1 & Ho1 & Hc1 & Hr1).
  rewrite Hst. specialize (IH t1 n1 Hnd Hw1).
  destruct (foldl _ _ l) as [t' n'].
  destruct IH as (Hw & Hs & Ho & Hn & Hr).
  { unfold cell_ok. by rewrite Hc1. } { intros k'. unfold keeps_key, primaryColumn. rewrite Hc1. apply Hkey. }
  assert (Hdr : ∀ k', k' ≠ k → drops w x t1 k' = drops w x t k').
  { intros k' Hne. unfold drops. by rewrite Hr1, bool_decide_false. }
  split_and!; [done | naive_solver | by rewrite Ho | |].
  - rewrite Hn. subst n1. rewrite filter_cons.
    rewrite (filter_ext_on (drops w x t1) (drops w x t)) by (intros k' ?; apply Hdr; set_solver).
    destruct (drops w x t k) eqn:Hd; [rewrite decide_True by done | rewrite decide_False by done]; simpl; lia.
  - intros k'. rewrite Hr, Hr1. destruct (decide (k' = k)) as [->|Hne].
    + rewrite !(bool_decide_false (k ∈ l)), !bool_decide_true by (set_solver || done). done.
    + rewrite Hdr, (bool_decide_false (k' = k)) by done. simpl.
      by rewrite (bool_decide_ext (k' ∈ k :: l) (k' ∈ l)) by (rewrite elem_of_cons; naive_solver).
Qed.

(** What UPDATE does to one row of the content. *)
Definition assignRow (w : mwhere) (x : expected) (col : str) (v : value) (p : str * row) : str * row :=
  if rowMatches w x p then (p.1, <[col := v]> p.2) else p.

Lemma absL_assigned w x t col v rows' l :
  (∀ k, k ∈ l → rows' !! k = if drops w x t k then (λ r, <[col := v]> r) <$> tRows t !! k else tRows t !! k) →
  absL rows' l = map (assignRow w x col v) (absL (tRows t) l).
Proof.
  induction l as [|k l IH]; intros Hr; [done|]. rewrite !absL_cons, IH by (intros; apply Hr; by right).
  rewrite (Hr k) by left. unfold drops. destruct (tRows t !! k) as [r|]; [|done].
  assert (Ha : assignRow w x col v (k, r) = if mutationMatches w x r then (k, <[col := v]> r) else (k, r)) by done.
  cbn [map]. rewrite Ha. by destruct (mutationMatches w x r).
Qed.

Lemma matching_count w x t l :
  length (filter (λ k, drops w x t k = true) l)
  = length (filter (λ p, rowMatches w x p = true) (absL (tRows t) l)).
Proof. by rewrite absL_matching, dropped_length. Qed.

(** Counting over the map's keys in any order counts over the content. *)
Lemma matching_count_perm w x t ks :
  base_wf t → ks ≡ₚ (map_to_list (tRows t)).*1 →
  length (filter (λ k, drops w x t k = true) ks)
  = length (filter (λ p, rowMatches w x p = true) (absRows t)).
Proof.
  intros Hb Hks. unfold absRows. rewrite <- matching_count. apply Permutation_length.
  apply NoDup_Permutation.
  - apply NoDup_filter. rewrite Hks. apply NoDup_fst_map_to_list.
  - apply NoDup_filter, Hb.
  - intros k. rewrite !list_elem_of_filter. unfold drops.
    destruct (tRows t !! k) as [r|] eqn:Hk; [|naive_solver].
    assert (k ∈ ks). { rewrite Hks. apply list_elem_of_fmap. exists (k, r). by rewrite elem_of_map_to_list. }
    assert (k ∈ tOrder t) by (apply Hb; eauto). naive_solver.
Qed.

(** C15: UPDATE of a non-key column by scan, not cancelled, on a well-formed table
    whose fast array is not shorter than the threshold ([fast_sized]), whatever order
    the row map is visited in: exactly the matching rows get the new cell, the order
    of the rows is unchanged, the affected count is the number of matches, and
    indexes and fast path follow. *)
Theorem updateScan_assigns e t w x col v :
  env_quiet e → env_fair e → table_wf t → fast_sized t → cell_ok t col v →
  (primaryColumn t = [] ∨ col ≠ primaryColumn t) →
  let '(res, t') := updateScan e t w x col v in
  table_wf t' ∧ fast_sized t' ∧
  absRows t' = map (assignRow w x col v) (absRows t) ∧
  res = Ok (resultAffected (Z.of_nat (length (filter (λ p, rowMatches w x p = true) (absRows t))))).
Proof.
  intros Hq Hfair Ht Hs Hcell Hpk. unfold updateScan. rewrite scan_all_quiet by done.
  set (ks := env_range e site_update _). assert (Hks : ks ≡ₚ (map_to_list (tRows t)).*1) by apply Hfair.
  pose proof (updateStep_fold w x col v ks t 0) as Hf. destruct (foldl _ _ ks) as [t' n'].
  destruct Hf as (Hw & Hs' & Ho & Hn & Hr); try done.
  { rewrite Hks. apply NoDup_fst_map_to_list. } { intros k. unfold keeps_key. naive_solver. }
  split_and!; [done | by apply Hs' | |].
  - unfold absRows. rewrite Ho. apply absL_assigned. intros k _. rewrite Hr.
    case_bool_decide as Hin; [done|]. unfold drops.
    destruct (tRows t !! k) as [r|] eqn:Hk; [|done]. destruct Hin. rewrite Hks.
    apply list_elem_of_fmap. exists (k, r). by rewrite elem_of_map_to_list.
  - rewrite Hn, (matching_count_perm _ _ _ ks) by (done || by apply table_wf_base). done.
Qed.

(** ** Primary-key moves *)

Lemma replaceFirst_notin l k k' : k ∉ l → replaceFirst l k k' = l.
Proof.
  induction l as [|x l IH]; intros Hk; [done|]. simpl.
  rewrite bool_decide_false, IH by set_solver. done.
Qed.

Lemma replaceFirst_elem l k k' x :
  NoDup l → x ∈ replaceFirst l k k' ↔ (x ∈ l ∧ x ≠ k) ∨ (k ∈ l ∧ x = k').
Proof.
  induction l as [|y l IH]; intros Hnd; simpl; [set_solver|].
  apply NoDup_cons in Hnd as [Hy Hnd]. case_bool_decide as Hk.
  - subst y. rewrite !elem_of_cons. split; [|naive_solver].
    intros [->|Hx]; [by right; auto|]. left. split; [by right | intros ->; done].
  - rewrite !elem_of_cons, IH by done. naive_solver.
Qed.

Lemma replaceFirst_nodup l k k' : NoDup l → k' ∉ l → NoDup (replaceFirst l k k').
Proof.
  induction l as [|y l IH]; intros Hnd Hk'; simpl; [done|].
  apply NoDup_cons in Hnd as [Hy Hnd]. case_bool_decide as Hk.
  - apply NoDup_cons. split; [set_solver | done].
  - apply NoDup_cons. split; [|apply IH; set_solver]. rewrite replaceFirst_elem by done. set_solver.
Qed.

Lemma replaceFirst_length l k k' : length (replaceFirst l k k') = length l.
Proof. induction l as [|y l IH]; [done|]. simpl. case_bool_decide; simpl; congruence. Qed.

Lemma absL_rekey rows l k k' r' :
  NoDup l → k' ∉ l → is_Some (rows !! k) →
  absL (<[k' := r']> (delete k rows)) (replaceFirst l k k')
  = map (λ p, if bool_decide (p.1 = k) then (k', r') else p) (absL rows l).
Proof.
  intros Hnd Hk' [r Hk]. induction l as [|y l IH]; [done|]. simpl.
  apply NoDup_cons in Hnd as [Hy Hnd]. rewrite (absL_cons rows). case_bool_decide as Hyk.
  - subst y. rewrite absL_cons, lookup_insert_eq, Hk. simpl. rewrite bool_decide_true by done. f_equal.
    rewrite map_id_on.
    + apply absL_congr. intros z Hz. rewrite lookup_insert_ne, lookup_delete_ne by set_solver. done.
    + intros [z rz] [Hz _]%elem_of_absL. simpl. rewrite bool_decide_false; [done | set_solver].
  - rewrite absL_cons, lookup_insert_ne, lookup_delete_ne, IH by set_solver.
    destruct (rows !! y); [|done]. simpl. by rewrite bool_decide_false.
Qed.

Lemma rekeyFast_fields t k k' v :
  let t' := rekeyFastRowLocked t k k' v in
  tColumns t' = tColumns t ∧ tRows t' = tRows t ∧ tOrder t' = tOrder t ∧
  tIndexes t' = tIndexes t ∧ tIndexNames t' = tIndexNames t ∧ tDead t' = tDead t ∧
  tAutoKey t' = tAutoKey t ∧ tName t' = tName t ∧
  (fRows (tFast t') = [] ↔ fRows (tFast t) = []).
Proof.
  unfold rekeyFastRowLocked. repeat case_match; split_and!; try done; simpl;
    by rewrite <- !length_zero_iff_nil, length_alter.
Qed.

Lemma primaryName_column cols : primaryName cols ≠ [] → hasColumn cols (primaryName cols) = true.
Proof.
  unfold primaryName. destruct (filter _ cols) as [|c l] eqn:Hf; [done|]. intros _.
  assert (Hc : c ∈ filter (λ c, cPrimary c = true) cols) by (rewrite Hf; left).
  apply list_elem_of_filter in Hc as [_ Hc]. unfold hasColumn. apply existsb_exists.
  exists c. rewrite bool_decide_true by done. split; [by apply list_elem_of_In | done].
Qed.

Lemma rekeyFast_ok t content k k' r0 v :
  cols_ok (tColumns t) → primaryColumn t ≠ [] →
  fast_ok (tColumns t) content (tFast t) → NoDup content.*1 → (k, r0) ∈ content → k ≠ [] →
  k' ≠ [] → k' ∉ content.*1 →
  fast_ok (tColumns t) (map (λ p, if bool_decide (p.1 = k) then (k', <[primaryColumn t := v]> r0) else p) content)
    (tFast (rekeyFastRowLocked t k k' v)).
Proof.
  intros [Hcn _] Hpk Hf Hnd Hin Hne Hne' Hk'. unfold rekeyFastRowLocked, fastOn.
  case_match eqn:Hon; btoz.
  - destruct Hf as [? Hp ? Hd]. by split.
  - rewrite (fast_cols _ _ _ Hf Hon).
    destruct (colPos 0 (tColumns t) ∅ !! primaryColumn t) as [ci|] eqn:Hci.
    2:{ pose proof (primaryName_column _ Hpk) as Hcol. unfold primaryColumn in Hci.
        by rewrite (colPos_None _ _ Hcn Hci) in Hcol. }
    destruct (fPos (tFast t) !! k) as [i|] eqn:Hi; simpl.
    + rewrite <- (fast_cols _ _ _ Hf Hon).
      apply (fast_ok_overwrite _ _ _ _ _ _ _ (λ vs, <[ci := v]> vs)); try done; [by right|].
      intros r Hr. assert (r = r0) as -> by (by eapply nodup_fst_unique).
      by apply fastValues_set.
    + exfalso. apply (fast_ok_absent _ _ _ k Hf Hon Hi Hne). by apply (list_elem_of_fmap_2 fst) in Hin.
Qed.

(** A key that is not a tombstone of [Order]. *)
Definition no_tombstone (t : Table) (k : str) : Prop := k ∈ tOrder t → is_Some (tRows t !! k).

Lemma rekey_fresh t k r v :
  table_wf t → fast_sized t → primaryColumn t ≠ [] → cell_ok t (primaryColumn t) v → tRows t !! k = Some r →
  valueKey v ≠ [] → valueKey v ∉ tOrder t →
  let '(res, t') := rekeyPrimaryLocked t k v in
  table_wf t' ∧ fast_sized t' ∧ res = Ok (resultAffected 1) ∧
  absRows t' = map (λ p, if bool_decide (p.1 = k) then (valueKey v, <[primaryColumn t := v]> r) else p) (absRows t).
Proof.
  intros Ht Hs Hpk Hcell Hk Hne Hnin. pose proof (proj1 (table_wf_base t) Ht) as [Hb Hf].
  assert (Hko : k ∈ tOrder t) by (apply Hb; eauto).
  assert (Hnone : tRows t !! valueKey v = None).
  { destruct (tRows t !! valueKey v) eqn:E; [|done]. destruct Hnin. apply Hb. by rewrite E. }
  unfold rekeyPrimaryLocked. rewrite Hk. simpl default.
  rewrite bool_decide_false by (intros <-; done). rewrite (proj2 (isLive_false _ _)) by done.
  cbv zeta. set (t4 := addRowIndexes _ _ _). set (r' := <[primaryColumn t := v]> r).
  assert (Habs : absRows t4 = map (λ p, if bool_decide (p.1 = k) then (valueKey v, r') else p) (absRows t)).
  { apply absL_rekey; [apply Hb | done | by exists r]. }
  destruct (rekeyFast_fields t4 k (valueKey v) v) as (Hc & Hr & Ho & Hi & Hn & Hd & Ha & _ & Hon).
  cbv zeta in Hc, Hr, Ho, Hi, Hn, Hd, Ha, Hon.
  assert (Habs' : absRows (rekeyFastRowLocked t4 k (valueKey v) v) = absRows t4)
    by (unfold absRows; by rewrite Hr, Ho).
  split_and!; [|..|done|by rewrite Habs', Habs].
  2:{ intros Hx. rewrite Ho. subst t4. simpl. rewrite replaceFirst_length. apply Hs.
      intros E. apply Hx. by apply Hon. }
  apply table_wf_base. split.
  - destruct Hb as [Bc Br Bk Bo Bi Bx Bn Ba].
    split; unfold primaryColumn; rewrite ?Hc, ?Hr, ?Ho, ?Hi, ?Hn, ?Hd, ?Ha; subst t4; simpl; try done.
    + apply map_Forall_insert_2; [|by apply map_Forall_delete]. apply row_ok_set; [done | by eapply Br].
    + apply map_Forall_insert_2; [|by apply map_Forall_delete]. split; [done|].
      intros _. rewrite rowGet_insert. by rewrite decide_True.
    + destruct Bo as [On Ol Od]. split; [by apply replaceFirst_nodup| |].
      * intros k'. rewrite lookup_insert_is_Some', lookup_delete_is_Some, replaceFirst_elem by done.
        naive_solver.
      * rewrite replaceFirst_length, map_size_insert_None, map_size_delete, Hk by by rewrite lookup_delete_None; right.
        assert (size (tRows t) ≠ 0%nat) by (apply map_size_ne_0_lookup_2 with k; by rewrite Hk). lia.
    + apply addRowIndexes_ok; [by apply removeRowIndexes_ok | rewrite lookup_delete_None; by right].
    + intros c. rewrite !imap_is_Some. apply Bx.
    + intros n c Hc'. rewrite !imap_is_Some. by eapply Bn.
  - rewrite Habs', Habs, Hc. apply (rekeyFast_ok t4 (absRows t)); try done; try apply Hb.
    + by apply absRows_nodup.
    + by apply absRows_key.
    + by eapply base_wf_nonempty.
    + rewrite absRows_key_in, Hnone by done. by intros [].
Qed.

(** UPDATE of the primary key of an existing row.  A key held by another row
    is rejected and nothing changes; otherwise the row moves to the new key at
    the same position, with its new primary cell, and order, indexes and fast
    path follow.  The new key must not be empty nor a leftover tombstone of the
    order slice: the code checks neither. *)
Theorem rekeyPrimary_moves t k r v :
  table_wf t → fast_sized t → primaryColumn t ≠ [] → cell_ok t (primaryColumn t) v →
  tRows t !! k = Some r → valueKey v ≠ [] → no_tombstone t (valueKey v) →
  let '(res, t') := rekeyPrimaryLocked t k v in
  if isLive (tRows t) (valueKey v) && negb (bool_decide (valueKey v = k))
  then res = errorsNew "duplicate primary key" ∧ t' = t
  else table_wf t' ∧ fast_sized t' ∧ res = Ok (resultAffected 1) ∧
       absRows t' = map (λ p, if bool_decide (p.1 = k) then (valueKey v, <[primaryColumn t := v]> r) else p)
                        (absRows t).
Proof.
  intros Ht Hs Hpk Hcell Hk Hne Hnt. destruct (isLive (tRows t) (valueKey v)) eqn:Hl; cbn [andb].
  - case_bool_decide as Hkk; cbn [negb].
    + unfold rekeyPrimaryLocked. rewrite bool_decide_true, Hk by done. simpl default.
      split_and!; [apply updateCell_wf; try done; by intros _ _ | by apply updateCell_fields | done |].
      destruct (updateCell_fields t (primaryColumn t) v k r) as (_ & Hr & Ho & _).
      unfold absRows. rewrite Hr, Ho, Hkk. apply absL_overwrite. by rewrite Hk.
    + unfold rekeyPrimaryLocked. by rewrite bool_decide_false, Hl by done.
  - apply rekey_fresh; try done. intros Hin%Hnt. apply isLive_false in Hl. rewrite Hl in Hin. by destruct Hin.
Qed.

End MutateProofs.
