(* ===== verification/Schema.v ===== *)
(** * The database and its schema statements: internal/engine/types.go,
    create.go, schema.go, drop.go and meta.go

    CREATE TABLE, CREATE INDEX, ALTER TABLE ADD/DROP COLUMN, DROP TABLE, DROP
    INDEX, TRUNCATE, and the introspection statements SHOW and DESCRIBE. *)

From S2P Require Import Prelude GoLib Fold Value Parser Table.
Open Scope Z_scope.

(** The mutexes are not part of the state: a statement is one step. *)
Record Database := mkDB {
  dTables : gmap str Table;
  dRevision : Z;          (* uint64 *)
  dBase : Z;              (* uint64 *)
}.
Definition dbNew : Database := mkDB ∅ 0 0.
Definition set_tables d x := mkDB x (dRevision d) (dBase d).

(** A statement on a state [S] (a table or the database). *)
Abbreviation stmt S := (res Result * S)%type (only parsing).

(** Continue with the value of [m], or return its error with the state as it is. *)
Definition orFail {A S} (s : S) (m : res A) (k : A → stmt S) : stmt S :=
  match m with Ok a => k a | Err e => (Err e, s) | Panic => (Panic, s) end.

Definition fail {S} (m : string) (s : S) : stmt S := (errorsNew m, s).

Section Schema.
Context `{GoStd}.

Definition dbTable (d : Database) (name : str) : res Table :=
  match dTables d !! ToLower name with
  | Some t => Ok t
  | None => errorsNew "table not found"
  end.

(** Run a statement on the table of that name, in place. *)
Definition onTable (d : Database) (name : str) (k : Table → stmt Table) : stmt Database :=
  orFail d (dbTable d name) (λ t,
    let '(r, t') := k t in (r, set_tables d (<[ToLower name := t']> (dTables d)))).

(** ** CREATE TABLE *)

Definition validType (t : ctype) : bool := match t with TOther _ => false | _ => true end.

Fixpoint createColumns (seen : gset str) (primaries : nat) (cols : list Column) (parts : list str)
    : res (list Column) :=
  match parts with
  | [] => Ok cols
  | part :: parts' =>
      match Fields (TrimSpace part) with
      | f0 :: f1 :: opts =>
          let colName := ToLower f0 in
          if bool_decide (colName ∈ seen) then errorsNew "duplicate column"
          else
            let colType := typeOf (ToUpper f1) in
            if negb (validType colType) then errorsNew "invalid column type"
            else
              let primary := existsb (λ x, EqualFold x (lit "PRIMARY")) opts in
              let primaries' := if primary then S primaries else primaries in
              if primary && (1 <? primaries')%nat then errorsNew "multiple primary keys"
              else createColumns ({[colName]} ∪ seen) primaries'
                     (cols ++ [mkColumn colName colType primary]) parts'
      | _ => errorsNew "invalid column"
      end
  end.

Definition emptyTable (name : str) (cols : list Column) : Table :=
  mkTable name cols ∅ [] ∅ ∅ noFast 0 0.

Definition parseCreate (s : str) : res (str * list Column) :=
  let a := Index s (lit "(") in
  let z := LastIndexByte s 41 in
  if (a <? 0) || (z <? a) then errorsNew "invalid CREATE TABLE"
  else
    let* pre := gslice s 0 a in
    match Fields pre with
    | _ :: _ :: h2 :: _ =>
        let* body := gslice s (a + 1) z in
        let* cols := createColumns ∅ 0 [] (SplitByte body 44) in
        Ok (ToLower h2, cols)
    | _ => errorsNew "invalid table name"
    end.

Definition create (d : Database) (s : str) : stmt Database :=
  orFail d (parseCreate s) (λ '(name, cols),
    match dTables d !! name with
    | Some _ => fail "table exists" d
    | None => (Ok (resultMessage "table created"),
               set_tables d (<[name := emptyTable name cols]> (dTables d)))
    end).

(** ** CREATE INDEX *)

Definition site_createIndex : nat := 30.

(** [s[len("CREATE INDEX"):on]], [s[on+2:open]] and [s[open+1:close]]: the
    second slice panics when the parenthesis precedes ON. *)
Definition parseCreateIndex (s : str) : res (str * str * str) :=
  let on := indexKeyword s (lit "ON") in
  let opn := Index s (lit "(") in
  let cls := LastIndexByte s 41 in
  if (on <? 0) || (opn <? 0) || (cls <=? opn) then errorsNew "invalid CREATE INDEX"
  else
    let* a := gslice s 12 on in
    let* b := gslice s (on + 2) opn in
    let* c := gslice s (opn + 1) cls in
    let indexName := TrimSpace a in
    let tableName := TrimSpace b in
    let column := ToLower (TrimSpace c) in
    if bool_decide (indexName = []) || bool_decide (tableName = []) || bool_decide (column = [])
       || ContainsByte column 44
    then errorsNew "invalid CREATE INDEX"
    else Ok (indexName, tableName, column).

Definition buildStep (t : Table) (column : str) (m : index) (key : str) : index :=
  match tRows t !! key with
  | Some r => bucketAdd m (valueKey (rowGet r column)) key
  | None => m
  end.

Definition mapKeys {A} (m : gmap str A) : list str := (map_to_list m).*1.

Definition createIndexOn (e : Env) (indexName column : str) (t : Table) : stmt Table :=
  if negb (hasColumn (tColumns t) column) then (columnNotFound column, t)
  else if bool_decide (is_Some (tIndexes t !! column)) then fail "index already exists for column" t
  else if bool_decide (is_Some (tIndexNames t !! ToLower indexName)) then fail "index name already exists" t
  else
    match scan_all e site_createIndex (buildStep t column)
            (env_range e site_createIndex (mapKeys (tRows t))) ∅ with
    | (_, Some c) => (Err (ECtx c), t)
    | (m, None) =>
        (Ok (resultMessage "index created"),
         set_indexNames (set_indexes t (<[column := m]> (tIndexes t)))
                        (<[ToLower indexName := column]> (tIndexNames t)))
    end.

Definition createIndex (e : Env) (d : Database) (s : str) : stmt Database :=
  orFail d (parseCreateIndex s) (λ '(indexName, tableName, column),
    onTable d tableName (createIndexOn e indexName column)).

(** ** ALTER TABLE *)

Definition site_addColumn : nat := 31.
Definition site_dropColumn : nat := 32.

(** [if len(t.fast) > 0 { t.rebuildFastPathLocked() }] *)
Definition refreshFast (t : Table) : Table := if fastOn t then rebuildFastPathLocked t else t.

Definition alterRow (f : row → row) (rows : gmap str row) (key : str) : gmap str row := alter f key rows.

Definition addColumn (e : Env) (column : str) (typ : ctype) (t : Table) : stmt Table :=
  if hasColumn (tColumns t) column then fail "column already exists" t
  else
    let t1 := set_columns t (tColumns t ++ [mkColumn column typ false]) in
    match scan_all e site_addColumn (alterRow (λ r, <[column := VNil]> r))
            (env_range e site_addColumn (mapKeys (tRows t))) (tRows t) with
    | (rows, Some c) => (Err (ECtx c), set_rows t1 rows)
    | (rows, None) => (Ok (resultMessage "column added"), refreshFast (set_rows t1 rows))
    end.

(** [append(t.Columns[:index], t.Columns[index+1:]...)] *)
Fixpoint removeColumn (cols : list Column) (name : str) : option (list Column) :=
  match cols with
  | [] => None
  | c :: cols' =>
      if bool_decide (cName c = name) then Some cols'
      else match removeColumn cols' name with Some l => Some (c :: l) | None => None end
  end.

Definition forgetIndex (column : str) (t : Table) : Table :=
  set_indexNames (set_indexes t (delete column (tIndexes t)))
                 (filter (λ p, p.2 ≠ column) (tIndexNames t)).

Definition dropColumn (e : Env) (name : str) (t : Table) : stmt Table :=
  let column := ToLower name in
  if (length (tColumns t) <=? 1)%nat then fail "cannot drop the only column" t
  else match removeColumn (tColumns t) column with
  | None => (columnNotFound column, t)
  | Some cols =>
      let t1 := set_columns t cols in
      match scan_all e site_dropColumn (alterRow (delete column))
              (env_range e site_dropColumn (mapKeys (tRows t))) (tRows t) with
      | (rows, Some c) => (Err (ECtx c), set_rows t1 rows)
      | (rows, None) =>
          (Ok (resultMessage "column dropped"), refreshFast (forgetIndex column (set_rows t1 rows)))
      end
  end.

Definition alterTable (e : Env) (d : Database) (s : str) : stmt Database :=
  let parts := Fields s in
  match parts with
  | _ :: _ :: p2 :: p3 :: rest =>
      if EqualFold p3 (lit "DROP") then
        let rest' := match rest with
                     | c :: rest' => if EqualFold c (lit "COLUMN") then rest' else rest
                     | [] => [] end in
        match rest' with
        | [col] => onTable d p2 (dropColumn e col)
        | _ => fail "invalid ALTER TABLE ... DROP COLUMN" d
        end
      else match rest with
      | [p4; p5; p6] =>
          if EqualFold p3 (lit "ADD") && EqualFold p4 (lit "COLUMN") then
            orFail d (dbTable d p2) (λ _,
              let column := ToLower p5 in
              let typ := typeOf (ToUpper p6) in
              if bool_decide (column = []) || negb (validType typ)
              then fail "invalid column name or type" d
              else onTable d p2 (addColumn e column typ))
          else fail "only ALTER TABLE ... ADD COLUMN or DROP COLUMN is supported" d
      | _ => fail "only ALTER TABLE ... ADD COLUMN or DROP COLUMN is supported" d
      end
  | _ => fail "only ALTER TABLE ... ADD COLUMN or DROP COLUMN is supported" d
  end.

(** ** DROP and TRUNCATE *)

(** [hasPrefixFold(s, kw) && (len(s) == len(kw) || !identifierByte(s[len(kw)]))] *)
Definition keywordPrefix (s kw : str) : bool :=
  hasPrefixFold s kw && negb (identifierOpt (head (drop (length kw) s))).

Definition blankInName (c : byte) : bool := (c =? 32) || (c =? 9) || (c =? 10) || (c =? 13).

Definition dropTable (d : Database) (s : str) : stmt Database :=
  orFail d (gslice s 10 (Z.of_nat (length s))) (λ rest,
  let rest := TrimSpace rest in
  let ifExists := keywordPrefix rest (lit "IF EXISTS") in
  let rest := if ifExists then TrimSpace (drop 9 rest) else rest in
  let name := ToLower rest in
  if bool_decide (name = []) || existsb blankInName name then fail "invalid DROP TABLE" d
  else match dTables d !! name with
  | None => if ifExists then (Ok (resultMessage "table does not exist"), d)
            else fail "table not found" d
  | Some _ => (Ok (resultMessage "table dropped"), set_tables d (delete name (dTables d)))
  end).

Definition dropIndexOn (indexName : str) (t : Table) : stmt Table :=
  let dropped column := (Ok (resultMessage "index dropped"), forgetIndex column t) in
  match tIndexNames t !! indexName with
  | Some column => dropped column
  | None =>
      match tIndexes t !! indexName with
      | Some _ => dropped indexName
      | None => (Err (EMsg (lit "index not found: " ++ indexName)), t)
      end
  end.

Definition dropIndex (d : Database) (s : str) : stmt Database :=
  orFail d (gslice s 10 (Z.of_nat (length s))) (λ rest,
  let rest := TrimSpace rest in
  let on := indexKeyword rest (lit "ON") in
  if on <? 0 then fail "invalid DROP INDEX" d
  else
    let indexName := ToLower (TrimSpace (take (Z.to_nat on) rest)) in
    let tableName := TrimSpace (drop (Z.to_nat on + 2) rest) in
    if bool_decide (indexName = []) || bool_decide (tableName = [])
       || negb (length (Fields indexName) =? 1)%nat || negb (length (Fields tableName) =? 1)%nat
    then fail "invalid DROP INDEX" d
    else onTable d tableName (dropIndexOn indexName)).

Definition dropStmt (d : Database) (s : str) : stmt Database :=
  if hasPrefixFold s (lit "DROP TABLE") then dropTable d s else dropIndex d s.

Definition truncateTable (t : Table) : Table :=
  mkTable (tName t) (tColumns t) ∅ [] ((λ _, ∅) <$> tIndexes t) (tIndexNames t) noFast 0 0.

Definition truncate (d : Database) (s : str) : stmt Database :=
  orFail d (gslice s 8 (Z.of_nat (length s))) (λ rest,
  let rest := TrimSpace rest in
  let rest := if keywordPrefix rest (lit "TABLE") then TrimSpace (drop 5 rest) else rest in
  match Fields rest with
  | [name] => onTable d name (λ t, (Ok (resultMessage "table truncated"), truncateTable t))
  | _ => fail "invalid TRUNCATE" d
  end).

(** ** SHOW and DESCRIBE *)

(** [sort.Strings] *)
Definition str_le (a b : str) : Prop := str_ltb b a = false.
#[global] Instance str_le_dec a b : Decision (str_le a b).
Proof. unfold str_le. apply _. Defined.
Definition sortStrings (l : list str) : list str := merge_sort str_le l.

Definition describeTable (d : Database) (name : str) : res Result :=
  let* t := dbTable d name in
  Ok (mkResult [lit "name"; lit "type"; lit "primary"]
        (map (λ c, [VStr (cName c); VStr (typeName (cType c)); VBool (cPrimary c)]) (tColumns t)) 0 []).

Definition describeFrom (d : Database) (rest : str) : res Result :=
  match Fields rest with
  | [f0; f1] => if EqualFold f0 (lit "FROM") then describeTable d f1 else errorsNew "invalid SHOW COLUMNS"
  | _ => errorsNew "invalid SHOW COLUMNS"
  end.

(** The reverse of [IndexNames]: the last name visited for a column wins. *)
Definition namesByColumn (e : Env) (names : gmap str str) : gmap str str :=
  foldl (λ m n, match names !! n with Some c => <[c := n]> m | None => m end) ∅
        (env_range e 33 (mapKeys names)).

Definition showIndexes (e : Env) (d : Database) (rest : str) : res Result :=
  match Fields rest with
  | [f0; f1] =>
      if EqualFold f0 (lit "FROM") then
        let* t := dbTable d f1 in
        let names := namesByColumn e (tIndexNames t) in
        let nameOf c := match default [] (names !! c) with [] => c | n => n end in
        Ok (mkResult [lit "name"; lit "column"]
              (map (λ c, [VStr (nameOf c); VStr c]) (sortStrings (mapKeys (tIndexes t)))) 0 [])
      else errorsNew "invalid SHOW INDEX"
  | _ => errorsNew "invalid SHOW INDEX"
  end.

Definition showStmt (e : Env) (d : Database) (s : str) : res Result :=
  let* rest := gslice s 4 (Z.of_nat (length s)) in
  let rest := TrimSpace rest in
  if keywordPrefix rest (lit "TABLES") then
    if negb (bool_decide (TrimSpace (drop 6 rest) = [])) then errorsNew "invalid SHOW TABLES"
    else Ok (mkResult [lit "table"] (map (λ n, [VStr n]) (sortStrings (mapKeys (dTables d)))) 0 [])
  else if keywordPrefix rest (lit "COLUMNS") then describeFrom d (drop 7 rest)
  else if keywordPrefix rest (lit "INDEXES") then showIndexes e d (drop 7 rest)
  else if keywordPrefix rest (lit "INDEX") then showIndexes e d (drop 5 rest)
  else errorsNew "unsupported SHOW".

(** [hasPrefixFold(s, kw) && (len(s) == len(kw) || isBlankByte(s[len(kw)]))] *)
Definition blankPrefix (s kw : str) : bool :=
  hasPrefixFold s kw &&
  match drop (length kw) s with [] => true | c :: _ => isBlankByte c end.

Definition describe (d : Database) (s : str) : res Result :=
  let table rest :=
    match Fields (TrimSpace rest) with
    | [name] => describeTable d name
    | _ => errorsNew "invalid DESCRIBE"
    end in
  if blankPrefix s (lit "DESCRIBE") then table (drop 8 s)
  else if blankPrefix s (lit "DESC") then table (drop 4 s)
  else errorsNew "invalid DESCRIBE".

Definition metaStmt (e : Env) (d : Database) (s : str) : res Result :=
  if hasPrefixFold s (lit "SHOW") then showStmt e d s else describe d s.

End Schema.
