(* ===== verification/OrderBy.v ===== *)
(** * ORDER BY: internal/engine/orderby.go

    Candidates with their resolved sort value, the ranking, the bounded top-K
    heap, and the sort. *)

From S2P Require Import Prelude GoLib Value Table.
Open Scope Z_scope.

Record orderEntry := mkEntry { oKey : str; oVal : value; oSeq : nat }.

Section OrderBy.
Context `{GoStd}.

Definition rankBefore (descending : bool) (a b : orderEntry) : bool :=
  if valueLess (oVal a) (oVal b) then negb descending
  else if valueLess (oVal b) (oVal a) then descending
  else (oSeq a <? oSeq b)%nat.

(** [sort.Slice(l, less)]: the sorted arrangement; on a strict total order it is
    unique, so the algorithm is immaterial (see [sortSlice_unique]). *)
Definition sort_le {A} (less : A → A → bool) (a b : A) : Prop := less b a = false.
#[global] Instance sort_le_dec {A} (less : A → A → bool) a b : Decision (sort_le less a b).
Proof. unfold sort_le. apply _. Defined.
Definition sortSlice {A} (less : A → A → bool) (l : list A) : list A := merge_sort (sort_le less) l.

(** ** container/heap over [entryHeap]: the root ranks last *)

(** [Less(i, j)]; the callers keep both indexes in range. *)
Definition heapLess (desc : bool) (h : list orderEntry) (i j : nat) : bool :=
  match h !! i, h !! j with
  | Some a, Some b => rankBefore desc b a
  | _, _ => false
  end.
Definition heapSwap (h : list orderEntry) (i j : nat) : list orderEntry :=
  match h !! i, h !! j with
  | Some a, Some b => <[j := a]> (<[i := b]> h)
  | _, _ => h
  end.

(** [heap.up(h, j)]: the parent of [j] is [(j-1)/2]. *)
Fixpoint heapUp (fuel : nat) (desc : bool) (h : list orderEntry) (j : nat) : list orderEntry :=
  match fuel with
  | O => h
  | S f =>
      let i := ((j - 1) / 2)%nat in
      if (i =? j)%nat || negb (heapLess desc h j i) then h
      else heapUp f desc (heapSwap h i j) i
  end.

(** [heap.down(h, i, n)] *)
Fixpoint heapDown (fuel : nat) (desc : bool) (h : list orderEntry) (i n : nat) : list orderEntry :=
  match fuel with
  | O => h
  | S f =>
      let j1 := (2 * i + 1)%nat in
      if (n <=? j1)%nat then h
      else
        let j2 := (j1 + 1)%nat in
        let j := if (j2 <? n)%nat && heapLess desc h j2 j1 then j2 else j1 in
        if negb (heapLess desc h j i) then h
        else heapDown f desc (heapSwap h i j) j n
  end.

(** [heap.Push]: append, then sift up.  The fuel of both sifts is the array
    length: each step moves strictly towards the root or the leaves. *)
Definition heapPush (desc : bool) (h : list orderEntry) (e : orderEntry) : list orderEntry :=
  let h1 := h ++ [e] in heapUp (length h1) desc h1 (length h1 - 1).
(** [heap.Pop]: swap root and last, sift down over the prefix, drop the last. *)
Definition heapPop (desc : bool) (h : list orderEntry) : list orderEntry :=
  let n := (length h - 1)%nat in
  take n (heapDown (length h) desc (heapSwap h 0 n) 0 n).

Definition topKStep (k : nat) (desc : bool) (h : list orderEntry) (e : orderEntry) : list orderEntry :=
  if (length h <? k)%nat then heapPush desc h e
  else match h with
  | root :: _ => if rankBefore desc e root then heapPush desc (heapPop desc h) e else h
  | [] => h
  end.
(** With [k = 0] the code reads [h.entries[0]] of an empty slice; [orderKeys]
    is then called with [cap = 0] and panics (see [topK]). *)
Definition topKEntries (entries : list orderEntry) (k : nat) (desc : bool) : list orderEntry :=
  foldl (topKStep k desc) [] entries.
Definition topK (entries : list orderEntry) (k : nat) (desc : bool) : res (list orderEntry) :=
  match entries, k with
  | _ :: _, O => Panic
  | _, _ => Ok (topKEntries entries k desc)
  end.

(** ** orderKeys *)

(** The live fast row of a key. *)
Definition fastAt (t : Table) (key : str) : option (list value) :=
  match fPos (tFast t) !! key with
  | None => None
  | Some i =>
      match fRows (tFast t) !! i with
      | Some f => if bool_decide (fKey f = []) then None else Some (fValues f)
      | None => None
      end
  end.

Definition orderValue (t : Table) (column key : str) : value :=
  let slow := match tRows t !! key with Some r => rowGet r column | None => VNil end in
  if fastOn t then
    match fCols (tFast t) !! column with
    | Some ci =>
        match fastAt t key with
        | Some vs => match vs !! ci with Some v => v | None => slow end
        | None => slow
        end
    | None => slow
    end
  else slow.

Definition orderEntries (t : Table) (keys : list str) (column : str) : list orderEntry :=
  imap (λ i k, mkEntry k (orderValue t column k) i) keys.

Definition orderKeys (t : Table) (keys : list str) (column : str) (descending : bool) (cap : Z)
    : res (list str) :=
  let entries := orderEntries t keys column in
  let* chosen := if (0 <=? cap) && (cap <? Z.of_nat (length entries))
                 then topK entries (Z.to_nat cap) descending else Ok entries in
  Ok (map oKey (sortSlice (rankBefore descending) chosen)).

End OrderBy.
