(* ===== verification/Select.v ===== *)
(** * SELECT: internal/engine/select.go

    Clause parsing, the bare-equality shortcuts, the fast-array scan, the
    index and order-slice scans, DISTINCT, LIMIT/OFFSET and row caps, and the
    ungrouped aggregates. *)

From S2P Require Import Prelude GoLib Fold Value Parser Table OrderBy.
Open Scope Z_scope.

(** ** Arithmetic on row caps *)

Definition MaxInt : Z := 2 ^ 63 - 1.
Definition satAdd (a b : Z) : Z := if MaxInt - b <? a then MaxInt else a + b.

Definition rowCapOf (limit offset maxRows : Z) : Z :=
  let rowCap := if 0 <=? limit then satAdd limit offset else -1 in
  if 0 <? maxRows then
    let emitCap := satAdd (satAdd maxRows offset) 1 in
    if (rowCap <? 0) || (emitCap <? rowCap) then emitCap else rowCap
  else rowCap.

(** [rowCap >= 0 && n >= rowCap] *)
Definition capReached (rowCap : Z) (n : nat) : bool := (0 <=? rowCap) && (rowCap <=? Z.of_nat n).

Definition applyOffset {A} (offset : Z) (rows : list A) : list A :=
  if offset <=? 0 then rows
  else if Z.of_nat (length rows) <=? offset then [] else drop (Z.to_nat offset) rows.

(** The result is returned alongside the error, and every caller drops it. *)
Definition capResultRows (r : Result) (maxRows : Z) : res Result :=
  let n := Z.of_nat (length (rRows r)) in
  if (0 <? maxRows) && (maxRows <? n) then Err (ETooLarge n maxRows) else Ok r.

(** ** Clauses *)

Fixpoint countBlank (s : str) : nat :=
  match s with c :: s' => if isBlankByte c then S (countBlank s') else 0%nat | [] => 0%nat end.

(** The search loop from offset [start]; [fuel] bounds the occurrences of
    [first], each of which advances [start]. *)
Fixpoint indexPairKeyword_loop (fuel : nat) (s first second : str) (start : nat) : Z * Z :=
  match fuel with
  | O => (-1, -1)
  | S f =>
      let i := indexKeyword (drop start s) first in
      if i <? 0 then (-1, -1)
      else
        let i := (Z.to_nat i + start)%nat in
        let j0 := (i + length first)%nat in
        let j := (j0 + countBlank (drop j0 s))%nat in
        if foldEqualAt (drop j s) second && negb (identifierOpt (s !! (j + length second)%nat))
        then (Z.of_nat i, Z.of_nat (j + length second))
        else indexPairKeyword_loop f s first second (i + length first)
  end.
Definition indexPairKeyword (s first second : str) : Z * Z :=
  indexPairKeyword_loop (S (length s)) s first second 0.
Definition indexOrderBy (s : str) : Z * Z := indexPairKeyword s (lit "ORDER") (lit "BY").
Definition indexGroupBy (s : str) : Z * Z := indexPairKeyword s (lit "GROUP") (lit "BY").

Record selectTail := mkTail {
  stWhere : str;
  stOrder : str;
  stDesc : bool;
  stLimit : Z;
  stOffset : Z;
  stGroupBy : list str;
  stHaving : str;
  stHeadEnd : Z;
}.

(** Strictly increasing positions, absent clauses (-1) skipped. *)
Fixpoint clausesOrdered (prev : Z) (ps : list Z) : bool :=
  match ps with
  | [] => true
  | p :: ps' => if 0 <=? p then (prev <? p) && clausesOrdered p ps' else clausesOrdered prev ps'
  end.
Definition headEndOf (n : Z) (ps : list Z) : Z :=
  foldl (λ h p, if (0 <=? p) && (p <? h) then p else h) n ps.
Definition clauseEnd (n : Z) (ps : list Z) (from : Z) : Z :=
  foldl (λ e p, if (from <? p) && (p <? e) then p else e) n ps.

Section Select.
Context `{GoStd}.

Definition parseWhereClause (rest : str) (start stop : Z) : res str :=
  if start <? 0 then Ok []
  else let* body := gslice rest (start + 5) stop in
       match TrimSpace body with [] => errorsNew "invalid WHERE expression" | w => Ok w end.

Fixpoint groupColumns (acc : list str) (l : list str) : res (list str) :=
  match l with
  | [] => Ok acc
  | g :: l' =>
      match ToLower (TrimSpace g) with
      | [] => errorsNew "invalid GROUP BY expression"
      | g' => groupColumns (acc ++ [g']) l'
      end
  end.
Definition parseGroupClause (rest : str) (start fields stop : Z) : res (list str) :=
  if start <? 0 then Ok []
  else let* body := gslice rest fields stop in
       match TrimSpace body with
       | [] => errorsNew "GROUP BY requires a column"
       | grp => groupColumns [] (splitVals grp)
       end.

Definition parseHavingClause (rest : str) (start stop : Z) : res str :=
  if start <? 0 then Ok []
  else let* body := gslice rest (start + 6) stop in
       match TrimSpace body with [] => errorsNew "invalid HAVING expression" | h => Ok h end.

Definition parseOrderClause (rest : str) (start fields stop : Z) : res (str * bool) :=
  if start <? 0 then Ok ([], false)
  else let* body := gslice rest fields stop in
       match Fields (TrimSpace body) with
       | [] => errorsNew "ORDER BY requires a column"
       | [c] => Ok (ToLower c, false)
       | [c; dir] =>
           if bool_decide (ToUpper dir = lit "ASC") then Ok (ToLower c, false)
           else if bool_decide (ToUpper dir = lit "DESC") then Ok (ToLower c, true)
           else errorsNew "ORDER BY expects ASC or DESC"
       | _ => errorsNew "invalid ORDER BY expression"
       end.

Definition parseCount (rest : str) (start kw stop : Z) (none : Z) (msg : string) : res Z :=
  if start <? 0 then Ok none
  else let* body := gslice rest (start + kw) stop in
       match Atoi (TrimSpace body) with
       | inl n => if n <? 0 then errorsNew msg else Ok n
       | inr _ => errorsNew msg
       end.

Definition parseSelectTail (rest : str) : res selectTail :=
  let n := Z.of_nat (length rest) in
  let whereStart := indexKeyword rest (lit "WHERE") in
  let '(groupStart, groupFields) := indexGroupBy rest in
  let havingStart := indexKeyword rest (lit "HAVING") in
  let '(orderStart, orderFields) := indexOrderBy rest in
  let limitStart := indexKeyword rest (lit "LIMIT") in
  let offsetStart := indexKeyword rest (lit "OFFSET") in
  let ps := [whereStart; groupStart; havingStart; orderStart; limitStart; offsetStart] in
  if negb (clausesOrdered (-1) ps) then errorsNew "invalid SELECT clause order"
  else
    let stop := clauseEnd n ps in
    let* wh := parseWhereClause rest whereStart (stop whereStart) in
    let* groupBy := parseGroupClause rest groupStart groupFields (stop groupStart) in
    let* having := parseHavingClause rest havingStart (stop havingStart) in
    if negb (bool_decide (having = [])) && bool_decide (groupBy = [])
    then errorsNew "HAVING requires GROUP BY"
    else
      let* (orderColumn, desc) := parseOrderClause rest orderStart orderFields (stop orderStart) in
      let* limit := parseCount rest limitStart 5 (stop limitStart) (-1)
                      "LIMIT must be a non-negative integer" in
      let* offset := parseCount rest offsetStart 6 (stop offsetStart) 0
                       "OFFSET must be a non-negative integer" in
      Ok (mkTail wh orderColumn desc limit offset groupBy having (headEndOf n ps)).

(** ** Bare equality predicates *)

Definition simpleEquality (expression : str) : option (str * str) :=
  if bool_decide (expression = []) || (0 <=? indexFold expression (lit " AND "))
     || (0 <=? indexFold expression (lit " OR "))
  then None
  else match split2 expression 61 with
       | Some (a, b) => Some (ToLower (TrimSpace a), unquoteLiteral b)
       | None => None
       end.

Definition equalityKey (t : Table) (column v : str) : str :=
  match filter (λ c, cName c = column) (tColumns t) with
  | c :: _ => match parseVal v (cType c) with Ok x => valueKey x | _ => v end
  | [] => v
  end.

(** The type-specialised kinds; the generic one is [conditionValueEqual]. *)
Inductive fastKind := fastGeneric | fastInt | fastString | fastBool | fastFloat.
Record fastTerm := mkFastTerm { ftIndex : nat; ftExpected : value; ftKind : fastKind }.
#[global] Instance fastKind_eq_dec : EqDecision fastKind.
Proof. solve_decision. Defined.
#[global] Instance fastTerm_eq_dec : EqDecision fastTerm.
Proof. solve_decision. Defined.

Definition fastKindOf (typ : ctype) (v : value) : fastKind :=
  match typ, v with
  | Int, VInt _ => fastInt
  | Text, VStr _ => fastString
  | Bool, VBool _ => fastBool
  | Float, VFloat _ => fastFloat
  | _, _ => fastGeneric
  end.

Definition simpleFastTerm (expression : str) (t : Table) : option fastTerm :=
  if bool_decide (expression = []) || (0 <=? indexFold expression (lit " AND "))
     || (0 <=? indexFold expression (lit " OR "))
  then None
  else match split2 expression 61 with
  | None => None
  | Some (a, b) =>
      match ToLower (TrimSpace a) with
      | [] => None
      | column =>
          match fCols (tFast t) !! column with
          | None => None
          | Some i =>
              match tColumns t !! i with
              | None => None
              | Some c =>
                  let raw := unquoteLiteral b in
                  let x := match parseVal raw (cType c) with Ok v => v | _ => VStr raw end in
                  Some (mkFastTerm i x (fastKindOf (cType c) x))
              end
          end
      end
  end.

(** [values[term.index]]: the index is in range for every row of the fast array. *)
Definition matchFastTerm (values : list value) (term : fastTerm) : bool :=
  let v := default VNil (values !! ftIndex term) in
  match ftKind term, ftExpected term with
  | fastInt, VInt x => match v with VInt a => a =? x | _ => false end
  | fastString, VStr x => match v with VStr a => bool_decide (a = x) | _ => false end
  | fastBool, VBool x => match v with VBool a => eqb a x | _ => false end
  | fastFloat, VFloat x => match v with VFloat a => f64_eqb a x | _ => false end
  | _, x => conditionValueEqual v x
  end.

(** ** Projection and DISTINCT *)

Definition selectedValues (r : row) (names : list str) : list value := map (rowGet r) names.
Definition selectedFastValues (values : list value) (names : list str) (columns : gmap str nat)
    : list value :=
  map (λ n, match columns !! n with Some i => default VNil (values !! i) | None => VNil end) names.

(** Collected rows and the DISTINCT key set. *)
Abbreviation collected A := (list A * gset str)%type (only parsing).

Definition addLine (distinct : bool) (s : collected (list value)) (line : list value)
    : collected (list value) :=
  let '(rows, seen) := s in
  if distinct then
    let k := rowProjectionKey line in
    if bool_decide (k ∈ seen) then s else (rows ++ [line], {[k]} ∪ seen)
  else (rows ++ [line], seen).

(** All lines through [addLine]. *)
Definition dedupLines (distinct : bool) (lines : list (list value)) : list (list value) :=
  (foldl (addLine distinct) ([], ∅) lines).1.

(** One iteration of a scan of the fast array, for any row predicate. *)
Definition fastStep (t : Table) (names : list str) (distinct : bool) (rowCap : Z)
    (pred : list value → bool) (s : collected (list value)) (f : fastRow)
    : collected (list value) * bool :=
  if bool_decide (fKey f = []) then (s, false)
  else if pred (fValues f) then
    let s' := addLine distinct s (selectedFastValues (fValues f) names (fCols (tFast t))) in
    (s', capReached rowCap (length s'.1))
  else (s, false).

Definition site_select : nat := 40.

(** The fast-array scan of [selectRows]. *)
Definition fastScan (e : Env) (t : Table) (names : list str) (distinct : bool) (rowCap : Z)
    (pred : list value → bool) : res (list (list value)) :=
  match scan e site_select 0 (fastStep t names distinct rowCap pred) (fRows (tFast t)) ([], ∅) with
  | (_, Some c) => Err (ECtx c)
  | ((rows, _), None) => Ok rows
  end.

(** The projected row of a key, from the fast array or the row map. *)
Definition lineAt (t : Table) (names : list str) (key : str) : option (list value) :=
  match fastAt t key with
  | Some vs => Some (selectedFastValues vs names (fCols (tFast t)))
  | None => (λ r, selectedValues r names) <$> tRows t !! key
  end.

(** [dedupKey]: whether the key is skipped, and the new key set. *)
Definition dedupKey (t : Table) (names : list str) (distinct : bool) (seen : gset str) (key : str)
    : bool * gset str :=
  if negb distinct then (false, seen)
  else match lineAt t names key with
  | None => (false, seen)
  | Some line =>
      let k := rowProjectionKey line in
      if bool_decide (k ∈ seen) then (true, seen) else (false, {[k]} ∪ seen)
  end.

Definition keepKey (t : Table) (names : list str) (distinct : bool) (s : collected str) (key : str)
    : collected str :=
  let '(dup, seen) := dedupKey t names distinct s.2 key in
  if dup then (s.1, seen) else (s.1 ++ [key], seen).

(** Candidates of an index bucket are checked against the predicate. *)
Definition indexMatch (t : Table) (column : str) (term : option fastTerm) (compiled : compiledCondition)
    (key : str) : bool :=
  match term with
  | Some tm =>
      match fastAt t key with
      | Some vs => matchFastTerm vs tm
      | None => match tRows t !! key with
                | Some r => conditionValueEqual (rowGet r column) (ftExpected tm)
                | None => false
                end
      end
  | None => match tRows t !! key with Some r => matchesMap compiled r | None => false end
  end.

Definition indexStep (t : Table) (names : list str) (distinct : bool) (stopAt : option Z)
    (pred : str → bool) (s : collected str) (key : str) : collected str * bool :=
  if match stopAt with Some cap => capReached cap (length s.1) | None => false end then (s, true)
  else if pred key then (keepKey t names distinct s key, false) else (s, false).

Definition orderStep (t : Table) (names : list str) (distinct : bool) (stopAt : option Z)
    (pred : row → bool) (s : collected str) (key : str) : collected str * bool :=
  match tRows t !! key with
  | None => (s, false)
  | Some r =>
      if negb (pred r) then (s, false)
      else
        let s' := keepKey t names distinct s key in
        if (length s'.1 =? length s.1)%nat then (s', false)
        else (s', match stopAt with Some cap => capReached cap (length s'.1) | None => false end)
  end.

Definition bucket (t : Table) (column v : str) : list str :=
  elements (default ∅ (default ∅ (tIndexes t !! column) !! v)).

Definition collectKeys (e : Env) (t : Table) (names : list str) (distinct : bool) (stopAt : option Z)
    (simple : option (str * str)) (term : option fastTerm) (wh : str) (compiled : compiledCondition)
    : res (list str) :=
  let order :=
    scan e site_select 0
      (orderStep t names distinct stopAt (λ r, bool_decide (wh = []) || matchesMap compiled r))
      (tOrder t) ([], ∅) in
  let out :=
    match simple with
    | Some (column, v) =>
        if bool_decide (is_Some (tIndexes t !! column)) then
          scan e site_select 0
            (indexStep t names distinct stopAt (indexMatch t column term compiled))
            (env_range e site_select (bucket t column v)) ([], ∅)
        else order
    | None => order
    end in
  match out with
  | (_, Some c) => Err (ECtx c)
  | ((keys, _), None) => Ok keys
  end.

(** The materialisation loop. *)
Fixpoint materialize (t : Table) (names : list str) (rowCap : Z) (rows : list (list value)) (keys : list str)
    : list (list value) :=
  match keys with
  | [] => rows
  | k :: keys' =>
      let line := default (selectedValues ∅ names)
                    (if fastOn t then lineAt t names k
                     else (λ r, selectedValues r names) <$> tRows t !! k) in
      let rows' := rows ++ [line] in
      if capReached rowCap (length rows') then rows' else materialize t names rowCap rows' keys'
  end.

(** ** The primary-key lookup *)

Definition primaryLookup (t : Table) (names : list str) (key : str) (limit offset : Z) : Result :=
  let rows :=
    match fPos (tFast t) !! key with
    | Some _ => match fastAt t key with
                | Some vs => [selectedFastValues vs names (fCols (tFast t))]
                | None => []
                end
    | None => match tRows t !! key with Some r => [selectedValues r names] | None => [] end
    end in
  mkResult names (applyOffset offset (if limit =? 0 then [] else rows)) 0 [].

(** ** The ungrouped SELECT on one table *)

Definition site_orderBy : nat := 41.

Definition invalidWhereIf (wh : str) (need : bool) (cols : list Column) : res compiledCondition :=
  if negb (bool_decide (wh = [])) && need then
    match compileCondition wh cols with Some c => Ok c | None => invalidWhere end
  else Ok [].

(** The scans that collect row keys, then order and materialise them. *)
Definition selectByKeys (e : Env) (t : Table) (names : list str) (distinct : bool) (tail : selectTail)
    (maxRows rowCap : Z) (simple : option (str * str)) (term : option fastTerm)
    (compiled : compiledCondition) : res Result :=
  let ordered := negb (bool_decide (stOrder tail = [])) in
  let* keys := collectKeys e t names distinct (if ordered then None else Some rowCap)
                 simple term (stWhere tail) compiled in
  let* keys :=
    if ordered then
      match env_err e site_orderBy 0 with
      | Some c => Err (ECtx c)
      | None => orderKeys t keys (stOrder tail) (stDesc tail) (if distinct then -1 else rowCap)
      end
    else Ok keys in
  let keys := if negb distinct && (0 <=? rowCap) && (rowCap <? Z.of_nat (length keys))
              then take (Z.to_nat rowCap) keys else keys in
  let rows := materialize t names rowCap [] keys in
  capResultRows (mkResult names (applyOffset (stOffset tail) rows) 0 []) maxRows.

Definition selectScan (e : Env) (t : Table) (names : list str) (distinct : bool) (tail : selectTail)
    (maxRows rowCap : Z) (simple : option (str * str)) : res Result :=
  let wh := stWhere tail in
  let ordered := negb (bool_decide (stOrder tail = [])) in
  let term := if fastOn t then simpleFastTerm wh t else None in
  let* compiled := invalidWhereIf wh (bool_decide (term = None) || ordered) (tColumns t) in
  let indexed := match simple with
                 | Some (c, _) => bool_decide (is_Some (tIndexes t !! c)) | None => false end in
  if fastOn t && negb ordered && negb indexed then
    if stLimit tail =? 0 then Ok (mkResult names [] 0 [])
    else
      let pred vs := match term with
                     | Some tm => matchFastTerm vs tm
                     | None => bool_decide (wh = []) || matchesFast compiled vs (fCols (tFast t))
                     end in
      let* rows := fastScan e t names distinct rowCap pred in
      capResultRows (mkResult names (applyOffset (stOffset tail) rows) 0 []) maxRows
  else selectByKeys e t names distinct tail maxRows rowCap simple term compiled.

Definition selectPlain (e : Env) (t : Table) (names : list str) (distinct : bool) (tail : selectTail)
    (maxRows : Z) : res Result :=
  let wh := stWhere tail in
  let rowCap := rowCapOf (stLimit tail) (stOffset tail) maxRows in
  let simple := (λ '(c, v), (c, equalityKey t c v)) <$> simpleEquality wh in
  match simple with
  | Some (c, v) =>
      if bool_decide (c = primaryColumn t)
      then Ok (primaryLookup t names v (stLimit tail) (stOffset tail))
      else selectScan e t names distinct tail maxRows rowCap simple
  | None => selectScan e t names distinct tail maxRows rowCap simple
  end.

(** ** Aggregates *)

Definition isAggregate (expression : str) : bool :=
  let s := TrimSpace expression in
  hasPrefixFold s (lit "COUNT(") || hasPrefixFold s (lit "SUM(") || hasPrefixFold s (lit "MIN(")
  || hasPrefixFold s (lit "MAX(") || hasPrefixFold s (lit "AVG(").

Record aggState := mkAgg { agCount : Z; agTotal : float64; agMin : value; agMax : value }.
Definition agg0 : aggState := mkAgg 0 f64_zero VNil VNil.

(** What the aggregate folds: COUNT of a column only counts. *)
Inductive aggFold := foldSum | foldMin | foldMax | foldCount.

Definition aggError (aggName : str) : err := EMsg (aggName ++ lit " requires numeric values").

(** Fold one non-excluded row's cell; [None] is the non-numeric error. *)
Definition aggValue (k : aggFold) (s : aggState) (v : value) : option aggState :=
  match v with
  | VNil => Some s
  | _ =>
      let n := agCount s + 1 in
      match k with
      | foldSum => match numeric v with
                   | Some x => Some (mkAgg n (f64_add (agTotal s) x) (agMin s) (agMax s))
                   | None => None
                   end
      | foldMin => Some (mkAgg n (agTotal s)
                     (if bool_decide (agMin s = VNil) || valueLess v (agMin s) then v else agMin s) (agMax s))
      | foldMax => Some (mkAgg n (agTotal s) (agMin s)
                     (if bool_decide (agMax s = VNil) || valueLess (agMax s) v then v else agMax s))
      | foldCount => Some (mkAgg n (agTotal s) (agMin s) (agMax s))
      end
  end.

Definition site_aggregate : nat := 42.
Definition site_countIndex : nat := 43.

(** The scan state: the accumulators, or stopped on a non-numeric value. *)
Definition aggStep (star : bool) (k : aggFold) (s : aggState * bool) (v : value) : (aggState * bool) * bool :=
  if star then ((mkAgg (agCount s.1 + 1) (agTotal s.1) (agMin s.1) (agMax s.1), false), false)
  else match aggValue k s.1 v with
       | Some s' => ((s', false), false)
       | None => ((s.1, true), true)
       end.

Definition aggFastStep (t : Table) (star : bool) (ci : nat) (k : aggFold) (pred : list value → bool)
    (s : aggState * bool) (f : fastRow) : (aggState * bool) * bool :=
  if bool_decide (fKey f = []) || negb (pred (fValues f)) then (s, false)
  else aggStep star k s (default VNil (fValues f !! ci)).
Definition aggOrderStep (t : Table) (star : bool) (column : str) (k : aggFold) (pred : row → bool)
    (s : aggState * bool) (key : str) : (aggState * bool) * bool :=
  match tRows t !! key with
  | None => (s, false)
  | Some r => if negb (pred r) then (s, false) else aggStep star k s (rowGet r column)
  end.

Definition countIndexEquality (e : Env) (t : Table) (column v : str) (term : option fastTerm)
    (compiled : compiledCondition) : res Z :=
  match scan_all e site_countIndex (λ n key, if indexMatch t column term compiled key then n + 1 else n)
          (env_range e site_countIndex (bucket t column v)) 0 with
  | (_, Some c) => Err (ECtx c)
  | (n, None) => Ok n
  end.

(** The COUNT( * ) shortcuts; [None] falls through to the scan. *)
Definition countShortcut (e : Env) (t : Table) (wh : str) (compiled : compiledCondition) : option (res Z) :=
  if bool_decide (wh = []) then Some (Ok (Z.of_nat (size (tRows t))))
  else match simpleEquality wh with
  | None => None
  | Some (c, raw) =>
      let v := equalityKey t c raw in
      if bool_decide (c = primaryColumn t) then Some (Ok (if isLive (tRows t) v then 1 else 0))
      else if bool_decide (is_Some (tIndexes t !! c))
      then Some (countIndexEquality e t c v (simpleFastTerm wh t) compiled)
      else None
  end.

Definition aggScan (e : Env) (t : Table) (wh column aggName : str) (star : bool) (k : aggFold)
    (compiled : compiledCondition) : res aggState :=
  let out :=
    if fastOn t then
      let ci := default 0%nat (fCols (tFast t) !! column) in
      let term := simpleFastTerm wh t in
      let pred vs := bool_decide (wh = []) ||
                     match term with
                     | Some tm => matchFastTerm vs tm
                     | None => matchesFast compiled vs (fCols (tFast t))
                     end in
      if negb star && negb (bool_decide (is_Some (fCols (tFast t) !! column)))
      then inr (EMsg (lit "column not found"))
      else inl (scan e site_aggregate 0 (aggFastStep t star ci k pred) (fRows (tFast t)) (agg0, false))
    else
      inl (scan e site_aggregate 0
             (aggOrderStep t star column k (λ r, bool_decide (wh = []) || matchesMap compiled r))
             (tOrder t) (agg0, false)) in
  match out with
  | inr er => Err er
  | inl (_, Some c) => Err (ECtx c)
  | inl ((_, true), None) => Err (aggError aggName)
  | inl ((s, false), None) => Ok s
  end.

Definition aggregateResult (e : Env) (t : Table) (expression wh : str) : res Result :=
  let trimmed := TrimSpace expression in
  let isF kw := hasPrefixFold trimmed (lit kw) in
  let aggName := ToLower (TrimSpace expression) in
  let opn := Index expression (lit "(") in
  let cls := LastIndexByte expression 41 in
  if (opn <? 0) || (cls <=? opn) then errorsNew "invalid aggregate"
  else
    let* inner := gslice expression (opn + 1) cls in
    let column := ToLower (TrimSpace inner) in
    let isStar := bool_decide (column = lit "*") in
    let isCountStar := isF "COUNT("%string && isStar in
    if isStar && negb isCountStar then errorsNew "invalid aggregate: only COUNT(*) supports *"
    else if negb isStar && negb (hasColumn (tColumns t) column) then columnNotFound column
    else match compileCondition wh (tColumns t) with
    | None => invalidWhere
    | Some compiled =>
        let one v := Ok (mkResult [aggName] [[v]] 0 []) in
        match (if isCountStar then countShortcut e t wh compiled else None) with
        | Some (Ok n) => one (VGoInt n)
        | Some (Err er) => Err er
        | Some Panic => Panic
        | None =>
            let k := if isF "SUM("%string || isF "AVG("%string then foldSum
                     else if isF "MIN("%string then foldMin
                     else if isF "MAX("%string then foldMax else foldCount in
            let* s := aggScan e t wh column aggName isCountStar k compiled in
            if isF "SUM("%string then one (VFloat (agTotal s))
            else if isF "AVG("%string then
              one (if agCount s =? 0 then VNil else VFloat (f64_div (agTotal s) (f64_of_Z (agCount s))))
            else if isF "MIN("%string then one (agMin s)
            else if isF "MAX("%string then one (agMax s)
            else if negb (isF "COUNT("%string) then errorsNew "unsupported aggregate"
            else one (VGoInt (agCount s))
        end
    end.

End Select.
