(* ===== verification/Group.v ===== *)
(** * GROUP BY: internal/engine/group.go

    The select list of a grouped query, accumulation of rows into groups in
    first-seen order, HAVING over the synthetic row of each group, ORDER BY,
    DISTINCT and LIMIT/OFFSET. *)

From S2P Require Import Prelude GoLib Fold Value Parser Table OrderBy Select.
Open Scope Z_scope.

Inductive aggKind := aggCount | aggSum | aggMin | aggMax | aggAvg.

(** A plain grouping column, or an aggregate with its argument position in
    [t.Columns] ([None] for '*'). *)
Inductive groupItem :=
| GPlain (name : str)
| GAgg (name : str) (kind : aggKind) (arg : str) (argIdx : option nat).

Definition giName (it : groupItem) : str :=
  match it with GPlain n => n | GAgg n _ _ _ => n end.

(** The running state of one aggregate of one group. *)
Record accum := mkAccum { acCount : Z; acTotal : float64; acExt : value }.
Definition accum0 : accum := mkAccum 0 f64_zero VNil.

Record groupAccum := mkGroup { gKey : str; gVals : list value; gAggs : list accum }.

(** [cur] is [s[start:i]] reversed. *)
Fixpoint splitSelectList_loop (cur : str) (depth : Z) (quoted : bool) (s : str) : list str :=
  match s with
  | [] => [TrimSpace (reverse cur)]
  | c :: s' =>
      if c =? quote then
        match s' with
        | d :: s'' =>
            if quoted && (d =? quote) then splitSelectList_loop (d :: c :: cur) depth quoted s''
            else splitSelectList_loop (c :: cur) depth (negb quoted) s'
        | [] => splitSelectList_loop (c :: cur) depth (negb quoted) s'
        end
      else if quoted then splitSelectList_loop (c :: cur) depth quoted s'
      else if c =? 40 then splitSelectList_loop (c :: cur) (depth + 1) quoted s'
      else if c =? 41 then splitSelectList_loop (c :: cur) (depth - 1) quoted s'
      else if (c =? 44) && (depth =? 0)
      then TrimSpace (reverse cur) :: splitSelectList_loop [] depth quoted s'
      else splitSelectList_loop (c :: cur) depth quoted s'
  end.
Definition splitSelectList (s : str) : list str := splitSelectList_loop [] 0 false s.

Section Group.
Context `{GoStd}.

Definition aggKindOf (name : str) : option aggKind :=
  if bool_decide (name = lit "COUNT") then Some aggCount
  else if bool_decide (name = lit "SUM") then Some aggSum
  else if bool_decide (name = lit "MIN") then Some aggMin
  else if bool_decide (name = lit "MAX") then Some aggMax
  else if bool_decide (name = lit "AVG") then Some aggAvg
  else None.

Definition parseAggExpr (item : str) : option (aggKind * str) :=
  let opn := Index item (lit "(") in
  if (opn <? 0) || negb (bool_decide (last (TrimSpace item) = Some 41)) then None
  else match aggKindOf (ToUpper (TrimSpace (take (Z.to_nat opn) item))) with
  | None => None
  | Some kind =>
      let arg := ToLower (TrimSpace (take (length item - 1 - (Z.to_nat opn + 1)) (drop (Z.to_nat opn + 1) item))) in
      if bool_decide (arg = []) || (bool_decide (arg = lit "*") && negb (match kind with aggCount => true | _ => false end))
      then None else Some (kind, arg)
  end.

Fixpoint groupIndexes (colIndex : gmap str nat) (groupBy : list str) : res (list nat) :=
  match groupBy with
  | [] => Ok []
  | g :: gs =>
      match colIndex !! g with
      | None => columnNotFound g
      | Some i => let* rest := groupIndexes colIndex gs in Ok (i :: rest)
      end
  end.

Definition parseItem (colIndex : gmap str nat) (groupBy : list str) (part : str) : res groupItem :=
  let p := TrimSpace part in
  if bool_decide (p = []) then errorsNew "invalid select list"
  else match parseAggExpr p with
  | Some (kind, arg) =>
      if bool_decide (arg = lit "*") then Ok (GAgg (ToLower p) kind arg None)
      else match colIndex !! arg with
           | None => columnNotFound arg
           | Some i => Ok (GAgg (ToLower p) kind arg (Some i))
           end
  | None =>
      let col := ToLower p in
      if bool_decide (col ∈ groupBy) then Ok (GPlain col)
      else Err (EMsg (lit "column must appear in GROUP BY: " ++ col))
  end.
Fixpoint parseItems (colIndex : gmap str nat) (groupBy : list str) (parts : list str) : res (list groupItem) :=
  match parts with
  | [] => Ok []
  | p :: ps =>
      let* it := parseItem colIndex groupBy p in
      let* its := parseItems colIndex groupBy ps in
      Ok (it :: its)
  end.

Definition isAgg (it : groupItem) : bool := match it with GAgg _ _ _ _ => true | _ => false end.
Definition aggItems (items : list groupItem) : list groupItem := filter (λ it, isAgg it = true) items.

(** ** Accumulation *)

(** One aggregate and one row; [val] reads a cell by column position. *)
Definition accumOne (val : nat → value) (it : groupItem) (a : accum) : res accum :=
  match it with
  | GPlain _ => Ok a
  | GAgg name kind _ idx =>
      let v := match idx with Some i => val i | None => VNil end in
      match kind with
      | aggCount =>
          if bool_decide (idx = None) || negb (bool_decide (v = VNil))
          then Ok (mkAccum (acCount a + 1) (acTotal a) (acExt a)) else Ok a
      | aggSum | aggAvg =>
          if bool_decide (v = VNil) then Ok a
          else match numeric v with
               | None => Err (EMsg (name ++ lit " requires numeric values"))
               | Some n => Ok (mkAccum (acCount a + 1) (f64_add (acTotal a) n) (acExt a))
               end
      | aggMin =>
          if negb (bool_decide (v = VNil)) && (bool_decide (acExt a = VNil) || valueLess v (acExt a))
          then Ok (mkAccum (acCount a) (acTotal a) v) else Ok a
      | aggMax =>
          if negb (bool_decide (v = VNil)) && (bool_decide (acExt a = VNil) || valueLess (acExt a) v)
          then Ok (mkAccum (acCount a) (acTotal a) v) else Ok a
      end
  end.
Fixpoint accumAll (val : nat → value) (aggs : list groupItem) (accs : list accum) : res (list accum) :=
  match aggs, accs with
  | it :: aggs', a :: accs' =>
      let* a' := accumOne val it a in
      let* rest := accumAll val aggs' accs' in
      Ok (a' :: rest)
  | _, _ => Ok []
  end.

(** [groups[key]] and the [order] slice: find the group of the key, or append a
    fresh one. *)
Fixpoint accumulate (val : nat → value) (aggs : list groupItem) (key : str) (gvals : list value)
    (groups : list groupAccum) : res (list groupAccum) :=
  match groups with
  | [] =>
      let* accs := accumAll val aggs (map (λ _, accum0) aggs) in
      Ok [mkGroup key gvals accs]
  | g :: gs =>
      if bool_decide (gKey g = key) then
        let* accs := accumAll val aggs (gAggs g) in
        Ok (mkGroup (gKey g) (gVals g) accs :: gs)
      else let* gs' := accumulate val aggs key gvals gs in Ok (g :: gs')
  end.

Definition site_group : nat := 44.

(** Scan state: the groups, or the error that stopped the scan. *)
Abbreviation gstate := (list groupAccum * option err)%type (only parsing).

Definition groupStep (aggs : list groupItem) (gvals : list value) (val : nat → value) (s : gstate)
    : gstate * bool :=
  match accumulate val aggs (rowProjectionKey gvals) gvals s.1 with
  | Ok gs => ((gs, None), false)
  | Err e => ((s.1, Some e), true)
  | Panic => (s, true)
  end.

Definition groupFastStep (t : Table) (aggs : list groupItem) (gIdx : list nat) (pred : list value → bool)
    (s : gstate) (f : fastRow) : gstate * bool :=
  if bool_decide (fKey f = []) || negb (pred (fValues f)) then (s, false)
  else
    let val i := default VNil (fValues f !! i) in
    groupStep aggs (map val gIdx) val s.

Definition groupOrderStep (t : Table) (aggs : list groupItem) (groupBy : list str) (pred : row → bool)
    (s : gstate) (key : str) : gstate * bool :=
  match tRows t !! key with
  | None => (s, false)
  | Some r =>
      if negb (pred r) then (s, false)
      else
        let val i := match tColumns t !! i with Some c => rowGet r (cName c) | None => VNil end in
        groupStep aggs (map (rowGet r) groupBy) val s
  end.

Definition groupScan (e : Env) (t : Table) (aggs : list groupItem) (groupBy : list str) (gIdx : list nat)
    (wh : str) (compiled : compiledCondition) : res (list groupAccum) :=
  let all := bool_decide (wh = []) in
  let out :=
    if fastOn t
    then scan e site_group 0
           (groupFastStep t aggs gIdx (λ vs, all || matchesFast compiled vs (fCols (tFast t))))
           (fRows (tFast t)) ([], None)
    else scan e site_group 0
           (groupOrderStep t aggs groupBy (λ r, all || matchesMap compiled r)) (tOrder t) ([], None) in
  match out with
  | (_, Some c) => Err (ECtx c)
  | ((_, Some er), None) => Err er
  | ((gs, None), None) => Ok gs
  end.

(** ** Output *)

Definition columnTypeAt (cols : list Column) (i : nat) : ctype :=
  match cols !! i with Some c => cType c | None => TOther [] end.

Definition synthAgg (cols : list Column) (it : groupItem) : Column :=
  match it with
  | GPlain n => mkColumn n (TOther []) false
  | GAgg n kind _ idx =>
      mkColumn n (match kind, idx with
                  | aggCount, _ => Int
                  | (aggMin | aggMax), Some i => columnTypeAt cols i
                  | _, _ => Float
                  end) false
  end.
Definition synthCols (cols : list Column) (groupBy : list str) (gIdx : list nat) (aggs : list groupItem)
    : list Column :=
  zip_with (λ g i, mkColumn g (columnTypeAt cols i) false) groupBy gIdx ++ map (synthAgg cols) aggs.

Definition aggResult (it : groupItem) (a : accum) : value :=
  match it with
  | GPlain _ => VNil
  | GAgg _ kind _ _ =>
      match kind with
      | aggCount => VGoInt (acCount a)
      | aggSum => VFloat (acTotal a)
      | aggAvg => if 0 <? acCount a then VFloat (f64_div (acTotal a) (f64_of_Z (acCount a))) else VNil
      | aggMin | aggMax => acExt a
      end
  end.

(** The synthetic row of a group: grouping columns, then aggregates. *)
Definition evalRow (groupBy : list str) (aggs : list groupItem) (g : groupAccum) : row :=
  let base := foldl (λ m p, <[p.1 := p.2]> m) ∅ (zip groupBy (gVals g)) in
  foldl (λ m p, <[giName p.1 := aggResult p.1 p.2]> m) base (zip aggs (gAggs g)).

Record outRow := mkOut { ouEval : row; ouLine : list value; ouSeq : nat }.

Definition outBefore (column : str) (desc : bool) (a b : outRow) : bool :=
  let x := rowGet (ouEval a) column in
  let y := rowGet (ouEval b) column in
  if valueLess x y then negb desc
  else if valueLess y x then desc
  else (ouSeq a <? ouSeq b)%nat.

Definition outRows (groupBy : list str) (items : list groupItem) (keep : row → bool)
    (groups : list groupAccum) : list outRow :=
  filter (λ o, keep (ouEval o) = true)
    (imap (λ i g, let ev := evalRow groupBy (aggItems items) g in
                  mkOut ev (map (λ it, rowGet ev (giName it)) items) i) groups).

Definition limitRows {A} (limit : Z) (rows : list A) : list A :=
  if (0 <=? limit) && (limit <? Z.of_nat (length rows)) then take (Z.to_nat limit) rows else rows.

Definition groupedResult (e : Env) (t : Table) (selectExpr : str) (tail : selectTail) (distinct : bool)
    (maxRows : Z) : res Result :=
  let colIndex := colPos 0 (tColumns t) ∅ in
  let groupBy := stGroupBy tail in
  let* gIdx := groupIndexes colIndex groupBy in
  let* items := parseItems colIndex groupBy (splitSelectList selectExpr) in
  let aggs := aggItems items in
  match compileCondition (stWhere tail) (tColumns t) with
  | None => invalidWhere
  | Some compiled =>
      let* groups := groupScan e t aggs groupBy gIdx (stWhere tail) compiled in
      let sc := synthCols (tColumns t) groupBy gIdx aggs in
      let* keep :=
        if bool_decide (stHaving tail = []) then Ok (λ _ : row, true)
        else match compileCondition (stHaving tail) sc with
             | None => errorsNew "invalid HAVING expression"
             | Some h => Ok (matchesMap h)
             end in
      let out := outRows groupBy items keep groups in
      let* out :=
        if bool_decide (stOrder tail = []) then Ok out
        else if hasColumn sc (stOrder tail)
        then Ok (sortSlice (outBefore (stOrder tail) (stDesc tail)) out)
        else Err (EMsg (lit "ORDER BY column not found: " ++ stOrder tail)) in
      let rows := dedupLines distinct (map ouLine out) in
      let rows := limitRows (stLimit tail) (applyOffset (stOffset tail) rows) in
      capResultRows (mkResult (map giName items) rows 0 []) maxRows
  end.

End Group.
