(* ===== verification/Database.v ===== *)
(** * Statements on the database: internal/engine/database.go, the statement
    functions of select.go, insert.go, update.go and delete.go, and the
    copy/publish operations of clone.go and snapshot.go *)

From S2P Require Import Prelude GoLib Fold Value Parser Table Insert Mutate Schema OrderBy Select Group.
Open Scope Z_scope.

Section Database.
Context `{GoStd}.

(** ** SELECT *)

Definition selectNames (t : Table) (selectExpr : str) : list str :=
  if bool_decide (selectExpr = lit "*") then map cName (tColumns t)
  else map (λ x, ToLower (TrimSpace x)) (SplitByte selectExpr 44).

Definition missingColumn (cols : list Column) (names : list str) : option str :=
  head (filter (λ n, hasColumn cols n = false) names).

Definition splitDistinct (selectExpr : str) : res (bool * str) :=
  if blankPrefix selectExpr (lit "DISTINCT") then
    match TrimSpace (drop 8 selectExpr) with
    | [] => errorsNew "SELECT DISTINCT requires columns"
    | s => Ok (true, s)
    end
  else Ok (false, selectExpr).

Definition selectOn (e : Env) (t : Table) (rest selectExpr : str) (maxRows : Z) : res Result :=
  let* (distinct, selectExpr) := splitDistinct selectExpr in
  let names := selectNames t selectExpr in
  let* tail := parseSelectTail rest in
  let* head := gslice rest 0 (stHeadEnd tail) in
  if negb (length (Fields head) =? 1)%nat then errorsNew "invalid FROM clause"
  else if negb (bool_decide (stGroupBy tail = []))
  then groupedResult e t selectExpr tail distinct maxRows
  else if negb (bool_decide (stOrder tail = [])) && negb (hasColumn (tColumns t) (stOrder tail))
  then Err (EMsg (lit "ORDER BY column not found: " ++ stOrder tail))
  else if isAggregate selectExpr then
    let* r := aggregateResult e t selectExpr (stWhere tail) in
    Ok (if (stLimit tail =? 0) || (0 <? stOffset tail)
        then mkResult (rColumns r) [] (rAffected r) (rMessage r) else r)
  else match missingColumn (tColumns t) names with
  | Some n => columnNotFound n
  | None => selectPlain e t names distinct tail maxRows
  end.

Definition selectRows (e : Env) (d : Database) (s : str) (maxRows : Z) : res Result :=
  let fi := indexKeyword s (lit "FROM") in
  if fi <? 0 then errorsNew "SELECT requires FROM"
  else
    let rest := TrimSpace (drop (Z.to_nat (fi + 4)) s) in
    match firstField rest with
    | None => errorsNew "table required"
    | Some tableName =>
        let* t := dbTable d tableName in
        let* ex := gslice s 6 fi in
        selectOn e t rest (TrimSpace ex) maxRows
    end.

(** ** INSERT *)

(** The table after [applyInsertRows]; its [None] (key allocator out of fuel)
    does not occur, see [applyRows_ok]. *)
Definition runInsert (e : Env) (rows : list insertRow) (replace : bool) (t : Table) : stmt Table :=
  match applyInsertRows e t rows replace with
  | (r, Some t') => (r, t')
  | (_, None) => (Panic, t)
  end.

(** One source line coerced to the destination columns. *)
Fixpoint coerceRow (cols : list Column) (line : list value) (r : row) (key : str) : res (row * str) :=
  match cols with
  | [] => Ok (r, key)
  | c :: cols' =>
      let* cv := coerceValue (default VNil (head line)) (cType c) in
      coerceRow cols' (tail line) (<[cName c := cv]> r) (if cPrimary c then valueKey cv else key)
  end.
Fixpoint coerceRows (cols : list Column) (lines : list (list value)) : res (list insertRow) :=
  match lines with
  | [] => Ok []
  | line :: lines' =>
      let* (r, key) := coerceRow cols line ∅ [] in
      if bool_decide (key = []) && hasPrimaryColumn cols then errorsNew "primary key required"
      else let* rows := coerceRows cols lines' in Ok (mkInsert key r :: rows)
  end.

Definition insertSelect (e : Env) (d : Database) (s : str) (intoEnd selectStart : Z) (replace : bool)
    (maxRows : Z) : stmt Database :=
  orFail d (gslice s intoEnd selectStart) (λ head,
  match firstField head with
  | None => fail "invalid INSERT" d
  | Some tableName =>
      orFail d (dbTable d tableName) (λ t,
      orFail d (selectRows e d (TrimSpace (drop (Z.to_nat selectStart) s)) maxRows) (λ src,
      if negb (length (rColumns src) =? length (tColumns t))%nat then fail "column count mismatch" d
      else orFail d (coerceRows (tColumns t) (rRows src)) (λ rows,
           onTable d tableName (runInsert e rows replace))))
  end).

(** INSERT [OR REPLACE] INTO: the rest after INTO, and whether it replaces. *)
Definition insertHead (body : str) : res (bool * str) :=
  let* (replace, body) :=
    if keywordPrefix body (lit "OR") then
      let body := TrimSpace (drop 2 body) in
      if negb (keywordPrefix body (lit "REPLACE")) then errorsNew "invalid INSERT"
      else Ok (true, TrimSpace (drop 7 body))
    else Ok (false, body) in
  if negb (keywordPrefix body (lit "INTO")) then errorsNew "invalid INSERT"
  else Ok (replace, body).

Definition insertStmt (e : Env) (d : Database) (s : str) (maxRows : Z) : stmt Database :=
  orFail d (insertHead (TrimSpace (drop 6 s))) (λ '(replace, body),
  let vi := indexKeyword s (lit "VALUES") in
  let si := indexKeyword s (lit "SELECT") in
  if (vi <? 0) && (si <? 0) then fail "INSERT requires VALUES or SELECT" d
  else
    let off := Z.of_nat (length s) - Z.of_nat (length body) + 4 in
    if (0 <=? si) && ((vi <? 0) || (si <? vi)) then insertSelect e d s off si replace maxRows
    else orFail d (gslice s off vi) (λ head,
      match firstField head with
      | None => fail "invalid INSERT" d
      | Some tableName =>
          onTable d tableName (λ t,
            orFail t (parseInsertRowsMode (drop (Z.to_nat (vi + 6)) s) (tColumns t) replace) (λ rows,
              runInsert e rows replace t))
      end)).

(** ** UPDATE and DELETE *)

Definition mutationWhere (s : str) : res mwhere :=
  let* w := parseMutationWhere s in
  match w with Some (c, v, op) => Ok (mkMWhere c v op) | None => Ok noWhere end.

(** The assignment: column, its parsed value, and whether a WHERE follows. *)
Definition parseAssign (t : Table) (tail : str) : res (str * value * bool) :=
  let wi := indexKeyword tail (lit "WHERE") in
  let assign := TrimSpace (if 0 <=? wi then take (Z.to_nat wi) tail else tail) in
  match split2 assign 61 with
  | None => errorsNew "invalid SET"
  | Some (a, b) =>
      let col := ToLower (TrimSpace a) in
      match findColumn (tColumns t) col with
      | None => columnNotFound col
      | Some c => let* v := parseVal b (cType c) in Ok (col, v, 0 <=? wi)
      end
  end.

Definition updateStmt (e : Env) (d : Database) (s : str) : stmt Database :=
  let si := indexKeyword s (lit "SET") in
  if si <? 0 then fail "UPDATE requires SET" d
  else match Fields (take (Z.to_nat si) s) with
  | _ :: name :: _ =>
      onTable d name (λ t,
        orFail t (parseAssign t (drop (Z.to_nat (si + 3)) s)) (λ '(col, v, hasWhere),
        orFail t (if hasWhere : bool then mutationWhere s else Ok noWhere) (λ w,
        orFail t (mutationExpected t w) (λ x, updateRows e t w x col v))))
  | _ => fail "table required" d
  end.

Definition deleteStmt (e : Env) (d : Database) (s : str) : stmt Database :=
  match firstField (TrimSpace (drop 11 s)) with
  | None => fail "invalid DELETE" d
  | Some name =>
      onTable d name (λ t,
        orFail t (mutationWhere s) (λ w,
        orFail t (mutationExpected t w) (λ x, deleteRows e t w x)))
  end.

(** ** Dispatch *)

Definition IsReadOnly (sql : str) : bool :=
  let s := TrimSpace sql in
  hasPrefixFold s (lit "SELECT") || hasPrefixFold s (lit "SHOW")
  || hasPrefixFold s (lit "DESCRIBE") || hasPrefixFold s (lit "DESC").

Definition exec (e : Env) (d : Database) (sql : str) (maxRows : Z) : stmt Database :=
  let s := TrimSpace (TrimSuffixByte (TrimSpace sql) 59) in
  let pre kw := hasPrefixFold s (lit kw) in
  if pre "CREATE TABLE"%string then create d s
  else if pre "CREATE INDEX"%string then createIndex e d s
  else if pre "ALTER TABLE"%string then alterTable e d s
  else if pre "DROP TABLE"%string || pre "DROP INDEX"%string then dropStmt d s
  else if pre "TRUNCATE"%string then truncate d s
  else if pre "INSERT"%string then insertStmt e d s maxRows
  else if pre "SELECT"%string then (selectRows e d s maxRows, d)
  else if pre "SHOW"%string || pre "DESC"%string then (metaStmt e d s, d)
  else if pre "UPDATE"%string then updateStmt e d s
  else if pre "DELETE FROM"%string then deleteStmt e d s
  else fail "unsupported SQL" d.

Definition bumpRevision (d : Database) : Database :=
  mkDB (dTables d) ((dRevision d + 1) mod 2 ^ 64) (dBase d).

Definition site_exec : nat := 50.

Definition ExecWithOptions (e : Env) (d : Database) (sql : str) (maxRows : Z) : stmt Database :=
  match env_err e site_exec 0, env_err e site_exec 1 with
  | None, None =>
      let '(r, d') := exec e d sql maxRows in
      (r, if negb (IsReadOnly sql) && isOk r then bumpRevision d' else d')
  | Some c, _ | None, Some c => (Err (ECtx c), d)
  end.

(** [fmt.Errorf("statement %d: %w", i+1, err)]: the position and the cause. *)
Fixpoint execBatch_loop (env : nat → Env) (i : nat) (d : Database) (sqls : list str) (maxRows : Z)
    (done : list Result) : (list Result * option (nat * res Result)) * Database :=
  match sqls with
  | [] => ((done, None), d)
  | sql :: sqls' =>
      match ExecWithOptions (env i) d sql maxRows with
      | (Ok r, d') => execBatch_loop env (S i) d' sqls' maxRows (done ++ [r])
      | (er, d') => ((done, Some (S i, er)), d')
      end
  end.
Definition ExecBatchContext (env : nat → Env) (d : Database) (sqls : list str) (maxRows : Z) :=
  execBatch_loop env 0 d sqls maxRows [].

Definition RowCount (d : Database) : Z :=
  map_fold (λ _ t n, n + Z.of_nat (size (tRows t))) 0 (dTables d).

(** ** Copy and publish *)

Definition cloneLocked (t : Table) : Table :=
  mkTable (tName t) (tColumns t) (tRows t) (tOrder t) (tIndexes t) (tIndexNames t)
          (if fastOn t then tFast t else noFast) (tDead t) (tAutoKey t).
Definition cloneImage (d : Database) : Database := mkDB (cloneLocked <$> dTables d) 0 0.
Definition Clone (d : Database) : Database := mkDB (dTables (cloneImage d)) 0 (dRevision d).

(** [persist] returns its error, if any. *)
Definition replace (d source : Database) (check : bool) (persist : option (Database → option err))
    : option err * Database :=
  let clone := cloneImage source in
  if check && negb (dRevision d =? dBase source)
  then (Some (EMsg (lit "transaction conflict: database changed since BEGIN")), d)
  else match (match persist with Some p => p clone | None => None end) with
  | Some er => (Some er, d)
  | None => (None, bumpRevision (set_tables d (dTables clone)))
  end.
Definition CommitFrom (d source : Database) (persist : option (Database → option err)) := replace d source true persist.
Definition ReplaceFrom (d source : Database) := replace d source false None.

End Database.
