(* ===== verification/SelectProofs.v ===== *)
(** * SELECT is correct

    The fast-array scan, the order-slice scan and the key-collecting scan all
    compute the same relation over the abstract content: filter, project,
    deduplicate, cap, skip. *)

From S2P Require Import Prelude GoLib GoFacts Fold Value Parser Table TableInv InsertProofs OrderBy Select.
Open Scope Z_scope.

#[local] Arguments selectedValues : simpl never.
#[local] Arguments addLine : simpl never.
#[local] Arguments keepKey : simpl never.

(** ** Caps *)

(** The first [cap] lines; all of them when there is no cap. *)
Definition capRows {A} (cap : Z) (ls : list A) : list A := if cap <? 0 then ls else take (Z.to_nat cap) ls.

Lemma capReached_false cap n : capReached cap n = false ↔ cap < 0 ∨ Z.of_nat n < cap.
Proof.
  unfold capReached. rewrite andb_false_iff, !Z.leb_gt. done.
Qed.

Lemma capRows_short {A} cap (ls : list A) : cap < 0 ∨ Z.of_nat (length ls) ≤ cap → capRows cap ls = ls.
Proof. intros Hc. unfold capRows. case_match; btoz; [done|]. apply take_ge. lia. Qed.

Lemma capRows_full {A} cap (l1 l2 : list A) : 0 ≤ cap → Z.of_nat (length l1) = cap → capRows cap (l1 ++ l2) = l1.
Proof.
  intros Hc Hl. unfold capRows. rewrite (proj2 (Z.ltb_ge cap 0)) by done.
  replace (Z.to_nat cap) with (length l1) by lia. by rewrite take_app_length.
Qed.

Lemma capRows_length {A} cap (ls : list A) : 0 ≤ cap → Z.of_nat (length (capRows cap ls)) ≤ cap.
Proof. intros Hc. unfold capRows. case_match; btoz; [lia|]. rewrite length_take. lia. Qed.

Lemma capRows_map {A B} (f : A → B) cap ls : capRows cap (map f ls) = map f (capRows cap ls).
Proof. unfold capRows. case_match; [done|]. apply firstn_map. Qed.

(** ** LIMIT, OFFSET and MaxRows *)

(** What LIMIT/OFFSET mean on a list of lines; a negative limit is no LIMIT. *)
Definition page {A} (limit offset : Z) (ls : list A) : list A := capRows limit (drop (Z.to_nat offset) ls).

Lemma applyOffset_drop {A} offset (ls : list A) : applyOffset offset ls = drop (Z.to_nat offset) ls.
Proof.
  unfold applyOffset. repeat case_match; btoz; [|by rewrite drop_ge by lia | done].
  by replace (Z.to_nat offset) with 0%nat by lia.
Qed.

Lemma satAdd_min a b : 0 ≤ a ≤ MaxInt → 0 ≤ b ≤ MaxInt → satAdd a b = Z.min (a + b) MaxInt.
Proof. unfold satAdd. intros. case_match; btoz; lia. Qed.

Lemma take_same {A} n m (l : list A) :
  n = m ∨ (length l ≤ n ∧ length l ≤ m)%nat → take n l = take m l.
Proof. intros [->|[? ?]]; [done|]. by rewrite !take_ge by lia. Qed.

(** The cap never hides a row: skipping after capping is paging, or the result
    is exactly one row over [maxRows]. *)
Lemma rowCap_page {A} (ls : list A) limit offset maxRows :
  0 ≤ offset ≤ MaxInt → limit ≤ MaxInt → 0 ≤ maxRows ≤ MaxInt → Z.of_nat (length ls) < MaxInt →
  let rows := applyOffset offset (capRows (rowCapOf limit offset maxRows) ls) in
  if (0 <? maxRows) && (maxRows <? Z.of_nat (length (page limit offset ls)))
  then Z.of_nat (length rows) = maxRows + 1 else rows = page limit offset ls.
Proof.
  intros Ho Hl Hm Hn. cbv zeta. rewrite applyOffset_drop.
  set (D := drop (Z.to_nat offset) ls).
  assert (HD : length D = (length ls - Z.to_nat offset)%nat) by apply length_drop.
  assert (Hcap : ∀ c, 0 ≤ c → drop (Z.to_nat offset) (capRows c ls) = take (Z.to_nat c - Z.to_nat offset) D).
  { intros c Hc. unfold capRows. rewrite (proj2 (Z.ltb_ge c 0)) by done. apply skipn_firstn_comm. }
  unfold page. fold D. unfold rowCapOf.
  destruct (0 <=? limit) eqn:Hlim; btoz;
    [rewrite (satAdd_min limit offset) by lia; set (lc := Z.min (limit + offset) MaxInt)|].
  - assert (Hpage : capRows limit D = take (Z.to_nat limit) D)
      by (unfold capRows; by rewrite (proj2 (Z.ltb_ge limit 0))).
    rewrite Hpage, length_take. destruct (0 <? maxRows) eqn:Hmx; btoz; cbn [andb].
    + rewrite !satAdd_min by (rewrite ?satAdd_min by lia; unfold MaxInt in *; lia).
      set (ec := Z.min (Z.min (maxRows + offset) MaxInt + 1) MaxInt).
      rewrite (proj2 (Z.ltb_ge lc 0)) by lia. cbn [orb].
      destruct (ec <? lc) eqn:Hec; btoz; rewrite Hcap by lia;
        destruct (maxRows <? _) eqn:Hov; btoz; rewrite ?length_take; try lia; apply take_same; lia.
    + rewrite Hcap by lia. apply take_same. lia.
  - assert (Hpage : capRows limit D = D) by (unfold capRows; by rewrite (proj2 (Z.ltb_lt limit 0))).
    rewrite Hpage. destruct (0 <? maxRows) eqn:Hmx; btoz; cbn [andb].
    + rewrite !satAdd_min by (rewrite ?satAdd_min by lia; unfold MaxInt in *; lia).
      cbn [Z.ltb Z.compare orb]. rewrite Hcap by (unfold MaxInt in *; lia).
      destruct (maxRows <? _) eqn:Hov; btoz; rewrite ?length_take; [unfold MaxInt in *; lia|].
      apply take_ge. unfold MaxInt in *. lia.
    + done.
Qed.

Section SelectProofs.
Context `{GoStd}.

(** ** Collecting lines *)

Lemma addLine_app distinct s line :
  ∃ x, (addLine distinct s line).1 = s.1 ++ x ∧ (length x ≤ 1)%nat.
Proof.
  destruct s as [rows seen]. unfold addLine. repeat case_match; simpl;
    by (exists [] + exists [line]); rewrite ?app_nil_r; (split; [|simpl; lia]).
Qed.

Lemma foldl_addLine_app distinct lines s : ∃ x, (foldl (addLine distinct) s lines).1 = s.1 ++ x.
Proof.
  revert s. induction lines as [|l lines IH]; intros s; simpl; [exists []; by rewrite app_nil_r|].
  destruct (IH (addLine distinct s l)) as [x ->]. destruct (addLine_app distinct s l) as (y & -> & _).
  exists (y ++ x). by rewrite app_assoc.
Qed.

(** A scan that skips or adds lines and stops at the cap. *)
Lemma scan_collect {A} (step : list (list value) * gset str → A → (list (list value) * gset str) * bool)
    (f : A → option (list value)) distinct cap l : ∀ s,
  (∀ s a, step s a = match f a with
                     | None => (s, false)
                     | Some line => (addLine distinct s line, capReached cap (length (addLine distinct s line).1))
                     end) →
  (cap < 0 ∨ Z.of_nat (length s.1) < cap) →
  (scan_pure step l s).1 = capRows cap (foldl (addLine distinct) s (omap f l)).1.
Proof.
  induction l as [|a l IH]; intros s Hstep Hs; csimpl.
  - rewrite capRows_short; [done | lia].
  - rewrite Hstep. destruct (f a) as [line|]; [|by apply IH]. csimpl.
    destruct (capReached cap _) eqn:Hc.
    + destruct (foldl_addLine_app distinct (omap f l) (addLine distinct s line)) as [x ->].
      destruct (addLine_app distinct s line) as (y & Hy & Hly).
      unfold capReached in Hc. btoz. rewrite capRows_full; [done | done |].
      rewrite Hy, length_app in *. lia.
    + apply IH; [done|]. by apply capReached_false.
Qed.

(** ** Projection: the fast row and the row map agree *)

Lemma hasColumn_In cols n : hasColumn cols n = true ↔ n ∈ map cName cols.
Proof.
  unfold hasColumn. rewrite existsb_exists, list_elem_of_In, in_map_iff. split.
  - intros (c & Hc & Hn%bool_decide_eq_true). eauto.
  - intros (c & Hn & Hc). exists c. by rewrite bool_decide_true.
Qed.

Lemma fast_cell cols r n :
  cols_ok cols → row_ok cols r →
  match colPos 0 cols ∅ !! n with Some i => default VNil (fastValues cols r !! i) | None => VNil end
  = rowGet r n.
Proof.
  intros [Hnd _] [Hdom _]. destruct (colPos 0 cols ∅ !! n) as [i|] eqn:Hi.
  - destruct (colPos_Some _ _ _ Hnd Hi) as (x & Hx & <-). by rewrite (fastValues_lookup _ _ _ _ Hx).
  - pose proof (colPos_None _ _ Hnd Hi) as Hc. unfold rowGet.
    destruct (r !! n) eqn:Hr; [|done]. specialize (proj1 (Hdom n) ltac:(eauto)). congruence.
Qed.

Lemma selectedFast_values cols r names :
  cols_ok cols → row_ok cols r →
  selectedFastValues (fastValues cols r) names (colPos 0 cols ∅) = selectedValues r names.
Proof. intros Hc Hr. apply map_ext. intros n. by apply fast_cell. Qed.

Lemma colPos_is_Some cols n : NoDup (map cName cols) → hasColumn cols n = true → is_Some (colPos 0 cols ∅ !! n).
Proof.
  intros Hnd Hn. destruct (colPos 0 cols ∅ !! n) eqn:Hi; [eauto|].
  by rewrite (colPos_None _ _ Hnd Hi) in Hn.
Qed.

(** Compiled terms name columns of the table. *)
Definition condition_ok (cols : list Column) (c : compiledCondition) : Prop :=
  ∀ conj tm, conj ∈ c → tm ∈ conj → hasColumn cols (ctColumn tm) = true.

Lemma existsb_ext_on {A} (f g : A → bool) l : (∀ a, a ∈ l → f a = g a) → existsb f l = existsb g l.
Proof.
  induction l as [|a l IH]; intros Hl; [done|]. simpl. rewrite (Hl a), IH by (intros; try apply Hl; set_solver). done.
Qed.
Lemma forallb_ext_on {A} (f g : A → bool) l : (∀ a, a ∈ l → f a = g a) → forallb f l = forallb g l.
Proof.
  induction l as [|a l IH]; intros Hl; [done|]. simpl. rewrite (Hl a), IH by (intros; try apply Hl; set_solver). done.
Qed.

Lemma matchesFast_map cols r c :
  cols_ok cols → row_ok cols r → condition_ok cols c →
  matchesFast c (fastValues cols r) (colPos 0 cols ∅) = matchesMap c r.
Proof.
  intros Hc Hr Hok. unfold matchesFast, matchesMap. apply existsb_ext_on. intros conj Hconj.
  apply forallb_ext_on. intros tm Htm. pose proof (fast_cell cols r (ctColumn tm) Hc Hr) as Hcell.
  destruct (colPos_is_Some cols (ctColumn tm) (cols_nodup _ Hc) (Hok _ _ Hconj Htm)) as [i Hi].
  rewrite Hi in *. by rewrite Hcell.
Qed.

Lemma columnType_hasColumn cols n typ : columnType cols n = Some typ → hasColumn cols n = true.
Proof.
  unfold columnType, hasColumn. enough (Hg : ∀ o, foldl (λ o c, if bool_decide (cName c = n) then Some (cType c) else o) o cols = Some typ →
     o = Some typ ∨ existsb (λ c, bool_decide (cName c = n)) cols = true).
  { intros Hf. by destruct (Hg None Hf). }
  induction cols as [|c cols IH]; intros o Hf; simpl in *; [by left|].
  apply IH in Hf as [Hf|Hf]; [|right; by rewrite Hf, orb_true_r].
  case_bool_decide; [by right | by left].
Qed.

Lemma compileTerm_column cols s tm : compileTerm cols s = Some tm → hasColumn cols (ctColumn tm) = true.
Proof.
  unfold compileTerm. intros Hc. repeat (case_match; simplify_eq/=); by eapply columnType_hasColumn.
Qed.

Lemma compileCondition_ok expr cols c : compileCondition expr cols = Some c → condition_ok cols c.
Proof.
  unfold compileCondition. case_match; [intros [= <-]; by intros ? ? ?%elem_of_nil|].
  intros Hm conj tm Hconj Htm. apply mapM_Some in Hm.
  apply list_elem_of_lookup in Hconj as [i Hi]. destruct (Forall2_lookup_r _ _ _ _ _ Hm Hi) as (d & _ & Hd).
  apply mapM_Some in Hd. apply list_elem_of_lookup in Htm as [j Hj].
  destruct (Forall2_lookup_r _ _ _ _ _ Hd Hj) as (x & _ & Hx). by eapply compileTerm_column.
Qed.

(** ** Bare equality compiles to the same single term *)

Lemma columnType_other cols n o :
  n ∉ map cName cols → foldl (λ o c, if bool_decide (cName c = n) then Some (cType c) else o) o cols = o.
Proof.
  revert o. induction cols as [|c cols IH]; intros o Hn; [done|]. cbn [foldl map] in *.
  rewrite bool_decide_false by set_solver. apply IH. set_solver.
Qed.

Lemma columnType_lookup cols i c :
  NoDup (map cName cols) → cols !! i = Some c → columnType cols (cName c) = Some (cType c).
Proof.
  unfold columnType. generalize (None : option ctype).
  revert i. induction cols as [|x cols IH]; intros i o Hnd Hi; [done|].
  cbn [foldl map] in *. apply NoDup_cons in Hnd as [Hx Hnd]. destruct i as [|i]; simplify_eq/=.
  - rewrite bool_decide_true by done. by apply columnType_other.
  - by apply (IH i).
Qed.

Lemma hasPrefixFold_length s p : hasPrefixFold s p = true → (length p ≤ length s)%nat.
Proof.
  revert s. induction p as [|c p IH]; intros [|d s] Hp; cbn [hasPrefixFold length] in *; try done; try lia.
  case_match; [|done]. apply IH in Hp. lia.
Qed.

Lemma indexFold_loop_ge i s sub : indexFold_loop i s sub = -1 ∨ i ≤ indexFold_loop i s sub.
Proof.
  revert i. induction s as [|c s IH]; intros i; cbn [indexFold_loop]; repeat case_match; try lia.
  destruct (IH (i + 1)); lia.
Qed.

(** No occurrence means no occurrence at any offset. *)
Lemma indexFold_absent s sub :
  sub ≠ [] → indexFold s sub < 0 → ∀ p k, s = p ++ k → foldEqualAt k sub = false.
Proof.
  intros Hne. replace (indexFold s sub) with (indexFold_loop 0 s sub) by by destruct sub.
  assert (Hg : ∀ i, 0 ≤ i → indexFold_loop i s sub < 0 → ∀ p k, s = p ++ k → foldEqualAt k sub = false).
  { induction s as [|c s IH]; intros i Hi Hneg p k Hs; cbn [indexFold_loop] in Hneg.
    - destruct p, k; simplify_eq/=. by destruct sub.
    - destruct (length (c :: s) <? length sub)%nat eqn:Hl; btoz.
      + apply not_true_is_false. intros Hf%hasPrefixFold_length. rewrite Hs, length_app in Hl. lia.
      + destruct (foldEqualAt (c :: s) sub) eqn:Hf; [lia|].
        destruct p as [|d p]; simplify_eq/=; [done|]. by apply (IH (i + 1) ltac:(lia) Hneg p). }
  intros Hneg. by apply (Hg 0).
Qed.

Lemma splitLogical_single op s :
  (∀ p k, s = p ++ k → foldEqualAt k (32 :: op ++ [32]) = false) → splitLogical s op = [TrimSpace s].
Proof.
  unfold splitLogical. intros Hno.
  enough (Hg : ∀ prev cur quoted pending,
    splitLogical_loop op (32 :: op ++ [32]) 0 prev cur quoted pending s = [TrimSpace (reverse cur ++ s)])
    by by rewrite Hg.
  induction s as [|c s IH1 IH2] using list_ind2; intros prev cur quoted pending;
    cbn [splitLogical_loop]; [by rewrite app_nil_r|].
  assert (Hno1 : ∀ p k, s = p ++ k → foldEqualAt k (32 :: op ++ [32]) = false)
    by (intros p k ->; by apply (Hno (c :: p))).
  rewrite (Hno [] (c :: s)) by done. cbn zeta.
  assert (Hnext : ∀ q pe, splitLogical_loop op (32 :: op ++ [32]) 0 (Some c) (c :: cur) q pe s
                          = [TrimSpace (reverse cur ++ c :: s)]).
  { intros q pe. rewrite IH1 by done. by rewrite reverse_cons, <- app_assoc. }
  rewrite !Hnext.
  destruct (length (c :: s) <? length (32%Z :: op ++ [32%Z]))%nat; [done|].
  destruct (c =? quote); [|by destruct quoted].
  destruct s as [|d s']; [by destruct (negb quoted)|].
  destruct (quoted && (d =? quote)); [|by destruct (negb quoted)].
  rewrite (IH2 d s') by (done || (intros p k ->; by apply (Hno (c :: d :: p)))).
  by rewrite !reverse_cons, <- !app_assoc.
Qed.

(** No quote or comparison character before the '='. *)
Definition bare_byte (c : Z) : bool := negb ((c =? 39) || (c =? 60) || (c =? 62) || (c =? 33)).
Definition bare_lhs (wh : str) : Prop :=
  ∀ a b, split2 wh 61 = Some (a, b) → forallb bare_byte a = true.

(** What the shortcuts take for a column name, the text before the first '=', is bare
    unless it names no column: in [a >= 5] it is [a >]. *)
Definition plain_lhs (t : Table) (wh : str) : Prop :=
  ∀ a b, split2 wh 61 = Some (a, b) →
    forallb bare_byte a = true ∨ Forall (λ c, cName c ≠ ToLower (TrimSpace a)) (tColumns t).
Lemma bare_plain t wh : bare_lhs wh → plain_lhs t wh.
Proof. intros Hb a b Hs. left. by eapply Hb. Qed.

Lemma splitConditionTerm_bare s a b cur :
  split2 s 61 = Some (a, b) → forallb bare_byte a = true →
  splitConditionTerm_loop cur false s = Some (reverse cur ++ a, opEq, b).
Proof.
  revert a cur. induction s as [|c s IH]; intros a cur Hs Ha; [done|]. cbn [split2] in Hs.
  cbn [splitConditionTerm_loop]. destruct (c =? 61) eqn:Hc.
  - simplify_eq. apply Z.eqb_eq in Hc as ->. cbn. by rewrite app_nil_r.
  - destruct (split2 s 61) as [[a' b']|] eqn:Hs'; [|done]. simplify_eq.
    cbn [forallb] in Ha. apply andb_true_iff in Ha as [Hb Ha]. unfold bare_byte in Hb.
    apply negb_true_iff, orb_false_iff in Hb as [[[H1 H2]%orb_false_iff H3]%orb_false_iff H4].
    change quote with 39. rewrite H1, H2, H3, H4. cbn [orb].
    rewrite (IH a') by done. by rewrite reverse_cons, <- app_assoc.
Qed.

Lemma splitLogical_absent wh op :
  TrimSpace wh = wh → indexFold wh (32 :: op ++ [32]) < 0 → splitLogical wh op = [wh].
Proof.
  intros Ht Hi. rewrite splitLogical_single; [by rewrite Ht|]. by apply indexFold_absent.
Qed.

Lemma unquote_trim s : unquoteLiteral (TrimSpace s) = unquoteLiteral s.
Proof. unfold unquoteLiteral. by rewrite TrimSpace_idemp. Qed.

(** [matchFastTerm] is the generic comparison, whatever the kind. *)
Lemma matchFastTerm_generic values tm :
  matchFastTerm values tm = conditionValueEqual (default VNil (values !! ftIndex tm)) (ftExpected tm).
Proof.
  unfold matchFastTerm. destruct (ftKind tm), (ftExpected tm), (default VNil (values !! ftIndex tm)); done.
Qed.

Lemma compile_single wh cols c :
  TrimSpace wh = wh → wh ≠ [] → indexFold wh (lit " AND ") < 0 → indexFold wh (lit " OR ") < 0 →
  compileCondition wh cols = Some c → ∃ tm, compileTerm cols wh = Some tm ∧ c = [[tm]].
Proof.
  intros Ht Hne Ha Ho. unfold compileCondition. rewrite Ht, bool_decide_false by done.
  rewrite (splitLogical_absent wh (lit "OR")) by done. cbn [mapM].
  rewrite (splitLogical_absent wh (lit "AND")) by done. cbn [mapM].
  destruct (compileTerm cols wh) as [tm|]; simpl; [|done]. intros [= <-]. eauto.
Qed.

Lemma simple_none e :
  bool_decide (e = []) || (0 <=? indexFold e (lit " AND ")) || (0 <=? indexFold e (lit " OR ")) = false →
  e ≠ [] ∧ indexFold e (lit " AND ") < 0 ∧ indexFold e (lit " OR ") < 0.
Proof. intros [[? ?]%orb_false_iff ?]%orb_false_iff. btoz. done. Qed.

Lemma fastTerm_compiled t r wh tm c :
  cols_ok (tColumns t) → fCols (tFast t) = colPos 0 (tColumns t) ∅ →
  TrimSpace wh = wh → plain_lhs t wh →
  simpleFastTerm wh t = Some tm → compileCondition wh (tColumns t) = Some c →
  matchFastTerm (fastValues (tColumns t) r) tm = matchesMap c r.
Proof.
  intros Hc Hcols Ht Hplain Htm Hcomp. unfold simpleFastTerm in Htm.
  destruct (bool_decide (wh = []) || _ || _) eqn:Hs; [done|].
  apply simple_none in Hs as (Hne & Ha & Ho).
  destruct (compile_single _ _ _ Ht Hne Ha Ho Hcomp) as (ct & Hct & ->).
  destruct (split2 wh 61) as [[a b]|] eqn:Hsp; [|done].
  rewrite Hcols in Htm. specialize (Hplain _ _ Hsp).
  destruct (ToLower (TrimSpace a)) as [|x y] eqn:Hcol; [done|]. set (col := x :: y) in *.
  destruct (colPos 0 (tColumns t) ∅ !! col) as [i|] eqn:Hi; [|done].
  destruct (colPos_Some _ _ _ (cols_nodup _ Hc) Hi) as (cc & Hcc & Hname). rewrite Hcc in Htm.
  destruct Hplain as [Hbare|Hno]; [|by destruct (Forall_lookup_1 _ _ _ _ Hno Hcc)].
  unfold compileTerm, splitTerm, splitConditionTerm in Hct. rewrite (splitConditionTerm_bare _ _ _ _ Hsp Hbare) in Hct.
  change (reverse [] ++ a) with a in Hct. rewrite Hcol, bool_decide_false in Hct by done.
  rewrite <- Hname in Hct. rewrite (columnType_lookup _ _ _ (cols_nodup _ Hc) Hcc) in Hct.
  case_bool_decide; [done|]. simplify_eq. rewrite matchFastTerm_generic. simpl.
  rewrite (fastValues_lookup _ _ _ _ Hcc). unfold matchesMap, literalValue. simpl.
  rewrite !unquote_trim. by rewrite andb_true_r, orb_false_r.
Qed.

(** ** The three scans *)

(** Reference: the projected lines of the matching rows, in table order. *)
Definition specLines (t : Table) (names : list str) (distinct : bool) (pred : row → bool) : list (list value) :=
  dedupLines distinct (map (λ p, selectedValues p.2 names) (filter (λ p, pred p.2 = true) (absRows t))).

Lemma omap_view {B} (l : list fastRow) (f : list value → option B) :
  omap (λ r, if bool_decide (fKey r = []) then None else f (fValues r)) l = omap (λ p, f p.2) (viewL l).
Proof.
  induction l as [|r l IH]; [done|]. rewrite viewL_cons. csimpl. case_bool_decide; simpl; by rewrite IH.
Qed.

Lemma omap_filter_map {A B} (p : A → bool) (g : A → B) l :
  omap (λ a, if p a then Some (g a) else None) l = map g (filter (λ a, p a = true) l).
Proof.
  induction l as [|a l IH]; [done|]. rewrite filter_cons. csimpl.
  destruct (p a); [rewrite decide_True by done | rewrite decide_False by done]; simpl; by rewrite IH.
Qed.

Lemma omap_map {A B C} (g : A → B) (f : B → option C) (l : list A) :
  omap f (map g l) = omap (λ a, f (g a)) l.
Proof. induction l as [|a l IH]; [done|]. csimpl. by rewrite IH. Qed.

Lemma omap_ext_on {A B} (f g : A → option B) (l : list A) : (∀ a, a ∈ l → f a = g a) → omap f l = omap g l.
Proof.
  induction l as [|a l IH]; intros Hl; [done|]. csimpl. rewrite (Hl a) by left.
  rewrite IH by (intros; apply Hl; by right). done.
Qed.

Lemma fastScan_spec (e : Env) (t : Table) (names : list str) (distinct : bool) (cap : Z) (pred : list value → bool) (predr : row → bool) :
  env_quiet e → table_wf t → fastOn t = true → cap ≠ 0 →
  (∀ k r, tRows t !! k = Some r → pred (fastValues (tColumns t) r) = predr r) →
  fastScan e t names distinct cap pred = Ok (capRows cap (specLines t names distinct predr)).
Proof.
  intros Hq Ht Hon Hcap Hpred. unfold fastScan. rewrite scan_quiet by done.
  unfold fastOn in Hon. btoz. pose proof (wf_fast _ Ht) as Hf.
  destruct (scan_pure _ _ _) as [rows seen] eqn:Hs. f_equal.
  change rows with ((rows, seen).1). rewrite <- Hs.
  rewrite (scan_collect _ (λ f, if bool_decide (fKey f = []) then None
     else if pred (fValues f) then Some (selectedFastValues (fValues f) names (fCols (tFast t))) else None)
     distinct cap).
  - f_equal. unfold specLines, dedupLines. f_equal. f_equal.
    rewrite (omap_view _ (λ vs, if pred vs then Some (selectedFastValues vs names (fCols (tFast t))) else None)).
    change (viewL (fRows (tFast t))) with (fastView (tFast t)).
    rewrite (fast_view _ _ _ Hf Hon), (fast_cols _ _ _ Hf Hon). unfold projectRows.
    rewrite <- (omap_filter_map (λ p : str * row, predr p.2)), omap_map. apply omap_ext_on.
    intros [k r] Hkr. simpl. apply absRows_key in Hkr; [|by apply table_wf_base].
    rewrite (Hpred k r Hkr). destruct (predr r); [|done].
    rewrite selectedFast_values; [done | apply Ht | by eapply (wf_rows _ Ht)].
  - intros s f. unfold fastStep. by repeat case_match.
  - simpl. lia.
Qed.

(** The fast entry of a live key is its row; a disabled fast array has none. *)
Lemma fastAt_row t k r :
  table_wf t → tRows t !! k = Some r →
  fastAt t k = if fastOn t then Some (fastValues (tColumns t) r) else None.
Proof.
  intros Ht Hk. pose proof (wf_fast _ Ht) as Hf. pose proof (proj1 (proj1 (table_wf_base _) Ht)) as Hb.
  unfold fastAt, fastOn. destruct (fPos (tFast t) !! k) as [i|] eqn:Hi.
  - destruct (fast_split _ _ _ _ _ Hf (absRows_nodup _ Hb) Hi)
      as (l1 & vs & l2 & c1 & r' & c2 & Hl & Hlen & Hne & Hc & Hvs & _).
    assert (Hr : (k, r') ∈ absRows t) by (rewrite Hc; set_solver).
    apply absRows_key in Hr; [|done]. simplify_eq.
    rewrite Hl. rewrite lookup_app_r, Nat.sub_diag by lia. simpl.
    rewrite !bool_decide_false; [done | | done]. by destruct l1.
  - case_bool_decide as Hon; [done|]. exfalso.
    apply (fast_ok_absent _ _ _ k Hf Hon Hi); [by eapply base_wf_nonempty|].
    apply absRows_key_in; [done | by rewrite Hk].
Qed.

Lemma lineAt_row t names k r :
  table_wf t → tRows t !! k = Some r → lineAt t names k = Some (selectedValues r names).
Proof.
  intros Ht Hk. unfold lineAt. rewrite (fastAt_row _ _ _ Ht Hk), Hk.
  destruct (fastOn t) eqn:Hon; [|done]. unfold fastOn in Hon. btoz.
  rewrite (fast_cols _ _ _ (wf_fast _ Ht) Hon). f_equal.
  apply selectedFast_values; [apply Ht | by eapply (wf_rows _ Ht)].
Qed.

Definition lineOf (t : Table) (names : list str) (k : str) : list value :=
  default (selectedValues ∅ names) (lineAt t names k).

Lemma keepKey_addLine t names distinct s k r :
  table_wf t → tRows t !! k = Some r →
  let s' := keepKey t names distinct s k in
  addLine distinct (map (lineOf t names) s.1, s.2) (selectedValues r names)
    = (map (lineOf t names) s'.1, s'.2)
  ∧ (s'.1 = s.1 ∧ distinct = true ∨ s'.1 = s.1 ++ [k]).
Proof.
  intros Ht Hk. pose proof (lineAt_row t names k r Ht Hk) as Hl.
  assert (Hlo : lineOf t names k = selectedValues r names) by (unfold lineOf; by rewrite Hl).
  destruct s as [keys seen]. unfold keepKey, dedupKey, addLine. cbn [fst snd]. rewrite Hl.
  destruct distinct; cbn [negb]; [case_bool_decide|]; cbn [fst snd];
    rewrite ?map_app; cbn [map]; rewrite ?Hlo; auto.
Qed.

Definition capOf (stopAt : option Z) : Z := default (-1) stopAt.

Lemma capOf_reached stopAt n :
  match stopAt with Some cap => capReached cap n | None => false end = capReached (capOf stopAt) n.
Proof. by destruct stopAt. Qed.

(** The line of a live matching key. *)
Definition lineIf (t : Table) (names : list str) (pred : row → bool) (k : str) : option (list value) :=
  match tRows t !! k with
  | Some r => if pred r then Some (selectedValues r names) else None
  | None => None
  end.

(** Collecting keys in [Order] collects the lines. *)
Lemma orderScan_lines (t : Table) (names : list str) (distinct : bool) (stopAt : option Z) (pred : row → bool)
    (l : list str) : ∀ s : list str * gset str,
  table_wf t → (capOf stopAt < 0 ∨ Z.of_nat (length s.1) < capOf stopAt) →
  (∀ k, k ∈ s.1 → is_Some (tRows t !! k)) →
  let R := scan_pure (orderStep t names distinct stopAt pred) l s in
  map (lineOf t names) R.1
    = capRows (capOf stopAt) (foldl (addLine distinct) (map (lineOf t names) s.1, s.2)
        (omap (lineIf t names pred) l)).1
  ∧ (∀ k, k ∈ R.1 → is_Some (tRows t !! k)).
Proof.
  induction l as [|k l IH]; intros s Ht Hcap Hlive; csimpl.
  { split; [|done]. rewrite capRows_short; [done|]. rewrite length_map. lia. }
  unfold orderStep at 1 3, lineIf at 1. destruct (tRows t !! k) as [r|] eqn:Hk; [|by apply IH].
  destruct (pred r); cbn [negb]; [|by apply IH].
  destruct (keepKey_addLine t names distinct s k r Ht Hk) as [Hadd Hs']. cbv zeta in Hadd, Hs'.
  set (s' := keepKey t names distinct s k) in *. csimpl. rewrite Hadd. rewrite capOf_reached.
  assert (Hlive' : ∀ k', k' ∈ s'.1 → is_Some (tRows t !! k')).
  { intros k' Hk'. destruct Hs' as [[E _]|E]; rewrite E in Hk'; [by apply Hlive|].
    apply elem_of_app in Hk' as [?|Hk']; [by apply Hlive|]. apply list_elem_of_singleton in Hk' as ->. eauto. }
  destruct (length s'.1 =? length s.1)%nat eqn:Hlen; btoz.
  { apply IH; [done | by rewrite Hlen | done]. }
  assert (Hsn : length s'.1 = S (length s.1)).
  { destruct Hs' as [[E _]|E]; rewrite E in *; [done|]. rewrite length_app. simpl. lia. }
  destruct (capReached (capOf stopAt) (length s'.1)) eqn:Hc.
  - split; [|done]. destruct (foldl_addLine_app distinct
      (omap (lineIf t names pred) l) (map (lineOf t names) s'.1, s'.2)) as [y ->]. simpl.
    unfold capReached in Hc. btoz. rewrite capRows_full; [done | done |]. rewrite length_map. lia.
  - apply IH; [done | by apply capReached_false | done].
Qed.

Lemma lineIf_abs t names pred l :
  omap (lineIf t names pred) l
  = map (λ p, selectedValues p.2 names) (filter (λ p, pred p.2 = true) (absL (tRows t) l)).
Proof.
  induction l as [|k l IH]; [done|]. rewrite absL_cons. csimpl. unfold lineIf at 1.
  destruct (tRows t !! k) as [r|]; [|done]. rewrite filter_cons. cbn [snd].
  destruct (pred r); [rewrite decide_True by done | rewrite decide_False by done]; [|done].
  by rewrite IH.
Qed.

Lemma materialize_lines t names cap keys : ∀ rows,
  table_wf t → (∀ k, k ∈ keys → is_Some (tRows t !! k)) →
  (cap < 0 ∨ Z.of_nat (length rows) + Z.of_nat (length keys) ≤ cap) →
  materialize t names cap rows keys = rows ++ map (lineOf t names) keys.
Proof.
  induction keys as [|k keys IH]; intros rows Ht Hlive Hcap; cbn [materialize map]; [by rewrite app_nil_r|].
  assert (Hline : default (selectedValues ∅ names) (if fastOn t then lineAt t names k
            else (λ r, selectedValues r names) <$> tRows t !! k) = lineOf t names k).
  { unfold lineOf. destruct (fastOn t) eqn:Hon; [done|]. destruct (Hlive k ltac:(left)) as [r Hr].
    by rewrite (lineAt_row _ _ _ _ Ht Hr), Hr. }
  rewrite Hline. set (rows' := rows ++ [lineOf t names k]).
  assert (Hl' : length rows' = S (length rows)) by (subst rows'; rewrite length_app; simpl; lia).
  cbn [length] in Hcap. destruct (capReached cap (length rows')) eqn:Hc.
  - unfold capReached in Hc. btoz. assert (keys = []) as -> by (apply length_zero_iff_nil; lia). done.
  - rewrite IH; [|done | by intros; apply Hlive; right | rewrite Hl'; lia].
    subst rows'. by rewrite <- app_assoc.
Qed.

(** Not answered from a secondary index. *)
Definition unindexed (t : Table) (simple : option (str * str)) : Prop :=
  match simple with Some (c, _) => tIndexes t !! c = None | None => True end.

Definition wherePred (wh : str) (compiled : compiledCondition) (r : row) : bool :=
  bool_decide (wh = []) || matchesMap compiled r.

Lemma collectKeys_order e t names distinct stopAt simple term wh compiled :
  env_quiet e → unindexed t simple →
  collectKeys e t names distinct stopAt simple term wh compiled
  = Ok (scan_pure (orderStep t names distinct stopAt (wherePred wh compiled)) (tOrder t) ([], ∅)).1.
Proof.
  intros Hq Hidx. unfold collectKeys, wherePred.
  assert (Hno : ∀ c v, simple = Some (c, v) → bool_decide (is_Some (tIndexes t !! c)) = false).
  { intros c v ->. apply bool_decide_eq_false. simpl in Hidx. rewrite Hidx. by intros []. }
  destruct simple as [[c v]|]; [rewrite (Hno c v) by done|]; rewrite scan_quiet by done;
    by destruct (scan_pure _ _ _).
Qed.

(** The keys collected with a non-zero cap, and their lines. *)
Lemma collected_lines (t : Table) (names : list str) (distinct : bool) (stopAt : option Z) (pred : row → bool) :
  table_wf t → capOf stopAt ≠ 0 →
  let keys := (scan_pure (orderStep t names distinct stopAt pred) (tOrder t) ([], ∅)).1 in
  map (lineOf t names) keys = capRows (capOf stopAt) (specLines t names distinct pred) ∧
  (∀ k, k ∈ keys → is_Some (tRows t !! k)).
Proof.
  intros Ht Hcap. destruct (orderScan_lines t names distinct stopAt pred (tOrder t) ([], ∅)) as [Hl Hlive];
    [done | simpl; lia | by intros k ?%elem_of_nil |].
  split; [|done]. cbv zeta in Hl. rewrite Hl, lineIf_abs. done.
Qed.

(** The whole key-collecting path without ORDER BY and without an index. *)
Lemma selectByKeys_spec (e : Env) (t : Table) (names : list str) (distinct : bool) (tail : selectTail)
    (maxRows cap : Z) simple term compiled :
  env_quiet e → table_wf t → stOrder tail = [] → unindexed t simple → (distinct = true → cap ≠ 0) →
  selectByKeys e t names distinct tail maxRows cap simple term compiled
  = capResultRows (mkResult names (applyOffset (stOffset tail)
      (capRows cap (specLines t names distinct (wherePred (stWhere tail) compiled)))) 0 []) maxRows.
Proof.
  intros Hq Ht Hord Hidx Hdist. unfold selectByKeys. rewrite Hord, bool_decide_true by done. cbn [negb].
  rewrite collectKeys_order by done. cbn [bindr].
  set (pred := wherePred (stWhere tail) compiled).
  set (keys := (scan_pure _ _ _).1). do 3 f_equal.
  destruct (decide (cap = 0)) as [->|Hcap].
  - destruct distinct; [by destruct Hdist|]. cbn [negb andb].
    destruct (0 <? Z.of_nat (length keys)) eqn:Hk; [done|]. btoz.
    assert (keys = []) as -> by (apply length_zero_iff_nil; lia). done.
  - destruct (collected_lines t names distinct (Some cap) pred Ht Hcap) as [Hl Hlive].
    fold keys in Hl, Hlive. cbn [capOf default] in Hl.
    assert (Hlen : cap < 0 ∨ Z.of_nat (length keys) ≤ cap).
    { destruct (decide (cap < 0)); [by left|right]. rewrite <- (length_map (lineOf t names)), Hl.
      apply capRows_length. lia. }
    destruct (negb distinct && (0 <=? cap) && (cap <? Z.of_nat (length keys))) eqn:Hcut.
    { btoz. lia. }
    rewrite materialize_lines; [done | done | done | simpl; lia].
Qed.

(** The answer of an ungrouped SELECT, from the projected lines. *)
Definition pagedResult (names : list str) (limit offset maxRows : Z) (lines : list (list value)) : res Result :=
  let rows := page limit offset lines in
  if (0 <? maxRows) && (maxRows <? Z.of_nat (length rows)) then Err (ETooLarge (maxRows + 1) maxRows)
  else Ok (mkResult names rows 0 []).

Lemma capResult_paged names limit offset maxRows lines :
  0 ≤ offset ≤ MaxInt → limit ≤ MaxInt → 0 ≤ maxRows ≤ MaxInt → Z.of_nat (length lines) < MaxInt →
  capResultRows (mkResult names (applyOffset offset (capRows (rowCapOf limit offset maxRows) lines)) 0 []) maxRows
  = pagedResult names limit offset maxRows lines.
Proof.
  intros Ho Hl Hm Hn. pose proof (rowCap_page lines limit offset maxRows Ho Hl Hm Hn) as Hp. cbv zeta in Hp.
  unfold pagedResult, capResultRows. cbn [rRows].
  destruct ((0 <? maxRows) && (maxRows <? Z.of_nat (length (page limit offset lines)))) eqn:Hc.
  - rewrite Hp. btoz. rewrite (proj2 (Z.ltb_lt 0 maxRows)), (proj2 (Z.ltb_lt maxRows (maxRows + 1))) by lia. done.
  - rewrite Hp. by rewrite Hc.
Qed.

Lemma dedupLines_length distinct lines : (length (dedupLines distinct lines) ≤ length lines)%nat.
Proof.
  unfold dedupLines. enough (Hg : ∀ s, (length (foldl (addLine distinct) s lines).1 ≤ length s.1 + length lines)%nat)
    by (specialize (Hg ([], ∅)); simpl in Hg; lia).
  induction lines as [|l lines IH]; intros s; cbn [foldl length]; [lia|].
  specialize (IH (addLine distinct s l)). destruct (addLine_app distinct s l) as (x & Hx & Hlx).
  rewrite Hx, length_app in IH. lia.
Qed.

Lemma specLines_length t names distinct pred :
  (length (specLines t names distinct pred) ≤ length (absRows t))%nat.
Proof.
  unfold specLines. etrans; [apply dedupLines_length|]. rewrite length_map. apply filter_length_le.
Qed.

Lemma rowCapOf_nonzero limit offset maxRows :
  0 ≤ offset ≤ MaxInt → limit ≤ MaxInt → 0 ≤ maxRows ≤ MaxInt → limit ≠ 0 → rowCapOf limit offset maxRows ≠ 0.
Proof.
  intros Ho Hl Hm Hne. unfold rowCapOf.
  destruct (0 <=? limit) eqn:E1; btoz; destruct (0 <? maxRows) eqn:E2; btoz;
    rewrite ?satAdd_min by (rewrite ?satAdd_min by lia; unfold MaxInt in *; lia);
    repeat case_match; unfold MaxInt in *; lia.
Qed.

(** Nothing answers the predicate by key: no primary-key or indexed equality. *)
Definition scanned (t : Table) (wh : str) : Prop :=
  ∀ col v, simpleEquality wh = Some (col, v) → col ≠ primaryColumn t ∧ tIndexes t !! col = None.

(** C11: A SELECT without GROUP BY, ORDER BY or aggregate, answered by scanning:
    whether the table is scanned through the fast array (with or without the
    specialised single-term comparison) or through the order slice, the answer
    is the projection of the matching rows in table order, deduplicated when
    DISTINCT, with OFFSET and LIMIT applied, or the row-limit error exactly when
    more than MaxRows rows would be returned.  The saturating cap arithmetic and
    the early exits are not observable.  Not cancelled, the table well-formed, counts
    within an int, the WHERE text trimmed and valid, any operators in it; DISTINCT is
    not combined with LIMIT 0; and no column has a quote or a comparison sign in its name
    that the text before the first '=' would spell ([plain_lhs]). *)
Theorem select_scan_correct (e : Env) (t : Table) (names : list str) (distinct : bool) (tail : selectTail)
    (maxRows : Z) (c : compiledCondition) :
  env_quiet e → table_wf t → Z.of_nat (length (absRows t)) < MaxInt →
  0 ≤ stOffset tail ≤ MaxInt → stLimit tail ≤ MaxInt → 0 ≤ maxRows ≤ MaxInt →
  stOrder tail = [] → (distinct = true → stLimit tail ≠ 0) →
  TrimSpace (stWhere tail) = stWhere tail → plain_lhs t (stWhere tail) → scanned t (stWhere tail) →
  compileCondition (stWhere tail) (tColumns t) = Some c →
  selectPlain e t names distinct tail maxRows
  = pagedResult names (stLimit tail) (stOffset tail) maxRows
      (specLines t names distinct (wherePred (stWhere tail) c)).
Proof.
  intros Hq Ht Hn Ho Hl Hm Hord Hdist Htrim Hbare Hscan Hc.
  set (wh := stWhere tail) in *. set (spec := specLines t names distinct (wherePred wh c)).
  assert (Hspec : Z.of_nat (length spec) < MaxInt).
  { subst spec. pose proof (specLines_length t names distinct (wherePred wh c)). lia. }
  set (cap := rowCapOf (stLimit tail) (stOffset tail) maxRows).
  set (simple := (λ '(c, v), (c, equalityKey t c v)) <$> simpleEquality wh).
  assert (Hun : unindexed t simple).
  { subst simple. destruct (simpleEquality wh) as [[col v]|] eqn:Hs; [|done]. simpl. by apply (Hscan col v). }
  assert (Hscan' : selectPlain e t names distinct tail maxRows
                   = selectScan e t names distinct tail maxRows cap simple).
  { unfold selectPlain. fold wh cap simple. destruct simple as [[col v]|] eqn:Hsm; [|done].
    destruct (simpleEquality wh) as [[col' v']|] eqn:Hs; [|done]. subst simple. simpl in Hsm. simplify_eq.
    rewrite bool_decide_false; [done|]. by apply (Hscan col v'). }
  rewrite Hscan'. unfold selectScan. fold wh. rewrite Hord. change (bool_decide (@eq str [] [])) with true. cbn [negb].
  rewrite orb_false_r, andb_true_r.
  set (term := if fastOn t then simpleFastTerm wh t else None).
  assert (Hcomp : invalidWhereIf wh (bool_decide (term = None)) (tColumns t)
                  = Ok (if negb (bool_decide (wh = [])) && bool_decide (term = None) then c else [])).
  { unfold invalidWhereIf. rewrite Hc. by destruct (negb _ && _). }
  rewrite Hcomp. cbn [bindr].
  assert (Hix : match simple with Some (c0, _) => bool_decide (is_Some (tIndexes t !! c0)) | None => false end = false).
  { destruct simple as [[col v]|]; [|done]. simpl in Hun. rewrite bool_decide_false; [done|].
    rewrite Hun. by intros []. }
  rewrite Hix, andb_true_r. destruct (fastOn t) eqn:Hon.
  - destruct (stLimit tail =? 0) eqn:Hl0; btoz.
    { unfold pagedResult, page. rewrite Hl0. change (capRows 0 _) with (@nil (list value)).
      cbn [length]. rewrite (proj2 (Z.ltb_ge maxRows (Z.of_nat 0))) by lia. by rewrite andb_false_r. }
    subst term. rewrite (fastScan_spec e t names distinct cap _ (wherePred wh c)); [|done..| |].
    + cbn [bindr]. by apply capResult_paged.
    + by apply rowCapOf_nonzero.
    + intros k r Hk. unfold wherePred. pose proof Hon as Hon'. unfold fastOn in Hon'. btoz.
      pose proof (fast_cols _ _ _ (wf_fast _ Ht) Hon') as Hcols.
      destruct (simpleFastTerm wh t) as [tm|] eqn:Htm.
      * rewrite (fastTerm_compiled t r wh tm c) by (done || apply Ht).
        unfold simpleFastTerm in Htm. destruct (bool_decide (wh = [])); [done|]. done.
      * destruct (bool_decide (wh = [])) eqn:Hw; [done|]. simpl. rewrite Hcols. apply matchesFast_map;
          [apply Ht | by eapply (wf_rows _ Ht) | by eapply compileCondition_ok].
  - subst term. change (bool_decide (@eq (option fastTerm) None None)) with true. rewrite andb_true_r.
    rewrite selectByKeys_spec; [| done | done | done | done |].
    + fold wh. replace (specLines t names distinct (wherePred wh (if negb (bool_decide (wh = [])) then c else [])))
        with spec; [by apply capResult_paged|].
      subst spec. unfold wherePred. by destruct (bool_decide (wh = [])).
    + intros Hd. apply rowCapOf_nonzero; auto.
Qed.

End SelectProofs.
