(* ===== verification/AccessProofs.v ===== *)
(** * Access paths agree

    An equality predicate answered by the primary key or by a secondary index
    gives the rows the full scan gives. *)

From S2P Require Import Prelude GoLib GoFacts Fold Value Parser Table TableInv InsertProofs Insert Mutate.
From S2P Require Import OrderBy Select SelectProofs.
Open Scope Z_scope.

Section Access.
Context `{GoStd}.

(** The right-hand side of an equality, resolved against the column type. *)
Definition equalityValue (raw : str) (typ : ctype) : value :=
  match parseVal raw typ with Ok v => v | _ => VStr raw end.

Lemma simple_compiled (t : Table) wh col raw c :
  cols_ok (tColumns t) → TrimSpace wh = wh → bare_lhs wh →
  simpleEquality wh = Some (col, raw) → compileCondition wh (tColumns t) = Some c →
  ∃ i cc, tColumns t !! i = Some cc ∧ cName cc = col ∧ wh ≠ [] ∧
    ∀ r, matchesMap c r = conditionValueEqual (rowGet r col) (equalityValue raw (cType cc)).
Proof.
  intros Hc Ht Hbare Hs Hcomp. unfold simpleEquality in Hs.
  destruct (bool_decide (wh = []) || _ || _) eqn:Hsn; [done|].
  apply simple_none in Hsn as (Hne & Ha & Ho).
  destruct (compile_single _ _ _ Ht Hne Ha Ho Hcomp) as (ct & Hct & ->).
  pose proof (compileTerm_column _ _ _ Hct) as Hcol.
  destruct (split2 wh 61) as [[a b]|] eqn:Hsp; [|done]. simplify_eq.
  unfold compileTerm, splitTerm, splitConditionTerm in Hct.
  rewrite (splitConditionTerm_bare _ _ _ _ Hsp (Hbare _ _ Hsp)) in Hct.
  change (reverse [] ++ a) with a in Hct. set (col := ToLower (TrimSpace a)) in *.
  case_bool_decide; [done|]. destruct (columnType (tColumns t) col) as [typ|] eqn:Hty; [|done].
  case_bool_decide; [done|]. simplify_eq. cbn [ctColumn] in Hcol.
  apply hasColumn_In, list_elem_of_In, in_map_iff in Hcol as (cc & Hn & Hin).
  apply list_elem_of_In, list_elem_of_lookup in Hin as [i Hi].
  exists i, cc. split_and!; try done. intros r. rewrite <- Hn, (columnType_lookup _ _ _ (cols_nodup _ Hc) Hi) in Hty.
  simplify_eq. unfold matchesMap, literalValue, equalityValue. simpl.
  rewrite !unquote_trim. by rewrite andb_true_r, orb_false_r.
Qed.

Lemma equalityKey_value (t : Table) i cc raw :
  cols_ok (tColumns t) → tColumns t !! i = Some cc →
  equalityKey t (cName cc) raw = match parseVal raw (cType cc) with Ok v => valueKey v | _ => raw end.
Proof.
  intros [Hnd _] Hi. unfold equalityKey.
  destruct (filter (λ c, cName c = cName cc) (tColumns t)) as [|c l] eqn:Hf.
  - exfalso. assert (Hin : cc ∈ filter (λ c, cName c = cName cc) (tColumns t)).
    { apply list_elem_of_filter. split; [done|]. by eapply list_elem_of_lookup_2. }
    rewrite Hf in Hin. by apply elem_of_nil in Hin.
  - assert (Hin : c ∈ filter (λ c, cName c = cName cc) (tColumns t)) by (rewrite Hf; left).
    apply list_elem_of_filter in Hin as [Hn Hin]. apply list_elem_of_lookup in Hin as [j Hj].
    assert (i = j) as <-.
    { apply (NoDup_lookup (map cName (tColumns t)) i j (cName cc)); [done|..];
        change (map cName (tColumns t)) with (cName <$> tColumns t); rewrite list_lookup_fmap;
        [by rewrite Hi | rewrite Hj; simpl; by f_equal]. }
    by simplify_eq.
Qed.

Lemma parseVal_FormatInt n : is_int64 n → parseVal (FormatInt n) Int = Ok (VInt n).
Proof.
  intros Hn. unfold parseVal. rewrite TrimSpace_graphic by apply FormatInt_graphic.
  by rewrite FormatInt_not_null, FormatInt_parse.
Qed.

Lemma parseVal_int64 raw n : parseVal raw Int = Ok (VInt n) → is_int64 n.
Proof.
  unfold parseVal. case_match; [done|]. unfold ParseInt.
  match goal with |- context [let '(_, _) := ?x in _] => destruct x as [neg d] end.
  destruct (parse_uint d) as [m|] eqn:Hm; [|done]. intros Hx.
  assert (0 ≤ m) as Hm0.
  { unfold parse_uint in Hm. destruct d; [done|].
    enough (Hg : ∀ s acc, 0 ≤ acc → ∀ k, parse_digits acc s = inl k → 0 ≤ k) by (eapply (Hg _ 0); [lia | exact Hm]).
    intros s. induction s as [|x s IH]; intros acc Hacc k Hk; cbn [parse_digits] in Hk; [by simplify_eq|].
    destruct (is_digit x) eqn:Hd; [|done]. unfold is_digit in Hd. btoz.
    destruct (_ <? 2 ^ 64); [|done]. eapply IH; [|exact Hk]. lia. }
  unfold is_int64, int64_min, int64_max. destruct neg; repeat case_match; simplify_eq; btoz; lia.
Qed.

(** For INT cells, equal keys mean equal under the predicate. *)
Lemma int_key_faithful u raw :
  has_type Int u →
  conditionValueEqual u (equalityValue raw Int) = true ↔
  valueKey u = match parseVal raw Int with Ok v => valueKey v | _ => raw end.
Proof.
  intros Hu. unfold equalityValue.
  assert (HN : ∀ n, is_int64 n → FormatInt n ≠ lit "NULL").
  { intros n Hn He. pose proof (FormatInt_not_null n Hn) as Hf. rewrite He in Hf. done. }
  assert (Hcase : (∃ n, parseVal raw Int = Ok (VInt n)) ∨ parseVal raw Int = Ok VNil
                  ∨ ∀ v, parseVal raw Int ≠ Ok v).
  { unfold parseVal. case_match; [by auto|]. destruct (ParseInt _); [eauto | right; right; done]. }
  destruct u as [|n| | | |]; try done; simpl in Hu.
  - destruct Hcase as [[m Hm]|[Hm|Hm]]; rewrite ?Hm; simpl.
    + split; [done|]. intros Hx. by destruct (HN m (parseVal_int64 _ _ Hm)).
    + done.
    + destruct (parseVal raw Int) eqn:E; [by destruct (Hm a)|split; [done|]..];
        intros <-; unfold parseVal in E; by vm_compute in E.
  - destruct Hcase as [[m Hm]|[Hm|Hm]]; rewrite ?Hm; simpl.
    + rewrite Z.eqb_eq. split; [by intros -> | apply FormatInt_inj; [done | by eapply parseVal_int64]].
    + split; [done|]. intros Hx. by destruct (HN n Hu).
    + destruct (parseVal raw Int) eqn:E; [by destruct (Hm a)|split; [done|]..]; intros <-;
        by rewrite parseVal_FormatInt in E.
Qed.

(** ** Primary key *)

Lemma filter_key_nodup {B} (l : list (str * B)) k :
  NoDup l.*1 → filter (λ p, p.1 = k) l = match list_find (λ p, p.1 = k) l with Some (_, p) => [p] | None => [] end.
Proof.
  induction l as [|[k' b] l IH]; intros Hnd; [done|]. csimpl in *. apply NoDup_cons in Hnd as [Hk Hnd].
  rewrite filter_cons. case_decide as Hkk; simpl in Hkk.
  - subst. rewrite decide_True by done. f_equal. apply filter_none. intros [k2 b2] Hin Heq. simpl in Heq. subst.
    apply Hk. by apply (list_elem_of_fmap_2 fst) in Hin.
  - rewrite decide_False by done. rewrite IH by done. by destruct (list_find _ l) as [[? ?]|].
Qed.

Lemma absRows_filter_key t k :
  table_wf t → filter (λ p, p.1 = k) (absRows t) = match tRows t !! k with Some r => [(k, r)] | None => [] end.
Proof.
  intros Ht. pose proof (proj1 (proj1 (table_wf_base _) Ht)) as Hb.
  rewrite filter_key_nodup by by apply absRows_nodup.
  destruct (list_find _ _) as [[i [k' r]]|] eqn:Hf.
  - apply list_find_Some in Hf as (Hl & Hk & _). simpl in Hk. subst k'.
    apply list_elem_of_lookup_2, absRows_key in Hl; [|done]. by rewrite Hl.
  - apply list_find_None in Hf. destruct (tRows t !! k) as [r|] eqn:Hr; [|done].
    apply absRows_key in Hr; [|done]. rewrite Forall_forall in Hf. by destruct (Hf _ Hr).
Qed.

(** The lookup itself, through either representation. *)
Lemma primaryLookup_row t names k limit offset :
  table_wf t →
  primaryLookup t names k limit offset
  = mkResult names (applyOffset offset (if limit =? 0 then [] else
      match tRows t !! k with Some r => [selectedValues r names] | None => [] end)) 0 [].
Proof.
  intros Ht. pose proof (proj1 (proj1 (table_wf_base _) Ht)) as Hb. unfold primaryLookup. do 3 f_equal.
  destruct (fPos (tFast t) !! k) as [i|] eqn:Hi; [|done].
  destruct (fast_split _ _ _ _ _ (wf_fast _ Ht) (absRows_nodup _ Hb) Hi)
    as (l1 & vs & l2 & c1 & r & c2 & Hl & _ & _ & Hc & _).
  assert (Hr : tRows t !! k = Some r) by (apply absRows_key; [done | rewrite Hc; set_solver]).
  rewrite (fastAt_row _ _ _ Ht Hr), Hr.
  assert (Hon : fRows (tFast t) ≠ []) by (rewrite Hl; by destruct l1).
  unfold fastOn. rewrite bool_decide_false by done. cbn [negb].
  rewrite (fast_cols _ _ _ (wf_fast _ Ht) Hon).
  rewrite selectedFast_values; [done | apply Ht | by eapply (wf_rows _ Ht)].
Qed.

Lemma dedupLines_one distinct (l : list (list value)) : (length l ≤ 1)%nat → dedupLines distinct l = l.
Proof.
  intros Hl. destruct l as [|x [|y l]]; simpl in Hl; [by destruct distinct | | lia].
  unfold dedupLines. cbn [foldl]. unfold addLine. destruct distinct; [|done].
  rewrite bool_decide_false; [done | set_solver].
Qed.

Lemma page_one {A} limit offset (l : list A) :
  0 ≤ offset → (length l ≤ 1)%nat → page limit offset l = applyOffset offset (if limit =? 0 then [] else l).
Proof.
  intros Ho Hl. rewrite applyOffset_drop. unfold page. destruct (limit =? 0) eqn:E; btoz.
  - subst. rewrite drop_nil. done.
  - apply capRows_short. rewrite length_drop. lia.
Qed.

(** C13: SELECT ... WHERE pk = literal on an INT primary key is answered by a
    single lookup in the row map or the fast-position map.  Whatever the literal
    (malformed, NULL, leading zeros, sign), DISTINCT, LIMIT and OFFSET, the
    answer is the one the full scan with the compiled predicate gives.  The key's name
    has no quote or comparison sign, the WHERE text is trimmed and valid.  Of a TEXT
    key it would be false: the key 'NULL' is found, while a scan compares with NULL. *)
Theorem primary_lookup_correct (e : Env) (t : Table) (names : list str) (distinct : bool) (tail : selectTail)
    (maxRows : Z) (raw : str) (c : compiledCondition) (cc : Column) :
  table_wf t → 0 ≤ stOffset tail → 0 ≤ maxRows →
  TrimSpace (stWhere tail) = stWhere tail → bare_lhs (stWhere tail) →
  simpleEquality (stWhere tail) = Some (primaryColumn t, raw) →
  cc ∈ tColumns t → cName cc = primaryColumn t → cType cc = Int → primaryColumn t ≠ [] →
  compileCondition (stWhere tail) (tColumns t) = Some c →
  selectPlain e t names distinct tail maxRows
  = pagedResult names (stLimit tail) (stOffset tail) maxRows
      (specLines t names distinct (wherePred (stWhere tail) c)).
Proof.
  intros Ht Ho Hm Htrim Hbare Hs Hin Hname Hty Hpk Hc.
  pose proof (proj1 (proj1 (table_wf_base _) Ht)) as Hb.
  destruct (simple_compiled t _ _ _ _ (wf_cols _ Ht) Htrim Hbare Hs Hc) as (i & cc' & Hi & Hn' & Hne & Hmatch).
  assert (cc' = cc) as ->.
  { apply list_elem_of_lookup in Hin as [j Hj].
    assert (i = j) as <-; [|congruence].
    apply (NoDup_lookup (map cName (tColumns t)) i j (primaryColumn t)); [apply Ht|..];
      change (map cName (tColumns t)) with (cName <$> tColumns t); rewrite list_lookup_fmap;
      [rewrite Hi | rewrite Hj]; simpl; by f_equal. }
  unfold selectPlain. rewrite Hs. simpl. rewrite bool_decide_true by done.
  rewrite <- Hname at 1. rewrite (equalityKey_value t i cc raw (wf_cols _ Ht) Hi), Hty.
  set (K := match parseVal raw Int with Ok v => valueKey v | _ => raw end).
  assert (Hspec : specLines t names distinct (wherePred (stWhere tail) c)
                  = match tRows t !! K with Some r => [selectedValues r names] | None => [] end).
  { unfold specLines.
    assert (Hf : filter (λ p, wherePred (stWhere tail) c p.2 = true) (absRows t)
                 = filter (λ p, p.1 = K) (absRows t)).
    { apply list_filter_iff'. intros [k r] Hkr. apply absRows_key in Hkr; [|done]. simpl.
      unfold wherePred. rewrite bool_decide_false by done. simpl. rewrite Hmatch, Hty.
      destruct (wf_keys _ Ht k r Hkr) as [_ Hk]. rewrite (Hk Hpk). apply int_key_faithful.
      rewrite <- Hty, <- Hname. by apply (wf_rows _ Ht k r Hkr). }
    rewrite Hf, absRows_filter_key by done.
    destruct (tRows t !! K); cbn [map snd]; apply dedupLines_one; simpl; lia. }
  rewrite primaryLookup_row, Hspec by done. unfold pagedResult.
  rewrite page_one by (done || by destruct (tRows t !! K); simpl; lia).
  set (rows := applyOffset _ _).
  assert (Hr : (length rows ≤ 1)%nat).
  { subst rows. rewrite applyOffset_drop, length_drop. destruct (stLimit tail =? 0), (tRows t !! K); simpl; lia. }
  destruct (0 <? maxRows) eqn:E1; btoz; [|done]. cbn [andb].
  by rewrite (proj2 (Z.ltb_ge maxRows (Z.of_nat (length rows)))) by lia.
Qed.

(** ** Secondary indexes *)

Lemma conditionValueEqual_eq u v :
  conditionValueEqual u v = true → (∀ f, v ≠ VFloat f) → (∀ n, v ≠ VGoInt n) → u = v.
Proof.
  intros Heq Hf Hg. destruct v as [|n|f|x|b|n]; [| |by destruct (Hf f)| | |by destruct (Hg n)];
    destruct u; simpl in Heq; try done; btoz; try congruence.
  by apply eqb_prop in Heq as ->.
Qed.

Lemma parseVal_typed raw typ v : parseVal raw typ = Ok v → typ ≠ Float → (∀ f, v ≠ VFloat f) ∧ ∀ n, v ≠ VGoInt n.
Proof. unfold parseVal. intros Hp Hty. repeat case_match; by simplify_eq. Qed.

(** A matching cell is filed under the looked-up key; FLOAT columns are excluded
    (0 and -0 are equal and have different keys). *)
Lemma index_key_complete u raw typ :
  typ ≠ Float → conditionValueEqual u (equalityValue raw typ) = true →
  valueKey u = match parseVal raw typ with Ok v => valueKey v | _ => raw end.
Proof.
  intros Hty Heq. unfold equalityValue in Heq. destruct (parseVal raw typ) as [v| |] eqn:Hp.
  - destruct (parseVal_typed _ _ _ Hp Hty). by rewrite (conditionValueEqual_eq _ _ Heq).
  - by rewrite (conditionValueEqual_eq _ _ Heq).
  - by rewrite (conditionValueEqual_eq _ _ Heq).
Qed.

(** The verification of a candidate is the compiled predicate. *)
Lemma indexMatch_where t wh col raw c k r :
  table_wf t → TrimSpace wh = wh → bare_lhs wh → simpleEquality wh = Some (col, raw) →
  compileCondition wh (tColumns t) = Some c → tRows t !! k = Some r →
  ∀ term compiled, (term = if fastOn t then simpleFastTerm wh t else None) → (term = None → compiled = c) →
  indexMatch t col term compiled k = matchesMap c r.
Proof.
  intros Ht Htrim Hbare Hs Hc Hr term compiled Hterm Hcomp. unfold indexMatch.
  destruct term as [tm|]; [|by rewrite Hr, Hcomp].
  destruct (fastOn t) eqn:Hon; [|done]. rewrite (fastAt_row _ _ _ Ht Hr), Hon.
  unfold fastOn in Hon. btoz. eapply fastTerm_compiled; try done; [apply Ht| |by apply bare_plain].
  by apply (fast_cols _ _ _ (wf_fast _ Ht)).
Qed.

Section Indexed.
Context (e : Env) (t : Table) (wh col raw : str) (c : compiledCondition) (cc : Column).
Context (Hfair : env_fair e) (Ht : table_wf t) (Htrim : TrimSpace wh = wh) (Hbare : bare_lhs wh).
Context (Hs : simpleEquality wh = Some (col, raw)) (Hc : compileCondition wh (tColumns t) = Some c).
Context (Hcc : cc ∈ tColumns t) (Hname : cName cc = col) (Hty : cType cc ≠ Float).
Context (Hix : is_Some (tIndexes t !! col)).

Definition matchingRows : list (str * row) := filter (λ p, wherePred wh c p.2 = true) (absRows t).

Lemma index_candidates site term compiled :
  (term = if fastOn t then simpleFastTerm wh t else None) → (term = None → compiled = c) →
  filter (λ k, indexMatch t col term compiled k = true)
    (env_range e site (bucket t col (equalityKey t col raw))) ≡ₚ matchingRows.*1.
Proof.
  intros Hterm Hcomp. pose proof (proj1 (proj1 (table_wf_base _) Ht)) as Hb.
  destruct (simple_compiled t _ _ _ _ (wf_cols _ Ht) Htrim Hbare Hs Hc) as (i & cc' & Hi & Hn' & Hne & Hmatch).
  assert (cc' = cc) as ->.
  { apply list_elem_of_lookup in Hcc as [j Hj]. assert (i = j) as <-; [|congruence].
    apply (NoDup_lookup (map cName (tColumns t)) i j col); [apply Ht|..];
      change (map cName (tColumns t)) with (cName <$> tColumns t); rewrite list_lookup_fmap;
      [rewrite Hi | rewrite Hj]; simpl; by f_equal. }
  destruct Hix as [m Hm]. pose proof (wf_indexes _ Ht col m Hm) as [Hidx _].
  apply NoDup_Permutation.
  - apply NoDup_filter. rewrite (Hfair _ _). apply NoDup_elements.
  - unfold matchingRows. apply (sublist_NoDup _ (absRows t).*1); [by apply absRows_nodup|].
    apply fmap_sublist, sublist_filter.
  - intros k. rewrite list_elem_of_filter, (Hfair _ _). unfold bucket. rewrite elem_of_elements, Hm. simpl.
    rewrite Hidx, list_elem_of_fmap. unfold matchingRows, wherePred.
    rewrite bool_decide_false by done. cbn [orb].
    rewrite <- Hname, (equalityKey_value t i cc raw (wf_cols _ Ht) Hi), Hname. split.
    + intros (Hmt & r & Hr & _). exists (k, r). rewrite list_elem_of_filter, absRows_key by done.
      by rewrite (indexMatch_where t wh col raw c k r) in Hmt.
    + intros ([k' r] & -> & Hin). rewrite list_elem_of_filter, absRows_key in Hin by done.
      destruct Hin as [Hmt Hr]. simpl in *.
      split; [by rewrite (indexMatch_where t wh col raw c k' r)|]. exists r. split; [done|].
      rewrite Hmatch in Hmt. by apply index_key_complete.
Qed.

End Indexed.

Lemma indexScan_filter t names (pred : str → bool) l : ∀ s,
  (scan_pure (indexStep t names false (Some (-1)) pred) l s).1 = s.1 ++ filter (λ k, pred k = true) l.
Proof.
  induction l as [|k l IH]; intros s; cbn [scan_pure]; [by rewrite app_nil_r|].
  unfold indexStep at 1. change (capReached (-1) _) with false. cbn iota. rewrite filter_cons.
  destruct (pred k); [rewrite decide_True by done | rewrite decide_False by done]; rewrite IH; [|done].
  unfold keepKey, dedupKey. simpl. by rewrite <- app_assoc.
Qed.

(** C12: SELECT ... WHERE col = literal on a column with a secondary index (not
    FLOAT), without ORDER BY, DISTINCT, LIMIT or OFFSET.  The answer is a
    permutation of what the full scan returns: the index misses no matching row
    and verification admits no other, on small tables and on fast-path tables
    alike.  Not cancelled, without a row limit; the column is not the primary key and its
    name has no quote or comparison sign; the WHERE text is trimmed and valid. *)
Theorem index_lookup_correct (e : Env) (t : Table) (names : list str) (tail : selectTail)
    (col raw : str) (c : compiledCondition) (cc : Column) :
  env_quiet e → env_fair e → table_wf t →
  stOrder tail = [] → stLimit tail = -1 → stOffset tail = 0 →
  TrimSpace (stWhere tail) = stWhere tail → bare_lhs (stWhere tail) →
  simpleEquality (stWhere tail) = Some (col, raw) → col ≠ primaryColumn t →
  cc ∈ tColumns t → cName cc = col → cType cc ≠ Float → is_Some (tIndexes t !! col) →
  compileCondition (stWhere tail) (tColumns t) = Some c →
  ∃ rows, selectPlain e t names false tail 0 = Ok (mkResult names rows 0 []) ∧
          rows ≡ₚ specLines t names false (wherePred (stWhere tail) c).
Proof.
  intros Hq Hfair Ht Hord Hlim Hoff Htrim Hbare Hs Hpk Hcc Hname Hty Hix Hc.
  set (wh := stWhere tail) in *. set (term := if fastOn t then simpleFastTerm wh t else None).
  assert (Hne : wh ≠ []).
  { intros E. rewrite E in Hs. by vm_compute in Hs. }
  set (compiled := if negb (bool_decide (wh = [])) && bool_decide (term = None) then c else []).
  set (keys := filter (λ k, indexMatch t col term compiled k = true)
                 (env_range e site_select (bucket t col (equalityKey t col raw)))).
  assert (Hperm : keys ≡ₚ (matchingRows t wh c).*1).
  { apply (index_candidates e t wh col raw c cc); try done. subst compiled.
    intros ->. by rewrite bool_decide_false, bool_decide_true. }
  assert (Hlive : ∀ k, k ∈ keys → is_Some (tRows t !! k)).
  { intros k Hk. rewrite Hperm in Hk. apply list_elem_of_fmap in Hk as ([k' r] & -> & Hin).
    apply list_elem_of_filter in Hin as [_ Hin]. apply absRows_key in Hin; [eauto | by apply table_wf_base]. }
  exists (map (lineOf t names) keys). split.
  - unfold selectPlain. fold wh. rewrite Hs. simpl. rewrite bool_decide_false by done.
    unfold selectScan. fold wh term. rewrite Hord, Hlim, Hoff. change (bool_decide (@eq str [] [])) with true.
    rewrite orb_false_r. cbn [negb].
    assert (Hcomp : invalidWhereIf wh (bool_decide (term = None)) (tColumns t) = Ok compiled).
    { unfold invalidWhereIf, compiled. rewrite Hc. by destruct (negb _ && _). }
    rewrite Hcomp. cbn [bindr]. rewrite (bool_decide_true (is_Some _)) by done. rewrite andb_false_r.
    unfold selectByKeys, collectKeys. rewrite Hord. change (bool_decide (@eq str [] [])) with true. cbn [negb].
    rewrite (bool_decide_true (is_Some _)) by done. rewrite scan_quiet by done.
    change (rowCapOf (-1) 0 0) with (-1).
    pose proof (indexScan_filter t names (indexMatch t col term compiled)
      (env_range e site_select (bucket t col (equalityKey t col raw))) ([], ∅)) as Hscan.
    destruct (scan_pure _ _ _) as [ks seen]. cbn [fst app] in Hscan. subst ks. cbn [bindr negb andb].
    rewrite materialize_lines by (done || by left). rewrite Hoff. done.
  - unfold specLines, dedupLines. fold (matchingRows t wh c).
    assert (Hfold : ∀ ls s, (foldl (addLine false) s ls).1 = s.1 ++ ls).
    { induction ls as [|x ls IH]; intros [a b]; simpl; [by rewrite app_nil_r|].
      rewrite IH. simpl. by rewrite <- app_assoc. }
    rewrite Hfold. cbn [fst app]. rewrite Hperm. rewrite (map_map fst (lineOf t names)).
    erewrite map_ext_in; [done|]. intros [k r] Hin%list_elem_of_In. simpl.
    apply list_elem_of_filter in Hin as [_ Hin]. apply absRows_key in Hin; [|by apply table_wf_base].
    unfold lineOf. by rewrite (lineAt_row _ _ _ _ Ht Hin).
Qed.

End Access.
