(* ===== verification/OrderByProofs.v ===== *)
(** * ORDER BY is correct

    The bounded heap keeps the best-ranked candidates, so sorting what it keeps
    is the prefix of the full sort; the sorted arrangement is unique, so it does
    not depend on the sorting algorithm. *)

From S2P Require Import Prelude GoLib GoFacts Value Table OrderBy.
Open Scope Z_scope.

(** ** Sorting by a strict order that is total on the elements at hand *)

Section Sorting.
Context {A : Type} (less : A → A → bool) (D : A → Prop).
Context (Hasym : ∀ a b, less a b = true → less b a = false).
Context (Htrans : ∀ a b c, D a → D b → D c → less a b = true → less b c = true → less a c = true).
Context (Htotal : ∀ a b, D a → D b → a = b ∨ less a b = true ∨ less b a = true).

Lemma sort_le_cases a b : D a → D b → sort_le less a b → a = b ∨ less a b = true.
Proof. unfold sort_le. intros Ha Hb Hle. destruct (Htotal a b Ha Hb) as [?|[?|?]]; auto. congruence. Qed.

Lemma sort_le_trans a b c : D a → D b → D c → sort_le less a b → sort_le less b c → sort_le less a c.
Proof.
  intros Ha Hb Hc H1 H2. destruct (sort_le_cases a b Ha Hb H1) as [->|H1']; [done|].
  destruct (sort_le_cases b c Hb Hc H2) as [<-|H2']; [done|].
  apply Hasym. exact (Htrans a b c Ha Hb Hc H1' H2').
Qed.

Lemma sort_le_antisymm a b : D a → D b → sort_le less a b → sort_le less b a → a = b.
Proof.
  intros Ha Hb H1 H2. destruct (sort_le_cases a b Ha Hb H1); [done|]. unfold sort_le in H2. congruence.
Qed.

Lemma Sorted_strong l : Forall D l → Sorted (sort_le less) l → StronglySorted (sort_le less) l.
Proof.
  induction l as [|x l IH]; intros Hd Hs; [constructor|]. apply Forall_cons in Hd as [Hx Hd].
  apply Sorted_inv in Hs as [Hs Hh]. specialize (IH Hd Hs). constructor; [done|].
  destruct l as [|y l]; [constructor|]. apply HdRel_inv in Hh. apply Forall_cons in Hd as [Hy Hd].
  apply StronglySorted_inv in IH as [_ Hyl]. constructor; [done|].
  rewrite Forall_forall in Hyl, Hd |- *. intros z Hz. eapply (sort_le_trans x y z); eauto.
Qed.

Lemma sortSlice_perm l : sortSlice less l ≡ₚ l.
Proof. apply merge_sort_Permutation. Qed.

Lemma sortSlice_sorted l : Forall D l → StronglySorted (sort_le less) (sortSlice less l).
Proof.
  intros Hd. apply Sorted_strong; [by rewrite sortSlice_perm|].
  apply Sorted_merge_sort. intros a b. unfold sort_le.
  destruct (less b a) eqn:E; [right; by apply Hasym | by left].
Qed.

(** Any sorted arrangement is the one computed. *)
Lemma sortSlice_unique l l' :
  Forall D l → l' ≡ₚ l → StronglySorted (sort_le less) l' → sortSlice less l = l'.
Proof.
  intros Hd Hp Hs. apply (StronglySorted_unique_strong (sort_le less)).
  - rewrite Forall_forall in Hd. intros x y Hx Hy. apply sort_le_antisymm; apply Hd.
    + by rewrite sortSlice_perm in Hx.
    + by rewrite Hp in Hy.
  - by apply sortSlice_sorted.
  - done.
  - by rewrite sortSlice_perm, Hp.
Qed.

(** Splitting off a block that ranks before everything else. *)
Lemma sortSlice_prefix l h rest :
  Forall D l → l ≡ₚ h ++ rest → (∀ x y, x ∈ h → y ∈ rest → sort_le less x y) →
  sortSlice less h = take (length h) (sortSlice less l).
Proof.
  intros Hd Hp Hle.
  assert (Hh : Forall D h ∧ Forall D rest) by (rewrite Hp in Hd; by apply Forall_app in Hd).
  destruct Hh as [Hdh Hdr].
  rewrite (sortSlice_unique l (sortSlice less h ++ sortSlice less rest)).
  - assert (Hlen : length h = length (sortSlice less h)) by (by rewrite sortSlice_perm).
    rewrite Hlen at 1. by rewrite take_app_length.
  - done.
  - by rewrite !sortSlice_perm.
  - apply StronglySorted_app_2; [|by apply sortSlice_sorted..].
    intros x y Hx Hy. rewrite sortSlice_perm in Hx, Hy. by apply Hle.
Qed.

End Sorting.

(** ** The heap *)

Section Heap.
Context `{GoStd} (desc : bool) (D : orderEntry → Prop).
Abbreviation less := (rankBefore desc).
Context (Hasym : ∀ a b, less a b = true → less b a = false).
Context (Htrans : ∀ a b c, D a → D b → D c → less a b = true → less b c = true → less a c = true).
Context (Htotal : ∀ a b, D a → D b → a = b ∨ less a b = true ∨ less b a = true).

Definition parent (c : nat) : nat := ((c - 1) / 2)%nat.

(** The entry at [c] does not rank after its parent. *)
Definition edge (h : list orderEntry) (c p : nat) : Prop :=
  ∀ x y, h !! c = Some x → h !! p = Some y → sort_le less x y.

Definition heap_ok (h : list orderEntry) : Prop := ∀ c, (0 < c)%nat → edge h c (parent c).

Lemma parent_lt c : (0 < c → parent c < c)%nat.
Proof. intros Hc. unfold parent. apply Nat.Div0.div_lt_upper_bound; lia. Qed.
Lemma parent_child c : (0 < c)%nat → c = (2 * parent c + 1)%nat ∨ c = (2 * parent c + 2)%nat.
Proof.
  intros Hc. unfold parent. pose proof (Nat.div_mod (c - 1) 2 ltac:(lia)) as Hd.
  pose proof (Nat.mod_upper_bound (c - 1) 2 ltac:(lia)). lia.
Qed.
Lemma parent_of i c : (c = 2 * i + 1 ∨ c = 2 * i + 2)%nat → parent c = i.
Proof. intros Hc. destruct (parent_child c); lia. Qed.

Definition swapIx (i j k : nat) : nat := if decide (k = i) then j else if decide (k = j) then i else k.

Lemma heapSwap_lookup h i j k :
  (i < length h)%nat → (j < length h)%nat → heapSwap h i j !! k = h !! swapIx i j k.
Proof.
  intros Hi Hj. unfold heapSwap, swapIx.
  destruct (lookup_lt_is_Some_2 h i Hi) as [a Ha], (lookup_lt_is_Some_2 h j Hj) as [b Hb].
  rewrite Ha, Hb. repeat case_decide; subst.
  - destruct (decide (i = j)) as [->|].
    + rewrite list_lookup_insert_eq by by rewrite length_insert. congruence.
    + rewrite list_lookup_insert_ne, list_lookup_insert_eq by done. done.
  - rewrite list_lookup_insert_eq by by rewrite length_insert. done.
  - by rewrite !list_lookup_insert_ne by done.
Qed.

Lemma heapSwap_length h i j : length (heapSwap h i j) = length h.
Proof. unfold heapSwap. repeat case_match; rewrite ?length_insert; done. Qed.

Lemma heapSwap_perm h i j : (i < length h)%nat → (j < length h)%nat → heapSwap h i j ≡ₚ h.
Proof.
  intros Hi Hj. apply Permutation_inj. split; [apply heapSwap_length|]. exists (swapIx i j). split.
  - intros x y. unfold swapIx. repeat case_decide; congruence.
  - intros k. by apply heapSwap_lookup.
Qed.

Lemma heapLess_edge h c p :
  (c < length h)%nat → (p < length h)%nat → heapLess desc h c p = false ↔ edge h c p.
Proof.
  intros Hc Hp. unfold heapLess, edge, sort_le.
  destruct (lookup_lt_is_Some_2 h c Hc) as [a ->], (lookup_lt_is_Some_2 h p Hp) as [b ->]. naive_solver.
Qed.

Lemma heapLess_true h c p x y :
  h !! c = Some x → h !! p = Some y → heapLess desc h c p = true → sort_le less y x.
Proof. intros Hx Hy. unfold heapLess. rewrite Hx, Hy. intros Hl. by apply Hasym. Qed.

Lemma edge_trans h a b c :
  Forall D h → (b < length h)%nat → edge h a b → edge h b c → edge h a c.
Proof.
  intros Hd Hb H1 H2 x z Hx Hz. destruct (lookup_lt_is_Some_2 h b Hb) as [y Hy].
  rewrite Forall_lookup in Hd. eapply (sort_le_trans less D Hasym Htrans Htotal x y z); eauto.
Qed.

(** In a heap nothing ranks after the root. *)
Lemma heap_root h root x : Forall D h → heap_ok h → h !! 0%nat = Some root → x ∈ h → sort_le less x root.
Proof.
  intros Hd Hh Hr Hx. apply list_elem_of_lookup in Hx as [i Hi].
  enough (edge h i 0) by eauto. assert (Hlt : (i < length h)%nat) by by eapply lookup_lt_Some.
  clear Hi x. induction (lt_wf i) as [i _ IH]. destruct (decide (i = 0)%nat) as [->|Hne].
  - intros a b Ha Hb. assert (a = b) as -> by congruence. unfold sort_le. destruct (less b b) eqn:E; [|done].
    pose proof (Hasym _ _ E). congruence.
  - pose proof (parent_lt i ltac:(lia)). apply (edge_trans h i (parent i) 0); [done | lia | |].
    + apply Hh. lia.
    + apply IH; lia.
Qed.

(** The edges of a swapped array are edges of the array. *)
Lemma edge_swap h i j c p :
  (i < length h)%nat → (j < length h)%nat →
  edge (heapSwap h i j) c p ↔ edge h (swapIx i j c) (swapIx i j p).
Proof. intros Hi Hj. unfold edge. by rewrite !heapSwap_lookup. Qed.

Lemma swapIx_l i j : swapIx i j i = j.
Proof. unfold swapIx. by rewrite decide_True. Qed.
Lemma swapIx_r i j : swapIx i j j = i.
Proof. unfold swapIx. repeat case_decide; congruence. Qed.
Lemma swapIx_ne i j k : k ≠ i → k ≠ j → swapIx i j k = k.
Proof. intros. unfold swapIx. by rewrite !decide_False. Qed.

(** ** Sift up *)

(** A heap but for the entry at [j], whose children respect its parent. *)
Definition up_inv (h : list orderEntry) (j : nat) : Prop :=
  (∀ c, (0 < c)%nat → c ≠ j → edge h c (parent c)) ∧
  ((0 < j)%nat → ∀ c, (0 < c)%nat → parent c = j → edge h c (parent j)).

Lemma up_step h j :
  Forall D h → (0 < j < length h)%nat → up_inv h j → heapLess desc h j (parent j) = true →
  up_inv (heapSwap h (parent j) j) (parent j).
Proof.
  intros Hd Hj [H1 H2] Hl. set (i := parent j) in *. pose proof (parent_lt j ltac:(lia)) as Hij. fold i in Hij.
  assert (Hup : edge h i j) by (intros x y Hx Hy; by eapply heapLess_true).
  split.
  - intros c Hc Hci. pose proof (parent_lt c Hc). rewrite edge_swap by lia.
    destruct (decide (c = j)) as [->|Hcj]; [by rewrite swapIx_r, swapIx_l|].
    rewrite (swapIx_ne _ _ c) by done.
    destruct (decide (parent c = j)) as [Hp|]; [rewrite Hp, swapIx_r; apply H2; lia|].
    destruct (decide (parent c = i)) as [Hp|]; [|rewrite swapIx_ne by done; by apply H1].
    rewrite Hp, swapIx_l. apply (edge_trans h c i j); [done | lia | rewrite <- Hp; by apply H1 | done].
  - intros Hi c Hc Hp. pose proof (parent_lt i Hi). rewrite edge_swap, (swapIx_ne _ _ (parent i)) by lia.
    destruct (decide (c = j)) as [->|Hcj]; [rewrite swapIx_r; apply H1; lia|].
    pose proof (parent_lt c Hc). rewrite swapIx_ne by lia.
    apply (edge_trans h c i (parent i)); [done | lia | rewrite <- Hp; by apply H1 | apply H1; lia].
Qed.

Lemma heapUp_ok fuel : ∀ h j,
  (j < fuel)%nat → (j < length h)%nat → Forall D h → up_inv h j →
  heap_ok (heapUp fuel desc h j) ∧ heapUp fuel desc h j ≡ₚ h.
Proof.
  induction fuel as [|f IH]; intros h j Hf Hj Hd Hinv; [lia|]. cbn [heapUp]. fold (parent j).
  destruct (decide (j = 0)%nat) as [->|Hj0].
  - replace (parent 0 =? 0)%nat with true by done. cbn [orb]. split; [|done].
    intros c Hc. by apply Hinv; lia.
  - pose proof (parent_lt j ltac:(lia)). rewrite (proj2 (Nat.eqb_neq (parent j) j)) by lia. cbn [orb].
    destruct (heapLess desc h j (parent j)) eqn:Hl; cbn [negb].
    + destruct (IH (heapSwap h (parent j) j) (parent j)) as [Hok Hp].
      * lia.
      * rewrite heapSwap_length. lia.
      * by rewrite heapSwap_perm by lia.
      * apply up_step; [done | lia | done | done].
      * split; [done|]. by rewrite Hp, heapSwap_perm by lia.
    + split; [|done]. intros c Hc. destruct (decide (c = j)) as [->|]; [|by apply Hinv].
      apply heapLess_edge; [lia | lia | done].
Qed.

(** ** Sift down *)

Definition down_inv (h : list orderEntry) (i n : nat) : Prop :=
  (∀ c, (0 < c < n)%nat → parent c ≠ i → edge h c (parent c)) ∧
  ((0 < i)%nat → ∀ c, (0 < c < n)%nat → parent c = i → edge h c (parent i)).

Lemma down_step h i j n :
  Forall D h → (n ≤ length h)%nat → (j < n)%nat → (0 < j)%nat → parent j = i → down_inv h i n →
  (∀ c, (0 < c < n)%nat → parent c = i → edge h c j) → heapLess desc h j i = true →
  down_inv (heapSwap h i j) j n.
Proof.
  intros Hd Hn Hj Hj0 Hp [H1 H2] Hbest Hl. pose proof (parent_lt j Hj0) as Hij. rewrite Hp in Hij.
  assert (Hup : edge h i j) by (intros x y Hx Hy; by eapply heapLess_true).
  split.
  - intros c Hc Hcp. pose proof (parent_lt c ltac:(lia)). rewrite edge_swap by lia.
    destruct (decide (c = j)) as [->|Hcj]; [by rewrite swapIx_r, Hp, swapIx_l|].
    destruct (decide (parent c = i)) as [Hpi|Hpi].
    + rewrite Hpi, swapIx_l, swapIx_ne by lia. by apply Hbest.
    + rewrite (swapIx_ne _ _ (parent c)) by done.
      destruct (decide (c = i)) as [->|]; [rewrite swapIx_l; apply H2; try done; lia|].
      rewrite swapIx_ne by done. by apply H1.
  - intros _ c Hc Hcp. pose proof (parent_lt c ltac:(lia)). rewrite Hp, edge_swap by lia.
    rewrite swapIx_l, swapIx_ne by lia. rewrite <- Hcp. apply H1; lia.
Qed.

(** The child chosen by [down]. *)
Definition bestChild (h : list orderEntry) (i n : nat) : nat :=
  if ((2 * i + 1 + 1 <? n)%nat && heapLess desc h (2 * i + 1 + 1) (2 * i + 1))
  then (2 * i + 1 + 1)%nat else (2 * i + 1)%nat.

Lemma bestChild_ok h i n :
  Forall D h → (n ≤ length h)%nat → (2 * i + 1 < n)%nat →
  let j := bestChild h i n in
  (0 < j < n)%nat ∧ parent j = i ∧ ∀ c, (0 < c < n)%nat → parent c = i → edge h c j.
Proof.
  intros Hd Hn Hj1. cbv zeta.
  assert (Hrefl : ∀ k, edge h k k).
  { intros k x y Hx Hy. assert (x = y) as -> by congruence. unfold sort_le.
    destruct (less y y) eqn:E; [|done]. pose proof (Hasym _ _ E). congruence. }
  unfold bestChild. destruct (2 * i + 1 + 1 <? n)%nat eqn:Hj2; btoz; cbn [andb];
    [destruct (heapLess desc h (2 * i + 1 + 1) (2 * i + 1)) eqn:Hl|].
  - split_and!; [lia | lia | apply parent_of; lia |]. intros c Hc Hp.
    destruct (parent_child c ltac:(lia)) as [Hcc|Hcc]; rewrite Hp in Hcc; subst c.
    + intros x y Hx Hy. eapply (heapLess_true h); [exact Hy | exact Hx | done].
    + replace (2 * i + 2)%nat with (2 * i + 1 + 1)%nat by lia. apply Hrefl.
  - split_and!; [lia | lia | apply parent_of; lia |]. intros c Hc Hp.
    destruct (parent_child c ltac:(lia)) as [Hcc|Hcc]; rewrite Hp in Hcc; subst c; [apply Hrefl|].
    replace (2 * i + 2)%nat with (2 * i + 1 + 1)%nat by lia. apply heapLess_edge; [lia | lia | done].
  - split_and!; [lia | lia | apply parent_of; lia |]. intros c Hc Hp.
    destruct (parent_child c ltac:(lia)) as [Hcc|Hcc]; rewrite Hp in Hcc; subst c; [apply Hrefl | lia].
Qed.

Lemma heapDown_ok fuel : ∀ h i n,
  (n ≤ fuel + i)%nat → (n ≤ length h)%nat → Forall D h → down_inv h i n →
  let h' := heapDown fuel desc h i n in
  (∀ c, (0 < c < n)%nat → edge h' c (parent c)) ∧ h' ≡ₚ h ∧ ∀ k, (n ≤ k)%nat → h' !! k = h !! k.
Proof.
  induction fuel as [|f IH]; intros h i n Hf Hn Hd Hinv; cbv zeta.
  - cbn [heapDown]. split_and!; [|done|done]. intros c Hc. apply Hinv; [done|].
    pose proof (parent_lt c ltac:(lia)). lia.
  - cbn [heapDown]. fold (bestChild h i n). destruct (n <=? 2 * i + 1)%nat eqn:Hleaf; btoz.
    { split_and!; [|done|done]. intros c Hc. apply Hinv; [done|].
      destruct (parent_child c ltac:(lia)); lia. }
    destruct (bestChild_ok h i n Hd Hn Hleaf) as (Hj & Hp & Hbest).
    set (j := bestChild h i n) in *. pose proof (parent_lt j ltac:(lia)) as Hij. rewrite Hp in Hij.
    destruct (heapLess desc h j i) eqn:Hl; cbn [negb].
    + destruct (IH (heapSwap h i j) j n) as (H1 & H2 & H3).
      * lia.
      * by rewrite heapSwap_length.
      * by rewrite heapSwap_perm by lia.
      * apply down_step; try done; lia.
      * split_and!; [done | by rewrite H2, heapSwap_perm by lia |].
        intros k Hk. rewrite H3 by done. rewrite heapSwap_lookup, swapIx_ne by lia. done.
    + split_and!; [|done|done]. intros c Hc.
      destruct (decide (parent c = i)) as [Hci|Hci]; [|by apply Hinv].
      rewrite Hci. apply (edge_trans h c j i); [done | lia | by apply Hbest |].
      apply heapLess_edge; [lia | lia | done].
Qed.

(** ** Push, pop and the top-K loop *)

Lemma heapPush_ok h e :
  Forall D (h ++ [e]) → heap_ok h → heap_ok (heapPush desc h e) ∧ heapPush desc h e ≡ₚ e :: h.
Proof.
  intros Hd Hh. unfold heapPush.
  assert (Hlen : length (h ++ [e]) = S (length h)) by (rewrite length_app; simpl; lia).
  destruct (heapUp_ok (length (h ++ [e])) (h ++ [e]) (length (h ++ [e]) - 1)) as [H1 H2]; [lia | lia | done | |].
  - rewrite Hlen. simpl. rewrite Nat.sub_0_r. split.
    + intros c Hc Hne x y Hx Hy. pose proof (parent_lt c Hc).
      assert (Hcl : (c < S (length h))%nat) by (rewrite <- Hlen; by eapply lookup_lt_Some).
      rewrite lookup_app_l in Hx, Hy by lia. by eapply (Hh c).
    + intros Hpos c Hc Hp x y Hx. pose proof (parent_lt c Hc).
      assert (Hcl : (c < S (length h))%nat) by (rewrite <- Hlen; by eapply lookup_lt_Some). lia.
  - split; [done|]. rewrite H2. by rewrite (comm app).
Qed.

Lemma heapPop_ok root h :
  Forall D (root :: h) → heap_ok (root :: h) →
  heap_ok (heapPop desc (root :: h)) ∧ heapPop desc (root :: h) ≡ₚ h.
Proof.
  intros Hd Hh. unfold heapPop. set (H0 := root :: h) in *. set (n := (length H0 - 1)%nat).
  assert (Hn : length H0 = S n) by (subst n H0; simpl; lia).
  assert (Hswap : heapSwap H0 0 n ≡ₚ H0) by (apply heapSwap_perm; lia).
  destruct (heapDown_ok (length H0) (heapSwap H0 0 n) 0 n) as (H1 & H2 & H3).
  - lia.
  - rewrite heapSwap_length. lia.
  - by rewrite Hswap.
  - split; [|lia]. intros c Hc Hp. rewrite edge_swap by lia. pose proof (parent_lt c ltac:(lia)).
    rewrite !swapIx_ne by lia. by apply Hh; lia.
  - set (h' := heapDown _ _ _ _ _) in *.
    assert (Hl' : length h' = S n) by (rewrite H2, heapSwap_length; lia).
    assert (Hlast : h' !! n = Some root).
    { rewrite H3, heapSwap_lookup, swapIx_r by lia. done. }
    split.
    + intros c Hc x y Hx Hy. pose proof (parent_lt c Hc).
      apply lookup_take_Some in Hx as [Hx Hcn], Hy as [Hy _]. by eapply (H1 c).
    + apply (Permutation_cons_inv (a := root)). fold H0. rewrite <- Hswap, <- H2.
      rewrite <- (take_drop n h') at 2. rewrite (drop_S _ root) by done.
      rewrite (drop_ge h') by lia. by rewrite (comm app).
Qed.

(** The heap holds the [k] best of the entries seen. *)
Definition topk_inv (k : nat) (seen h : list orderEntry) : Prop :=
  heap_ok h ∧ ∃ rest, seen ≡ₚ h ++ rest ∧ length h = Nat.min k (length seen) ∧
                      ∀ x y, x ∈ h → y ∈ rest → sort_le less x y.

Lemma topKStep_inv k seen h e :
  (0 < k)%nat → Forall D (seen ++ [e]) → topk_inv k seen h → topk_inv k (seen ++ [e]) (topKStep k desc h e).
Proof.
  intros Hk Hd (Hh & rest & Hp & Hlen & Hle). apply Forall_app in Hd as [Hds [He _]%Forall_cons].
  assert (Hdh : Forall D h ∧ Forall D rest) by (rewrite Hp in Hds; by apply Forall_app in Hds).
  destruct Hdh as [Hdh Hdr]. pose proof (Permutation_length Hp) as Hpl. rewrite length_app in Hpl.
  assert (Hsl : length (seen ++ [e]) = S (length seen)) by (rewrite length_app; simpl; lia).
  unfold topKStep. destruct (length h <? k)%nat eqn:Hlt; btoz.
  { destruct (heapPush_ok h e) as [H1 H2]; [by apply Forall_app; auto | done |].
    assert (rest = []) as -> by (apply length_zero_iff_nil; lia). rewrite app_nil_r in Hp.
    split; [done|]. exists []. rewrite app_nil_r, H2, Hp. split_and!; [by rewrite (comm app) | | set_solver].
    rewrite ?length_app. simpl in *. lia. }
  destruct h as [|root t]; [simpl in *; lia|]. set (h0 := root :: t) in *.
  assert (Hroot : ∀ x, x ∈ h0 → sort_le less x root) by (intros x Hx; by apply (heap_root h0 root x)).
  assert (HDr : D root) by by apply Forall_cons in Hdh as [? _].
  rewrite Forall_forall in Hdh, Hdr.
  destruct (less e root) eqn:Her.
  - destruct (heapPop_ok root t) as [P1 P2]; [by apply Forall_forall | done |]. fold h0 in P1, P2.
    destruct (heapPush_ok (heapPop desc h0) e) as [H1 H2]; [|done|].
    { apply Forall_app. split; [|by constructor]. rewrite P2. apply Forall_forall. intros; apply Hdh; by right. }
    split; [done|]. exists (root :: rest). rewrite H2, P2. split_and!.
    + rewrite Hp. subst h0. simpl. rewrite (comm app _ [e]). simpl. rewrite <- Permutation_middle. apply perm_swap.
    + rewrite ?length_app. subst h0. simpl in *. lia.
    + assert (Her' : sort_le less e root) by by apply Hasym.
      intros x y Hxin. rewrite H2, P2 in Hxin. revert Hxin.
      intros [->|Hx]%elem_of_cons [->|Hy]%elem_of_cons; [done | | by apply Hroot; right | by apply Hle; [right|]].
      eapply (sort_le_trans less D Hasym Htrans Htotal e root y); auto. apply Hle; [left | done].
  - split; [done|]. exists (e :: rest). split_and!.
    + rewrite Hp, <- app_assoc. by rewrite (comm app rest [e]).
    + rewrite ?length_app. simpl in *. lia.
    + intros x y Hx [->|Hy]%elem_of_cons; [|by apply Hle].
      eapply (sort_le_trans less D Hasym Htrans Htotal x root e); auto.
Qed.

Lemma topKEntries_inv k l : (0 < k)%nat → Forall D l → topk_inv k l (topKEntries l k desc).
Proof.
  intros Hk. unfold topKEntries. induction l as [|e l IH] using rev_ind; intros Hd.
  - split; [by intros c _ x y Hx|]. exists []. split_and!; [done | simpl; lia | set_solver].
  - rewrite foldl_app. simpl. apply topKStep_inv; [done | done |]. apply IH. by apply Forall_app in Hd as [? _].
Qed.

(** Sorting the kept entries gives the prefix of the full sort. *)
Lemma topK_sorted_prefix k l :
  (0 < k)%nat → Forall D l → sortSlice less (topKEntries l k desc) = take k (sortSlice less l).
Proof.
  intros Hk Hd. destruct (topKEntries_inv k l Hk Hd) as (_ & rest & Hp & Hlen & Hle).
  rewrite (sortSlice_prefix less D Hasym Htrans Htotal l _ rest) by done.
  destruct (decide (k ≤ length l)%nat).
  - f_equal. lia.
  - rewrite !take_ge; [done | |]; rewrite sortSlice_perm; lia.
Qed.

End Heap.

(** ** Ranking by typed values *)

Section Ranking.
Context `{GoStd}.

Lemma str_ltb_irrefl a : str_ltb a a = false.
Proof. induction a as [|x a IH]; [done|]. simpl. by rewrite Z.ltb_irrefl. Qed.

Lemma str_ltb_asym a b : str_ltb a b = true → str_ltb b a = false.
Proof.
  revert b. induction a as [|x a IH]; intros [|y b]; simpl; try done.
  destruct (x <? y) eqn:E1, (y <? x) eqn:E2; btoz; try done; try lia. apply IH.
Qed.

Lemma str_ltb_trans a b c : str_ltb a b = true → str_ltb b c = true → str_ltb a c = true.
Proof.
  revert b c. induction a as [|x a IH]; intros [|y b] [|z c]; simpl; try done.
  destruct (x <? y) eqn:E1, (y <? x) eqn:E2; btoz; try done; try lia;
    destruct (y <? z) eqn:E3, (z <? y) eqn:E4; btoz; try done; try lia;
    destruct (x <? z) eqn:E5, (z <? x) eqn:E6; btoz; try done; try lia. apply IH.
Qed.

Lemma str_ltb_total a b : a = b ∨ str_ltb a b = true ∨ str_ltb b a = true.
Proof.
  revert b. induction a as [|x a IH]; intros [|y b]; simpl; auto.
  destruct (x <? y) eqn:E1, (y <? x) eqn:E2; btoz; auto.
  assert (x = y) as -> by lia. destruct (IH b) as [->|[?|?]]; auto.
Qed.

Lemma SFcompare_swap x y c : SFcompare x y = Some c → SFcompare y x = Some (CompOpp c).
Proof.
  destruct x as [sx|sx| |sx mx ex], y as [sy|sy| |sy my ey]; simpl; try done;
    destruct sx, sy; intros [= <-]; simpl; try done.
  - rewrite (Z.compare_antisym ex ey). destruct (ex ?= ey) eqn:E; simpl; try done.
    change (Pos.compare_cont Eq my mx) with (Pos.compare my mx). change (Pos.compare_cont Eq mx my) with (Pos.compare mx my).
    by rewrite (Pos.compare_antisym mx my).
  - rewrite (Z.compare_antisym ex ey). destruct (ex ?= ey) eqn:E; simpl; try done.
    change (Pos.compare_cont Eq my mx) with (Pos.compare my mx). change (Pos.compare_cont Eq mx my) with (Pos.compare mx my).
    by rewrite (Pos.compare_antisym mx my).
Qed.

Lemma f64_ltb_asym x y : f64_ltb x y = true → f64_ltb y x = false.
Proof.
  unfold f64_ltb, SFltb. destruct (SFcompare x y) as [c|] eqn:E; [|done].
  destruct c; try done. intros _. by rewrite (SFcompare_swap _ _ _ E).
Qed.

Lemma valueLess_asym u v : valueLess u v = true → valueLess v u = false.
Proof.
  assert (Hmix : valueLess_mixed u v = true → valueLess_mixed v u = false).
  { unfold valueLess_mixed. destruct (numeric u), (numeric v); try apply str_ltb_asym. apply f64_ltb_asym. }
  destruct u, v; try exact Hmix; simpl.
  - intros. btoz. apply Z.ltb_ge. lia.
  - by destruct b, b0.
Qed.

Lemma rankBefore_asym desc a b : rankBefore desc a b = true → rankBefore desc b a = false.
Proof.
  unfold rankBefore. pose proof (valueLess_asym (oVal a) (oVal b)) as H1.
  destruct (valueLess (oVal a) (oVal b)); [rewrite H1 by done; destruct desc; done|].
  destruct (valueLess (oVal b) (oVal a)); [by destruct desc|].
  intros Hs. btoz. apply Nat.ltb_ge. lia.
Qed.

(** Values whose order is that of a key in a strict total order. *)
Class KeyOrder (P : value → Prop) := {
  ko_key : Type;
  ko_of : value → ko_key;
  ko_lt : ko_key → ko_key → bool;
  ko_asym : ∀ x y, ko_lt x y = true → ko_lt y x = false;
  ko_trans : ∀ x y z, ko_lt x y = true → ko_lt y z = true → ko_lt x z = true;
  ko_total : ∀ x y, x = y ∨ ko_lt x y = true ∨ ko_lt y x = true;
  ko_spec : ∀ u v, P u → P v → valueLess u v = ko_lt (ko_of u) (ko_of v);
}.

(** TEXT and BOOL cells order by their printed text. *)
#[export] Instance text_order : KeyOrder (has_type Text).
Proof.
  refine {| ko_of := Sprint; ko_lt := str_ltb |}; eauto using str_ltb_asym, str_ltb_trans, str_ltb_total.
  intros u v Hu Hv. destruct u, v; try done.
Defined.
#[export] Instance bool_order : KeyOrder (has_type Bool).
Proof.
  refine {| ko_of := Sprint; ko_lt := str_ltb |}; eauto using str_ltb_asym, str_ltb_trans, str_ltb_total.
  intros u v Hu Hv. destruct u, v; try done. by destruct b, b0.
Defined.

(** INT cells order numerically, NULL last. *)
Definition intKey (v : value) : option Z := match v with VInt n => Some n | _ => None end.
Definition intKey_lt (x y : option Z) : bool :=
  match x, y with Some a, Some b => a <? b | Some _, None => true | None, _ => false end.

Lemma FormatInt_before_nil n : is_int64 n → str_ltb (FormatInt n) (lit "<nil>") = true.
Proof.
  intros Hn. destruct (FormatInt_head n Hn) as (c & s & -> & Hc). cbn [lit str_ltb].
  change (Z.of_N (N_of_ascii "<"%char)) with 60. rewrite (proj2 (Z.ltb_lt c 60)); [done|].
  destruct Hc as [->|Hc]; [lia|]. unfold is_digit in Hc. btoz. lia.
Qed.

#[export] Instance int_order : KeyOrder (has_type Int).
Proof.
  refine {| ko_of := intKey; ko_lt := intKey_lt |}.
  - intros [x|] [y|]; simpl; try done. intros. btoz. apply Z.ltb_ge. lia.
  - intros [x|] [y|] [z|]; simpl; try done. intros. btoz. apply Z.ltb_lt. lia.
  - intros [x|] [y|]; simpl; auto. destruct (Z.lt_trichotomy x y) as [?|[->|?]]; auto; right;
      [left|right]; apply Z.ltb_lt; lia.
  - intros u v Hu Hv. destruct u as [|n| | | |], v as [|m| | | |]; try done.
    + change (valueLess VNil (VInt m)) with (str_ltb (lit "<nil>") (FormatInt m)).
      by apply str_ltb_asym, FormatInt_before_nil.
    + change (valueLess (VInt n) VNil) with (str_ltb (FormatInt n) (lit "<nil>")).
      by apply FormatInt_before_nil.
Defined.

Section Rank.
Context (P : value → Prop) `{!KeyOrder P} (desc : bool).

Lemma rankBefore_key a b :
  P (oVal a) → P (oVal b) →
  rankBefore desc a b = if ko_lt (ko_of (oVal a)) (ko_of (oVal b)) then negb desc
                        else if ko_lt (ko_of (oVal b)) (ko_of (oVal a)) then desc
                        else (oSeq a <? oSeq b)%nat.
Proof. intros Ha Hb. unfold rankBefore. by rewrite !ko_spec. Qed.

Lemma ko_tri x y :
  (x = y ∧ ko_lt x y = false ∧ ko_lt y x = false) ∨ (ko_lt x y = true ∧ ko_lt y x = false)
  ∨ (ko_lt x y = false ∧ ko_lt y x = true).
Proof.
  destruct (ko_total x y) as [->|[Hl|Hl]].
  - left. destruct (ko_lt y y) eqn:E; [|done]. pose proof (ko_asym _ _ E). congruence.
  - right; left. auto using ko_asym.
  - right; right. auto using ko_asym.
Qed.

Lemma rankBefore_trans a b c :
  P (oVal a) → P (oVal b) → P (oVal c) →
  rankBefore desc a b = true → rankBefore desc b c = true → rankBefore desc a c = true.
Proof.
  intros Ha Hb Hc. rewrite !rankBefore_key by done.
  generalize (ko_of (oVal a)) (ko_of (oVal b)) (ko_of (oVal c)). intros x y z.
  destruct (ko_tri x y) as [(-> & E1 & E2)|[[E1 E2]|[E1 E2]]];
    destruct (ko_tri y z) as [(-> & E3 & E4)|[[E3 E4]|[E3 E4]]]; rewrite ?E1, ?E2, ?E3, ?E4;
    try (by destruct desc).
  - intros. btoz. apply Nat.ltb_lt. lia.
  - pose proof (ko_trans _ _ _ E1 E3) as E5. by rewrite E5.
  - pose proof (ko_trans _ _ _ E4 E2) as E5. by rewrite (ko_asym _ _ E5), E5.
Qed.

Lemma rankBefore_total a b :
  P (oVal a) → P (oVal b) → oSeq a ≠ oSeq b → rankBefore desc a b = true ∨ rankBefore desc b a = true.
Proof.
  intros Ha Hb Hs. rewrite !rankBefore_key by done.
  destruct (ko_tri (ko_of (oVal a)) (ko_of (oVal b))) as [(_ & E1 & E2)|[[E1 E2]|[E1 E2]]]; rewrite E1, E2.
  - destruct (decide (oSeq a < oSeq b)%nat); [left | right]; apply Nat.ltb_lt; lia.
  - destruct desc; auto.
  - destruct desc; auto.
Qed.

(** Candidates with distinct positions are totally ranked. *)
Lemma rank_total_on (l : list orderEntry) a b :
  NoDup (map oSeq l) → (∀ x, x ∈ l → P (oVal x)) → a ∈ l → b ∈ l →
  a = b ∨ rankBefore desc a b = true ∨ rankBefore desc b a = true.
Proof.
  intros Hnd HP Ha Hb. destruct (decide (oSeq a = oSeq b)) as [He|He]; [left | right; apply rankBefore_total; auto].
  apply list_elem_of_lookup in Ha as [i Hi], Hb as [j Hj].
  assert (i = j) as <-; [|congruence].
  apply (NoDup_lookup (oSeq <$> l) i j (oSeq a)); [done|..]; rewrite list_lookup_fmap; [by rewrite Hi|].
  rewrite Hj. simpl. by f_equal.
Qed.

Lemma topK_prefix k (l : list orderEntry) :
  (0 < k)%nat → NoDup (map oSeq l) → (∀ x, x ∈ l → P (oVal x)) →
  sortSlice (rankBefore desc) (topKEntries l k desc) = take k (sortSlice (rankBefore desc) l).
Proof.
  intros Hk Hnd HP. apply (topK_sorted_prefix desc (λ x, x ∈ l)); [apply rankBefore_asym | | | done | by apply Forall_forall].
  - intros a b c Ha Hb Hc. apply rankBefore_trans; auto.
  - intros a b Ha Hb. by apply (rank_total_on l).
Qed.

Lemma rank_sorted (l : list orderEntry) :
  NoDup (map oSeq l) → (∀ x, x ∈ l → P (oVal x)) →
  StronglySorted (sort_le (rankBefore desc)) (sortSlice (rankBefore desc) l).
Proof.
  intros Hnd HP. apply (sortSlice_sorted (rankBefore desc) (λ x, x ∈ l)); [apply rankBefore_asym | | | by apply Forall_forall].
  - intros a b c Ha Hb Hc. apply rankBefore_trans; auto.
  - intros a b Ha Hb. by apply (rank_total_on l).
Qed.

End Rank.

Lemma orderEntries_lookup t keys column i x :
  orderEntries t keys column !! i = Some x →
  ∃ k, keys !! i = Some k ∧ x = mkEntry k (orderValue t column k) i.
Proof.
  unfold orderEntries. rewrite list_lookup_imap. intros (k & Hk & ->)%fmap_Some. eauto.
Qed.

Lemma orderEntries_seq t keys column : NoDup (map oSeq (orderEntries t keys column)).
Proof.
  apply NoDup_alt. intros i j n. change (map oSeq ?l) with (oSeq <$> l). rewrite !list_lookup_fmap.
  intros (x & Hx & ->)%fmap_Some (y & Hy & He)%fmap_Some.
  apply orderEntries_lookup in Hx as (? & _ & ->), Hy as (? & _ & ->). done.
Qed.

Lemma orderEntries_typed (P : value → Prop) t keys column :
  (∀ k, k ∈ keys → P (orderValue t column k)) → ∀ x, x ∈ orderEntries t keys column → P (oVal x).
Proof.
  intros HP x [i Hi]%list_elem_of_lookup. apply orderEntries_lookup in Hi as (k & Hk & ->).
  apply HP. by eapply list_elem_of_lookup_2.
Qed.

(** C35: ORDER BY with LIMIT.  When the cap is smaller than the candidate set the
    code selects with a bounded heap before sorting; the keys it returns are
    exactly the first [cap] keys of the full stable sort, ascending or
    descending, for any column whose values order by a total key (INT, TEXT and
    BOOL columns, NULLs included; not FLOAT, where NaN has no rank).  With a cap of
    zero, which LIMIT 0 gives, the code panics unless there is no candidate. *)
Theorem orderKeys_topk (P : value → Prop) `{!KeyOrder P} t keys column desc cap sorted :
  0 ≤ cap → (∀ k, k ∈ keys → P (orderValue t column k)) →
  orderKeys t keys column desc (-1) = Ok sorted →
  orderKeys t keys column desc cap
  = if (cap =? 0) && negb (bool_decide (keys = [])) then Panic else Ok (take (Z.to_nat cap) sorted).
Proof.
  intros Hcap HP Hs. unfold orderKeys in *. cbn [Z.leb Z.compare andb bindr] in Hs. simplify_eq.
  destruct (Z.eqb_spec cap 0) as [->|Hne]; [by destruct keys|]. cbn [andb].
  set (l := orderEntries t keys column).
  destruct ((0 <=? cap) && (cap <? Z.of_nat (length l))) eqn:Hc.
  - btoz. unfold topK. destruct l as [|x l'] eqn:Hl; [simpl in *; lia|].
    destruct (Z.to_nat cap) as [|k] eqn:Hk; [lia|]. cbn [bindr]. rewrite <- Hl.
    rewrite (topK_prefix P desc (S k)); [by rewrite firstn_map | lia | apply orderEntries_seq |].
    by apply orderEntries_typed.
  - cbn [bindr]. rewrite firstn_map, take_ge; [done|].
    rewrite sortSlice_perm. apply andb_false_iff in Hc as [Hc|Hc]; btoz; lia.
Qed.

(** ORDER BY sorts: the keys returned without LIMIT are a permutation of the
    candidates, and of any two the earlier does not rank after the later. *)
Theorem orderKeys_sorts (P : value → Prop) `{!KeyOrder P} t keys column desc :
  (∀ k, k ∈ keys → P (orderValue t column k)) →
  ∃ entries, orderKeys t keys column desc (-1) = Ok (map oKey entries) ∧
    entries ≡ₚ orderEntries t keys column ∧
    StronglySorted (λ a b, rankBefore desc b a = false) entries.
Proof.
  intros HP. exists (sortSlice (rankBefore desc) (orderEntries t keys column)).
  split_and!; [done | apply sortSlice_perm |].
  apply (rank_sorted P desc); [apply orderEntries_seq | by apply orderEntries_typed].
Qed.

End Ranking.
