(* ===== verification/SchemaProofs.v ===== *)
(** * Schema statements keep the database well-formed

    CREATE TABLE, CREATE INDEX, ALTER TABLE, DROP INDEX and TRUNCATE preserve the
    table invariant and have the expected effect on the abstract content. *)

From S2P Require Import Prelude GoLib GoFacts Fold Value Parser Table TableInv InsertProofs MutateProofs Schema.
From S2P Require Import OrderBy Select SelectProofs.
Open Scope Z_scope.

Section SchemaProofs.
Context `{GoStd}.

(** ** CREATE TABLE *)

Definition primaries (cols : list Column) : nat := length (filter (λ c, cPrimary c = true) cols).

Lemma createColumns_ok parts : ∀ seen n cols out,
  createColumns seen n cols parts = Ok out →
  NoDup (map cName cols) → (∀ x, x ∈ seen ↔ x ∈ map cName cols) → n = primaries cols → (n ≤ 1)%nat →
  Forall (λ c, validType (cType c) = true) cols →
  cols_ok out ∧ Forall (λ c, validType (cType c) = true) out.
Proof.
  induction parts as [|part parts IH]; intros seen n cols out Hc Hnd Hseen Hn Hle Hty;
    cbn [createColumns] in Hc.
  { simplify_eq. split; [|done]. by split. }
  destruct (Fields (TrimSpace part)) as [|f0 [|f1 opts]]; [done|done|].
  case_bool_decide as Hdup; [done|]. destruct (validType (typeOf (ToUpper f1))) eqn:Hv; [|done].
  cbn [negb] in Hc. set (pr := existsb _ opts) in *.
  destruct (pr && _) eqn:Hm; [done|].
  apply IH in Hc; [done|..].
  - rewrite map_app. simpl. apply NoDup_app. split_and!; [done | | apply NoDup_singleton].
    intros x Hx [->|?%elem_of_nil]%elem_of_cons; [|done]. by rewrite <- Hseen in Hx.
  - intros x. rewrite map_app, elem_of_union, elem_of_app, elem_of_singleton, Hseen. simpl.
    rewrite list_elem_of_singleton. tauto.
  - unfold primaries in *. rewrite filter_app, length_app, filter_cons. simpl.
    destruct pr; [rewrite decide_True by done | rewrite decide_False by done]; simpl; lia.
  - destruct pr; [|done]. cbn [andb] in Hm. btoz. lia.
  - apply Forall_app. split; [done|]. by constructor.
Qed.

Lemma emptyTable_wf name cols : cols_ok cols → table_wf (emptyTable name cols).
Proof.
  intros Hc. split; simpl; try done.
  - split; [constructor | by intros k [r Hr] | done].
  - by intros c [m Hm].
  - apply fast_ok_none.
Qed.

Lemma createColumns_total parts : ∀ seen n cols, createColumns seen n cols parts ≠ Panic.
Proof. induction parts; intros seen n cols; cbn [createColumns]; repeat case_match; try done; auto. Qed.

(** The slices of CREATE TABLE are in range. *)
Lemma parseCreate_total s : parseCreate s ≠ Panic.
Proof.
  unfold parseCreate. destruct ((_ <? 0) || _) eqn:Hb; [done|]. apply orb_false_iff in Hb as [H1 H2]. btoz.
  destruct (Index_spec s (lit "(")) as [E|(a & Ea & Hla & Hpa)]; [rewrite E in H1; lia|].
  destruct (LastIndexByte_spec s 41) as [E|(z & Ez & Hz)]; [rewrite E, Ea in H2; lia|].
  rewrite Ea, Ez in *. pose proof (lookup_lt_Some _ _ _ Hz).
  assert (a ≠ z).
  { intros <-. apply has_prefix_app in Hpa as [k Hk].
    assert (Hs : drop a s !! 0%nat = Some 41) by (rewrite lookup_drop, Nat.add_0_r; done).
    rewrite Hk in Hs. done. }
  rewrite gslice_ok by lia. cbn [bindr]. destruct (Fields _) as [|h0 [|h1 [|h2 hs]]]; try done.
  rewrite gslice_ok by lia. cbn [bindr]. destruct (createColumns _ _ _ _) eqn:Hcc; try done.
  by apply createColumns_total in Hcc.
Qed.

Definition db_wf (d : Database) : Prop :=
  map_Forall (λ name t, table_wf t ∧ tName t = name) (dTables d).

(** CREATE TABLE either reports an error and changes nothing, or adds one
    table: empty, well-formed (distinct column names, at most one primary key,
    only the four column types), under the lower-cased name, which was free. *)
Theorem create_adds_table d s :
  db_wf d →
  let '(r, d') := create d s in
  match r with
  | Ok _ => ∃ name cols, dTables d !! name = None ∧ cols_ok cols ∧
              Forall (λ c, validType (cType c) = true) cols ∧
              dTables d' = <[name := emptyTable name cols]> (dTables d) ∧ db_wf d'
  | Err _ => d' = d
  | Panic => False
  end.
Proof.
  intros Hd. unfold create. destruct (parseCreate s) as [[name cols]|er|] eqn:Hp; cbn [orFail]; [|done|].
  - destruct (dTables d !! name) eqn:Hn; [done|]. unfold resultMessage.
    assert (Hcols : cols_ok cols ∧ Forall (λ c, validType (cType c) = true) cols).
    { unfold parseCreate in Hp. repeat case_match; try done. inv_bind Hp.
      destruct (Fields a) as [|h0 [|h1 [|h2 hs]]]; try done. inv_bind Hp. inv_bind Hp. simplify_eq.
      eapply (createColumns_ok _ ∅ 0 []); [eassumption | constructor | intros x; simpl; set_solver | done | lia | constructor]. }
    exists name, cols. split_and!; try done; try apply Hcols.
    apply map_Forall_insert_2; [|done]. split; [by apply emptyTable_wf, (proj1 Hcols) | done].
  - exfalso. revert Hp. apply parseCreate_total.
Qed.

(** ** ALTER TABLE *)

(** The row loop, in any visiting order, rewrites every row once. *)
Lemma alterRow_fold (f : row → row) (rows : gmap str row) ks :
  ks ≡ₚ mapKeys rows → foldl (alterRow f) rows ks = f <$> rows.
Proof.
  intros Hks. apply map_eq. intros k.
  enough (Hg : ∀ l m, NoDup l → foldl (alterRow f) m l !! k = if bool_decide (k ∈ l) then f <$> m !! k else m !! k).
  { rewrite Hg by (rewrite Hks; apply NoDup_fst_map_to_list). rewrite lookup_fmap.
    case_bool_decide as Hin; [done|]. destruct (rows !! k) as [r|] eqn:Hr; [|done].
    destruct Hin. rewrite Hks. apply list_elem_of_fmap. exists (k, r). by rewrite elem_of_map_to_list. }
  induction l as [|x l IH]; intros m Hnd; [done|]. apply NoDup_cons in Hnd as [Hx Hnd]. cbn [foldl].
  rewrite IH by done. unfold alterRow at 1 2. destruct (decide (k = x)) as [->|Hne].
  - rewrite bool_decide_false, bool_decide_true by (done || left). apply lookup_alter_eq.
  - rewrite lookup_alter_ne by done.
    by rewrite (bool_decide_ext (k ∈ x :: l) (k ∈ l)) by (rewrite elem_of_cons; naive_solver).
Qed.

Lemma absL_fmap (f : row → row) rows l : absL (f <$> rows) l = map (λ p, (p.1, f p.2)) (absL rows l).
Proof.
  induction l as [|k l IH]; [done|]. rewrite !absL_cons, lookup_fmap, IH. by destruct (rows !! k).
Qed.

Lemma order_ok_fmap (f : row → row) rows order dead : order_ok rows order dead → order_ok (f <$> rows) order dead.
Proof.
  intros [Hn Hl Hd]. split; [done| |by rewrite map_size_fmap].
  intros k. rewrite lookup_fmap, fmap_is_Some. apply Hl.
Qed.

Lemma fast_ok_off cols content cols' content' fp :
  fRows fp = [] → fast_ok cols content fp → fast_ok cols' content' fp.
Proof. intros Hoff [? Hp ? Hd]. by split. Qed.

(** Rewriting the rows and columns consistently, then refreshing the fast path. *)
Lemma refreshFast_wf t t' :
  table_wf t → base_wf t' → tFast t' = tFast t → table_wf (refreshFast t').
Proof.
  intros Ht Hb Hf. unfold refreshFast. destruct (fastOn t') eqn:Hon; [by apply rebuild_wf|].
  apply table_wf_base. split; [done|]. unfold fastOn in Hon. btoz. rewrite Hf in *.
  eapply fast_ok_off; [done | apply Ht].
Qed.

Lemma refreshFast_abs t : absRows (refreshFast t) = absRows t.
Proof. unfold refreshFast. case_match; [apply rebuild_abs | done]. Qed.

Lemma hasColumn_app cols1 cols2 c : hasColumn (cols1 ++ cols2) c = hasColumn cols1 c || hasColumn cols2 c.
Proof. apply existsb_app. Qed.

Lemma primaryName_app cols name typ : primaryName (cols ++ [mkColumn name typ false]) = primaryName cols.
Proof.
  unfold primaryName. rewrite filter_app. change (filter _ [mkColumn name typ false]) with (@nil Column).
  by rewrite app_nil_r.
Qed.

Lemma addColumn_base t column typ :
  base_wf t → hasColumn (tColumns t) column = false →
  base_wf (set_rows (set_columns t (tColumns t ++ [mkColumn column typ false]))
             ((λ r, <[column := VNil]> r) <$> tRows t)).
Proof.
  intros [Bc Br Bk Bo Bi Bx Bn Ba] Hnew.
  assert (Hget : ∀ r c, hasColumn (tColumns t) c = true → rowGet (<[column := VNil]> r) c = rowGet r c).
  { intros r c Hc. rewrite rowGet_insert. case_decide; [congruence | done]. }
  split; cbn [tColumns tRows tOrder tDead tIndexes tIndexNames tAutoKey set_rows set_columns]; try done.
  - destruct Bc as [Hn Hp]. split.
    + rewrite map_app. apply NoDup_app. split_and!; [done | | apply NoDup_singleton].
      intros x Hx ->%list_elem_of_singleton. apply hasColumn_In in Hx. simpl in Hx. congruence.
    + rewrite filter_app. change (filter _ [mkColumn column typ false]) with (@nil Column). by rewrite app_nil_r.
  - intros k r' Hr'. rewrite lookup_fmap in Hr'. apply fmap_Some in Hr' as (r & Hr & ->).
    destruct (Br k r Hr) as [Hdom Hty]. split.
    + intros c. rewrite lookup_insert_is_Some', Hdom, hasColumn_app, orb_true_iff. cbn [hasColumn existsb cName].
      rewrite orb_false_r, bool_decide_eq_true. naive_solver.
    + intros c [Hc|Hc]%elem_of_app.
      * rewrite Hget; [by apply Hty|]. apply hasColumn_In, list_elem_of_In, in_map, list_elem_of_In, Hc.
      * apply list_elem_of_singleton in Hc as ->. rewrite rowGet_insert. by rewrite decide_True.
  - unfold primaryColumn. cbn [tColumns set_rows set_columns]. rewrite primaryName_app.
    intros k r' Hr'. rewrite lookup_fmap in Hr'. apply fmap_Some in Hr' as (r & Hr & ->).
    destruct (Bk k r Hr) as [Hne Hk]. split; [done|]. intros Hpk. rewrite Hget; [by apply Hk|].
    by apply primaryName_column.
  - by apply order_ok_fmap.
  - intros c m Hm. eapply index_ok_congr; [|by apply (Bi c)]. intros k. rewrite lookup_fmap.
    destruct (tRows t !! k) as [r|]; simpl; [|done]. rewrite Hget; [done|]. apply Bx. by rewrite Hm.
  - intros c Hc. rewrite hasColumn_app, (Bx c Hc). done.
Qed.

(** ALTER TABLE ADD COLUMN, not cancelled: an existing column is rejected
    without any change; otherwise every row gets a NULL cell in the new column,
    order and other cells are unchanged, and rows, indexes and the positional
    fast array stay consistent with the new schema. *)
Theorem addColumn_wf e t column typ :
  env_quiet e → env_fair e → table_wf t →
  let '(r, t') := addColumn e column typ t in
  if hasColumn (tColumns t) column then r = errorsNew "column already exists" ∧ t' = t
  else table_wf t' ∧ r = Ok (resultMessage "column added") ∧
       tColumns t' = tColumns t ++ [mkColumn column typ false] ∧
       absRows t' = map (λ p, (p.1, <[column := VNil]> p.2)) (absRows t).
Proof.
  intros Hq Hfair Ht. unfold addColumn. destruct (hasColumn (tColumns t) column) eqn:Hc; [done|].
  rewrite scan_all_quiet by done. rewrite (alterRow_fold (λ r, <[column := VNil]> r)) by apply Hfair.
  assert (Hb := addColumn_base t column typ (proj1 (proj1 (table_wf_base _) Ht)) Hc).
  split_and!.
  - by eapply (refreshFast_wf t).
  - done.
  - unfold refreshFast, rebuildFastPathLocked. by repeat case_match.
  - rewrite refreshFast_abs. apply absL_fmap.
Qed.

(** ** DROP COLUMN *)

Lemma removeColumn_filter cols name out :
  NoDup (map cName cols) → removeColumn cols name = Some out →
  out = filter (λ c, cName c ≠ name) cols ∧ hasColumn cols name = true.
Proof.
  revert out. induction cols as [|c cols IH]; intros out Hnd Hr; [done|]. cbn [removeColumn map] in *.
  apply NoDup_cons in Hnd as [Hc Hnd]. rewrite filter_cons. unfold hasColumn. cbn [existsb].
  case_bool_decide as Hn; simplify_eq.
  - rewrite decide_False by naive_solver. split; [|done]. symmetry. apply filter_all.
    intros x Hx Hnx. subst. apply Hc. rewrite <- Hnx. apply list_elem_of_In, in_map, list_elem_of_In, Hx.
  - destruct (removeColumn cols name) as [l|] eqn:Hl; [|done]. simplify_eq.
    destruct (IH l Hnd eq_refl) as [-> Hh]. rewrite decide_True by done. done.
Qed.

Lemma filter_names_nodup (P : Column → Prop) `{∀ c, Decision (P c)} cols :
  NoDup (map cName cols) → NoDup (map cName (filter P cols)).
Proof. intros Hnd. eapply sublist_NoDup; [exact Hnd|]. apply fmap_sublist, sublist_filter. Qed.

Lemma hasColumn_filter cols name c :
  hasColumn (filter (λ x, cName x ≠ name) cols) c = hasColumn cols c && negb (bool_decide (c = name)).
Proof.
  apply eq_true_iff_eq. rewrite andb_true_iff, negb_true_iff, bool_decide_eq_false, !hasColumn_In.
  rewrite !list_elem_of_In, !in_map_iff. split.
  - intros (x & <- & Hx). rewrite <- list_elem_of_In in Hx. apply list_elem_of_filter in Hx as [Hn Hx].
    split; [|done]. exists x. split; [done|]. by apply list_elem_of_In.
  - intros [(x & <- & Hx) Hn]. exists x. split; [done|]. apply list_elem_of_In, list_elem_of_filter.
    split; [done|]. by apply list_elem_of_In.
Qed.

(** The remaining primary column is the old one, or there is none. *)
Lemma primaryName_filter cols name :
  cols_ok cols → primaryName (filter (λ x, cName x ≠ name) cols) ≠ [] →
  primaryName (filter (λ x, cName x ≠ name) cols) = primaryName cols ∧ primaryName cols ≠ name.
Proof.
  intros [_ Hp]. unfold primaryName. rewrite list_filter_filter.
  destruct (filter (λ c, cPrimary c = true) cols) as [|p [|q l]] eqn:Hf; [| |simpl in Hp; lia].
  - rewrite filter_none; [done|]. intros c Hc [H1 H2].
    assert (Hin : c ∈ filter (λ c, cPrimary c = true) cols) by by apply list_elem_of_filter.
    rewrite Hf in Hin. by apply elem_of_nil in Hin.
  - destruct (filter (λ a, cPrimary a = true ∧ cName a ≠ name) cols) as [|c l] eqn:Hg; [done|]. intros _.
    assert (Hc : c ∈ c :: l) by left. rewrite <- Hg in Hc. apply list_elem_of_filter in Hc as [[Hc1 Hc2] Hc3].
    assert (Hin : c ∈ filter (λ c, cPrimary c = true) cols) by by apply list_elem_of_filter.
    rewrite Hf in Hin. apply list_elem_of_singleton in Hin as ->. done.
Qed.

Lemma dropColumn_base t column :
  base_wf t →
  base_wf (forgetIndex column (set_rows (set_columns t (filter (λ x, cName x ≠ column) (tColumns t)))
             (delete column <$> tRows t))).
Proof.
  intros [Bc Br Bk Bo Bi Bx Bn Ba].
  assert (Hget : ∀ r c, c ≠ column → rowGet (delete column r) c = rowGet r c).
  { intros r c Hc. unfold rowGet. by rewrite lookup_delete_ne. }
  split; cbn [tColumns tRows tOrder tDead tIndexes tIndexNames tAutoKey set_rows set_columns forgetIndex
              set_indexes set_indexNames]; try done.
  - split; [apply filter_names_nodup, Bc|]. rewrite list_filter_filter.
    etrans; [|apply (cols_primary _ Bc)]. apply sublist_length.
    clear. induction (tColumns t) as [|c cols IH]; [done|]. rewrite !filter_cons.
    repeat case_decide; try naive_solver; by (apply sublist_skip || apply sublist_cons).
  - intros k r' Hr'. rewrite lookup_fmap in Hr'. apply fmap_Some in Hr' as (r & Hr & ->).
    destruct (Br k r Hr) as [Hdom Hty]. split.
    + intros c. rewrite lookup_delete_is_Some, Hdom, hasColumn_filter, andb_true_iff, negb_true_iff, bool_decide_eq_false.
      naive_solver.
    + intros c [Hn Hc]%list_elem_of_filter. rewrite Hget by done. by apply Hty.
  - unfold primaryColumn. cbn [tColumns set_rows set_columns forgetIndex set_indexes set_indexNames].
    intros k r' Hr'. rewrite lookup_fmap in Hr'. apply fmap_Some in Hr' as (r & Hr & ->).
    destruct (Bk k r Hr) as [Hne Hk]. split; [done|]. intros Hpk.
    destruct (primaryName_filter _ _ Bc Hpk) as [-> Hn]. rewrite Hget by done. apply Hk.
    unfold primaryColumn. destruct (primaryName_filter _ _ Bc Hpk) as [<- _]. done.
  - by apply order_ok_fmap.
  - intros c m [Hc Hm]%lookup_delete_Some. eapply index_ok_congr; [|by apply (Bi c)]. intros k. rewrite lookup_fmap.
    destruct (tRows t !! k) as [r|]; simpl; [|done]. by rewrite Hget.
  - intros c [Hc Hs]%lookup_delete_is_Some. rewrite hasColumn_filter, (Bx c Hs).
    by rewrite bool_decide_false.
  - intros n c [Hn Hc]%map_lookup_filter_Some. simpl in Hc. rewrite lookup_delete_ne by done. by eapply Bn.
Qed.

(** ALTER TABLE DROP COLUMN, not cancelled: the last column and an unknown
    column are rejected without any change; otherwise every row loses exactly
    that cell and the index on it disappears with its names; dropping the primary
    column leaves a keyless, still well-formed table. *)
Theorem dropColumn_wf e t name :
  env_quiet e → env_fair e → table_wf t →
  let '(r, t') := dropColumn e name t in
  let column := ToLower name in
  if (1 <? length (tColumns t))%nat && hasColumn (tColumns t) column
  then table_wf t' ∧ r = Ok (resultMessage "column dropped") ∧
       tColumns t' = filter (λ c, cName c ≠ column) (tColumns t) ∧
       tIndexes t' = delete column (tIndexes t) ∧
       absRows t' = map (λ p, (p.1, delete column p.2)) (absRows t)
  else isOk r = false ∧ t' = t.
Proof.
  intros Hq Hfair Ht. unfold dropColumn. cbv zeta. set (column := ToLower name).
  destruct (length (tColumns t) <=? 1)%nat eqn:Hl; btoz.
  { by rewrite (proj2 (Nat.ltb_ge 1 _)) by lia. }
  rewrite (proj2 (Nat.ltb_lt 1 _)) by lia. cbn [andb].
  destruct (removeColumn (tColumns t) column) as [cols|] eqn:Hr.
  - destruct (removeColumn_filter _ _ _ (cols_nodup _ (wf_cols _ Ht)) Hr) as [-> ->].
    rewrite scan_all_quiet by done. rewrite (alterRow_fold (delete column)) by apply Hfair.
    assert (Hb := dropColumn_base t column (proj1 (proj1 (table_wf_base _) Ht))).
    split_and!.
    + by eapply (refreshFast_wf t).
    + done.
    + unfold refreshFast, rebuildFastPathLocked. by repeat case_match.
    + unfold refreshFast, rebuildFastPathLocked. by repeat case_match.
    + rewrite refreshFast_abs. apply absL_fmap.
  - assert (Hno : hasColumn (tColumns t) column = false).
    { clear -Hr. induction (tColumns t) as [|c cols IH]; [done|]. cbn [removeColumn] in Hr.
      unfold hasColumn. cbn [existsb]. case_bool_decide; [done|]. cbn [orb]. apply IH.
      by destruct (removeColumn cols column). }
    by rewrite Hno.
Qed.

(** ** Indexes and TRUNCATE *)

Lemma buildStep_fold t column l : ∀ m,
  (∀ v, m !! v ≠ Some ∅) →
  let m' := foldl (buildStep t column) m l in
  (∀ v k, k ∈ default ∅ (m' !! v) ↔
     k ∈ default ∅ (m !! v) ∨ (k ∈ l ∧ ∃ r, tRows t !! k = Some r ∧ valueKey (rowGet r column) = v)) ∧
  (∀ v, m' !! v ≠ Some ∅).
Proof.
  induction l as [|x l IH]; intros m Hm; cbn [foldl]; cbv zeta; [split; [set_solver | done]|].
  destruct (IH (buildStep t column m x)) as [H1 H2].
  { intros v. unfold buildStep. destruct (tRows t !! x); [|done]. unfold bucketAdd. rewrite lookup_insert.
    case_decide; [|done]. intros [= He]. set_solver. }
  cbv zeta in H1, H2. split; [|done]. intros v k. rewrite H1, elem_of_cons. unfold buildStep.
  destruct (tRows t !! x) as [r|] eqn:Hr; [|naive_solver]. unfold bucketAdd. rewrite lookup_insert.
  case_decide as Hv; simpl.
  - rewrite elem_of_union, elem_of_singleton, Hv. naive_solver.
  - naive_solver.
Qed.

Lemma buildIndex_ok t column ks :
  ks ≡ₚ mapKeys (tRows t) → index_ok (tRows t) column (foldl (buildStep t column) ∅ ks).
Proof.
  intros Hks. destruct (buildStep_fold t column ks ∅) as [H1 H2]; [done|]. cbv zeta in H1, H2.
  split; [|done]. intros v k. rewrite H1, lookup_empty. simpl. split; [set_solver|].
  intros (r & Hr & Hv). right. split; [|eauto]. rewrite Hks. apply list_elem_of_fmap.
  exists (k, r). by rewrite elem_of_map_to_list.
Qed.

Lemma base_wf_index t column name m :
  base_wf t → hasColumn (tColumns t) column = true → index_ok (tRows t) column m →
  base_wf (set_indexNames (set_indexes t (<[column := m]> (tIndexes t))) (<[name := column]> (tIndexNames t))).
Proof.
  intros [Bc Br Bk Bo Bi Bx Bn Ba] Hc Hm.
  split; cbn [tColumns tRows tOrder tDead tIndexes tIndexNames tAutoKey set_indexes set_indexNames]; try done.
  - by apply map_Forall_insert_2.
  - intros c. rewrite lookup_insert_is_Some'. intros [<-|?]; [done | by apply Bx].
  - apply map_Forall_insert_2.
    + rewrite lookup_insert_is_Some'. by left.
    + intros n c Hnc. rewrite lookup_insert_is_Some'. right. by eapply Bn.
Qed.

(** CREATE INDEX, not cancelled: on an existing column without an index and
    with a fresh name it files every row under the key of its cell, whatever
    order the rows are visited in, and changes nothing else; otherwise it reports
    an error and changes nothing. *)
Theorem createIndexOn_wf e t name column :
  env_quiet e → env_fair e → table_wf t →
  let '(r, t') := createIndexOn e name column t in
  match r with
  | Ok _ => table_wf t' ∧ absRows t' = absRows t ∧ hasColumn (tColumns t) column = true ∧
            tIndexes t !! column = None ∧ tIndexNames t' = <[ToLower name := column]> (tIndexNames t) ∧
            ∃ m, tIndexes t' = <[column := m]> (tIndexes t) ∧ index_ok (tRows t) column m
  | Err _ => t' = t
  | Panic => False
  end.
Proof.
  intros Hq Hfair Ht. unfold createIndexOn.
  destruct (hasColumn (tColumns t) column) eqn:Hc; [|done]. cbn [negb].
  case_bool_decide as Hi; [done|]. case_bool_decide as Hn; [done|].
  rewrite scan_all_quiet by done. unfold resultMessage.
  set (ks := env_range e site_createIndex _). assert (Hks : ks ≡ₚ mapKeys (tRows t)) by apply Hfair.
  pose proof (buildIndex_ok t column ks Hks) as Hok.
  split_and!; try done.
  - apply table_wf_base. split; [|apply Ht]. apply base_wf_index; [by apply table_wf_base | done | done].
  - destruct (tIndexes t !! column) eqn:E; [|done]. destruct Hi. eauto.
  - eauto.
Qed.

Lemma forgetIndex_wf t column : table_wf t → table_wf (forgetIndex column t).
Proof.
  intros [Wc Wr Wk Wo Wi Wx Wn Wf Wa]. split; cbn [tColumns tRows tOrder tDead tIndexes tIndexNames tAutoKey
    tFast forgetIndex set_indexes set_indexNames]; try done.
  - by apply map_Forall_delete.
  - intros c [_ Hs]%lookup_delete_is_Some. by apply Wx.
  - intros n c [Hn Hc]%map_lookup_filter_Some. simpl in Hc. rewrite lookup_delete_ne by done. by eapply Wn.
Qed.

Lemma dropIndexOn_wf t name :
  table_wf t → let '(_, t') := dropIndexOn name t in table_wf t' ∧ absRows t' = absRows t.
Proof.
  intros Ht. unfold dropIndexOn. destruct (tIndexNames t !! name); [split; [by apply forgetIndex_wf | done]|].
  destruct (tIndexes t !! name); [split; [by apply forgetIndex_wf | done] | done].
Qed.

Lemma truncateTable_wf t : table_wf t → table_wf (truncateTable t) ∧ absRows (truncateTable t) = [].
Proof.
  intros [Wc Wr Wk Wo Wi Wx Wn Wf Wa]. split; [|done].
  split; cbn [tColumns tRows tOrder tDead tIndexes tIndexNames tAutoKey tFast truncateTable]; try done.
  - split; [constructor | by intros k [r Hr] | done].
  - intros c m Hm. rewrite lookup_fmap in Hm. destruct (tIndexes t !! c); simplify_eq/=. split.
    + intros v k. rewrite lookup_empty. simpl. split; [set_solver|]. by intros (r & Hr & _).
    + intros v. by rewrite lookup_empty.
  - intros c. rewrite lookup_fmap, fmap_is_Some. apply Wx.
  - intros n c Hn. rewrite lookup_fmap, fmap_is_Some. by eapply Wn.
  - apply fast_ok_none.
Qed.

(** ** Statements on the database *)

Lemma onTable_wf d name k :
  db_wf d → (∀ t, table_wf t → table_wf (k t).2 ∧ tName (k t).2 = tName t) → db_wf (onTable d name k).2.
Proof.
  intros Hd Hk. unfold onTable, dbTable. destruct (dTables d !! ToLower name) as [t|] eqn:Ht; [|done].
  cbn [orFail]. specialize (Hk t). destruct (Hd _ _ Ht) as [Hw Hn]. destruct (k t) as [r t']. cbn [snd] in *.
  destruct Hk as [Hw' Hn']; [done|]. apply map_Forall_insert_2; [|done]. split; [done|]. by rewrite Hn'.
Qed.

Lemma orFail_wf {A} d (m : res A) (k : A → res Result * Database) :
  db_wf d → (∀ a, m = Ok a → db_wf (k a).2) → db_wf (orFail d m k).2.
Proof. intros Hd Hk. destruct m; cbn [orFail snd]; auto. Qed.

Lemma refreshFast_name t : tName (refreshFast t) = tName t.
Proof. unfold refreshFast, rebuildFastPathLocked. by repeat case_match. Qed.

End SchemaProofs.
