(* ===== verification/DatabaseProofs.v ===== *)
(** * Statements and transactions on the database

    Reads do not write, an uncancelled statement that fails changes nothing, the
    revision counts successful writes, and a stale transaction cannot commit. *)

From S2P Require Import Prelude GoLib GoFacts Fold Value Parser Table TableInv Insert InsertProofs Mutate.
From S2P Require Import MutateProofs Schema OrderBy Select SelectProofs Group SchemaProofs Database.
Open Scope Z_scope.

Section DatabaseProofs.
Context `{GoStd}.

(** ** Reads do not write *)

Lemma hasPrefixFold_split s kw :
  hasPrefixFold s kw = true → ∃ p k, s = p ++ k ∧ map upper_byte p = kw.
Proof.
  revert s. induction kw as [|c kw IH]; intros s Hs; [by exists [], s|].
  destruct s as [|d s]; [done|]. cbn [hasPrefixFold] in Hs. destruct (upper_byte d =? c) eqn:E; [|done]. btoz.
  apply IH in Hs as (p & k & -> & <-). exists (d :: p), k. simpl. by rewrite E.
Qed.

Lemma hasPrefixFold_app p k kw : map upper_byte p = kw → hasPrefixFold (p ++ k) kw = true.
Proof.
  intros <-. induction p as [|d p IH]; cbn [map hasPrefixFold app]; [by destruct k|].
  by rewrite Z.eqb_refl.
Qed.

(** Keywords are letters, so trimming a statement keeps its leading keyword. *)
Lemma statement_keyword sql kw :
  kw ≠ [] → forallb (λ c, (65 <=? c) && (c <=? 90)) kw = true →
  hasPrefixFold (TrimSpace sql) kw = true →
  hasPrefixFold (TrimSpace (TrimSuffixByte (TrimSpace sql) 59)) kw = true.
Proof.
  intros Hne Hkw (p & k & -> & Hp)%hasPrefixFold_split.
  assert (Hpne : p ≠ []) by (intros ->; by apply Hne).
  assert (Hg : ∀ c, c ∈ p → graphic c = true ∧ c ≠ 59).
  { intros c Hc. rewrite forallb_forall in Hkw.
    assert (Hu : upper_byte c ∈ kw).
    { rewrite <- Hp. apply list_elem_of_In, in_map, list_elem_of_In, Hc. }
    apply list_elem_of_In in Hu. apply Hkw in Hu. unfold upper_byte in Hu. unfold graphic.
    destruct ((97 <=? c) && (c <=? 122)) eqn:E; btoz; (split; [apply andb_true_iff; split; apply Z.leb_le; lia | lia]). }
  destruct (TrimSuffixByte_prefix p k 59) as [k' ->]; [|done|].
  { intros Hl. apply last_Some in Hl as [l' ->]. destruct (Hg 59) as [_ ?]; [set_solver | done]. }
  destruct (TrimSpace_prefix p k') as [k'' ->]; [done| |by apply hasPrefixFold_app].
  apply forallb_forall. intros c Hc. apply Hg. by apply list_elem_of_In.
Qed.

(** The first two letters of a statement decide between keywords. *)
Lemma hasPrefixFold_two s kw kw' :
  hasPrefixFold s kw = true → (2 ≤ length kw)%nat → take 2 kw ≠ take 2 kw' → (2 ≤ length kw')%nat →
  hasPrefixFold s kw' = false.
Proof.
  intros H1 Hl Ht Hl'. apply not_true_is_false. intros H2.
  destruct kw as [|a [|b kw]], kw' as [|a' [|b' kw']]; simpl in Hl, Hl'; try lia.
  destruct s as [|x [|y s]]; cbn [hasPrefixFold] in *; repeat case_match; btoz; simplify_eq/=; congruence.
Qed.

Definition readKeywords : list str := map lit ["SELECT"; "SHOW"; "DESCRIBE"; "DESC"]%string.
Definition schemaKeywords : list str :=
  map lit ["CREATE TABLE"; "CREATE INDEX"; "ALTER TABLE"; "DROP TABLE"; "DROP INDEX"; "TRUNCATE"; "INSERT"]%string.

Lemma read_not_schema s kw kw' :
  kw ∈ readKeywords → kw' ∈ schemaKeywords → hasPrefixFold s kw = true → hasPrefixFold s kw' = false.
Proof.
  intros H1 H2 Hs.
  assert (Hall : forallb (λ a, forallb (λ b, negb (bool_decide (take 2 a = take 2 b)) && (2 <=? length a)%nat
            && (2 <=? length b)%nat) schemaKeywords) readKeywords = true) by reflexivity.
  rewrite forallb_forall in Hall. apply list_elem_of_In in H1, H2. specialize (Hall _ H1).
  rewrite forallb_forall in Hall. specialize (Hall _ H2). btoz. by eapply hasPrefixFold_two.
Qed.

Lemma exec_readonly e d sql maxRows : IsReadOnly sql = true → (exec e d sql maxRows).2 = d.
Proof.
  intros Hr. unfold IsReadOnly in Hr. unfold exec.
  set (s := TrimSpace (TrimSuffixByte (TrimSpace sql) 59)).
  assert (Hk : ∃ kw, kw ∈ readKeywords ∧ hasPrefixFold s kw = true).
  { rewrite !orb_true_iff in Hr. destruct Hr as [[[Hr|Hr]|Hr]|Hr];
      apply statement_keyword in Hr; try done;
      (eexists; split; [|exact Hr]); unfold readKeywords; cbn [map]; set_solver. }
  destruct Hk as (kw & Hkw & Hs).
  assert (Hfirst : ∀ kw', kw' ∈ schemaKeywords → hasPrefixFold s kw' = false)
    by (intros kw' Hkw'; by eapply read_not_schema).
  rewrite !Hfirst by (unfold schemaKeywords; cbn [map]; set_solver). cbn [orb].
  destruct (hasPrefixFold s (lit "SELECT")) eqn:E1; [done|].
  destruct (hasPrefixFold s (lit "SHOW") || hasPrefixFold s (lit "DESC")) eqn:E2; [done|].
  exfalso. apply orb_false_iff in E2 as [E2 E3].
  unfold readKeywords in Hkw. cbn [map] in Hkw. rewrite !elem_of_cons in Hkw. destruct Hkw as [->|[->|[->|[->|?%elem_of_nil]]]]; try congruence.
  apply hasPrefixFold_split in Hs as (p & k & Hsp & Hp). revert E3. rewrite Hsp.
  rewrite <- (take_drop 4 p), <- app_assoc. rewrite hasPrefixFold_app; [done|].
  rewrite <- firstn_map, Hp. done.
Qed.

(** SELECT, SHOW, DESCRIBE and DESC statements (what [IsReadOnly] classifies
    as reads, and so what bypasses the write lock and the log) leave the whole
    database unchanged, revision included, whatever they answer. *)
Theorem readonly_unchanged e d sql maxRows :
  IsReadOnly sql = true → (ExecWithOptions e d sql maxRows).2 = d.
Proof.
  intros Hr. unfold ExecWithOptions. destruct (env_err e site_exec 0), (env_err e site_exec 1); try done.
  pose proof (exec_readonly e d sql maxRows Hr) as He. destruct (exec e d sql maxRows) as [r d'].
  rewrite Hr. cbn [negb andb snd] in *. done.
Qed.

(** ** An uncancelled statement that fails changes nothing *)

Definition atomic {S} (s : S) (p : res Result * S) : Prop := isOk p.1 = false → p.2 = s.

Lemma orFail_atomic {A S} (s : S) (m : res A) (k : A → res Result * S) :
  (∀ a, m = Ok a → atomic s (k a)) → atomic s (orFail s m k).
Proof. intros Hk. destruct m; cbn [orFail]; [by apply Hk | by intros _ | by intros _]. Qed.

Lemma fail_atomic {S} msg (s : S) : atomic s (fail msg s).
Proof. by intros _. Qed.

Lemma onTable_atomic d name k : (∀ t, atomic t (k t)) → atomic d (onTable d name k).
Proof.
  intros Hk. unfold onTable, dbTable. destruct (dTables d !! ToLower name) as [t|] eqn:Ht; [|by intros _].
  cbn [orFail]. specialize (Hk t). destruct (k t) as [r t']. intros Hr. cbn [snd fst] in *.
  unfold atomic in Hk. cbn [fst snd] in Hk. rewrite Hk by done. unfold set_tables. rewrite insert_id by done. by destruct d.
Qed.

#[local] Hint Resolve orFail_atomic fail_atomic onTable_atomic : go.

Section Quiet.
Context (e : Env) (Hq : env_quiet e).

Lemma createIndexOn_atomic name column t : atomic t (createIndexOn e name column t).
Proof. unfold createIndexOn. rewrite scan_all_quiet by done. repeat case_match; by intros ?. Qed.
Lemma addColumn_atomic column typ t : atomic t (addColumn e column typ t).
Proof. unfold addColumn. rewrite scan_all_quiet by done. repeat case_match; by intros ?. Qed.
Lemma dropColumn_atomic name t : atomic t (dropColumn e name t).
Proof. unfold dropColumn. cbv zeta. repeat case_match; try by intros ?. 
  all: rewrite scan_all_quiet in * by done; simplify_eq; by intros ?. Qed.
Lemma dropIndexOn_atomic name t : atomic t (dropIndexOn name t).
Proof. unfold dropIndexOn. repeat case_match; by intros ?. Qed.

Lemma runInsert_atomic rows replace t : atomic t (runInsert e rows replace t).
Proof.
  unfold runInsert, applyInsertRows. destruct replace.
  - destruct (applyRows _ _ _); by intros ?.
  - rewrite scan_quiet by done. destruct (scan_pure _ _ _) as [b []]; [by intros ?|].
    destruct (applyRows _ _ _); by intros ?.
Qed.

Lemma rekey_atomic t k v : atomic t (rekeyPrimaryLocked t k v).
Proof. unfold rekeyPrimaryLocked. cbv zeta. repeat case_match; by intros ?. Qed.

Lemma updateRows_atomic t w x col v : atomic t (updateRows e t w x col v).
Proof.
  unfold updateRows. cbv zeta. destruct (_ && _ && _).
  - destruct (tRows t !! mwValue w); [|by intros ?]. destruct (_ && _); [apply rekey_atomic | by intros ?].
  - destruct (_ && _).
    + unfold updatePrimaryMultiLocked. destruct (matchingKeys _ _ _ _ _) as [|k [|k' ks]]; [by intros ?| |by intros ?].
      case_match; [by intros ? | apply rekey_atomic].
    + unfold updateScan. rewrite scan_all_quiet by done. destruct (foldl _ _ _). by intros ?.
Qed.

Lemma deleteRows_atomic t w x : atomic t (deleteRows e t w x).
Proof.
  unfold deleteRows. case_match.
  - unfold deleteKey. destruct (tRows t !! mwValue w); by intros ?.
  - unfold deleteScan. rewrite scan_all_quiet by done. by intros ?.
Qed.

Lemma insertStmt_atomic d s maxRows : atomic d (insertStmt e d s maxRows).
Proof.
  unfold insertStmt. apply orFail_atomic. intros [replace body] _. cbv zeta.
  destruct (_ && _); [apply fail_atomic|]. destruct (_ && _).
  - unfold insertSelect. apply orFail_atomic. intros hd _. destruct (firstField hd); [|apply fail_atomic].
    apply orFail_atomic. intros t _. apply orFail_atomic. intros src _.
    destruct (negb _); [apply fail_atomic|]. apply orFail_atomic. intros rows _.
    apply onTable_atomic. intros. apply runInsert_atomic.
  - apply orFail_atomic. intros hd _. destruct (firstField hd); [|apply fail_atomic].
    apply onTable_atomic. intros t. apply orFail_atomic. intros rows _. apply runInsert_atomic.
Qed.

Lemma updateStmt_atomic d s : atomic d (updateStmt e d s).
Proof.
  unfold updateStmt. cbv zeta. case_match; [apply fail_atomic|]. destruct (Fields _) as [|? [|name ?]]; try apply fail_atomic.
  apply onTable_atomic. intros t. apply orFail_atomic. intros [[col v] hw] _. apply orFail_atomic. intros w _.
  apply orFail_atomic. intros x _. apply updateRows_atomic.
Qed.

Lemma deleteStmt_atomic d s : atomic d (deleteStmt e d s).
Proof.
  unfold deleteStmt. destruct (firstField _); [|apply fail_atomic]. apply onTable_atomic. intros t.
  apply orFail_atomic. intros w _. apply orFail_atomic. intros x _. apply deleteRows_atomic.
Qed.

Lemma schema_atomic d s :
  atomic d (create d s) ∧ atomic d (createIndex e d s) ∧ atomic d (alterTable e d s) ∧
  atomic d (dropStmt d s) ∧ atomic d (truncate d s).
Proof.
  split_and!.
  - apply orFail_atomic. intros [name cols] _. case_match; by intros ?.
  - apply orFail_atomic. intros [[a b] c] _. apply onTable_atomic. intros. apply createIndexOn_atomic.
  - unfold alterTable. cbv zeta. destruct (Fields s) as [|p0 [|p1 [|p2 [|p3 rest]]]]; try apply fail_atomic.
    destruct (EqualFold p3 _).
    + destruct (match rest with [] => _ | _ => _ end) as [|col [|]]; try apply fail_atomic.
      apply onTable_atomic. intros. apply dropColumn_atomic.
    + destruct rest as [|p4 [|p5 [|p6 [|]]]]; try apply fail_atomic.
      destruct (_ && _); [|apply fail_atomic]. apply orFail_atomic. intros t _.
      destruct (_ || _); [apply fail_atomic|]. apply onTable_atomic. intros. apply addColumn_atomic.
  - unfold dropStmt. case_match.
    + apply orFail_atomic. intros r _. cbv zeta. destruct (_ || _); [apply fail_atomic|]. repeat case_match; by intros ?.
    + apply orFail_atomic. intros r _. cbv zeta. destruct (_ <? 0); [apply fail_atomic|].
      destruct (_ || _); [apply fail_atomic|]. apply onTable_atomic. intros. apply dropIndexOn_atomic.
  - apply orFail_atomic. intros r _. cbv zeta. destruct (Fields _) as [|n [|]]; try apply fail_atomic.
    apply onTable_atomic. intros t. by intros ?.
Qed.

Lemma exec_atomic d sql maxRows : atomic d (exec e d sql maxRows).
Proof.
  unfold exec. cbv zeta. set (s := TrimSpace _). destruct (schema_atomic d s) as (H1 & H2 & H3 & H4 & H5).
  repeat (case_match; [first [done | by intros ? | by apply insertStmt_atomic | by apply updateStmt_atomic | by apply deleteStmt_atomic]|]).
  apply fail_atomic.
Qed.

End Quiet.

(** C16: Statement atomicity.  A statement of any kind (multi-row INSERT, INSERT
    ... SELECT, UPDATE, DELETE, schema changes) that is not cancelled and reports
    an error leaves the database exactly as it was. *)
Theorem failed_statement_unchanged e d sql maxRows :
  env_quiet e → isOk (ExecWithOptions e d sql maxRows).1 = false → (ExecWithOptions e d sql maxRows).2 = d.
Proof.
  intros Hq. unfold ExecWithOptions. rewrite !(Hq site_exec).
  pose proof (exec_atomic e Hq d sql maxRows) as Ha. destruct (exec e d sql maxRows) as [r d'].
  unfold atomic in Ha. cbn [fst snd] in *. intros Hr. rewrite Hr, andb_false_r. by apply Ha.
Qed.

(** ** Revisions *)

(** Statements change tables only. *)
Definition meta_kept (d : Database) (p : res Result * Database) : Prop :=
  dRevision p.2 = dRevision d ∧ dBase p.2 = dBase d.

Lemma orFail_meta {A} d (m : res A) k : (∀ a, meta_kept d (k a)) → meta_kept d (orFail d m k).
Proof. intros Hk. by destruct m; cbn [orFail]. Qed.
Lemma onTable_meta d name k : meta_kept d (onTable d name k).
Proof. unfold onTable. apply orFail_meta. intros t. by destruct (k t). Qed.
Lemma fail_meta d m : meta_kept d (fail m d).
Proof. done. Qed.

Ltac meta :=
  repeat first [apply onTable_meta | apply fail_meta | done | progress cbv zeta
               | apply orFail_meta; intros | case_match].

Lemma exec_meta e d sql maxRows : meta_kept d (exec e d sql maxRows).
Proof.
  unfold exec. cbv zeta. repeat (case_match; [|]); try done.
  - unfold create. meta.
  - unfold createIndex. meta.
  - unfold alterTable. meta.
  - unfold dropStmt, dropTable, dropIndex. meta.
  - unfold truncate. meta.
  - unfold insertStmt, insertSelect. meta.
  - unfold updateStmt. meta.
  - unfold deleteStmt. meta.
Qed.

(** A client's calls: environment, statement, row cap. *)
Record call := mkCall { caEnv : Env; caSQL : str; caMax : Z }.
Definition runCall (d : Database) (c : call) : Database := (ExecWithOptions (caEnv c) d (caSQL c) (caMax c)).2.
Definition runCalls (d : Database) (cs : list call) : Database := foldl runCall d cs.

(** Whether a call is a write that succeeds on [d]. *)
Definition writes (d : Database) (c : call) : bool :=
  negb (IsReadOnly (caSQL c)) && isOk (ExecWithOptions (caEnv c) d (caSQL c) (caMax c)).1.
Fixpoint writeCount (d : Database) (cs : list call) : nat :=
  match cs with
  | [] => 0%nat
  | c :: cs' => ((if writes d c then 1 else 0) + writeCount (runCall d c) cs')%nat
  end.

Lemma runCall_meta d c :
  0 ≤ dRevision d < 2 ^ 64 →
  dRevision (runCall d c) = (dRevision d + (if writes d c then 1 else 0)) mod 2 ^ 64 ∧
  dBase (runCall d c) = dBase d.
Proof.
  intros Hr. unfold runCall, writes, ExecWithOptions.
  assert (Hid : (dRevision d + 0) mod 2 ^ 64 = dRevision d) by (rewrite Z.add_0_r; by apply Z.mod_small).
  destruct (env_err (caEnv c) site_exec 0), (env_err (caEnv c) site_exec 1); cbn [snd fst isOk];
    rewrite ?andb_false_r, ?Hid; try done.
  pose proof (exec_meta (caEnv c) d (caSQL c) (caMax c)) as [H1 H2].
  destruct (exec _ _ _ _) as [r d']. cbn [snd fst] in *. destruct (negb _ && isOk r); cbn [bumpRevision dRevision dBase].
  - by rewrite H1.
  - by rewrite Hid.
Qed.

Lemma runCalls_meta cs : ∀ d,
  0 ≤ dRevision d < 2 ^ 64 →
  dRevision (runCalls d cs) = (dRevision d + Z.of_nat (writeCount d cs)) mod 2 ^ 64 ∧
  dBase (runCalls d cs) = dBase d ∧ 0 ≤ dRevision (runCalls d cs) < 2 ^ 64.
Proof.
  induction cs as [|c cs IH]; intros d Hr; cbn [runCalls foldl writeCount].
  - rewrite Z.add_0_r, Z.mod_small; done.
  - destruct (runCall_meta d c Hr) as [H1 H2].
    assert (Hr' : 0 ≤ dRevision (runCall d c) < 2 ^ 64) by (rewrite H1; apply Z.mod_pos_bound; lia).
    destruct (IH _ Hr') as (H3 & H4 & H5). change (foldl runCall ?x cs) with (runCalls x cs).
    split_and!; [|by rewrite H4 | lia | lia].
    rewrite H3, H1, Zplus_mod_idemp_l. f_equal. case_match; lia.
Qed.

Lemma writeCount_length cs : ∀ d, (writeCount d cs ≤ length cs)%nat.
Proof. induction cs as [|c cs IH]; intros d; cbn [writeCount length]; [lia|]. specialize (IH (runCall d c)). case_match; lia. Qed.

(** A call that is not a successful write leaves the database unchanged. *)
Lemma runCall_unchanged d c : env_quiet (caEnv c) → writes d c = false → runCall d c = d.
Proof.
  intros Hq Hw. unfold writes in Hw. apply andb_false_iff in Hw as [Hw|Hw].
  - unfold runCall. apply negb_false_iff in Hw. unfold ExecWithOptions.
    rewrite !(Hq site_exec). pose proof (exec_readonly (caEnv c) d (caSQL c) (caMax c) Hw) as He.
    destruct (exec _ _ _ _) as [r d']. rewrite Hw. cbn [negb andb snd] in *. done.
  - unfold runCall in *. unfold ExecWithOptions in *. rewrite !(Hq site_exec) in *.
    pose proof (exec_atomic (caEnv c) Hq d (caSQL c) (caMax c)) as Ha. destruct (exec _ _ _ _) as [r d'].
    unfold atomic in Ha. cbn [fst snd] in *. rewrite Hw, andb_false_r. by apply Ha.
Qed.

Lemma runCalls_unchanged cs : ∀ d,
  (∀ c, c ∈ cs → env_quiet (caEnv c)) → writeCount d cs = 0%nat → runCalls d cs = d.
Proof.
  induction cs as [|c cs IH]; intros d Hq Hw; cbn [runCalls foldl writeCount] in *; [done|].
  destruct (writes d c) eqn:E; [lia|]. rewrite runCall_unchanged in * by (done || by apply Hq; left).
  apply IH; [by intros; apply Hq; right | done].
Qed.

(** C3: Optimistic transactions.  BEGIN clones the database; while the transaction
    runs its statements on the clone, other clients run theirs on the original
    (none cancelled).  COMMIT is rejected exactly when some write of another
    client succeeded in between, and then changes nothing.  When it succeeds the
    original is still as it was at BEGIN, so what is published is the outcome of
    running the transaction alone at that point: no lost update. *)
Theorem commit_serializable d others mine :
  0 ≤ dRevision d < 2 ^ 64 → Z.of_nat (length others) < 2 ^ 64 →
  (∀ c, c ∈ others → env_quiet (caEnv c)) →
  let now := runCalls d others in
  let tx := runCalls (Clone d) mine in
  let '(er, published) := CommitFrom now tx None in
  (er = None ↔ writeCount d others = 0%nat) ∧
  (er = None → now = d ∧ dTables published = cloneLocked <$> dTables tx) ∧
  (er ≠ None → published = now).
Proof.
  intros Hr Hlen Hq. cbv zeta. unfold CommitFrom, replace.
  destruct (runCalls_meta mine (Clone d)) as (_ & Hb & _); [simpl; lia|].
  destruct (runCalls_meta others d Hr) as (Hrev & _ & _). rewrite Hb. cbn [dBase Clone andb].
  pose proof (writeCount_length others d) as Hc.
  destruct (dRevision (runCalls d others) =? dRevision d) eqn:E; cbn [negb].
  - btoz. assert (Hw : writeCount d others = 0%nat).
    { rewrite Hrev in E. destruct (decide (dRevision d + Z.of_nat (writeCount d others) < 2 ^ 64)).
      - rewrite Z.mod_small in E by lia. lia.
      - replace (dRevision d + Z.of_nat (writeCount d others))
          with (dRevision d + Z.of_nat (writeCount d others) - 2 ^ 64 + 1 * 2 ^ 64) in E by lia.
        rewrite Z.mod_add, Z.mod_small in E by lia. lia. }
    split_and!; [done | | done]. intros _. split; [by apply runCalls_unchanged | done].
  - btoz. split_and!; [|done|done]. split; [done|]. intros Hw. rewrite Hw, Z.add_0_r, Z.mod_small in Hrev by done. done.
Qed.

(** ** Copies *)

(** BEGIN's copy is faithful: every table of the clone has the same schema,
    rows, order, indexes and counters, is well-formed when the original is, and
    shows the same content through the fast array. *)
Theorem clone_faithful d name t :
  db_wf d → dTables d !! name = Some t →
  ∃ t', dTables (Clone d) !! name = Some t' ∧ table_wf t' ∧ absRows t' = absRows t ∧
        tColumns t' = tColumns t ∧ tIndexes t' = tIndexes t ∧ tIndexNames t' = tIndexNames t ∧
        tDead t' = tDead t ∧ tAutoKey t' = tAutoKey t ∧
        (fastOn t = true → tFast t' = tFast t).
Proof.
  intros Hd Ht. exists (cloneLocked t). destruct (Hd _ _ Ht) as [Hw _].
  split_and!; try done.
  - simpl. by rewrite lookup_fmap, Ht.
  - destruct Hw as [Wc Wr Wk Wo Wi Wx Wn Wf Wa]. split; try done. unfold cloneLocked. simpl.
    destruct (fastOn t); [done | apply fast_ok_none].
  - unfold cloneLocked. simpl. by intros ->.
Qed.

End DatabaseProofs.
