(* ===== verification/Bytes.v ===== *)
(** * Fixed-width integers as bytes: encoding/binary, hash/crc32

    Big-endian integers of [n] bytes, as [binary.BigEndian] writes and reads
    them, and the table-driven CRC-32C of [hash/crc32].  The two facts the
    storage and wire formats rest on are the round trip of the integers and that
    a checksum changes whenever a single byte of the data does. *)

From Stdlib Require Import Btauto.
From S2P Require Import Prelude.
Open Scope Z_scope.

(** ** Big-endian integers *)

Fixpoint putUint (n : nat) (v : Z) : str :=
  match n with
  | O => []
  | S m => Z.land (Z.shiftr v (8 * Z.of_nat m)) 255 :: putUint m v
  end.

Definition getUint (b : str) : Z := foldl (λ acc c, acc * 256 + c) 0 b.

Lemma putUint_length n v : length (putUint n v) = n.
Proof. induction n; simpl; auto. Qed.

Lemma land_255 v : Z.land v 255 = v mod 256.
Proof. apply (Z.land_ones v 8). lia. Qed.

Lemma putUint_byte n v c : c ∈ putUint n v → 0 ≤ c < 256.
Proof.
  induction n as [|n IH]; simpl; [set_solver|].
  intros [->|?]%elem_of_cons; [|auto].
  rewrite land_255. apply Z.mod_pos_bound. lia.
Qed.

Lemma getUint_acc b acc : foldl (λ acc c, acc * 256 + c) acc b = acc * 256 ^ Z.of_nat (length b) + getUint b.
Proof.
  revert acc. induction b as [|c b IH]; intros acc; simpl length; [unfold getUint; simpl; lia|].
  unfold getUint. simpl foldl. rewrite !IH, Nat2Z.inj_succ, Z.pow_succ_r by lia. ring.
Qed.

Lemma getUint_cons c b : getUint (c :: b) = c * 256 ^ Z.of_nat (length b) + getUint b.
Proof. unfold getUint. simpl foldl. rewrite getUint_acc. reflexivity. Qed.

Lemma getUint_putUint_mod n v : getUint (putUint n v) = v mod 256 ^ Z.of_nat n.
Proof.
  induction n as [|n IH]; [simpl; rewrite Z.mod_1_r; reflexivity|].
  simpl putUint. rewrite getUint_cons, putUint_length, IH, land_255, Z.shiftr_div_pow2 by lia.
  rewrite Z.pow_mul_r by lia. change (2 ^ 8) with 256.
  rewrite Nat2Z.inj_succ, Z.pow_succ_r by lia.
  assert (0 < 256 ^ Z.of_nat n) by (apply Z.pow_pos_nonneg; lia).
  rewrite (Z.mul_comm 256 (256 ^ Z.of_nat n)), Z.rem_mul_r by lia. lia.
Qed.

(** A value that fits its width is read back. *)
Lemma getUint_putUint n v : 0 ≤ v < 256 ^ Z.of_nat n → getUint (putUint n v) = v.
Proof. intros. rewrite getUint_putUint_mod. apply Z.mod_small. lia. Qed.

Lemma getUint_range b : wf_bytes b → 0 ≤ getUint b < 256 ^ Z.of_nat (length b).
Proof.
  induction 1 as [|c b Hc Hb IH]; [unfold getUint; simpl; lia|].
  rewrite getUint_cons. simpl length. rewrite Nat2Z.inj_succ, Z.pow_succ_r by lia. nia.
Qed.

(** ** CRC-32C *)

Definition crcPoly : Z := 0x82F63B78.

Definition crcBit (c : Z) : Z := if Z.odd c then Z.lxor (Z.shiftr c 1) crcPoly else Z.shiftr c 1.
Definition crcEntry (i : Z) : Z := Nat.iter 8 crcBit i.

(** [crcTable]: the 256 entries of [crc32.MakeTable(crc32.Castagnoli)]. *)
Definition crcTable : list Z := Eval vm_compute in map (λ i, crcEntry (Z.of_nat i)) (seq 0 256).
Definition crcAt (i : Z) : Z := nth (Z.to_nat i) crcTable 0.

Definition crcStep (crc c : Z) : Z := Z.lxor (crcAt (Z.land (Z.lxor crc c) 255)) (Z.shiftr crc 8).
Definition crcUpdate (crc : Z) (b : str) : Z := foldl crcStep crc b.
Definition crcChecksum (b : str) : Z := Z.lxor (crcUpdate 0xFFFFFFFF b) 0xFFFFFFFF.

(** The check value of the CRC-32C specification. *)
Example crc_check_value : crcChecksum (lit "123456789") = 0xE3069283.
Proof. vm_compute. reflexivity. Qed.

(** Every table entry is a 32-bit word, and its top byte determines its index. *)
Lemma crcTable_facts :
  Forall (λ e, 0 ≤ e < 2 ^ 32) crcTable ∧ NoDup (map (λ e, Z.shiftr e 24) crcTable).
Proof. split; [apply (bool_decide_unpack _) | apply (bool_decide_unpack _)]; vm_compute; exact I. Qed.

Lemma crcAt_lookup i : 0 ≤ i < 256 → crcTable !! Z.to_nat i = Some (crcAt i).
Proof.
  intros Hi. unfold crcAt. rewrite nth_lookup.
  destruct (crcTable !! Z.to_nat i) eqn:E; [reflexivity|].
  apply lookup_ge_None in E. change (length crcTable) with 256%nat in E. lia.
Qed.

Lemma crcAt_range i : 0 ≤ i < 256 → 0 ≤ crcAt i < 2 ^ 32.
Proof.
  intros Hi. destruct crcTable_facts as [Hr _].
  apply (Forall_lookup_1 _ _ _ _ Hr (crcAt_lookup i Hi)).
Qed.

Lemma crcAt_top_inj i j : 0 ≤ i < 256 → 0 ≤ j < 256 →
  Z.shiftr (crcAt i) 24 = Z.shiftr (crcAt j) 24 → i = j.
Proof.
  intros Hi Hj E. destruct crcTable_facts as [_ Hn].
  assert (Z.to_nat i = Z.to_nat j) as Eq; [|lia].
  eapply (NoDup_lookup _ _ _ (Z.shiftr (crcAt i) 24) Hn); rewrite list_lookup_fmap, crcAt_lookup by done;
    simpl; congruence.
Qed.

(** ** Bits of bounded integers *)

Lemma lxor_bound n a b : 0 < n → 0 ≤ a < 2 ^ n → 0 ≤ b < 2 ^ n → 0 ≤ Z.lxor a b < 2 ^ n.
Proof.
  intros Hn Ha Hb.
  assert (∀ x, 0 ≤ x < 2 ^ n → Z.log2 x < n) as Hl.
  { intros x Hx. destruct (decide (x = 0)) as [->|]; [done|]. apply Z.log2_lt_pow2; lia. }
  assert (0 ≤ Z.lxor a b) by (apply Z.lxor_nonneg; lia).
  split; [done|]. destruct (decide (Z.lxor a b = 0)) as [->|]; [lia|].
  apply Z.log2_lt_pow2; [lia|].
  eapply Z.le_lt_trans; [apply Z.log2_lxor; lia|]. apply Z.max_lub_lt; auto.
Qed.

Lemma lxor_cancel_l a b c : Z.lxor a b = Z.lxor a c → b = c.
Proof.
  intros E. rewrite <- (Z.lxor_0_l b), <- (Z.lxor_0_l c), <- (Z.lxor_nilpotent a), !Z.lxor_assoc.
  congruence.
Qed.

Lemma lxor_cancel_r a b c : Z.lxor b a = Z.lxor c a → b = c.
Proof. rewrite !(Z.lxor_comm _ a). apply lxor_cancel_l. Qed.

Lemma land_lxor a b c : Z.land (Z.lxor a b) c = Z.lxor (Z.land a c) (Z.land b c).
Proof. apply Z.bits_inj'. intros i _. rewrite !Z.land_spec, !Z.lxor_spec, !Z.land_spec. by btauto. Qed.

Lemma low_high_inj a b : Z.shiftr a 8 = Z.shiftr b 8 → Z.land a 255 = Z.land b 255 → a = b.
Proof.
  rewrite !land_255, !Z.shiftr_div_pow2 by lia. change (2 ^ 8) with 256.
  intros. rewrite (Z.div_mod a 256), (Z.div_mod b 256) by lia. congruence.
Qed.

Lemma crcStep_range s c : 0 ≤ s < 2 ^ 32 → 0 ≤ crcStep s c < 2 ^ 32.
Proof.
  intros Hs. apply lxor_bound; [lia| |].
  - apply crcAt_range. rewrite land_255. apply Z.mod_pos_bound. lia.
  - rewrite Z.shiftr_div_pow2 by lia. split; [apply Z.div_pos; lia|].
    apply Z.div_lt_upper_bound; lia.
Qed.

Lemma crcUpdate_range b s : 0 ≤ s < 2 ^ 32 → 0 ≤ crcUpdate s b < 2 ^ 32.
Proof. revert s. induction b as [|c b IH]; intros s Hs; [done|]. apply IH, crcStep_range, Hs. Qed.

Lemma crcChecksum_range b : 0 ≤ crcChecksum b < 2 ^ 32.
Proof. apply lxor_bound; [lia|apply crcUpdate_range; lia|lia]. Qed.

(** The step is injective: equal results come from the same table entry (its
    top byte is the result's), so from the same high bits and the same index. *)
Lemma crcStep_inj s s' c c' :
  0 ≤ s < 2 ^ 32 → 0 ≤ s' < 2 ^ 32 → crcStep s c = crcStep s' c' →
  Z.shiftr s 8 = Z.shiftr s' 8 ∧ Z.land (Z.lxor s c) 255 = Z.land (Z.lxor s' c') 255.
Proof.
  intros Hs Hs' E. unfold crcStep in E.
  set (i := Z.land (Z.lxor s c) 255) in *. set (j := Z.land (Z.lxor s' c') 255) in *.
  assert (0 ≤ i < 256 ∧ 0 ≤ j < 256) as [Hi Hj]
    by (unfold i, j; rewrite !land_255; split; apply Z.mod_pos_bound; lia).
  assert (∀ x, 0 ≤ x < 2 ^ 32 → Z.shiftr (Z.shiftr x 8) 24 = 0) as Hz.
  { intros x Hx. rewrite Z.shiftr_shiftr, Z.shiftr_div_pow2 by lia. apply Z.div_small. simpl; lia. }
  assert (i = j) as Eij.
  { apply crcAt_top_inj; [done..|].
    apply (f_equal (λ x, Z.shiftr x 24)) in E. rewrite !Z.shiftr_lxor in E.
    rewrite !Hz, !Z.lxor_0_r in E by lia. done. }
  split; [|done]. rewrite Eij in E. by apply lxor_cancel_l in E.
Qed.

Lemma crcUpdate_inj b s s' :
  0 ≤ s < 2 ^ 32 → 0 ≤ s' < 2 ^ 32 → crcUpdate s b = crcUpdate s' b → s = s'.
Proof.
  revert s s'. induction b as [|c b IH]; intros s s' Hs Hs' E; [done|].
  apply IH in E; [|by apply crcStep_range..].
  apply crcStep_inj in E as [Eh El]; [|done..].
  apply low_high_inj; [done|]. rewrite !land_lxor in El. by apply lxor_cancel_r in El.
Qed.

(** Replacing one byte of the data by another changes the checksum. *)
Lemma crc_detects_byte pre c c' post :
  0 ≤ c < 256 → 0 ≤ c' < 256 → c ≠ c' →
  crcChecksum (pre ++ c :: post) ≠ crcChecksum (pre ++ c' :: post).
Proof.
  intros Hc Hc' Hne E. apply Hne. unfold crcChecksum in E. apply lxor_cancel_r in E.
  unfold crcUpdate in E. rewrite !foldl_app in E. simpl in E.
  set (s := foldl crcStep 0xFFFFFFFF pre) in *.
  assert (0 ≤ s < 2 ^ 32) as Hs by (apply (crcUpdate_range pre); lia).
  apply (crcUpdate_inj post) in E; [|by apply crcStep_range..].
  apply crcStep_inj in E as [_ El]; [|done..].
  rewrite !land_lxor in El. apply lxor_cancel_l in El.
  rewrite !land_255, !Z.mod_small in El by lia. done.
Qed.
