(* ===== verification/Storage.v ===== *)
(** * Storage: internal/storage

    The framed record format (format.go), the write-ahead log (wal.go), snapshot
    files (snapshot.go) and their atomic replacement (atomic.go).

    A file is its bytes, [None] when it does not exist.  Every call to the
    operating system has an outcome given from outside: the bytes that reached
    the file and the error the call returned.  zlib is a parameter (class
    [Zlib]); the checksum is the CRC-32C of Bytes.v. *)

From S2P Require Import Prelude GoLib Bytes.
Open Scope Z_scope.

(** ** zlib *)

(** [zdeflate p]: Write and Close of a compressor over a buffer.
    [zopen], [zread s n], [zclose s n]: NewReader over [s], ReadAll of the first
    [n] bytes it yields, and Close after that. *)
Class Zlib := {
  zdeflate : str → str + err;
  zopen : str → option err;
  zread : str → Z → str + err;
  zclose : str → Z → option err;
}.

(** What the code relies on: a compressed payload opens, yields the payload when
    the limit allows it, and closes without error. *)
Class ZlibLaws `(Zlib) := {
  zlib_open p z : zdeflate p = inl z → zopen z = None;
  zlib_read p z n : zdeflate p = inl z → Z.of_nat (length p) < n → zread z n = inl p;
  zlib_close p z n : zdeflate p = inl z → Z.of_nat (length p) < n → zclose z n = None;
}.

(** ** Frames *)

Definition magic : str := lit "SUPERDB1".
Definition version : Z := 1.
Definition walVersion : Z := 2.
Definition checksumVersion : Z := 3.
Definition snapshotKind : Z := 83.
Definition walKind : Z := 87.
Definition headerSize : nat := 20.
Definition checksumSize : nat := 4.
Definition checksumHeaderSize : nat := headerSize + checksumSize.
Definition maxPayloadSize : Z := Z.shiftl 256 20.

Definition checksumStored (stored : str) : Z := crcChecksum stored.

Definition validFrameVersion (kind frameVersion : Z) : bool :=
  if frameVersion =? version then true
  else if frameVersion =? walVersion then kind =? walKind
  else frameVersion =? checksumVersion.

Inductive frameErr :=
| ESnapshotVersion | ESnapshotRaw | EWalV1Raw | EWalCompressed
| EPayloadTooLarge | ECompressedTooLarge | ECompress (e : err)
| ETruncHeader | EBadMagic | EKind (kind : Z) | EVersion (v : Z) | ETruncChecksum
| ESizeLimit | ETruncPayload | EChecksum | ELength (got want : Z)
| EZOpen (e : err) | EZRead (e : err) | EZClose (e : err).

Definition frameHeader (kind frameVersion rawLen storedLen : Z) : str :=
  magic ++ [kind; frameVersion; 0; 0] ++ putUint 4 rawLen ++ putUint 4 storedLen.

Section Frames.
Context `{Zlib}.

Definition encodeFrame (kind frameVersion : Z) (payload : str) (compress : bool) : str + frameErr :=
  if (kind =? snapshotKind) && (frameVersion =? walVersion) then inr ESnapshotVersion
  else if (kind =? snapshotKind) && negb compress then inr ESnapshotRaw
  else if (kind =? walKind) && (frameVersion =? version) && negb compress then inr EWalV1Raw
  else if (kind =? walKind) && (walVersion <=? frameVersion) && compress then inr EWalCompressed
  else if maxPayloadSize <? Z.of_nat (length payload) then inr EPayloadTooLarge
  else match (if compress then zdeflate payload else inl payload) with
  | inr e => inr (ECompress e)
  | inl encoded =>
      if maxPayloadSize <? Z.of_nat (length encoded) then inr ECompressedTooLarge
      else inl (frameHeader kind frameVersion (Z.of_nat (length payload)) (Z.of_nat (length encoded))
                ++ (if frameVersion =? checksumVersion then putUint 4 (checksumStored encoded) else [])
                ++ encoded)
  end.

Definition encode (kind : Z) (payload : str) : str + frameErr :=
  encodeFrame kind checksumVersion payload (negb (kind =? walKind)).

(** [h[i]] and [h[i:j]], in range by the checks that precede them. *)
Definition byteAt (h : str) (i : nat) : Z := default 0 (h !! i).
Definition span (h : str) (i j : nat) : str := take (j - i) (drop i h).

Definition inflate (stored : str) (rawLen : Z) : str + frameErr :=
  match zopen stored with
  | Some e => inr (EZOpen e)
  | None =>
      match zread stored (rawLen + 1) with
      | inr e => inr (EZRead e)
      | inl payload =>
          match zclose stored (rawLen + 1) with
          | Some e => inr (EZClose e)
          | None =>
              if negb (Z.of_nat (length payload) =? rawLen)
              then inr (ELength (Z.of_nat (length payload)) rawLen)
              else inl payload
          end
      end
  end.

(** The payload and the offset of the next frame. *)
Definition decodeFrame (b : str) (offset : nat) (expectedKind : Z) : (str * nat) + frameErr :=
  let h := drop offset b in
  if (length h <? headerSize)%nat then inr ETruncHeader
  else if negb (bool_decide (take 8 h = magic)) then inr EBadMagic
  else if negb (byteAt h 8 =? expectedKind) then inr (EKind (byteAt h 8))
  else if negb (validFrameVersion expectedKind (byteAt h 9)) then inr (EVersion (byteAt h 9))
  else
    let checked := byteAt h 9 =? checksumVersion in
    if checked && (length h <? checksumHeaderSize)%nat then inr ETruncChecksum
    else
      let size := if checked then checksumHeaderSize else headerSize in
      let rawLen := getUint (span h 12 16) in
      let storedLen := getUint (span h 16 20) in
      if (maxPayloadSize <? rawLen) || (maxPayloadSize <? storedLen) then inr ESizeLimit
      else
        let stop := (size + Z.to_nat storedLen)%nat in
        if (length h <? stop)%nat then inr ETruncPayload
        else
          let stored := span h size stop in
          if checked && negb (getUint (span h 20 24) =? checksumStored stored) then inr EChecksum
          else if (expectedKind =? walKind) && (walVersion <=? byteAt h 9) then
            if negb (Z.of_nat (length stored) =? rawLen)
            then inr (ELength (Z.of_nat (length stored)) rawLen)
            else inl (stored, (offset + stop)%nat)
          else match inflate stored rawLen with
               | inr e => inr e
               | inl payload => inl (payload, (offset + stop)%nat)
               end.

(** ** The write-ahead log *)

(** What [file.Write] and [file.Sync] did. *)
Record ioOutcome := mkIO { ioWritten : nat; ioWrite : option err; ioSync : option err }.

Inductive walErr := EFrame (e : frameErr) | EClosed | EShort | EIO (e : err).

(** One record as [Append] lays it out: the checksum is patched in afterwards. *)
Definition walRecord (sql : str) : str :=
  let n := Z.of_nat (length sql) in
  magic ++ [walKind; checksumVersion; 0; 0] ++ (putUint 4 n ++ putUint 4 n)
  ++ putUint 4 (checksumStored sql) ++ sql.
Definition walEncode (sqls : list str) : str := concat (map walRecord sqls).

Definition oversized (sqls : list str) : bool :=
  existsb (λ sql, maxPayloadSize <? Z.of_nat (length sql)) sqls.

(** [WALWriter]: the open file's content, [None] once closed. *)
Definition Append (io : ioOutcome) (w : option str) (sqls : list str) : option walErr * option str :=
  if bool_decide (sqls = []) then (None, w)
  else if oversized sqls then (Some (EFrame EPayloadTooLarge), w)
  else match w with
  | None => (Some EClosed, w)
  | Some file =>
      let encoded := walEncode sqls in
      let w' := Some (file ++ take (ioWritten io) encoded) in
      match ioWrite io with
      | Some e => (Some (EIO e), w')
      | None =>
          if negb (ioWritten io =? length encoded)%nat then (Some EShort, w')
          else (EIO <$> ioSync io, w')
      end
  end.

(** [OpenWALWriter], [Append] and [Close] on the file at a path. *)
Definition AppendWALBatch (opened : option err) (io : ioOutcome) (file : option str) (sqls : list str)
    : option walErr * option str :=
  if bool_decide (sqls = []) then (None, file)
  else if oversized sqls then (Some (EFrame EPayloadTooLarge), file)
  else match opened with
  | Some e => (Some (EIO e), file)
  | None => Append io (Some (default [] file)) sqls
  end.

Inductive replayErr :=
| RRead (e : err) | RRecord (n : Z) (e : frameErr) | RApply (n : Z) (e : err) | RLegacy (n : Z) (e : err)
| RFuel.

Section Replay.
Context {S : Type} (apply : S → str → S * option err).

Fixpoint replayFrames (fuel : nat) (b : str) (offset : nat) (record : Z) (s : S) : S * option replayErr :=
  if (length b <=? offset)%nat then (s, None)
  else match fuel with
  | O => (s, Some RFuel)
  | Datatypes.S f =>
      match decodeFrame b offset walKind with
      | inr e => (s, Some (RRecord record e))
      | inl (payload, next) =>
          match apply s payload with
          | (s', Some e) => (s', Some (RApply record e))
          | (s', None) => replayFrames f b next (record + 1) s'
          end
      end
  end.

Fixpoint replayLines (lines : list str) (lineNo : Z) (s : S) : S * option replayErr :=
  match lines with
  | [] => (s, None)
  | line :: lines' =>
      match TrimSpace line with
      | [] => replayLines lines' (lineNo + 1) s
      | line' =>
          match apply s line' with
          | (s', Some e) => (s', Some (RLegacy (lineNo + 1) e))
          | (s', None) => replayLines lines' (lineNo + 1) s'
          end
      end
  end.

(** [file]: what the path holds; [rd]: an error of ReadFile other than absence. *)
Definition ReplayWAL (file : option str) (rd : option err) (s : S) : S * option replayErr :=
  match file, rd with
  | None, _ => (s, None)
  | _, Some e => (s, Some (RRead e))
  | Some b, None =>
      if (length magic <=? length b)%nat && bool_decide (take (length magic) b = magic)
      then replayFrames (length b) b 0 1 s
      else replayLines (SplitByte b 10) 0 s
  end.

(** The reference: the records applied in order until one fails. *)
Fixpoint applyAll (record : Z) (sqls : list str) (s : S) : S * option replayErr :=
  match sqls with
  | [] => (s, None)
  | sql :: sqls' =>
      match apply s sql with
      | (s', Some e) => (s', Some (RApply record e))
      | (s', None) => applyAll (record + 1) sqls' s'
      end
  end.
End Replay.

(** ** Snapshot files *)

(** The outcomes of the system calls of [atomicWrite], in order. *)
Record fsOutcome := mkFS {
  fsMkdir : option err; fsCreate : option err;
  fsWritten : nat; fsWrite : option err; fsSync : option err; fsClose : option err;
  fsRename1 : option err; fsRemove : option err; fsRename2 : option err;
}.

Inductive snapErr := SFrame (e : frameErr) | SMarshal (e : err) | SFs (e : err) | SShort.

(** The file at the path before and after; the temporary file never survives. *)
Definition atomicWrite (o : fsOutcome) (file : option str) (data : str) : option snapErr * option str :=
  match fsMkdir o, fsCreate o, fsWrite o with
  | Some e, _, _ | None, Some e, _ | None, None, Some e => (Some (SFs e), file)
  | None, None, None =>
      if negb (fsWritten o =? length data)%nat then (Some SShort, file)
      else match fsSync o, fsClose o with
      | Some e, _ | None, Some e => (Some (SFs e), file)
      | None, None =>
          match fsRename1 o with
          | None => (None, Some data)
          | Some _ =>
              match file, fsRemove o with
              | Some _, Some e => (Some (SFs e), file)
              | _, _ =>
                  match fsRename2 o with
                  | None => (None, Some data)
                  | Some e => (Some (SFs e), None)
                  end
              end
          end
      end
  end.

Definition WriteSnapshot (o : fsOutcome) (file : option str) (payload : str + err)
    : option snapErr * option str :=
  match payload with
  | inr e => (Some (SMarshal e), file)
  | inl p =>
      match encode snapshotKind p with
      | inr e => (Some (SFrame e), file)
      | inl encoded => atomicWrite o file encoded
      end
  end.

Inductive readErr := DRead (e : err) | DFrame (e : frameErr) | DTrailing | DParse (e : err).

(** Whether the file exists, and the decoded value or the error. *)
Definition ReadSnapshot {A} (unmarshal : str → A + err) (file : option str) (rd : option err)
    : bool * (option A + readErr) :=
  match file, rd with
  | None, _ => (false, inl None)
  | _, Some e => (false, inr (DRead e))
  | Some b, None =>
      let parse p := match unmarshal p with inl v => (true, inl (Some v)) | inr e => (true, inr (DParse e)) end in
      if (length magic <=? length b)%nat && bool_decide (take (length magic) b = magic) then
        match decodeFrame b 0 snapshotKind with
        | inr e => (true, inr (DFrame e))
        | inl (payload, next) => if negb (next =? length b)%nat then (true, inr DTrailing) else parse payload
        end
      else parse b
  end.
End Frames.
