(* ===== verification/StorageProofs.v ===== *)
(** * Storage: round trips, torn writes and corruption

    The log writer's hand-laid records are the frames of the encoder; replaying a
    log applies exactly the statements appended, in order; a torn or corrupted log
    yields a prefix of them and an error; snapshots decode to what was encoded. *)

From S2P Require Import Prelude GoLib Bytes Storage.
Open Scope Z_scope.

Section StorageProofs.
Context `{Zlib}.

#[local] Opaque checksumStored putUint getUint maxPayloadSize.

(** ** One frame *)

Lemma walRecord_length sql : length (walRecord sql) = (checksumHeaderSize + length sql)%nat.
Proof. unfold walRecord. by rewrite !length_app, !putUint_length. Qed.

(** The log writer lays a record out by hand; it is the encoder's frame. *)
Lemma encode_wal sql :
  Z.of_nat (length sql) ≤ maxPayloadSize → encode walKind sql = inl (walRecord sql).
Proof.
  intros Hs. unfold encode, encodeFrame. simpl.
  destruct (Z.ltb_spec maxPayloadSize (Z.of_nat (length sql))); [lia|].
  unfold walRecord, frameHeader. by rewrite !app_assoc.
Qed.

Lemma span_app_l (a b : str) i j : (j ≤ length a)%nat → span (a ++ b) i j = span a i j.
Proof.
  intros Hj. unfold span. destruct (decide (i ≤ length a)%nat).
  - rewrite drop_app_le by lia. rewrite take_app_le; [done|]. rewrite length_drop. lia.
  - replace (j - i)%nat with 0%nat by lia. done.
Qed.

Lemma span_all (a b : str) n : length a = n → span (a ++ b) n (n + length b) = b.
Proof.
  intros <-. unfold span. rewrite drop_app_length.
  replace (length a + length b - length a)%nat with (length b) by lia. apply take_ge. lia.
Qed.

(** The fields of a frame's header, whatever follows it. *)
Lemma header_fields kind v raw stored rest :
  let h := frameHeader kind v raw stored ++ rest in
  take 8 h = magic ∧ byteAt h 8 = kind ∧ byteAt h 9 = v ∧
  span h 12 16 = putUint 4 raw ∧ span h 16 20 = putUint 4 stored.
Proof. by repeat split. Qed.

Lemma maxPayload_u32 n : 0 ≤ n ≤ maxPayloadSize → 0 ≤ n < 256 ^ Z.of_nat 4.
Proof. change maxPayloadSize with 268435456. simpl. lia. Qed.

(** A v3 frame with header, checksum and stored bytes, read at its offset. *)
Definition v3Frame (kind raw : Z) (stored : str) : str :=
  frameHeader kind checksumVersion raw (Z.of_nat (length stored))
  ++ putUint 4 (checksumStored stored) ++ stored.

Lemma v3Frame_length kind raw stored : length (v3Frame kind raw stored) = (24 + length stored)%nat.
Proof. unfold v3Frame, frameHeader. by rewrite !length_app, !putUint_length. Qed.

Lemma walRecord_v3 sql : walRecord sql = v3Frame walKind (Z.of_nat (length sql)) sql.
Proof. unfold walRecord, v3Frame, frameHeader. by rewrite <- !app_assoc. Qed.

(** What the decoder does with the stored bytes of a v3 frame. *)
Definition unpack (kind raw : Z) (stored : str) (next : nat) : (str * nat) + frameErr :=
  if kind =? walKind then
    if negb (Z.of_nat (length stored) =? raw) then inr (ELength (Z.of_nat (length stored)) raw)
    else inl (stored, next)
  else match inflate stored raw with inr e => inr e | inl p => inl (p, next) end.

Lemma decode_v3 pre kind raw sum stored post :
  0 ≤ raw ≤ maxPayloadSize → Z.of_nat (length stored) ≤ maxPayloadSize → 0 ≤ sum < 2 ^ 32 →
  decodeFrame
    (pre ++ frameHeader kind checksumVersion raw (Z.of_nat (length stored)) ++ putUint 4 sum ++ stored ++ post)
    (length pre) kind
  = if sum =? checksumStored stored
    then unpack kind raw stored (length pre + (24 + length stored))
    else inr EChecksum.
Proof.
  intros Hraw Hst Hsum. unfold decodeFrame. rewrite drop_app_length.
  set (hd := frameHeader kind checksumVersion raw (Z.of_nat (length stored))).
  assert (length hd = 20%nat) as Lh by (unfold hd, frameHeader; by rewrite !length_app, !putUint_length).
  destruct (header_fields kind checksumVersion raw (Z.of_nat (length stored)) (putUint 4 sum ++ stored ++ post))
    as (E1 & E2 & E3 & E4 & E5). fold hd in E1, E2, E3, E4, E5.
  rewrite E1, E2, E3, E4, E5. clear E1 E2 E3 E4 E5. clearbody hd.
  rewrite !getUint_putUint by (apply maxPayload_u32; lia).
  rewrite (bool_decide_eq_true_2 _ eq_refl), Z.eqb_refl.
  change (validFrameVersion kind checksumVersion) with true.
  change (checksumVersion =? checksumVersion) with true.
  change (walVersion <=? checksumVersion) with true.
  rewrite !length_app, putUint_length, Lh.
  unfold checksumHeaderSize, headerSize, checksumSize. rewrite Nat2Z.id, andb_true_r.
  cbn [negb andb].
  destruct (Nat.ltb_spec (20 + (4 + (length stored + length post))) 20); [lia|].
  destruct (Nat.ltb_spec (20 + (4 + (length stored + length post))) (20 + 4)); [lia|].
  destruct (Z.ltb_spec maxPayloadSize raw); [lia|].
  destruct (Z.ltb_spec maxPayloadSize (Z.of_nat (length stored))); [lia|]. cbn [orb].
  destruct (Nat.ltb_spec (20 + (4 + (length stored + length post))) (20 + 4 + length stored)); [lia|].
  assert (span (hd ++ putUint 4 sum ++ stored ++ post) 20 24 = putUint 4 sum) as ->.
  { rewrite app_assoc, span_app_l by (rewrite length_app, putUint_length, Lh; lia).
    exact (span_all hd (putUint 4 sum) 20 Lh). }
  assert (span (hd ++ putUint 4 sum ++ stored ++ post) (20 + 4) (20 + 4 + length stored) = stored) as ->.
  { rewrite !app_assoc, span_app_l by (rewrite !length_app, putUint_length, Lh; lia).
    apply span_all. by rewrite length_app, putUint_length, Lh. }
  rewrite getUint_putUint by (simpl; lia). unfold unpack.
  destruct (sum =? checksumStored stored); reflexivity.
Qed.

Lemma decode_walRecord pre sql post :
  Z.of_nat (length sql) ≤ maxPayloadSize →
  decodeFrame (pre ++ walRecord sql ++ post) (length pre) walKind
  = inl (sql, (length pre + length (walRecord sql))%nat).
Proof.
  intros Hs. rewrite walRecord_length, walRecord_v3. unfold v3Frame. rewrite <- !app_assoc.
  rewrite decode_v3; [|lia|lia|apply crcChecksum_range].
  rewrite Z.eqb_refl. unfold unpack. rewrite !Z.eqb_refl. done.
Qed.

(** ** Whole logs *)

Lemma walEncode_app a b : walEncode (a ++ b) = walEncode a ++ walEncode b.
Proof. unfold walEncode. by rewrite map_app, concat_app. Qed.

Lemma walEncode_cons sql sqls : walEncode (sql :: sqls) = walRecord sql ++ walEncode sqls.
Proof. done. Qed.

Lemma walEncode_length sqls : (length sqls * 24 ≤ length (walEncode sqls))%nat.
Proof.
  induction sqls as [|sql sqls IH]; [done|].
  rewrite walEncode_cons, length_app, walRecord_length. unfold checksumHeaderSize, headerSize, checksumSize.
  simpl length. lia.
Qed.

Definition fits (sql : str) : Prop := Z.of_nat (length sql) ≤ maxPayloadSize.

Lemma fits_not_oversized sqls : Forall fits sqls → oversized sqls = false.
Proof.
  unfold oversized, fits. induction 1 as [|sql sqls Hs _ IH]; [done|]. simpl. rewrite IH, orb_false_r.
  apply Z.ltb_ge. lia.
Qed.

Section Replay.
Context {S : Type} (apply : S → str → S * option err).

(** The loop over complete records, whatever follows them. *)
Lemma replay_records sqls : ∀ pre post fuel n s,
  Forall fits sqls → (length sqls ≤ fuel)%nat →
  replayFrames apply fuel (pre ++ walEncode sqls ++ post) (length pre) n s
  = match applyAll apply n sqls s with
    | (s', None) => replayFrames apply (fuel - length sqls) (pre ++ walEncode sqls ++ post)
                      (length (pre ++ walEncode sqls)) (n + Z.of_nat (length sqls)) s'
    | r => r
    end.
Proof.
  induction sqls as [|sql sqls IH]; intros pre post fuel n s Hf Hfuel.
  { simpl. rewrite app_nil_r, Nat.sub_0_r, Z.add_0_r. done. }
  apply Forall_cons in Hf as [Hs Hf]. destruct fuel as [|fuel]; [simpl in Hfuel; lia|].
  rewrite walEncode_cons, <- !app_assoc. cbn [replayFrames].
  destruct (Nat.leb_spec (length (pre ++ walRecord sql ++ walEncode sqls ++ post)) (length pre)) as [Hl|_].
  { rewrite !length_app, walRecord_length in Hl. unfold checksumHeaderSize, headerSize in Hl. lia. }
  rewrite decode_walRecord by done. cbn [applyAll].
  destruct (apply s sql) as [s' [e|]]; [done|].
  rewrite (app_assoc pre), <- length_app, IH by (auto; simpl in Hfuel; lia).
  destruct (applyAll apply (n + 1) sqls s') as [s'' [e|]]; [done|].
  rewrite <- !app_assoc. simpl length. replace (n + 1 + Z.of_nat (length sqls)) with (n + Z.of_nat (Datatypes.S (length sqls))) by lia.
  done.
Qed.

(** A file whose first bytes are the magic is read as frames; a record begins with it. *)
Lemma replay_framed sqls post s :
  Forall fits sqls → take (length magic) (walEncode sqls ++ post) = magic →
  ReplayWAL apply (Some (walEncode sqls ++ post)) None s
  = match applyAll apply 1 sqls s with
    | (s', None) =>
        replayFrames apply (length (walEncode sqls ++ post) - length sqls) (walEncode sqls ++ post)
          (length (walEncode sqls)) (1 + Z.of_nat (length sqls)) s'
    | r => r
    end.
Proof.
  intros Hf Hm. unfold ReplayWAL. pose proof (walEncode_length sqls) as Hl. pose proof (f_equal length Hm) as Hml.
  rewrite Hm, (bool_decide_eq_true_2 _ eq_refl), andb_true_r. rewrite length_take in Hml.
  destruct (Nat.leb_spec (length magic) (length (walEncode sqls ++ post))) as [_|]; [|lia].
  pose proof (replay_records sqls [] post (length (walEncode sqls ++ post)) 1 s Hf) as E.
  apply E. rewrite length_app. lia.
Qed.
Lemma record_magic sql post : take (length magic) (walRecord sql ++ post) = magic.
Proof. rewrite walRecord_v3. unfold v3Frame, frameHeader. rewrite <- !app_assoc. apply take_app_length. Qed.
Lemma walEncode_magic sqls post : sqls ≠ [] → take (length magic) (walEncode sqls ++ post) = magic.
Proof. destruct sqls as [|sql sqls]; [done|]. intros _. rewrite walEncode_cons, <- app_assoc. apply record_magic. Qed.

Lemma replay_stop b offset fuel n s :
  (length b ≤ offset)%nat → replayFrames apply fuel b offset n s = (s, None).
Proof. intros Hb. destruct fuel; simpl; destruct (Nat.leb_spec (length b) offset); done || lia. Qed.

Lemma replay_all sqls s :
  Forall fits sqls → ReplayWAL apply (Some (walEncode sqls)) None s = applyAll apply 1 sqls s.
Proof.
  intros Hf. destruct (decide (sqls = [])) as [->|Hne]; [done|].
  rewrite <- (app_nil_r (walEncode sqls)), replay_framed by (done || by apply walEncode_magic).
  destruct (applyAll apply 1 sqls s) as [s' [e|]]; [done|].
  rewrite app_nil_r. by apply replay_stop.
Qed.
End Replay.

(** Append with every byte written and synced. *)
Definition ioFull (sqls : list str) : ioOutcome := mkIO (length (walEncode sqls)) None None.
Definition appendBatches (batches : list (list str)) : option str :=
  foldl (λ w sqls, (AppendWALBatch None (ioFull sqls) w sqls).2) None batches.

Lemma append_full w sqls :
  Forall fits sqls →
  default [] (AppendWALBatch None (ioFull sqls) w sqls).2 = default [] w ++ walEncode sqls.
Proof.
  intros Hf. unfold AppendWALBatch, Append. rewrite (fits_not_oversized sqls Hf).
  case_bool_decide as E; [subst; simpl; by rewrite app_nil_r|].
  simpl. rewrite Nat.eqb_refl. simpl. by rewrite take_ge by lia.
Qed.

Lemma appendBatches_content batches :
  Forall (Forall fits) batches → default [] (appendBatches batches) = walEncode (concat batches).
Proof.
  unfold appendBatches. intros Hf.
  cut (∀ w, default [] (foldl (λ w sqls, (AppendWALBatch None (ioFull sqls) w sqls).2) w batches)
            = default [] w ++ walEncode (concat batches)); [intros ->; done|].
  induction Hf as [|b batches Hb _ IH]; intros w; [simpl; by rewrite app_nil_r|].
  simpl foldl. rewrite IH, append_full by done. simpl. by rewrite walEncode_app, app_assoc.
Qed.

Lemma replay_default {S} (apply : S → str → S * option err) file s :
  ReplayWAL apply (Some (default [] file)) None s = ReplayWAL apply file None s.
Proof. by destruct file. Qed.

(** C17: A log written by successful batches replays them: starting from no file,
    after any batches of statements within the size limit, recovery hands exactly
    these statements, in order, to the engine, stopping at the first one it
    rejects and naming its record. *)
Theorem wal_replay_roundtrip {S} (apply : S → str → S * option err) batches s :
  Forall (Forall fits) batches →
  ReplayWAL apply (appendBatches batches) None s = applyAll apply 1 (concat batches) s.
Proof.
  intros Hf. rewrite <- replay_default, appendBatches_content by done.
  apply replay_all, Forall_concat, Hf.
Qed.

(** ** Torn writes *)

Lemma take_prefix_app (n : nat) (a b : str) : (length a ≤ n)%nat → take n (a ++ b) = a ++ take (n - length a) b.
Proof. intros. by rewrite take_app_ge. Qed.

(** A proper prefix of a record never decodes. *)
Lemma decode_torn pre sql n :
  fits sql → (n < length (walRecord sql))%nat →
  ∃ e, decodeFrame (pre ++ take n (walRecord sql)) (length pre) walKind = inr e.
Proof.
  unfold fits. rewrite walRecord_length, walRecord_v3. unfold checksumHeaderSize, headerSize, checksumSize.
  intros Hs Hn. unfold decodeFrame. rewrite drop_app_length. unfold v3Frame.
  set (hd := frameHeader walKind checksumVersion _ _).
  assert (length hd = 20%nat) as Lh by (unfold hd, frameHeader; by rewrite !length_app, !putUint_length).
  set (h := take n _). assert (length h = n) as Ln.
  { unfold h. rewrite length_take, !length_app, putUint_length, Lh. lia. }
  rewrite Ln. unfold headerSize, checksumHeaderSize, headerSize, checksumSize.
  destruct (Nat.ltb_spec n 20) as [|Hn20]; [by eexists|].
  assert (h = hd ++ take (n - 20) (putUint 4 (checksumStored sql) ++ sql)) as Eh.
  { unfold h. rewrite <- Lh. apply take_prefix_app. lia. }
  destruct (header_fields walKind checksumVersion (Z.of_nat (length sql)) (Z.of_nat (length sql))
              (take (n - 20) (putUint 4 (checksumStored sql) ++ sql))) as (E1 & E2 & E3 & E4 & E5).
  fold hd in E1, E2, E3, E4, E5. rewrite <- Eh in E1, E2, E3, E4, E5. rewrite E1, E2, E3, E4, E5.
  rewrite getUint_putUint by (apply maxPayload_u32; lia).
  rewrite (bool_decide_eq_true_2 _ eq_refl), Z.eqb_refl, Nat2Z.id.
  change (validFrameVersion walKind checksumVersion) with true.
  change (checksumVersion =? checksumVersion) with true. cbn [negb andb].
  destruct (Nat.ltb_spec n (20 + 4)); [by eexists|].
  destruct (Z.ltb_spec maxPayloadSize (Z.of_nat (length sql))); [lia|]. cbn [orb].
  destruct (Nat.ltb_spec n (20 + 4 + length sql)); [by eexists|lia].
Qed.

(** The complete records within the first [n] bytes of an encoded batch. *)
Fixpoint wholeRecords (n : nat) (sqls : list str) : list str :=
  match sqls with
  | [] => []
  | sql :: sqls' =>
      if (length (walRecord sql) <=? n)%nat then sql :: wholeRecords (n - length (walRecord sql)) sqls' else []
  end.

(** A cut batch is its complete records and a proper prefix of the next one. *)
Lemma cut_batch sqls : ∀ n, (n ≤ length (walEncode sqls))%nat →
  ∃ rest, take n (walEncode sqls) = walEncode (wholeRecords n sqls) ++ rest ∧
    (rest = [] ∨ ∃ sql m, sql ∈ sqls ∧ rest = take m (walRecord sql) ∧ (0 < m < length (walRecord sql))%nat).
Proof.
  induction sqls as [|sql sqls IH]; intros n Hn.
  { exists []. split; [by destruct n|by left]. }
  rewrite walEncode_cons in Hn |- *. rewrite length_app in Hn. cbn [wholeRecords].
  destruct (Nat.leb_spec (length (walRecord sql)) n) as [Hl|Hl].
  - destruct (IH (n - length (walRecord sql))%nat) as (rest & E & Hr); [lia|].
    exists rest. split; [|destruct Hr as [?|(x & m & ? & ?)]; [by left|right; exists x, m; set_solver]].
    rewrite take_app_ge, E, app_assoc by lia. done.
  - exists (take n (walRecord sql)). split; [by rewrite take_app_le by lia|].
    destruct n as [|n]; [by left|]. right. exists sql, (S n). repeat split; [set_solver|lia..].
Qed.

Lemma wholeRecords_fits n sqls : Forall fits sqls → Forall fits (wholeRecords n sqls).
Proof.
  intros Hf. revert n. induction Hf as [|x l Hx _ IH]; intros n; cbn [wholeRecords]; [done|].
  destruct (length (walRecord x) <=? n)%nat; auto.
Qed.

(** What a torn append leaves is empty or begins with the magic, unless the cut lies in
    the magic of the log's first record. *)
Lemma torn_magic sqls batch n rest :
  batch ≠ [] → (sqls = [] → n = 0%nat ∨ (length magic ≤ n)%nat) →
  take n (walEncode batch) = walEncode (wholeRecords n batch) ++ rest →
  (n = 0%nat ∧ sqls = []) ∨ take (length magic) (walEncode (sqls ++ wholeRecords n batch) ++ rest) = magic.
Proof.
  intros Hb Hn E. destruct sqls as [|sql sqls]; [|right; by apply walEncode_magic].
  destruct Hn as [->|Hn]; [done|by left|]. right. cbn [app]. rewrite <- E, take_take, Nat.min_l by done.
  rewrite <- (app_nil_r (walEncode batch)). by apply walEncode_magic.
Qed.

(** C18: A crash in the middle of an append.  Of the batch being written only the
    first [n] bytes reached the log.  Recovery applies everything logged before
    and exactly the statements whose records are complete, in order; it reports
    an error if any byte of a further record is present, and never invents or
    skips a statement.  Excepted is a log that was empty and got between one and seven
    bytes, less than the magic of its first record: it is taken for a log of the old
    format, a statement per line. *)
Theorem wal_torn_append {S} (apply : S → str → S * option err) sqls batch n io s :
  Forall fits sqls → Forall fits batch → (sqls = [] → n = 0%nat ∨ (length magic ≤ n)%nat) → batch ≠ [] →
  ioWritten io = n → (n ≤ length (walEncode batch))%nat →
  let file := (Append io (Some (walEncode sqls)) batch).2 in
  let done := sqls ++ wholeRecords n batch in
  match applyAll apply 1 done s with
  | (s', None) =>
      (ReplayWAL apply file None s).1 = s' ∧
      ((ReplayWAL apply file None s).2 = None ↔ n = length (walEncode (wholeRecords n batch)))
  | r => ReplayWAL apply file None s = r
  end.
Proof.
  intros Hf Hb Hne Hbne Hio Hn. cbn zeta.
  assert ((Append io (Some (walEncode sqls)) batch).2 = Some (walEncode sqls ++ take n (walEncode batch))) as ->.
  { unfold Append. rewrite bool_decide_false, fits_not_oversized, Hio by done.
    destruct (ioWrite io); [done|]. by destruct (negb _). }
  destruct (cut_batch batch n Hn) as (rest & E & Hrest).
  rewrite E, app_assoc, <- walEncode_app.
  destruct (torn_magic _ _ _ _ Hbne Hne E) as [[-> ->]|Hmg].
  { destruct batch as [|x batch]; [done|]. cbn [wholeRecords] in *. rewrite walRecord_length in *.
    change (checksumHeaderSize + length x <=? 0)%nat with false in *. cbn in *. subst rest. done. }
  rewrite replay_framed; [|by apply Forall_app_2, wholeRecords_fits|done].
  set (d := sqls ++ wholeRecords n batch). destruct (applyAll apply 1 d s) as [s' [e|]]; [done|].
  assert (n = (length (walEncode (wholeRecords n batch)) + length rest)%nat) as En.
  { rewrite <- length_app, <- E, length_take. lia. }
  destruct Hrest as [->|(sql & m & Hin & -> & Hm)].
  - rewrite replay_stop by (rewrite app_nil_r; lia). simpl in En. split; [done|]. split; [lia|done].
  - assert (fits sql) as Hsf by (rewrite Forall_forall in Hb; auto).
    destruct (decode_torn (walEncode d) sql m Hsf) as [er Er]; [lia|].
    rewrite length_take in En.
    set (b := walEncode d ++ take m (walRecord sql)).
    assert (length b = length (walEncode d) + m)%nat as Lb
      by (unfold b; rewrite length_app, length_take; lia).
    pose proof (walEncode_length d) as Hd.
    destruct (length b - length d)%nat as [|fuel] eqn:Ef; [lia|]. cbn [replayFrames].
    destruct (Nat.leb_spec (length b) (length (walEncode d))); [lia|].
    unfold b at 1 3. rewrite Er. split; [done|]. split; [done|lia].
Qed.

(** C19: Corruption of one byte of the text of a logged statement is detected: recovery
    applies exactly the records before the damaged one and reports a checksum
    mismatch at its number, whatever follows. *)
Theorem wal_corruption_detected {S} (apply : S → str → S * option err) sqls p c c' q post s s' :
  Forall fits sqls → fits (p ++ c :: q) → 0 ≤ c < 256 → 0 ≤ c' < 256 → c ≠ c' →
  applyAll apply 1 sqls s = (s', None) →
  let damaged := take 24 (walRecord (p ++ c :: q)) ++ p ++ c' :: q in
  ReplayWAL apply (Some (walEncode sqls ++ damaged ++ post)) None s
  = (s', Some (RRecord (1 + Z.of_nat (length sqls)) EChecksum)).
Proof.
  intros Hf Hfit Hc Hc' Hcc Ha. cbn zeta. rewrite replay_framed, Ha; [|done|].
  2:{ destruct sqls; [|by apply walEncode_magic]. by rewrite walRecord_v3. }
  assert (length (p ++ c' :: q) = length (p ++ c :: q)) as Elen by (rewrite !length_app; done).
  set (n := Z.of_nat (length (p ++ c :: q))).
  assert (take 24 (walRecord (p ++ c :: q))
          = frameHeader walKind checksumVersion n n ++ putUint 4 (checksumStored (p ++ c :: q))) as ->.
  { rewrite walRecord_v3. unfold v3Frame. fold n. rewrite app_assoc. apply take_app_length'.
    unfold frameHeader. by rewrite !length_app, !putUint_length. }
  rewrite <- !app_assoc. cbn [app]. set (b := walEncode sqls ++ frameHeader _ _ _ _ ++ _).
  pose proof (walEncode_length sqls) as Hl.
  assert (length (walEncode sqls) + 24 ≤ length b)%nat as Hb.
  { unfold b, frameHeader. rewrite !length_app, !putUint_length. simpl length. lia. }
  destruct (length b - length sqls)%nat as [|fuel] eqn:Ef; [lia|].
  cbn [replayFrames]. destruct (Nat.leb_spec (length b) (length (walEncode sqls))); [lia|].
  assert (decodeFrame b (length (walEncode sqls)) walKind = inr EChecksum) as ->; [|done].
  unfold b, n. rewrite <- Elen. unfold fits in Hfit.
  rewrite app_comm_cons, (app_assoc p (c' :: q) post). rewrite decode_v3; [|lia|lia|apply crcChecksum_range].
  destruct (Z.eqb_spec (checksumStored (p ++ c :: q)) (checksumStored (p ++ c' :: q))) as [E|]; [|done].
  exfalso. by apply (crc_detects_byte p c c' q) in E.
Qed.

(** ** Snapshots *)

Lemma decode_snapshot `{!ZlibLaws H} p f :
  encode snapshotKind p = inl f → decodeFrame f 0 snapshotKind = inl (p, length f).
Proof.
  unfold encode, encodeFrame. change (negb (snapshotKind =? walKind)) with true.
  change (snapshotKind =? walKind) with false. change (checksumVersion =? walVersion) with false.
  change (checksumVersion =? checksumVersion) with true.
  rewrite andb_false_r. cbn [negb andb]. rewrite andb_false_r.
  destruct (Z.ltb_spec maxPayloadSize (Z.of_nat (length p))); [done|].
  destruct (zdeflate p) as [z|] eqn:Ez; [|done].
  destruct (Z.ltb_spec maxPayloadSize (Z.of_nat (length z))); [done|].
  intros [= <-].
  pose proof (decode_v3 [] snapshotKind (Z.of_nat (length p)) (checksumStored z) z []) as D.
  rewrite app_nil_r in D. simpl app in D. simpl length in D.
  rewrite D; [|lia|lia|apply crcChecksum_range]. rewrite Z.eqb_refl. unfold unpack.
  change (snapshotKind =? walKind) with false. cbv iota. unfold inflate.
  rewrite (zlib_open p z Ez), (zlib_read p z), (zlib_close p z), Z.eqb_refl by (done || lia).
  done.
Qed.

Lemma encode_magic kind p f : encode kind p = inl f → take (length magic) f = magic ∧ (length magic ≤ length f)%nat.
Proof.
  unfold encode, encodeFrame. repeat case_match; try done; intros [= <-];
    (split; [done|simpl; lia]).
Qed.

Lemma atomicWrite_outcome o file data :
  match atomicWrite o file data with
  | (None, file') => file' = Some data
  | (Some _, file') => file' = file ∨ (is_Some (fsRename1 o) ∧ is_Some (fsRename2 o) ∧ file' = None)
  end.
Proof. unfold atomicWrite. repeat case_match; naive_solver. Qed.

(** What a successful write left is read back. *)
Lemma snapshot_written `{!ZlibLaws H} {A} (unmarshal : str → A + err) o file p file' :
  WriteSnapshot o file (inl p) = (None, file') →
  ReadSnapshot unmarshal file' None
  = (true, match unmarshal p with inl v => inl (Some v) | inr e => inr (DParse e) end).
Proof.
  unfold WriteSnapshot. destruct (encode snapshotKind p) as [f|e] eqn:Ef; [|done].
  pose proof (atomicWrite_outcome o file f) as Ha. destruct (atomicWrite o file f) as [[e|] file'']; [done|].
  intros [= <-]. subst file''. unfold ReadSnapshot. destruct (encode_magic _ _ _ Ef) as [Em Hl].
  rewrite Em, (bool_decide_eq_true_2 _ eq_refl), andb_true_r, (proj2 (Nat.leb_le _ _) Hl).
  rewrite (decode_snapshot p f Ef), Nat.eqb_refl. cbn [negb]. by destruct (unmarshal p).
Qed.
Lemma snapshot_failed o file p er file' :
  WriteSnapshot o file p = (Some er, file') →
  file' = file ∨ (is_Some (fsRename1 o) ∧ is_Some (fsRename2 o) ∧ file' = None).
Proof.
  unfold WriteSnapshot. destruct p as [p|]; [|intros [= _ <-]; by left].
  destruct (encode snapshotKind p) as [f|e] eqn:Ef; [|intros [= _ <-]; by left].
  pose proof (atomicWrite_outcome o file f) as Ha. by destruct (atomicWrite o file f) as [[e|] file'']; intros [= <- <-].
Qed.

(** Writing a snapshot is all or nothing.  When it reports success, reading
    the file gives back the encoded payload, with no trailing data, and hands it
    to the JSON decoder.  When any step fails the previous snapshot is untouched,
    except that a rename failing twice leaves neither the old file nor the new. *)
Theorem snapshot_write_read `{!ZlibLaws H} {A} (unmarshal : str → A + err) o file p :
  let '(er, file') := WriteSnapshot o file (inl p) in
  match er with
  | None => ReadSnapshot unmarshal file' None
            = (true, match unmarshal p with inl v => inl (Some v) | inr e => inr (DParse e) end)
  | Some _ => file' = file ∨ (is_Some (fsRename1 o) ∧ is_Some (fsRename2 o) ∧ file' = None)
  end.
Proof.
  destruct (WriteSnapshot o file (inl p)) as [[er|] file'] eqn:E; [by eapply snapshot_failed|by eapply snapshot_written].
Qed.

(** The double failure is reachable: the first rename is refused, the target is
    removed to make way, the second rename is refused too. *)
Example atomicWrite_loses_both o : fsMkdir o = None → fsCreate o = None → fsWrite o = None →
  fsWritten o = 3%nat → fsSync o = None → fsClose o = None → is_Some (fsRename1 o) → fsRemove o = None →
  is_Some (fsRename2 o) → (atomicWrite o (Some (lit "old")) (lit "new")).2 = None.
Proof. unfold atomicWrite. intros -> -> -> -> -> -> [? ->] -> [? ->]. done. Qed.
End StorageProofs.

(** A concrete compressor for the witnesses: stored data as it is. *)
#[export] Instance zlibStored : Zlib := {|
  zdeflate p := inl p;
  zopen _ := None;
  zread s n := inl (take (Z.to_nat n) s);
  zclose _ _ := None;
|}.
#[export] Instance zlibStored_laws : ZlibLaws zlibStored.
Proof.
  split; unfold zdeflate, zread; simpl; [done| |done].
  intros p z n [= <-] Hn. by rewrite take_ge by lia.
Qed.
