(* ===== verification/Wire.v ===== *)
(** * The hosted wire protocol: internal/wire/wire.go

    Frame layout, writers and readers.  A reader is the bytes still to come; a
    writer collects bytes, and each Write has an outcome (how many bytes went
    out and the error returned).
    At the end the round trips of headers and frames, and what a reader accepts. *)

From S2P Require Import Prelude GoLib Bytes.
Open Scope Z_scope.

Definition Magic : str := lit "SDB1".
Definition Version : Z := 1.
Definition HeaderLen : nat := 20.
Definition MaxFrameSize : Z := Z.shiftl 16 20.
Definition MaxQuerySize : Z := Z.shiftl 4 20.

Definition TypeResponse : Z := 0x80.
Definition TypeHello : Z := 1.
Definition TypeAuth : Z := 2.
Definition TypePing : Z := 3.
Definition TypeQuery : Z := 4.
Definition TypeExec : Z := 5.
Definition TypeBegin : Z := 6.
Definition TypeCommit : Z := 7.
Definition TypeRollback : Z := 8.
Definition TypeClose : Z := 9.

Record Header := mkHeader { hVersion : Z; hType : Z; hFlags : Z; hRequestID : Z; hLength : Z }.

Inductive wireErr :=
| WEOF | WUnexpectedEOF | WMagic | WVersion (v : Z) | WFlags | WTooLarge (n : Z) | WIO (e : err).

(** ** Writing *)

Definition frameHead (msgType requestID : Z) (payload : str) : str :=
  Magic ++ (putUint 2 Version ++ [msgType; 0] ++ putUint 8 requestID
            ++ putUint 4 (Z.of_nat (length payload))).

Definition EncodeFrame (msgType requestID : Z) (payload : str) : str :=
  frameHead msgType requestID payload ++ payload.

(** Bytes accepted and error returned by one Write. *)
Record writeOutcome := mkWrite { woCount : nat; woErr : option err }.
Definition fullWrite (b : str) : writeOutcome := mkWrite (length b) None.

Definition WriteFrame (o : writeOutcome) (out : str) (msgType requestID : Z) (payload : str)
    : option wireErr * str :=
  if MaxFrameSize <? Z.of_nat (length payload) then (Some (WTooLarge (Z.of_nat (length payload))), out)
  else (WIO <$> woErr o, out ++ take (woCount o) (EncodeFrame msgType requestID payload)).

(** The header is laid out in a 20-byte array and written on its own. *)
Definition rawHead (msgType requestID : Z) (payload : str) : str :=
  Magic ++ putUint 2 Version ++ [msgType] ++ [0] ++ putUint 8 requestID
  ++ putUint 4 (Z.of_nat (length payload)).

Definition WriteFrameRaw (o1 o2 : writeOutcome) (out : str) (msgType requestID : Z) (payload : str)
    : option wireErr * str :=
  if MaxFrameSize <? Z.of_nat (length payload) then (Some (WTooLarge (Z.of_nat (length payload))), out)
  else
    let out' := out ++ take (woCount o1) (rawHead msgType requestID payload) in
    match woErr o1 with
    | Some e => (Some (WIO e), out')
    | None => (WIO <$> woErr o2, out' ++ take (woCount o2) payload)
    end.

(** ** Reading *)

(** [io.ReadFull]: all [n] bytes, or the end-of-stream error. *)
Definition ReadFull (r : str) (n : nat) : (str + wireErr) * str :=
  if (n <=? length r)%nat then (inl (take n r), drop n r)
  else (inr (match r with [] => WEOF | _ => WUnexpectedEOF end), []).

Definition field (h : str) (i j : nat) : str := take (j - i) (drop i h).

Definition checkHeader (h : str) : Header + wireErr :=
  if negb (bool_decide (field h 0 4 = Magic)) then inr WMagic
  else
    let ver := getUint (field h 4 6) in
    if negb (ver =? Version) then inr (WVersion ver)
    else if negb (default 0 (h !! 7%nat) =? 0) then inr WFlags
    else
      let len := getUint (field h 16 20) in
      if MaxFrameSize <? len then inr (WTooLarge len)
      else inl (mkHeader ver (default 0 (h !! 6%nat)) (default 0 (h !! 7%nat)) (getUint (field h 8 16)) len).

Definition ReadHeader (r : str) : (Header + wireErr) * str :=
  match ReadFull r HeaderLen with
  | (inr e, r') => (inr e, r')
  | (inl h, r') => (checkHeader h, r')
  end.

Definition ReadFrame (r : str) : ((Header * str) + wireErr) * str :=
  match ReadHeader r with
  | (inr e, r') => (inr e, r')
  | (inl h, r') =>
      match ReadFull r' (Z.to_nat (hLength h)) with
      | (inr e, r'') => (inr e, r'')
      | (inl payload, r'') => (inl (h, payload), r'')
      end
  end.

(** ** Responses *)

(** [Response.Error] *)
Definition responseError (status code msg : str) : str :=
  if bool_decide (status = lit "ok") then []
  else if negb (bool_decide (code = [])) then code ++ lit ": " ++ msg
  else msg.

#[local] Opaque putUint getUint MaxFrameSize.

Lemma rawHead_frameHead t i p : rawHead t i p = frameHead t i p.
Proof. unfold rawHead, frameHead. done. Qed.

Lemma frameHead_length t i p : length (frameHead t i p) = HeaderLen.
Proof. unfold frameHead. by rewrite !length_app, !putUint_length. Qed.

(** A frame as a sender describes it. *)
Record frame := mkFrame { fType : Z; fID : Z; fBody : str }.
Definition frame_ok (f : frame) : Prop :=
  0 ≤ fType f < 256 ∧ 0 ≤ fID f < 2 ^ 64 ∧ Z.of_nat (length (fBody f)) ≤ MaxFrameSize.
Definition encodeOf (f : frame) : str := EncodeFrame (fType f) (fID f) (fBody f).
Definition headerOf (f : frame) : Header := mkHeader Version (fType f) 0 (fID f) (Z.of_nat (length (fBody f))).

Lemma head_fields t i p :
  let h := frameHead t i p in
  field h 0 4 = Magic ∧ field h 4 6 = putUint 2 Version ∧ h !! 6%nat = Some t ∧ h !! 7%nat = Some 0 ∧
  field h 8 16 = putUint 8 i ∧ field h 16 20 = putUint 4 (Z.of_nat (length p)).
Proof. repeat split. Qed.

Lemma MaxFrame_u32 n : 0 ≤ n ≤ MaxFrameSize → 0 ≤ n < 256 ^ Z.of_nat 4.
Proof. change MaxFrameSize with 16777216. simpl. lia. Qed.

Lemma checkHeader_frame f : frame_ok f → checkHeader (frameHead (fType f) (fID f) (fBody f)) = inl (headerOf f).
Proof.
  intros (Ht & Hi & Hl). unfold checkHeader.
  destruct (head_fields (fType f) (fID f) (fBody f)) as (-> & -> & -> & -> & -> & ->).
  rewrite (bool_decide_eq_true_2 _ eq_refl).
  rewrite !getUint_putUint by first [apply MaxFrame_u32; lia | simpl; lia | done]. cbn [negb default from_option].
  destruct (Z.ltb_spec MaxFrameSize (Z.of_nat (length (fBody f)))); [lia|]. done.
Qed.

Lemma ReadFull_app a b n : length a = n → ReadFull (a ++ b) n = (inl a, b).
Proof.
  intros <-. unfold ReadFull. rewrite length_app.
  destruct (Nat.leb_spec (length a) (length a + length b)); [|lia].
  by rewrite take_app_length, drop_app_length.
Qed.

Lemma ReadFrame_encode f rest : frame_ok f → ReadFrame (encodeOf f ++ rest) = (inl (headerOf f, fBody f), rest).
Proof.
  intros Hf. unfold ReadFrame, ReadHeader, encodeOf, EncodeFrame.
  rewrite <- app_assoc, ReadFull_app by apply frameHead_length.
  rewrite checkHeader_frame by done. unfold headerOf at 1. cbn [hLength]. rewrite Nat2Z.id, ReadFull_app by done. done.
Qed.

(** Reading [k] frames one after the other. *)
Fixpoint readFrames (k : nat) (r : str) : (list (Header * str) + wireErr) * str :=
  match k with
  | O => (inl [], r)
  | S k' =>
      match ReadFrame r with
      | (inr e, r') => (inr e, r')
      | (inl x, r') => match readFrames k' r' with
                       | (inl xs, r'') => (inl (x :: xs), r'')
                       | bad => bad
                       end
      end
  end.

Definition writeAll (fs : list frame) : str :=
  foldl (λ out f, (WriteFrame (fullWrite (encodeOf f)) out (fType f) (fID f) (fBody f)).2) [] fs.
Definition writeAllRaw (fs : list frame) : str :=
  foldl (λ out f, (WriteFrameRaw (fullWrite (rawHead (fType f) (fID f) (fBody f))) (fullWrite (fBody f))
                     out (fType f) (fID f) (fBody f)).2) [] fs.

Lemma write_step f out : frame_ok f →
  (WriteFrame (fullWrite (encodeOf f)) out (fType f) (fID f) (fBody f)).2 = out ++ encodeOf f ∧
  (WriteFrameRaw (fullWrite (rawHead (fType f) (fID f) (fBody f))) (fullWrite (fBody f))
     out (fType f) (fID f) (fBody f)).2 = out ++ encodeOf f.
Proof.
  intros (_ & _ & Hl). unfold WriteFrame, WriteFrameRaw, fullWrite. cbn [woCount woErr].
  destruct (Z.ltb_spec MaxFrameSize (Z.of_nat (length (fBody f)))); [lia|]. cbn [snd].
  rewrite !take_ge by done. split; [done|]. rewrite rawHead_frameHead, <- app_assoc. done.
Qed.

Lemma writeAll_concat fs : Forall frame_ok fs →
  writeAll fs = concat (map encodeOf fs) ∧ writeAllRaw fs = concat (map encodeOf fs).
Proof.
  intros Hf. unfold writeAll, writeAllRaw.
  cut (∀ out, foldl (λ out f, (WriteFrame (fullWrite (encodeOf f)) out (fType f) (fID f) (fBody f)).2) out fs
              = out ++ concat (map encodeOf fs) ∧
              foldl (λ out f, (WriteFrameRaw (fullWrite (rawHead (fType f) (fID f) (fBody f))) (fullWrite (fBody f))
                     out (fType f) (fID f) (fBody f)).2) out fs = out ++ concat (map encodeOf fs)).
  { intros E. destruct (E []) as [-> ->]. done. }
  induction Hf as [|f fs Hf _ IH]; intros out; cbn [foldl map concat]; [by rewrite app_nil_r|].
  destruct (write_step f out Hf) as [-> ->]. rewrite (app_assoc out). apply IH.
Qed.

Lemma readFrames_concat fs rest : Forall frame_ok fs →
  readFrames (length fs) (concat (map encodeOf fs) ++ rest) = (inl (map (λ f, (headerOf f, fBody f)) fs), rest).
Proof.
  induction 1 as [|f fs Hf _ IH]; [done|].
  cbn [map concat length readFrames]. rewrite <- app_assoc, ReadFrame_encode by done. by rewrite IH.
Qed.

(** A stream of frames survives the wire: whichever of the two writers sent
    them, reading as many frames returns the same types, request ids and payloads
    in the same order and leaves the following bytes unread. *)
Theorem wire_stream_roundtrip fs rest :
  Forall frame_ok fs →
  writeAll fs = writeAllRaw fs ∧
  readFrames (length fs) (writeAll fs ++ rest) = (inl (map (λ f, (headerOf f, fBody f)) fs), rest).
Proof.
  intros Hf. destruct (writeAll_concat fs Hf) as [-> ->]. split; [done|]. by apply readFrames_concat.
Qed.

(** ** What the reader accepts *)

Lemma putUint_getUint b : wf_bytes b → putUint (length b) (getUint b) = b.
Proof.
  #[local] Transparent putUint.
  induction 1 as [|c b Hc Hb IH]; [done|]. simpl length. simpl putUint.
  pose proof (getUint_range b Hb) as Hr. rewrite getUint_cons, land_255, Z.shiftr_div_pow2 by lia.
  rewrite Z.pow_mul_r by lia. change (2 ^ 8) with 256.
  assert (0 < 256 ^ Z.of_nat (length b)) by (apply Z.pow_pos_nonneg; lia).
  rewrite Z.div_add_l, Z.div_small, Z.add_0_r, Z.mod_small by lia. f_equal.
  transitivity (putUint (length b) (getUint b)); [|exact IH]. clear IH Hb.
  enough (∀ k, (k ≤ length b)%nat → putUint k (c * 256 ^ Z.of_nat (length b) + getUint b) = putUint k (getUint b))
    as E by (apply E; lia).
  induction k as [|k IH]; intros Hk; [done|]. simpl. rewrite IH by lia. f_equal.
  rewrite !land_255, !Z.shiftr_div_pow2, !Z.pow_mul_r by lia. change (2 ^ 8) with 256.
  replace (Z.of_nat (length b)) with (Z.of_nat k + (1 + Z.of_nat (length b - k - 1))) by lia.
  rewrite !Z.pow_add_r by lia. set (u := 256 ^ Z.of_nat k). set (w := 256 ^ Z.of_nat (length b - k - 1)).
  assert (0 < u) by (apply Z.pow_pos_nonneg; lia).
  replace (c * (u * (256 ^ 1 * w)) + getUint b) with (c * w * 256 * u + getUint b) by lia.
  rewrite Z.div_add_l by lia. rewrite Z.add_comm, Z.mod_add by lia. done.
Qed.
#[local] Opaque putUint.

Lemma wf_bytes_take n b : wf_bytes b → wf_bytes (take n b).
Proof. apply Forall_take. Qed.
Lemma wf_bytes_drop n b : wf_bytes b → wf_bytes (drop n b).
Proof. apply Forall_drop. Qed.

(** A 20-byte header the reader accepts is the one the writer lays out. *)
Lemma checkHeader_sound h hd :
  wf_bytes h → length h = HeaderLen → checkHeader h = inl hd →
  hVersion hd = Version ∧ hFlags hd = 0 ∧ 0 ≤ hType hd < 256 ∧ 0 ≤ hRequestID hd < 2 ^ 64 ∧
  0 ≤ hLength hd ≤ MaxFrameSize ∧
  h = Magic ++ putUint 2 Version ++ [hType hd; 0] ++ putUint 8 (hRequestID hd) ++ putUint 4 (hLength hd).
Proof.
  intros Hw Hl. unfold checkHeader.
  case_bool_decide as Em; [|done]. cbn [negb].
  destruct (Z.eqb_spec (getUint (field h 4 6)) Version) as [Ev|]; [|done]. cbn [negb].
  destruct (Z.eqb_spec (default 0 (h !! 7%nat)) 0) as [Ef|]; [|done]. cbn [negb].
  destruct (Z.ltb_spec MaxFrameSize (getUint (field h 16 20))) as [|Hm]; [done|]. intros [= <-].
  cbn [hVersion hFlags hType hRequestID hLength].
  assert (∀ i j, wf_bytes (field h i j)) as Hfw by (intros; apply wf_bytes_take, wf_bytes_drop, Hw).
  assert (∀ i j, (i ≤ j ≤ 20)%nat → length (field h i j) = (j - i)%nat) as Hfl.
  { intros i j Hij. unfold field. rewrite length_take, length_drop, Hl. unfold HeaderLen. lia. }
  assert (∀ i j, (i ≤ j ≤ 20)%nat → field h i j = putUint (j - i) (getUint (field h i j))) as Hput.
  { intros i j Hij. rewrite <- (Hfl i j Hij) at 1. by rewrite putUint_getUint. }
  pose proof (getUint_range _ (Hfw 8 16)%nat) as R8. rewrite Hfl in R8 by lia.
  pose proof (getUint_range _ (Hfw 16 20)%nat) as R16. rewrite Hfl in R16 by lia.
  pose proof (Hput 4 6)%nat as P4. pose proof (Hput 8 16)%nat as P8. pose proof (Hput 16 20)%nat as P16.
  cbn [Nat.sub] in P4, P8, P16. specialize (P4 ltac:(lia)). specialize (P8 ltac:(lia)). specialize (P16 ltac:(lia)).
  clear Hput Hfl Hfw.
  do 20 (destruct h as [|? h]; [done|]). destruct h; [|done].
  cbn [lookup list_lookup default from_option] in *. simpl in Ef. subst.
  repeat split; try lia; try (simpl in R8; lia).
  1,2: by apply (Forall_lookup_1 _ _ 6%nat _ Hw).
  rewrite <- Ev, <- P4, <- P8, <- P16.
  unfold field in Em |- *. simpl in Em |- *. injection Em as -> -> -> ->. done.
Qed.

(** The reader accepts nothing else.  A frame read from any byte stream has
    the current version, no flags, a payload of the announced length within the
    16 MiB bound, and the bytes consumed are exactly the encoding of that frame. *)
Theorem wire_read_sound r hd payload rest :
  wf_bytes r → ReadFrame r = (inl (hd, payload), rest) →
  hVersion hd = Version ∧ hFlags hd = 0 ∧ hLength hd = Z.of_nat (length payload) ∧
  Z.of_nat (length payload) ≤ MaxFrameSize ∧
  r = EncodeFrame (hType hd) (hRequestID hd) payload ++ rest.
Proof.
  intros Hw. unfold ReadFrame, ReadHeader, ReadFull at 1.
  destruct (Nat.leb_spec HeaderLen (length r)) as [Hl|]; [|done].
  destruct (checkHeader (take HeaderLen r)) as [h|] eqn:Ec; [|done].
  apply checkHeader_sound in Ec as (Ev & Ef & Et & Ei & El & Eh);
    [|by apply wf_bytes_take|rewrite length_take; lia].
  unfold ReadFull. destruct (Nat.leb_spec (Z.to_nat (hLength h)) (length (drop HeaderLen r))) as [Hp|]; [|done].
  intros [= <- <- <-].
  assert (length (take (Z.to_nat (hLength h)) (drop HeaderLen r)) = Z.to_nat (hLength h)) as Lp
    by (rewrite length_take; lia).
  rewrite Lp, Z2Nat.id by lia. repeat split; [done..|lia|].
  rewrite <- (take_drop HeaderLen r) at 1. rewrite Eh.
  unfold EncodeFrame, frameHead. rewrite Lp, Z2Nat.id by lia. rewrite <- !app_assoc.
  by rewrite take_drop.
Qed.
