(* ===== verification/Bind.v ===== *)
(** * Parameter binding: internal/engine/bind.go

    Substitution of [?] placeholders by escaped literals, and the hosted
    session's wrapper around it (internal/remote/session.go). *)

From S2P Require Import Prelude GoLib Fold.
Open Scope Z_scope.

(** The dynamic types [formatParam] distinguishes.  The signed integer widths
    print alike, and so do the unsigned ones; [POther] carries the text
    [fmt.Sprint] gives any other value. *)
Inductive param :=
| PNil
| PStr (s : str)
| PBool (b : bool)
| PInt (n : Z)
| PUint (n : Z)
| PFloat (f : float64)
| PBytes (s : str)
| POther (text : str).

Definition quoteText (s : str) : str := quote :: double_quotes s ++ [quote].

Section Bind.
Context `{GoStd}.

Definition formatParam (p : param) : str :=
  match p with
  | PNil => lit "NULL"
  | PStr s => quoteText s
  | PBool b => if b then lit "true" else lit "false"
  | PInt n => FormatInt n
  | PUint n => FormatUint n
  | PFloat f => strconv_FormatFloat f
  | PBytes s => quoteText s
  | POther text => quoteText text
  end.

Fixpoint hasPlaceholder_loop (inQuote : bool) (s : str) : bool :=
  match s with
  | [] => false
  | c :: s' =>
      if c =? quote then
        match s' with
        | d :: s'' => if inQuote && (d =? quote) then hasPlaceholder_loop inQuote s''
                      else hasPlaceholder_loop (negb inQuote) s'
        | [] => false
        end
      else if (c =? 63) && negb inQuote then true
      else hasPlaceholder_loop inQuote s'
  end.
Definition hasPlaceholder (sql : str) : bool := hasPlaceholder_loop false sql.

Fixpoint PlaceholderCount_loop (inQuote : bool) (s : str) : nat :=
  match s with
  | [] => 0
  | c :: s' =>
      if c =? quote then
        match s' with
        | d :: s'' => if inQuote && (d =? quote) then PlaceholderCount_loop inQuote s''
                      else PlaceholderCount_loop (negb inQuote) s'
        | [] => 0
        end
      else if (c =? 63) && negb inQuote then S (PlaceholderCount_loop inQuote s')
      else PlaceholderCount_loop inQuote s'
  end.
Definition PlaceholderCount (sql : str) : nat := PlaceholderCount_loop false sql.

Definition tooFew (n : nat) : err :=
  EMsg (lit "too few params: placeholder " ++ FormatUint (Z.of_nat n) ++ lit " has no value").
Definition tooMany (have n : nat) : err :=
  EMsg (lit "too many params: have " ++ FormatUint (Z.of_nat have) ++ lit " args for "
        ++ FormatUint (Z.of_nat n) ++ lit " placeholders").

(** [arg] placeholders are filled, [args] are the values left. *)
Fixpoint bind_loop (arg : nat) (args : list param) (inQuote : bool) (s : str) : res str :=
  match s with
  | [] => match args with [] => Ok [] | _ => Err (tooMany (arg + length args) arg) end
  | c :: s' =>
      if c =? quote then
        match s' with
        | d :: s'' =>
            if inQuote && (d =? quote)
            then let* out := bind_loop arg args inQuote s'' in Ok (quote :: quote :: out)
            else let* out := bind_loop arg args (negb inQuote) s' in Ok (c :: out)
        | [] => let* out := bind_loop arg args (negb inQuote) s' in Ok (c :: out)
        end
      else if (c =? 63) && negb inQuote then
        match args with
        | [] => Err (tooFew (arg + 1))
        | a :: args' => let* out := bind_loop (arg + 1) args' inQuote s' in Ok (formatParam a ++ out)
        end
      else let* out := bind_loop arg args inQuote s' in Ok (c :: out)
  end.

Definition BindParams (sql : str) (args : list param) : res str :=
  match args with
  | [] => if hasPlaceholder sql
          then errorsNew "missing params: query has placeholders but no args" else Ok sql
  | _ => bind_loop 0 args false sql
  end.

(** [bind] of the hosted session *)
Definition remoteBind (sql : str) (params : list param) : res str :=
  match params with
  | [] => if (0 <? PlaceholderCount sql)%nat
          then errorsNew "query has placeholders but no params were supplied" else Ok sql
  | _ => BindParams sql params
  end.
End Bind.
