(* ===== verification/BindProofs.v ===== *)
(** * Parameter binding is total, exact and cannot inject *)

From S2P Require Import Prelude GoLib GoFacts Fold Value Parser Table TableInv Insert InsertProofs.
From S2P Require Import OrderBy Select SelectProofs AccessProofs Bind.
Open Scope Z_scope.

Section BindProofs.
Context `{GoStd}.

(** ** Arity *)

Lemma hasPlaceholder_count s : ∀ q, hasPlaceholder_loop q s = (0 <? PlaceholderCount_loop q s)%nat.
Proof.
  induction s as [|c s IH1 IH2] using list_ind2; intros q; [done|].
  cbn [hasPlaceholder_loop PlaceholderCount_loop]. destruct (c =? quote).
  { destruct s as [|d s']; [done|]. destruct (q && (d =? quote)); [by eapply IH2|by apply IH1]. }
  destruct ((c =? 63) && negb q); auto.
Qed.

(** Binding without arguments is the identity when there is nothing to bind. *)
Lemma bind_loop_arity s : ∀ q arg args,
  match bind_loop arg args q s with
  | Ok _ => PlaceholderCount_loop q s = length args
  | Err e => ((length args < PlaceholderCount_loop q s)%nat ∧ e = tooFew (arg + length args + 1)) ∨
             ((PlaceholderCount_loop q s < length args)%nat ∧
              e = tooMany (arg + length args) (arg + PlaceholderCount_loop q s))
  | Panic => False
  end.
Proof.
  assert (Hmap : ∀ (r : res str) (f : str → str) (P : Prop) (Q : err → Prop),
    match r with Ok _ => P | Err e => Q e | Panic => False end →
    match bindr r (λ out, Ok (f out)) with Ok _ => P | Err e => Q e | Panic => False end)
    by (intros [| |]; done).
  induction s as [|c s IH1 IH2] using list_ind2; intros q arg args.
  - simpl. destruct args; [done|]. right. simpl. split; [lia|]. by rewrite Nat.add_0_r.
  - cbn [bind_loop PlaceholderCount_loop]. destruct (c =? quote).
    { destruct s as [|d s'].
      - simpl. destruct args; [done|]. right. simpl. split; [lia|]. by rewrite Nat.add_0_r.
      - destruct (q && (d =? quote)); apply Hmap; [by eapply IH2|by apply IH1]. }
    destruct ((c =? 63) && negb q); [|apply (Hmap _ (cons c)), IH1].
    destruct args as [|a args]; [left; simpl; split; [lia|by rewrite Nat.add_0_r]|].
    apply (Hmap (bind_loop (arg + 1) args q s) (app (formatParam a))).
    specialize (IH1 q (arg + 1)%nat args). destruct (bind_loop (arg + 1) args q s); [simpl; by f_equal| |done].
    destruct IH1 as [[? ->]|[? ->]]; [left|right]; (split; [simpl; lia|]); f_equal; simpl; lia.
Qed.

(** Binding succeeds exactly when there are as many arguments as bindable
    placeholders (those outside string literals); otherwise the error says which
    placeholder has no value, or how many arguments were left over.  It never
    panics. *)
Theorem bind_arity sql args :
  match BindParams sql args with
  | Ok _ => PlaceholderCount sql = length args
  | Err e =>
      ((length args < PlaceholderCount sql)%nat ∧
       e = if bool_decide (args = []) then EMsg (lit "missing params: query has placeholders but no args")
           else tooFew (length args + 1)) ∨
      ((PlaceholderCount sql < length args)%nat ∧ e = tooMany (length args) (PlaceholderCount sql))
  | Panic => False
  end.
Proof.
  unfold BindParams, PlaceholderCount. destruct args as [|a args].
  - unfold hasPlaceholder. rewrite hasPlaceholder_count.
    destruct (Nat.ltb_spec 0 (PlaceholderCount_loop false sql)); [by left|simpl; lia].
  - pose proof (bind_loop_arity sql false 0 (a :: args)) as Ha.
    destruct (bind_loop 0 (a :: args) false sql); done.
Qed.

(** ** Injection *)

(** What the quote-aware scanners see of a statement: the bytes outside string
    literals, each literal reduced to its two quotes. *)
Fixpoint skeleton (q : bool) (s : str) : str :=
  match s with
  | [] => []
  | c :: s' =>
      if c =? quote then
        match s' with
        | d :: s'' => if q && (d =? quote) then skeleton q s'' else quote :: skeleton (negb q) s'
        | [] => [quote]
        end
      else if q then skeleton q s' else c :: skeleton q s'
  end.

(** A placeholder touches neither another placeholder nor a string literal:
    [prev] is the byte before, a quote or placeholder counting as touching. *)
Fixpoint spaced (q touch : bool) (s : str) : bool :=
  match s with
  | [] => true
  | c :: s' =>
      if c =? quote then
        match s' with
        | d :: s'' => if q && (d =? quote) then spaced q false s'' else negb touch && spaced (negb q) q s'
        | [] => negb touch
        end
      else if (c =? 63) && negb q then negb touch && spaced q true s'
      else spaced q false s'
  end.

(** The template's skeleton with every placeholder replaced by the skeleton of a
    literal. *)
Fixpoint fillSkeleton (q : bool) (args : list param) (s : str) : str :=
  match s with
  | [] => []
  | c :: s' =>
      if c =? quote then
        match s' with
        | d :: s'' => if q && (d =? quote) then fillSkeleton q args s'' else quote :: fillSkeleton (negb q) args s'
        | [] => [quote]
        end
      else if (c =? 63) && negb q then
        skeleton false (formatParam (default PNil (head args))) ++ fillSkeleton q (tail args) s'
      else if q then fillSkeleton q args s' else c :: fillSkeleton q args s'
  end.

(** Text that is quoted content: doubled quotes up to the closing one. *)
Lemma skeleton_quoted s rest :
  head rest ≠ Some quote → skeleton true (double_quotes s ++ quote :: rest) = quote :: skeleton false rest.
Proof.
  intros Hr. induction s as [|c s IH].
  - simpl. destruct rest as [|d rest]; [done|]. destruct (Z.eqb_spec d quote); [subst; done|]. done.
  - cbn [double_quotes flat_map]. destruct (Z.eqb_spec c 39) as [->|Hc].
    + exact IH.
    + cbn [app skeleton]. destruct (Z.eqb_spec c quote); [done|]. exact IH.
Qed.

(** Text without quotes is its own skeleton. *)
Lemma skeleton_plain s rest :
  forallb (λ c, negb (c =? quote)) s = true → skeleton false (s ++ rest) = s ++ skeleton false rest.
Proof.
  induction s as [|c s IH]; [done|]. cbn [forallb app skeleton]. intros [Hc Hs]%andb_true_iff.
  destruct (c =? quote); [done|]. by rewrite IH.
Qed.

Definition plainText (s : str) : Prop := forallb (λ c, negb (c =? quote)) s = true.
(** Parameters whose text is quoted, or has no quote in it. *)
Definition param_text (p : param) : Prop :=
  match p with
  | PInt n => is_int64 n | PUint n => 0 ≤ n < 2 ^ 64
  | PFloat f => plainText (strconv_FormatFloat f) | _ => True
  end.

Lemma graphic_number s : forallb is_digit s = true → plainText s.
Proof.
  unfold plainText. rewrite !forallb_forall. intros Hs c Hc. specialize (Hs c Hc).
  unfold is_digit in Hs. btoz. apply negb_true_iff, Z.eqb_neq. unfold quote. lia.
Qed.

Lemma FormatInt_plain n : plainText (FormatInt n).
Proof.
  unfold FormatInt. destruct (Z.ltb_spec n 0); [|apply graphic_number, FormatUint_digits; lia].
  unfold plainText. cbn [forallb]. apply (graphic_number (FormatUint (- n))), FormatUint_digits. lia.
Qed.

Lemma skeleton_param p rest :
  param_text p → head rest ≠ Some quote →
  skeleton false (formatParam p ++ rest) = skeleton false (formatParam p) ++ skeleton false rest.
Proof.
  assert (Hq : ∀ s rest, head rest ≠ Some quote →
    skeleton false (quoteText s ++ rest) = quote :: quote :: skeleton false rest).
  { intros s r Hr. unfold quoteText. cbn [app skeleton]. rewrite Z.eqb_refl.
    destruct (double_quotes s ++ [quote]) as [|d l] eqn:E; [by destruct (double_quotes s)|].
    cbn [app andb]. change (d :: l ++ r) with ((d :: l) ++ r). rewrite <- E, <- app_assoc. cbn [app negb].
    by rewrite skeleton_quoted. }
  assert (Hq' : ∀ s, skeleton false (quoteText s) = [quote; quote]).
  { intros s. rewrite <- (app_nil_r (quoteText s)), Hq by done. done. }
  assert (Hp : ∀ s, plainText s → skeleton false (s ++ rest) = skeleton false s ++ skeleton false rest).
  { intros s Hs. rewrite skeleton_plain by done. rewrite <- (app_nil_r s) at 2.
    rewrite skeleton_plain by done. simpl. by rewrite app_nil_r. }
  intros Ht Hr. destruct p; cbn [formatParam param_text] in *; try (by rewrite Hq, Hq').
  - by apply Hp.
  - destruct b; by apply Hp.
  - apply Hp, FormatInt_plain.
  - apply Hp, graphic_number, FormatUint_digits. lia.
  - by apply Hp.
Qed.

(** The output of binding never starts with a quote where the template does not
    allow a literal to touch. *)
Lemma bind_head s q arg args out :
  spaced q true s = true → bind_loop arg args q s = Ok out → q = false → head out ≠ Some quote.
Proof.
  destruct s as [|c s]; cbn [bind_loop spaced]; [destruct args; intros _ [=]; by subst|].
  destruct (Z.eqb_spec c quote).
  { destruct s as [|d s]; [done|]. intros Hs _ ->. by rewrite andb_false_l in Hs. }
  destruct ((c =? 63) && negb q); [done|]. intros _ Hb ->. inv_bind Hb. injection Hb as <-. simpl. congruence.
Qed.

Lemma bind_skeleton s : ∀ q touch arg args out,
  Forall param_text args → spaced q touch s = true → bind_loop arg args q s = Ok out →
  skeleton q out = fillSkeleton q args s.
Proof.
  induction s as [|c s IH1 IH2] using list_ind2; intros q touch arg args out Ha Hs Hb.
  { simpl in Hb. destruct args; [by injection Hb as <-|done]. }
  cbn [bind_loop spaced fillSkeleton] in *. destruct (Z.eqb_spec c quote) as [->|Hc].
  - destruct s as [|d s'].
    + simpl in Hb. destruct args; [by injection Hb as <-|done].
    + destruct (q && (d =? quote)) eqn:Eq.
      * inv_bind Hb. injection Hb as <-. apply andb_true_iff in Eq as [-> _].
        change (skeleton true a = fillSkeleton true args s'). by eapply IH2.
      * inv_bind Hb. injection Hb as <-. apply andb_true_iff in Hs as [_ Hs].
        assert (IHd : skeleton (negb q) a = fillSkeleton (negb q) args (d :: s')) by by eapply IH1.
        rewrite <- IHd. cbn [skeleton]. rewrite Z.eqb_refl.
        destruct a as [|x a]; [done|]. destruct q; [|done]. simpl in Eq.
        destruct (Z.eqb_spec x quote) as [->|]; [|done]. exfalso.
        cbn [negb] in *. eapply bind_head; [exact Hs|exact Ha0|done|done].
  - destruct ((c =? 63) && negb q) eqn:Ep.
    + destruct args as [|p args]; [done|]. inv_bind Hb. injection Hb as <-.
      apply andb_true_iff in Ep as [_ ->%negb_true_iff]. apply andb_true_iff in Hs as [_ Hs].
      apply Forall_cons in Ha as [Hp Ha]. simpl default. simpl tail.
      rewrite skeleton_param by (done || by eapply bind_head). f_equal. by eapply IH1.
    + inv_bind Hb. injection Hb as <-. cbn [skeleton]. destruct (Z.eqb_spec c quote); [done|].
      destruct q; [|f_equal]; by eapply IH1.
Qed.

(** The skeleton of a literal: independent of the content of text. *)
Definition paramShape (p : param) : str :=
  match p with
  | PStr _ | PBytes _ | POther _ => [quote; quote]
  | p => formatParam p
  end.

Lemma skeleton_shape p : param_text p → skeleton false (formatParam p) = paramShape p.
Proof.
  intros Hp. assert (Hq : ∀ s, skeleton false (quoteText s) = [quote; quote]).
  { intros s. unfold quoteText. cbn [skeleton]. rewrite Z.eqb_refl.
    pose proof (skeleton_quoted s [] ltac:(done)) as E.
    destruct (double_quotes s ++ [quote]) eqn:El; [by destruct (double_quotes s)|]. cbn [andb negb]. by rewrite E. }
  assert (Hpl : ∀ s, plainText s → skeleton false s = s).
  { intros s Hs. rewrite <- (app_nil_r s) at 1. rewrite skeleton_plain by done. simpl. apply app_nil_r. }
  destruct p; cbn [formatParam param_text paramShape] in *; try apply Hq; try (by apply Hpl).
  - destruct b; by apply Hpl.
  - apply Hpl, FormatInt_plain.
  - apply Hpl, graphic_number, FormatUint_digits. lia.
Qed.

(** C34: No injection.  When placeholders do not touch literals or each other, what
    the statement's quote-aware scanners see of the bound statement (everything
    outside string literals) is determined by the template and the shapes of the
    arguments: two argument lists that differ only in the content of text give
    the same skeleton.  No text can close its literal or add a clause. *)
Theorem bind_no_injection sql args args' out out' :
  spaced false false sql = true → Forall param_text args → Forall param_text args' →
  map paramShape args = map paramShape args' →
  BindParams sql args = Ok out → BindParams sql args' = Ok out' →
  skeleton false out = skeleton false out'.
Proof.
  intros Hs Ha Ha' Hm Hb Hb'.
  assert (Hfill : ∀ s q l l', Forall param_text l → Forall param_text l' → map paramShape l = map paramShape l' →
    fillSkeleton q l s = fillSkeleton q l' s).
  { clear. intros s. induction s as [|c s IH1 IH2] using list_ind2; intros q l l' Hl Hl' E; [done|].
    cbn [fillSkeleton]. destruct (c =? quote).
    { destruct s as [|d s']; [done|]. destruct (q && (d =? quote)); [by eapply IH2|f_equal; by apply IH1]. }
    destruct ((c =? 63) && negb q); [|destruct q; [|f_equal]; by apply IH1].
    destruct l as [|p l], l' as [|p' l']; try done.
    injection E as Ep E. apply Forall_cons in Hl as [Hp Hl], Hl' as [Hp' Hl']. simpl default. simpl tail.
    rewrite !skeleton_shape, Ep by done. f_equal. by apply IH1. }
  assert (Hone : ∀ l o, Forall param_text l → BindParams sql l = Ok o → skeleton false o = fillSkeleton false l sql ∨ l = []).
  { intros l o Hl Ho. destruct l as [|p l]; [by right|]. left. by eapply bind_skeleton. }
  destruct (Hone _ _ Ha Hb) as [E| ->]; [|destruct args'; [|done]; rewrite Hb in Hb'; by injection Hb' as ->].
  destruct (Hone _ _ Ha' Hb') as [E'| ->]; [|destruct args; [|done]; rewrite Hb in Hb'; by injection Hb' as ->].
  rewrite E, E'. by apply Hfill.
Qed.

(** ** Round trip through the VALUES parser *)

Lemma collapse_double s : collapse_quotes (double_quotes s) = s.
Proof.
  induction s as [|c s IH]; [done|]. cbn [double_quotes flat_map].
  destruct (Z.eqb_spec c 39) as [->|Hc]; [simpl; by f_equal|].
  cbn [app]. fold (double_quotes s). rewrite <- IH at 2.
  destruct (double_quotes s) as [|d l]; [done|]. cbn [collapse_quotes].
  destruct (Z.eqb_spec c 39); [done|]. done.
Qed.

Lemma TrimSpace_ends c m d : graphic c = true → graphic d = true → TrimSpace (c :: m ++ [d]) = c :: m ++ [d].
Proof.
  intros Hc Hd. unfold TrimSpace, trimLeft.
  rewrite (trim_left_id space_runes (c :: m ++ [d])) by (right; by apply space_width_graphic).
  unfold trimRight. rewrite trim_left_id; [apply reverse_involutive|]. right.
  rewrite reverse_cons, reverse_app. by apply space_width_graphic.
Qed.

Lemma unquote_quoteText s : unquoteLiteral (quoteText s) = s.
Proof.
  unfold unquoteLiteral, quoteText. rewrite TrimSpace_ends by done. cbn [head].
  assert (last (quote :: double_quotes s ++ [quote]) = Some quote) as ->.
  { rewrite app_comm_cons. apply last_snoc. }
  rewrite !(bool_decide_eq_true_2 _ eq_refl). simpl length. rewrite length_app. simpl length.
  destruct (Nat.leb_spec 2 (S (length (double_quotes s) + 1))); [|lia]. cbn [andb].
  replace (S (length (double_quotes s) + 1) - 2)%nat with (length (double_quotes s)) by lia.
  change (drop 1 (quote :: double_quotes s ++ [quote])) with (double_quotes s ++ [quote]).
  rewrite take_app_length. apply collapse_double.
Qed.

(** Case folding maps the opening quote to itself, so a quoted text is not the
    keyword NULL. *)
Class QuoteFold := quote_fold s : unicode_EqualFold (quote :: s) (lit "NULL") = false.
Context `{!QuoteFold}.

Lemma parseVal_text s : parseVal (quoteText s) Text = Ok (VStr s).
Proof.
  unfold parseVal. assert (TrimSpace (quoteText s) = quoteText s) as -> by (by apply TrimSpace_ends).
  assert (EqualFold (quoteText s) (lit "NULL") = false) as ->; [|by rewrite unquote_quoteText].
  unfold EqualFold, quoteText. destruct (is_ascii _ && _); [|apply quote_fold]. done.
Qed.

(** Bytes that mean nothing to the VALUES scanner. *)
Definition inert (c : Z) : bool :=
  graphic c && negb ((c =? 39) || (c =? 40) || (c =? 41) || (c =? 44)).

Definition paramValue (p : param) : value :=
  match p with
  | PNil => VNil
  | PStr s | PBytes s | POther s => VStr s
  | PBool b => VBool b
  | PInt n | PUint n => VInt n
  | PFloat f => VFloat f
  end.

(** The argument suits the column; a float's shortest text is inert and reads
    back as the float. *)
Definition param_fits (typ : ctype) (p : param) : Prop :=
  match p with
  | PNil => True
  | PStr _ | PBytes _ | POther _ => typ = Text
  | PBool _ => typ = Bool
  | PInt n => typ = Int ∧ is_int64 n
  | PUint n => typ = Int ∧ 0 ≤ n < 2 ^ 63
  | PFloat f => typ = Float ∧ forallb inert (strconv_FormatFloat f) = true ∧
                parseVal (strconv_FormatFloat f) Float = Ok (VFloat f)
  end.

Lemma parseVal_param typ p : param_fits typ p → parseVal (formatParam p) typ = Ok (paramValue p).
Proof.
  destruct p; cbn [param_fits formatParam paramValue].
  - done.
  - intros ->. apply parseVal_text.
  - intros ->. by destruct b.
  - intros [-> Hn]. by apply parseVal_FormatInt.
  - intros [-> Hn]. assert (FormatUint n = FormatInt n) as ->.
    { unfold FormatInt. destruct (Z.ltb_spec n 0); [lia|done]. }
    apply parseVal_FormatInt. unfold is_int64, int64_min, int64_max. lia.
  - intros (-> & _ & Hp). done.
  - intros ->. apply parseVal_text.
  - intros ->. apply parseVal_text.
Qed.

Section Loop.
Context (cols : list Column) (keepLast : bool).

Lemma loop_inert rows spans l : ∀ cur rest, forallb inert l = true →
  insertRows_loop cols keepLast rows spans cur true 1 false (l ++ rest)
  = insertRows_loop cols keepLast rows spans (reverse l ++ cur) true 1 false rest.
Proof.
  induction l as [|c l IH]; intros cur rest Hl; [done|].
  cbn [forallb] in Hl. apply andb_true_iff in Hl as [Hc Hl]. unfold inert in Hc.
  apply andb_true_iff in Hc as [_ Hc%negb_true_iff].
  apply orb_false_iff in Hc as [[[H1 H2]%orb_false_iff H3]%orb_false_iff H4].
  cbn [app insertRows_loop]. unfold quote. rewrite H1, H2, H3, H4. cbn [andb].
  rewrite IH by done. by rewrite reverse_cons, <- app_assoc.
Qed.

Lemma loop_text rows spans s : ∀ cur rest, head rest ≠ Some quote →
  insertRows_loop cols keepLast rows spans cur true 1 true (double_quotes s ++ quote :: rest)
  = insertRows_loop cols keepLast rows spans (quote :: reverse (double_quotes s) ++ cur) true 1 false rest.
Proof.
  induction s as [|c s IH]; intros cur rest Hr.
  - cbn [double_quotes flat_map app insertRows_loop]. rewrite Z.eqb_refl. destruct rest as [|d rest]; [done|].
    destruct (Z.eqb_spec d quote); [subst; done|]. done.
  - cbn [double_quotes flat_map]. fold (double_quotes s). destruct (Z.eqb_spec c 39) as [->|Hc].
    + cbn [app]. change 39 with quote. cbn [insertRows_loop]. rewrite Z.eqb_refl. cbn [andb].
      rewrite IH by done. by rewrite !reverse_cons, <- !app_assoc.
    + cbn [app insertRows_loop]. destruct (Z.eqb_spec c quote); [done|].
      rewrite IH by done. by rewrite reverse_cons, <- app_assoc.
Qed.

Lemma loop_quoted rows spans s cur rest : head rest ≠ Some quote →
  insertRows_loop cols keepLast rows spans cur true 1 false (quoteText s ++ rest)
  = insertRows_loop cols keepLast rows spans (reverse (quoteText s) ++ cur) true 1 false rest.
Proof.
  intros Hr. unfold quoteText. cbn [app]. rewrite <- app_assoc. cbn [app].
  cbn [insertRows_loop]. rewrite Z.eqb_refl. cbn [andb].
  destruct (double_quotes s ++ quote :: rest) as [|d l] eqn:E; [by destruct (double_quotes s)|].
  cbn [negb]. rewrite <- E, loop_text by done.
  by rewrite reverse_cons, reverse_app, <- !app_assoc.
Qed.

Lemma digits_inert l : forallb is_digit l = true → forallb inert l = true.
Proof.
  rewrite !forallb_forall. intros Hl c Hc. specialize (Hl c Hc). unfold is_digit in Hl. btoz.
  unfold inert, graphic. repeat (apply andb_true_iff; split); try (apply Z.leb_le; lia).
  apply negb_true_iff. repeat (apply orb_false_iff; split); apply Z.eqb_neq; lia.
Qed.

Lemma loop_param typ p rows spans cur rest : param_fits typ p → head rest ≠ Some quote →
  insertRows_loop cols keepLast rows spans cur true 1 false (formatParam p ++ rest)
  = insertRows_loop cols keepLast rows spans (reverse (formatParam p) ++ cur) true 1 false rest.
Proof.
  destruct p; cbn [param_fits formatParam]; intros Hp Hr.
  - by apply loop_inert.
  - by apply loop_quoted.
  - destruct b; by apply loop_inert.
  - apply loop_inert. unfold FormatInt. destruct (Z.ltb_spec n 0).
    + apply andb_true_iff. split; [done|]. apply digits_inert, FormatUint_digits. lia.
    + apply digits_inert, FormatUint_digits. lia.
  - apply loop_inert, digits_inert, FormatUint_digits. lia.
  - apply loop_inert, Hp.
  - by apply loop_quoted.
  - by apply loop_quoted.
Qed.
End Loop.

(** [(?,?,...)] with [n + 1] placeholders, and a tuple of literals. *)
Fixpoint holes (n : nat) : str := match n with O => [63] | S m => 63 :: 44 :: holes m end.
Definition tupleTemplate (n : nat) : str := 40 :: holes n ++ [41].
Fixpoint commaJoin (l : list str) : str :=
  match l with [] => [] | [x] => x | x :: l' => x ++ 44 :: commaJoin l' end.

Lemma bind_holes args : ∀ arg, args ≠ [] →
  bind_loop arg args false (holes (length args - 1) ++ [41]) = Ok (commaJoin (map formatParam args) ++ [41]).
Proof.
  induction args as [|p args IH]; intros arg Hne; [done|]. destruct args as [|p' args].
  - done.
  - simpl length. cbn [Nat.sub holes app bind_loop]. change (63 =? quote) with false. change (44 =? quote) with false.
    change ((63 =? 63) && negb false) with true. change ((44 =? 63) && negb false) with false. cbv iota.
    specialize (IH (arg + 1)%nat ltac:(done)). simpl length in IH. cbn [Nat.sub] in IH. rewrite Nat.sub_0_r in IH.
    rewrite IH. cbn [bindr map commaJoin]. by rewrite <- app_assoc.
Qed.

Lemma loop_tuple cols keepLast rows args : ∀ typs spans,
  args ≠ [] → Forall2 param_fits typs args →
  insertRows_loop cols keepLast rows spans [] true 1 false (commaJoin (map formatParam args) ++ [41])
  = let* rows' := parseGroup cols keepLast rows (spans ++ map formatParam args) in Ok rows'.
Proof.
  induction args as [|p args IH]; intros typs spans Hne Hf; [done|].
  apply Forall2_cons_inv_r in Hf as (typ & typs' & Hp & Hf & ->). destruct args as [|p' args].
  - cbn [map commaJoin]. rewrite (loop_param _ _ typ) by done.
    rewrite app_nil_r. cbn [insertRows_loop]. change (41 =? quote) with false. change (41 =? 40) with false.
    change (41 =? 41) with true. change ((1 - 1 =? 0) && true) with true. cbv iota.
    rewrite reverse_involutive. cbn [app]. by destruct (parseGroup _ _ _ _).
  - change (commaJoin (map formatParam (p :: p' :: args)))
      with (formatParam p ++ 44 :: commaJoin (map formatParam (p' :: args))).
    rewrite <- app_assoc, (loop_param _ _ typ) by done. rewrite app_nil_r. cbn [app].
    set (rest := commaJoin (map formatParam (p' :: args)) ++ [41]).
    change (insertRows_loop cols keepLast rows (spans ++ [reverse (reverse (formatParam p))]) [] true 1 false rest
            = let* rows' := parseGroup cols keepLast rows (spans ++ map formatParam (p :: p' :: args)) in Ok rows').
    rewrite reverse_involutive. unfold rest. rewrite (IH typs') by done.
    rewrite <- app_assoc. done.
Qed.

(** The row and key the arguments stand for. *)
Definition paramsRow (cols : list Column) (args : list param) : row :=
  foldl (λ r cp, <[cName cp.1 := paramValue cp.2]> r) ∅ (zip cols args).
Definition paramsKey (cols : list Column) (args : list param) : str :=
  foldl (λ k cp, if cPrimary cp.1 then valueKey (paramValue cp.2) else k) [] (zip cols args).

Lemma buildRow_params cols args : ∀ r k,
  Forall2 param_fits (map cType cols) args →
  buildRow cols (map formatParam args) r k
  = Ok (foldl (λ r cp, <[cName cp.1 := paramValue cp.2]> r) r (zip cols args),
        foldl (λ k cp, if cPrimary cp.1 then valueKey (paramValue cp.2) else k) k (zip cols args)).
Proof.
  revert args. induction cols as [|c cols IH]; intros args r k Hf.
  - by inversion Hf.
  - cbn [map] in Hf. apply Forall2_cons_inv_l in Hf as (p & args' & Hp & Hf & ->).
    cbn [map buildRow zip zip_with foldl fst snd]. rewrite parseVal_param by done. cbn [bindr]. by rewrite IH.
Qed.

(** What is bound is what is stored.  For a VALUES tuple of placeholders, one
    per column, with arguments that suit the columns, binding succeeds and the
    VALUES parser returns exactly one row holding exactly the arguments: text
    with quotes, commas, parentheses or SQL in it, integers at the limits of
    their width and NULL included.  Only an empty text primary key is refused. *)
Theorem bind_insert_roundtrip cols args keepLast :
  args ≠ [] → Forall2 param_fits (map cType cols) args →
  ∃ out, BindParams (tupleTemplate (length args - 1)) args = Ok out ∧
    parseInsertRowsMode out cols keepLast
    = if bool_decide (paramsKey cols args = []) && hasPrimaryColumn cols
      then errorsNew "primary key required"
      else Ok [mkInsert (paramsKey cols args) (paramsRow cols args)].
Proof.
  intros Hne Hf. exists (40 :: commaJoin (map formatParam args) ++ [41]). split.
  { destruct args as [|p args]; [done|].
    change (BindParams (tupleTemplate (length (p :: args) - 1)) (p :: args))
      with (let* out := bind_loop 0 (p :: args) false (holes (length (p :: args) - 1) ++ [41]) in Ok (40 :: out)).
    by rewrite bind_holes. }
  unfold parseInsertRowsMode. rewrite TrimSpace_ends by done.
  change (insertRows_loop cols keepLast [] [] [] false 0 false (40 :: commaJoin (map formatParam args) ++ [41]))
    with (insertRows_loop cols keepLast [] [] [] true 1 false (commaJoin (map formatParam args) ++ [41])).
  rewrite (loop_tuple _ _ _ _ (map cType cols)) by done. unfold parseGroup. cbn [app].
  assert (length (map formatParam args) = length cols) as ->.
  { rewrite length_map. apply Forall2_length in Hf. by rewrite length_map in Hf. }
  rewrite Nat.eqb_refl. cbn [negb]. rewrite buildRow_params by done. cbn [bindr map].
  fold (paramsRow cols args). fold (paramsKey cols args).
  destruct (bool_decide (paramsKey cols args = []) && hasPrimaryColumn cols) eqn:E; [done|].
  assert (bool_decide (paramsKey cols args ∈ []) = false) as -> by (apply bool_decide_false, not_elem_of_nil).
  rewrite andb_false_r. done.
Qed.
End BindProofs.
