(* ===== verification/Json.v ===== *)
(** * JSON output: internal/engine/marshal.go, dbjson.go and internal/remote/response.go

    The hand-written encoders.  Each takes the buffer it appends to, as the code
    does: an encoder that fails returns no buffer. *)

From S2P Require Import Prelude GoLib Value Table Schema.
Open Scope Z_scope.

(** [json.Marshal] of a float64: its text, or an error (NaN and the infinities). *)
Class JsonStd := { json_Float : float64 → str + err }.

(** ** Strings *)

Definition lowerHex : str := lit "0123456789abcdef".
Definition hexAt (i : Z) : Z := nth (Z.to_nat i) lowerHex 0.
Definition bs : Z := 92.
Definition dq : Z := 34.

(** One ASCII byte, escaped. *)
Definition escapeByte (c : Z) : str :=
  if c =? dq then [bs; dq]
  else if c =? bs then [bs; bs]
  else if c =? 10 then [bs; 110]
  else if c =? 13 then [bs; 114]
  else if c =? 9 then [bs; 116]
  else if c =? 60 then bs :: lit "u003c"
  else if c =? 62 then bs :: lit "u003e"
  else if c =? 38 then bs :: lit "u0026"
  else if c <? 32 then bs :: lit "u00" ++ [hexAt (Z.shiftr c 4); hexAt (Z.land c 15)]
  else [c].

(** U+FFFD in UTF-8: what an invalid byte becomes. *)
Definition replacementRune : str := [239; 191; 189].

(** [skip] bytes of a rune already written are still to pass over. *)
Fixpoint jsonBody (skip : nat) (s : str) : str :=
  match s with
  | [] => []
  | c :: s' =>
      match skip with
      | S k => jsonBody k s'
      | O =>
          if c <? 128 then escapeByte c ++ jsonBody 0 s'
          else
            let '(r, size) := DecodeRune s in
            if (r =? RuneError) && (size <=? 1)%nat then replacementRune ++ jsonBody 0 s'
            else take size s ++ jsonBody (size - 1) s'
      end
  end.

Definition appendJSONString (out s : str) : str := out ++ dq :: jsonBody 0 s ++ [dq].

Fixpoint appendStrings_loop (first : bool) (out : str) (values : list str) : str :=
  match values with
  | [] => out
  | s :: values' =>
      appendStrings_loop false (appendJSONString (if first then out else out ++ [44]) s) values'
  end.
Definition appendJSONStringArray (out : str) (values : list str) : str :=
  appendStrings_loop true (out ++ [91]) values ++ [93].

Section Json.
Context `{JsonStd}.

(** ** Values and results *)

(** The extended buffer, or no buffer and the error. *)
Definition appendJSONValue (out : str) (v : value) : str * option err :=
  match v with
  | VNil => (out ++ lit "null", None)
  | VStr s => (appendJSONString out s, None)
  | VBool b => (out ++ if b then lit "true" else lit "false", None)
  | VInt n | VGoInt n => (out ++ FormatInt n, None)
  | VFloat f => match json_Float f with inl t => (out ++ t, None) | inr e => ([], Some e) end
  end.

Fixpoint appendCells (first : bool) (out : str) (cells : list value) : str + err :=
  match cells with
  | [] => inl out
  | v :: cells' =>
      match appendJSONValue (if first then out else out ++ [44]) v with
      | (out', None) => appendCells false out' cells'
      | (_, Some e) => inr e
      end
  end.

Fixpoint appendRows (first : bool) (out : str) (rows : list (list value)) : str + err :=
  match rows with
  | [] => inl out
  | r :: rows' =>
      match appendCells true ((if first then out else out ++ [44]) ++ [91]) r with
      | inl out' => appendRows false (out' ++ [93]) rows'
      | inr e => inr e
      end
  end.

(** A member of the enclosing object: a comma unless it is the first. *)
Definition member (comma : bool) (out : str) (name : string) : str :=
  (if comma then out ++ [44] else out) ++ dq :: lit name ++ [dq; 58].

Definition AppendResultJSON (buf : str) (r : Result) : str + err :=
  let out := buf ++ [123] in
  let hasC := negb (bool_decide (rColumns r = [])) in
  let out := if hasC then appendJSONStringArray (member false out "columns") (rColumns r) else out in
  let hasR := negb (bool_decide (rRows r = [])) in
  match (if hasR then match appendRows true (member hasC out "rows" ++ [91]) (rRows r) with
                      | inl o => inl (o ++ [93]) | inr e => inr e end
         else inl out) with
  | inr e => inr e
  | inl out =>
      let hasA := negb (rAffected r =? 0) in
      let out := if hasA then member (hasC || hasR) out "affected" ++ FormatInt (rAffected r) else out in
      let hasM := negb (bool_decide (rMessage r = [])) in
      let out := if hasM then appendJSONString (member (hasC || hasR || hasA) out "message") (rMessage r) else out in
      inl (out ++ [125])
  end.

(** ** The hosted server's response envelope *)

Record Response := mkResponse {
  rpID : Z; rpStatus : str; rpErrorCode : str; rpErrorMessage : str;
  rpColumns : list str; rpRows : list (list value); rpAffected : Z;
  rpMessage : str; rpLeaderAddr : str; rpRetryable : bool;
}.

Definition optString (out : str) (name : string) (s : str) : str :=
  if bool_decide (s = []) then out else appendJSONString (member true out name) s.

(** Rows of a response are never nil here: the engine's rows are not. *)
Definition appendResponseJSON (buf : str) (r : Response) : str + err :=
  let out := member false (buf ++ [123]) "request_id" ++ FormatUint (rpID r) in
  let out := appendJSONString (member true out "status") (rpStatus r) in
  let out := optString out "error_code" (rpErrorCode r) in
  let out := optString out "error_message" (rpErrorMessage r) in
  let out := if bool_decide (rpColumns r = []) then out
             else appendJSONStringArray (member true out "columns") (rpColumns r) in
  match (if bool_decide (rpRows r = []) then inl out
         else match appendRows true (member true out "rows" ++ [91]) (rpRows r) with
              | inl o => inl (o ++ [93]) | inr e => inr e end) with
  | inr e => inr e
  | inl out =>
      let out := if rpAffected r =? 0 then out
                 else member true out "affected_rows" ++ FormatInt (rpAffected r) in
      let out := optString out "message" (rpMessage r) in
      let out := optString out "leader_addr" (rpLeaderAddr r) in
      let out := if rpRetryable r then member true out "retryable" ++ lit "true" else out in
      inl (out ++ [125])
  end.

(** ** The database image *)

(** A JSON object over sorted keys; [enc] appends one member's value. *)
Fixpoint appendMembers (enc : str → str → str) (first : bool) (out : str) (keys : list str) : str :=
  match keys with
  | [] => out
  | k :: keys' =>
      let out := appendJSONString (if first then out else out ++ [44]) k ++ [58] in
      appendMembers enc false (enc out k) keys'
  end.
Definition appendObject {A} (enc : str → str → str) (out : str) (m : gmap str A) : str :=
  appendMembers enc true (out ++ [123]) (sortStrings (mapKeys m)) ++ [125].

(** On an encoding error the buffer returned by [appendJSONValue] is assigned
    before [null] is appended to it. *)
Definition appendCellJSON (r : row) (out key : str) : str :=
  match appendJSONValue out (rowGet r key) with
  | (out', None) => out'
  | (out', Some _) => out' ++ lit "null"
  end.
Definition appendRowJSON (buf : str) (r : row) : str := appendObject (appendCellJSON r) buf r.

Fixpoint appendColumns (first : bool) (out : str) (cols : list Column) : str :=
  match cols with
  | [] => out
  | c :: cols' =>
      let out := (if first then out else out ++ [44]) ++ [123] in
      let out := appendJSONString (member false out "Name") (cName c) in
      let out := appendJSONString (member true out "Type") (typeName (cType c)) in
      let out := member true out "Primary" ++ fmtBool (cPrimary c) ++ [125] in
      appendColumns false out cols'
  end.

(** Whether an empty order slice, or index-name map, of a table is nil: CREATE
    TABLE and TRUNCATE leave nil ones, deletes leave empty ones, and nothing but
    this encoder tells them apart.  Rows and Indexes are never nil. *)
Context (nilOrder nilNames : Table → bool).

Definition appendTableJSON (buf : str) (t : Table) : str :=
  let out := appendJSONString (member false (buf ++ [123]) "Name") (tName t) in
  let out := appendColumns true (member true out "Columns" ++ [91]) (tColumns t) ++ [93] in
  let out := appendObject (λ o k, appendRowJSON o (default ∅ (tRows t !! k))) (member true out "Rows") (tRows t) in
  let out := if bool_decide (tOrder t = []) && nilOrder t then member true out "Order" ++ lit "null"
             else appendJSONStringArray (member true out "Order") (tOrder t) in
  let out :=
    appendObject (λ o column,
      let ix := default ∅ (tIndexes t !! column) in
      appendObject (λ o v,
        appendMembers (λ o _, o ++ [123; 125]) true (o ++ [123])
          (sortStrings (elements (default ∅ (ix !! v)))) ++ [125]) o ix)
      (member true out "Indexes") (tIndexes t) in
  let out := if bool_decide (tIndexNames t = ∅) && nilNames t then member true out "IndexNames" ++ lit "null"
             else appendObject (λ o n, appendJSONString o (default [] (tIndexNames t !! n)))
                    (member true out "IndexNames") (tIndexNames t) in
  out ++ [125].

Definition appendDatabaseJSON (buf : str) (d : Database) : str :=
  appendObject (λ o name, match dTables d !! name with Some t => appendTableJSON o t | None => o end)
    (buf ++ [123; dq] ++ lit "Tables" ++ [dq; 58]) (dTables d) ++ [125].

(** [MarshalJSON] and [Snapshot] *)
Definition MarshalJSON (d : Database) : str := appendDatabaseJSON [] d.
End Json.

Definition jsonFloatText `{GoStd} : JsonStd := {|
  json_Float f := match f with
                  | S754_nan | S754_infinity _ => inr (EMsg (lit "json: unsupported value"))
                  | _ => inl (strconv_FormatFloat f)
                  end |}.
