(* ===== verification/Request.v ===== *)
(** * Requests: internal/server/protocol.go and requestfast.go

    The length-prefixed request reader and the single-pass request parser.  The
    parser's position is the list of bytes still to read.  A loop of the parser ends
    in a result, declines, which makes the caller fall back to encoding/json, or runs
    out of the fuel that stands for its loop: three outcomes ([lexed]). *)

From S2P Require Import Prelude GoLib Bytes Bind Json.
Open Scope Z_scope.

Record request := mkRequest {
  qSQL : str; qSQLs : list str; qParams : list param;
  qAuth : str; qAuthKey : str; qAtomic : bool; qPing : bool;
}.
Definition request0 : request := mkRequest [] [] [] [] [] false false.

(** How a loop of the parser ends: [ok] with its result, not [ok], or not at all within
    the given number of turns. *)
Inductive lexed (A : Type) := Parsed (a : A) | Declined | OutOfFuel.
Arguments Parsed {A} _.
Arguments Declined {A}.
Arguments OutOfFuel {A}.
Definition bindl {A B} (m : lexed A) (k : A → lexed B) : lexed B :=
  match m with Parsed a => k a | Declined => Declined | OutOfFuel => OutOfFuel end.
(** A step that consults no loop. *)
Definition okOr {A} (x : option A) : lexed A := match x with Some a => Parsed a | None => Declined end.

(** ** Lexing *)

Definition peek (p : str) : Z := match p with c :: _ => c | [] => 0 end.
Definition consume (c : Z) (p : str) : option str :=
  match p with d :: p' => if d =? c then Some p' else None | [] => None end.

Definition isJsonSpace (c : Z) : bool := (c =? 32) || (c =? 9) || (c =? 10) || (c =? 13).
Fixpoint skipSpace (p : str) : str :=
  match p with c :: p' => if isJsonSpace c then skipSpace p' else p | [] => [] end.

Definition hexVal (c : Z) : option Z :=
  if in_range 48 57 c then Some (c - 48)
  else if in_range 97 102 c then Some (c - 97 + 10)
  else if in_range 65 70 c then Some (c - 65 + 10)
  else None.

(** [b] starts at the first hex digit. *)
Definition decodeU (b : str) : option Z :=
  match b with
  | c1 :: c2 :: c3 :: c4 :: _ =>
      match hexVal c1, hexVal c2, hexVal c3, hexVal c4 with
      | Some v1, Some v2, Some v3, Some v4 => Some (((v1 * 16 + v2) * 16 + v3) * 16 + v4)
      | _, _, _, _ => None
      end
  | _ => None
  end.

Definition encodeRune (r : Z) : str :=
  let low n := Z.lor 0x80 (Z.land (Z.shiftr r n) 0x3F) in
  if r <? 0x80 then [r]
  else if r <? 0x800 then [Z.lor 0xC0 (Z.shiftr r 6); low 0]
  else if r <? 0x10000 then [Z.lor 0xE0 (Z.shiftr r 12); low 6; low 0]
  else [Z.lor 0xF0 (Z.shiftr r 18); low 12; low 6; low 0].

(** [b] starts at the backslash; the decoded bytes and the length consumed. *)
Definition escapeAt (b : str) : option (str * nat) :=
  match b with
  | _ :: e :: b2 =>
      if (e =? dq) || (e =? bs) || (e =? 47) then Some ([e], 2%nat)
      else if e =? 98 then Some ([8], 2%nat)
      else if e =? 102 then Some ([12], 2%nat)
      else if e =? 110 then Some ([10], 2%nat)
      else if e =? 114 then Some ([13], 2%nat)
      else if e =? 116 then Some ([9], 2%nat)
      else if e =? 117 then
        match decodeU b2 with
        | None => None
        | Some r =>
            if in_range 0xD800 0xDBFF r && (12 <=? length b)%nat
               && (default 0 (b !! 6%nat) =? bs) && (default 0 (b !! 7%nat) =? 117)
            then match decodeU (drop 8 b) with
                 | Some lo =>
                     if in_range 0xDC00 0xDFFF lo
                     then Some (encodeRune (0x10000 + Z.shiftl (r - 0xD800) 10 + (lo - 0xDC00)), 12%nat)
                     else None
                 | None => None
                 end
            else if in_range 0xD800 0xDFFF r then None
            else Some (encodeRune r, 6%nat)
        end
      else None
  | _ => None
  end.

(** The body of a string after the opening quote.  The two loops of the code
    (before and after the first escape) treat every byte alike; [acc] is what has
    been decoded and [skip] bytes of it are still to pass over. *)
Fixpoint string_loop (skip : nat) (acc : str) (p : str) : option (str * str) :=
  match p with
  | [] => None
  | c :: p' =>
      match skip with
      | S k => string_loop k acc p'
      | O =>
          if c =? dq then Some (acc, p')
          else if c =? bs then
            match escapeAt p with
            | Some (out, n) => string_loop (n - 1) (acc ++ out) p'
            | None => None
            end
          else if c <? 0x20 then None
          else if c <? 0x80 then string_loop 0 (acc ++ [c]) p'
          else
            let size := (DecodeRune p).2 in
            if (size <=? 1)%nat then None else string_loop (size - 1) (acc ++ take size p) p'
      end
  end.
Definition jstring (p : str) : option (str * str) :=
  match consume dq p with Some p' => string_loop 0 [] p' | None => None end.

Definition skipLiteral (l : str) (p : str) : option str :=
  if bool_decide (take (length l) p = l) then Some (drop (length l) p) else None.

(** [literal]: the first of the three that is there. *)
Definition literal (p : str) : option (str * str) :=
  match skipLiteral (lit "true") p, skipLiteral (lit "false") p, skipLiteral (lit "null") p with
  | Some p', _, _ => Some (lit "true", p')
  | None, Some p', _ => Some (lit "false", p')
  | None, None, Some p' => Some (lit "null", p')
  | None, None, None => None
  end.

(** [fuel] bounds the turns, each of which consumes a byte. *)
Fixpoint stringArray_loop (fuel : nat) (acc : list str) (p : str) : lexed (list str * str) :=
  match fuel with
  | O => OutOfFuel
  | S f =>
      match jstring (skipSpace p) with
      | None => Declined
      | Some (s, p1) =>
          let p2 := skipSpace p1 in
          match consume 44 p2 with
          | Some p3 => stringArray_loop f (acc ++ [s]) p3
          | None => match consume 93 p2 with Some p3 => Parsed (acc ++ [s], p3) | None => Declined end
          end
      end
  end.
Definition stringArray (p : str) : lexed (list str * str) :=
  match consume 91 p with
  | None => Declined
  | Some p1 =>
      let p2 := skipSpace p1 in
      if peek p2 =? 93 then Parsed ([], drop 1 p2) else stringArray_loop (S (length p2)) [] p2
  end.

(** ** Skipping unknown values *)

Fixpoint skipString_loop (skip : nat) (p : str) : option str :=
  match p with
  | [] => None
  | c :: p' =>
      match skip with
      | S k => skipString_loop k p'
      | O =>
          if c =? dq then Some p'
          else if c =? bs then
            match p' with
            | [] => None
            | e :: p'' =>
                if bool_decide (e ∈ [dq; bs; 47; 98; 102; 110; 114; 116]) then skipString_loop 1 p'
                else if e =? 117 then match decodeU p'' with Some _ => skipString_loop 5 p' | None => None end
                else None
            end
          else if c <? 0x20 then None
          else skipString_loop 0 p'
      end
  end.
Definition skipString (p : str) : option str :=
  match consume dq p with Some p' => skipString_loop 0 p' | None => None end.

Fixpoint skipDigits (p : str) : str :=
  match p with c :: p' => if is_digit c then skipDigits p' else p | [] => [] end.
Definition needDigits (p : str) : option str := if is_digit (peek p) then Some (skipDigits p) else None.

Definition skipNumber (p : str) : option str :=
  let p := match consume 45 p with Some p' => p' | None => p end in
  match (match p with
         | c :: p' => if c =? 48 then Some p' else if in_range 49 57 c then Some (skipDigits p) else None
         | [] => None
         end) with
  | None => None
  | Some p =>
      match (match consume 46 p with Some p' => needDigits p' | None => Some p end) with
      | None => None
      | Some p =>
          if (peek p =? 101) || (peek p =? 69) then
            let p := drop 1 p in
            needDigits (if (peek p =? 43) || (peek p =? 45) then drop 1 p else p)
          else Some p
      end
  end.

(** [fuel] bounds nesting and turns; an object member and an array element are
    handled by the same loops with a different head. *)
Fixpoint skipValue (fuel : nat) (p : str) : lexed str :=
  match fuel with
  | O => OutOfFuel
  | S f =>
      match p with
      | [] => Declined
      | c :: p' =>
          if c =? dq then okOr (skipString p)
          else if c =? 123 then
            let q := skipSpace p' in if peek q =? 125 then Parsed (drop 1 q) else skipMembers f p'
          else if c =? 91 then
            let q := skipSpace p' in if peek q =? 93 then Parsed (drop 1 q) else skipItems f p'
          else if c =? 116 then okOr (skipLiteral (lit "true") p)
          else if c =? 102 then okOr (skipLiteral (lit "false") p)
          else if c =? 110 then okOr (skipLiteral (lit "null") p)
          else if (c =? 45) || is_digit c then okOr (skipNumber p)
          else Declined
      end
  end
with skipMembers (fuel : nat) (p : str) : lexed str :=
  match fuel with
  | O => OutOfFuel
  | S f =>
      match skipString (skipSpace p) with
      | None => Declined
      | Some p1 =>
          match consume 58 (skipSpace p1) with
          | None => Declined
          | Some p2 =>
              bindl (skipValue f (skipSpace p2)) (λ p3,
                let q := skipSpace p3 in
                match consume 44 q with
                | Some p4 => skipMembers f p4
                | None => okOr (consume 125 q)
                end)
          end
      end
  end
with skipItems (fuel : nat) (p : str) : lexed str :=
  match fuel with
  | O => OutOfFuel
  | S f =>
      bindl (skipValue f (skipSpace p)) (λ p3,
        let q := skipSpace p3 in
        match consume 44 q with
        | Some p4 => skipItems f p4
        | None => okOr (consume 93 q)
        end)
  end.

Section Request.
Context `{GoStd}.

Definition requestKeyVariant (key : str) : bool :=
  existsb (λ known, EqualFold key (lit known))
    ["sql"; "sqls"; "auth"; "auth_key"; "params"; "atomic"; "ping"]%string.

Definition set_sql q x := mkRequest x (qSQLs q) (qParams q) (qAuth q) (qAuthKey q) (qAtomic q) (qPing q).
Definition set_sqls q x := mkRequest (qSQL q) x (qParams q) (qAuth q) (qAuthKey q) (qAtomic q) (qPing q).
Definition set_auth q x := mkRequest (qSQL q) (qSQLs q) (qParams q) x (qAuthKey q) (qAtomic q) (qPing q).
Definition set_authKey q x := mkRequest (qSQL q) (qSQLs q) (qParams q) (qAuth q) x (qAtomic q) (qPing q).
Definition set_atomic q x := mkRequest (qSQL q) (qSQLs q) (qParams q) (qAuth q) (qAuthKey q) x (qPing q).
Definition set_ping q x := mkRequest (qSQL q) (qSQLs q) (qParams q) (qAuth q) (qAuthKey q) (qAtomic q) x.

Definition boolField (set : request → bool → request) (q : request) (p : str) : option (request * str) :=
  match literal p with
  | None => None
  | Some (v, p') =>
      if bool_decide (v = lit "true") then Some (set q true, p')
      else if bool_decide (v = lit "false") then Some (set q false, p')
      else Some (q, p')
  end.

Definition strField (set : request → str → request) (q : request) (p : str) : option (request * str) :=
  match jstring p with Some (s, p') => Some (set q s, p') | None => None end.

(** The value of one member; [p] is at the value. *)
Definition requestField (key : str) (q : request) (p : str) : lexed (request * str) :=
  if bool_decide (key = lit "sql") then okOr (strField set_sql q p)
  else if bool_decide (key = lit "sqls") then bindl (stringArray p) (λ '(l, p'), Parsed (set_sqls q l, p'))
  else if bool_decide (key = lit "auth") then okOr (strField set_auth q p)
  else if bool_decide (key = lit "auth_key") then okOr (strField set_authKey q p)
  else if bool_decide (key = lit "params") then Declined
  else if bool_decide (key = lit "atomic") then okOr (boolField set_atomic q p)
  else if bool_decide (key = lit "ping") then okOr (boolField set_ping q p)
  else if requestKeyVariant key then Declined
  else bindl (skipValue (S (2 * length p)) p) (λ p', Parsed (q, p')).

(** [fuel] bounds the members. *)
Fixpoint request_loop (fuel : nat) (q : request) (p : str) : lexed request :=
  match fuel with
  | O => OutOfFuel
  | S f =>
      match jstring (skipSpace p) with
      | None => Declined
      | Some (key, p1) =>
          match consume 58 (skipSpace p1) with
          | None => Declined
          | Some p2 =>
              bindl (requestField key q (skipSpace p2)) (λ '(q', p3),
                let r := skipSpace p3 in
                match consume 44 r with
                | Some p4 => request_loop f q' p4
                | None =>
                    match consume 125 r with
                    | Some p4 => if bool_decide (skipSpace p4 = []) then Parsed q' else Declined
                    | None => Declined
                    end
                end)
          end
      end
  end.

Definition parseRequestFast (payload : str) : lexed request :=
  match consume 123 (skipSpace payload) with
  | None => Declined
  | Some p =>
      if peek p =? 125 then if bool_decide (skipSpace (drop 1 p) = []) then Parsed request0 else Declined
      else request_loop (S (length p)) request0 p
  end.

(** ** Framing *)

Definition maxRequestSize : Z := Z.shiftl 16 20.

Inductive reqErr := QEOF | QTooLarge | QJson (e : err) | QEmpty.

(** [unmarshal]: json.Unmarshal into a request.  The request and the bytes left; the fast
    parser never runs out of its fuel. *)
Definition readRequest (unmarshal : str → request + err) (r : str) (maxBytes : Z)
    : (request + reqErr) * str :=
  let limit := if maxBytes <=? 0 then maxRequestSize else maxBytes in
  if (length r <? 4)%nat then (inr QEOF, [])
  else
    let size := getUint (take 4 r) in
    let r1 := drop 4 r in
    if limit <? size then (inr QTooLarge, r1)
    else if (length r1 <? Z.to_nat size)%nat then (inr QEOF, [])
    else
      let payload := take (Z.to_nat size) r1 in
      let r2 := drop (Z.to_nat size) r1 in
      match (match parseRequestFast payload with Parsed q => inl q | _ => unmarshal payload end) with
      | inr e => (inr (QJson e), r2)
      | inl q =>
          let q := if bool_decide (qAuth q = []) && negb (bool_decide (qAuthKey q = []))
                   then set_auth q (qAuthKey q) else q in
          let q := set_authKey q [] in
          if bool_decide (qSQL q = []) && bool_decide (qSQLs q = []) && negb (qPing q)
          then (inr QEmpty, r2) else (inl q, r2)
      end.

(** [writeResponseLimit] once the response is encoded: header and payload, an
    oversized payload replaced by the encoded error [tooBig]. *)
Definition writeResponseLimit (payload tooBig : str) (maxBytes : Z) : str :=
  let payload := if (0 <? maxBytes) && (maxBytes <? Z.of_nat (length payload)) then tooBig else payload in
  putUint 4 (Z.of_nat (length payload)) ++ payload.
End Request.
