(* ===== verification/RequestProofs.v ===== *)
(** * Requests: JSON strings and requests read back, parsing terminates *)

From S2P Require Import Prelude GoLib Bytes Fold Value Table Bind Json Request.
Open Scope Z_scope.

(** ** Strings *)

(** Well-formed UTF-8, by the decoder. *)
Fixpoint validUTF8_loop (skip : nat) (s : str) : bool :=
  match s with
  | [] => true
  | c :: s' =>
      match skip with
      | S k => validUTF8_loop k s'
      | O => if c <? 128 then (0 <=? c) && validUTF8_loop 0 s'
             else let size := (DecodeRune s).2 in (2 <=? size)%nat && validUTF8_loop (size - 1) s'
      end
  end.
Definition validUTF8 (s : str) : bool := validUTF8_loop 0 s.

Lemma jsonBody_skip k s : jsonBody k s = jsonBody 0 (drop k s).
Proof. revert s. induction k as [|k IH]; intros s; [done|]. destruct s as [|c s]; [done|]. apply IH. Qed.
Lemma validUTF8_skip k s : validUTF8_loop k s = validUTF8_loop 0 (drop k s).
Proof. revert s. induction k as [|k IH]; intros s; [done|]. destruct s as [|c s]; [done|]. apply IH. Qed.
Lemma string_loop_skip k acc p : string_loop k acc p = string_loop 0 acc (drop k p).
Proof. revert p. induction k as [|k IH]; intros p; [done|]. destruct p as [|c p]; [done|]. apply IH. Qed.

(** The width of a rune is at most what is there, and its bytes alone decide. *)
Lemma DecodeRune_prefix s X :
  (2 ≤ (DecodeRune s).2)%nat →
  ((DecodeRune s).2 ≤ length s)%nat ∧ DecodeRune (take (DecodeRune s).2 s ++ X) = DecodeRune s.
Proof.
  destruct s as [|a [|b [|c [|d s]]]]; cbn [DecodeRune]; repeat case_match; cbn [snd]; intros Hs; try lia;
    cbn [take app DecodeRune length];
    repeat match goal with E : ?x = _ |- context [if ?x then _ else _] => rewrite E end; (split; [lia|done]).
Qed.

Lemma hex_digit i : 0 ≤ i < 16 → hexVal (hexAt i) = Some i.
Proof.
  intros Hi. assert (Forall (λ n, hexVal (hexAt (Z.of_nat n)) = Some (Z.of_nat n)) (seq 0 16)) as Hf.
  { apply (bool_decide_unpack _). vm_compute. exact I. }
  rewrite Forall_forall in Hf. specialize (Hf (Z.to_nat i)). rewrite Z2Nat.id in Hf by lia.
  apply Hf, elem_of_seq. lia.
Qed.

Lemma escape_ascii c X acc : 0 ≤ c < 128 →
  string_loop 0 acc (escapeByte c ++ X) = string_loop 0 (acc ++ [c]) X.
Proof.
  intros Hc. unfold escapeByte.
  repeat (match goal with |- context [if ?x =? ?y then _ else _] =>
    destruct (Z.eqb_spec x y) as [->|?]; [reflexivity|] end).
  destruct (Z.ltb_spec c 32).
  - assert (decodeU (48 :: 48 :: hexAt (Z.shiftr c 4) :: hexAt (Z.land c 15) :: X) = Some c) as E.
    { unfold decodeU. rewrite !hex_digit.
      - change (hexVal 48) with (Some 0). cbv iota. f_equal.
        change (Z.land c 15) with (Z.land c (Z.ones 4)). rewrite Z.land_ones, Z.shiftr_div_pow2 by lia.
        change (2 ^ 4) with 16. pose proof (Z.div_mod c 16). lia.
      - change (Z.land c 15) with (Z.land c (Z.ones 4)). rewrite Z.land_ones by lia. apply Z.mod_pos_bound. done.
      - rewrite Z.shiftr_div_pow2 by lia. change (2 ^ 4) with 16. split; [apply Z.div_pos; lia|].
        apply Z.div_lt_upper_bound; lia. }
    change ((bs :: lit "u00" ++ [hexAt (Z.shiftr c 4); hexAt (Z.land c 15)]) ++ X)
      with (bs :: 117 :: 48 :: 48 :: hexAt (Z.shiftr c 4) :: hexAt (Z.land c 15) :: X).
    cbn [string_loop]. change (bs =? dq) with false. change (bs =? bs) with true. cbv iota.
    assert (escapeAt (bs :: 117 :: 48 :: 48 :: hexAt (Z.shiftr c 4) :: hexAt (Z.land c 15) :: X) = Some ([c], 6%nat)) as ->.
    { unfold escapeAt. change (117 =? 117) with true.
      repeat match goal with |- context [if ?b then _ else _] => change b with false; cbv iota end. 
      cbv iota. rewrite E.
      assert (in_range 55296 56319 c = false) as -> by (unfold in_range; destruct (Z.leb_spec 55296 c); [lia|done]).
      assert (in_range 55296 57343 c = false) as -> by (unfold in_range; destruct (Z.leb_spec 55296 c); [lia|done]).
      cbn [andb]. unfold encodeRune. destruct (Z.ltb_spec c 128); [done|lia]. }
    reflexivity.
  - cbn [app string_loop].
    destruct (Z.eqb_spec c dq); [done|]. destruct (Z.eqb_spec c bs); [done|].
    destruct (Z.ltb_spec c 32); [lia|]. destruct (Z.ltb_spec c 128); [done|lia].
Qed.

(** A rune of several bytes is copied. *)
Lemma string_rune s acc X :
  (2 ≤ (DecodeRune s).2)%nat →
  string_loop 0 acc (take (DecodeRune s).2 s ++ X) = string_loop 0 (acc ++ take (DecodeRune s).2 s) X.
Proof.
  intros Hs. destruct (DecodeRune_prefix s X Hs) as [Hl Ep]. destruct s as [|c s]; [simpl in Hs; lia|].
  assert (128 ≤ c) as Hc.
  { destruct (Z.ltb_spec c 128) as [Hc|]; [|done]. cbn [DecodeRune] in Hs.
    rewrite (proj2 (Z.ltb_lt _ _) Hc) in Hs. simpl in Hs. lia. }
  destruct (DecodeRune (c :: s)) as [r size] eqn:Ed. cbn [snd] in *.
  destruct size as [|size]; [lia|]. cbn [take app] in *. cbn [string_loop]. rewrite Ep. cbn [snd].
  destruct (Z.eqb_spec c dq) as [->|]; [by exfalso|]. destruct (Z.eqb_spec c bs) as [->|]; [by exfalso|].
  destruct (Z.ltb_spec c 32); [lia|]. destruct (Z.ltb_spec c 128); [lia|].
  destruct (Nat.leb_spec (S size) 1); [lia|]. replace (S size - 1)%nat with size by lia.
  assert (length (take size s) = size) as Lt by (rewrite length_take; simpl in Hl; lia).
  rewrite string_loop_skip, drop_app_length' by done. cbn [take]. by rewrite take_app_length'.
Qed.

Lemma string_body n : ∀ s acc rest, (length s ≤ n)%nat → validUTF8 s = true →
  string_loop 0 acc (jsonBody 0 s ++ dq :: rest) = Some (acc ++ s, rest).
Proof.
  unfold validUTF8. induction n as [|n IH]; intros s acc rest Hn Hv.
  { destruct s; [|simpl in Hn; lia]. simpl. by rewrite app_nil_r. }
  destruct s as [|c s]; [simpl; by rewrite app_nil_r|].
  cbn [jsonBody validUTF8_loop length] in *. destruct (Z.ltb_spec c 128) as [Hc|Hc].
  - apply andb_true_iff in Hv as [Hc0%Z.leb_le Hv].
    rewrite <- app_assoc, escape_ascii, IH by (done || lia). by rewrite <- app_assoc.
  - apply andb_true_iff in Hv as [Hs%Nat.leb_le Hv]. pose proof (string_rune (c :: s) acc) as Hr.
    pose proof (proj1 (DecodeRune_prefix (c :: s) [] Hs)) as Hl.
    destruct (DecodeRune (c :: s)) as [r size]. cbn [snd] in *.
    destruct (Nat.leb_spec size 1) as [|_]; [lia|]. rewrite andb_false_r, <- app_assoc, Hr by done.
    rewrite jsonBody_skip. rewrite validUTF8_skip in Hv. destruct size as [|size]; [lia|].
    replace (S size - 1)%nat with size in * by lia.
    rewrite IH by (done || (rewrite length_drop; lia)).
    cbn [take]. by rewrite <- app_assoc, <- app_comm_cons, take_drop.
Qed.

Lemma jstring_encoded s rest : validUTF8 s = true → jstring (appendJSONString [] s ++ rest) = Some (s, rest).
Proof.
  intros Hv. unfold jstring, appendJSONString. cbn [app consume]. rewrite Z.eqb_refl, <- app_assoc.
  cbn [app]. by rewrite (string_body (length s)).
Qed.

(** JSON strings survive the round trip between the two hand-written codecs:
    whatever valid UTF-8 text the engine's encoder writes (quotes, backslashes,
    control characters, HTML-escaped bytes, multi-byte runes), the request parser
    decodes to the same text and stops right after it. *)
Theorem json_string_roundtrip out s rest :
  validUTF8 s = true →
  ∃ text, appendJSONString out s = out ++ text ∧ jstring (text ++ rest) = Some (s, rest).
Proof.
  intros Hv. exists (appendJSONString [] s). split; [done|]. by apply jstring_encoded.
Qed.

(** ** Termination *)

Lemma skipSpace_length p : (length (skipSpace p) ≤ length p)%nat.
Proof. induction p as [|c p IH]; [done|]. simpl. case_match; simpl in *; lia. Qed.
Lemma consume_length c p p' : consume c p = Some p' → (length p' < length p)%nat.
Proof. unfold consume. destruct p; [done|]. case_match; [|done]. intros [= ->]. simpl. lia. Qed.
Lemma string_loop_length p : ∀ k acc s p', string_loop k acc p = Some (s, p') → (length p' < length p)%nat.
Proof.
  induction p as [|c p IH]; intros k acc s p'; [done|]. cbn [string_loop length].
  destruct k as [|k]; [|intros Hs%IH; lia].
  repeat case_match; intros Hs; try done; simplify_eq; try lia; apply IH in Hs; lia.
Qed.
Lemma jstring_length p s p' : jstring p = Some (s, p') → (length p' < length p)%nat.
Proof.
  unfold jstring. destruct (consume dq p) as [q|] eqn:E; [|done].
  intros Hs%string_loop_length. apply consume_length in E. lia.
Qed.
Lemma skipString_loop_length p : ∀ k p', skipString_loop k p = Some p' → (length p' < length p)%nat.
Proof.
  induction p as [|c p IH]; intros k p'; [done|]. cbn [skipString_loop length].
  destruct k as [|k]; [|intros Hs%IH; lia].
  destruct (c =? dq); [intros [= ->]; lia|]. destruct (c =? bs).
  { destruct p as [|e p2]; [done|]. case_bool_decide; [intros Hs%IH; simpl in *; lia|].
    destruct (e =? 117); [|done]. destruct (decodeU p2); [|done]. intros Hs%IH. simpl in *. lia. }
  case_match; [done|]. intros Hs%IH. lia.
Qed.
Lemma skipString_length p p' : skipString p = Some p' → (length p' < length p)%nat.
Proof.
  unfold skipString. destruct (consume dq p) as [q|] eqn:E; [|done].
  intros Hs%skipString_loop_length. apply consume_length in E. lia.
Qed.

Lemma skipLiteral_length l p p' : l ≠ [] → skipLiteral l p = Some p' → (length p' < length p)%nat.
Proof.
  unfold skipLiteral. intros Hl. case_bool_decide as E; [|done]. intros [= <-].
  apply (f_equal length) in E. rewrite length_take in E. rewrite length_drop.
  assert (0 < length l)%nat by (destruct l; [done|simpl; lia]). lia.
Qed.
Lemma skipDigits_length p : (length (skipDigits p) ≤ length p)%nat.
Proof. induction p as [|c p IH]; [done|]. simpl. case_match; simpl in *; lia. Qed.
Lemma needDigits_length p p' : needDigits p = Some p' → (length p' ≤ length p)%nat.
Proof. unfold needDigits. case_match; [|done]. intros [= <-]. apply skipDigits_length. Qed.

Lemma skipNumber_length p p' : skipNumber p = Some p' → (length p' < length p)%nat.
Proof.
  unfold skipNumber. set (q := match consume 45 p with Some p' => p' | None => p end).
  assert (length q ≤ length p)%nat as Hq.
  { unfold q. destruct (consume 45 p) eqn:E; [apply consume_length in E; lia|done]. }
  destruct q as [|c q']; [done|].
  match goal with |- context [match ?x with Some _ => _ | None => None end] => destruct x as [a|] eqn:Ea end; [|done].
  assert (length a < length p)%nat as Hla.
  { destruct (c =? 48); [injection Ea as ->; simpl in Hq; lia|].
    destruct (in_range 49 57 c) eqn:Er; [|done]. injection Ea as <-. cbn [skipDigits].
    assert (is_digit c = true) as -> by (unfold in_range in Er; unfold is_digit; btoz;
      apply andb_true_iff; split; apply Z.leb_le; lia).
    pose proof (skipDigits_length q'). simpl in Hq. lia. }
  match goal with |- context [match ?x with Some _ => _ | None => None end] => destruct x as [b|] eqn:Eb end; [|done].
  assert (length b ≤ length a)%nat as Hlb.
  { destruct (consume 46 a) eqn:E; [apply consume_length in E; apply needDigits_length in Eb; lia|by injection Eb as ->]. }
  destruct ((peek b =? 101) || (peek b =? 69)); [|intros Hn; injection Hn as <-; lia].
  intros Hn%needDigits_length. pose proof (length_drop b 1). pose proof (length_drop (drop 1 b) 1).
  destruct ((peek (drop 1 b) =? 43) || (peek (drop 1 b) =? 45)); lia.
Qed.

Lemma okOr_Parsed {A} (x : option A) a : okOr x = Parsed a → x = Some a.
Proof. destruct x; naive_solver. Qed.
Lemma okOr_ends {A} (x : option A) : okOr x ≠ OutOfFuel.
Proof. by destruct x. Qed.
#[local] Hint Resolve okOr_ends : go.

(** Success consumes input, for any fuel. *)
Lemma skip_lengths f :
  (∀ p p', skipValue f p = Parsed p' → (length p' < length p)%nat) ∧
  (∀ p p', skipMembers f p = Parsed p' → (length p' < length p)%nat) ∧
  (∀ p p', skipItems f p = Parsed p' → (length p' < length p)%nat).
Proof.
  induction f as [|f (IHv & IHm & IHi)]; [done|]. split_and!; intros p p' Hs.
  - cbn [skipValue] in Hs. destruct p as [|c p1]; [done|]. pose proof (skipSpace_length p1) as Hsp.
    destruct (c =? dq); [by apply skipString_length, okOr_Parsed|].
    destruct (c =? 123).
    { destruct (peek (skipSpace p1) =? 125); [injection Hs as <-; rewrite length_drop|apply IHm in Hs]; simpl; lia. }
    destruct (c =? 91).
    { destruct (peek (skipSpace p1) =? 93); [injection Hs as <-; rewrite length_drop|apply IHi in Hs]; simpl; lia. }
    destruct (c =? 116); [by apply (skipLiteral_length (lit "true")), okOr_Parsed|].
    destruct (c =? 102); [by apply (skipLiteral_length (lit "false")), okOr_Parsed|].
    destruct (c =? 110); [by apply (skipLiteral_length (lit "null")), okOr_Parsed|].
    destruct ((c =? 45) || is_digit c); [by apply skipNumber_length, okOr_Parsed|done].
  - cbn [skipMembers] in Hs. pose proof (skipSpace_length p).
    destruct (skipString (skipSpace p)) as [p1|] eqn:E1; [|done]. apply skipString_length in E1.
    destruct (consume 58 (skipSpace p1)) as [p2|] eqn:E2; [|done]. apply consume_length in E2.
    destruct (skipValue f (skipSpace p2)) as [p3| |] eqn:E3; [|done..]. apply IHv in E3. cbn [bindl] in Hs.
    pose proof (skipSpace_length p1). pose proof (skipSpace_length p2). pose proof (skipSpace_length p3).
    destruct (consume 44 (skipSpace p3)) as [p4|] eqn:E4; [apply consume_length in E4; apply IHm in Hs; lia|].
    apply okOr_Parsed, consume_length in Hs. lia.
  - cbn [skipItems] in Hs. pose proof (skipSpace_length p).
    destruct (skipValue f (skipSpace p)) as [p3| |] eqn:E3; [|done..]. apply IHv in E3. cbn [bindl] in Hs.
    pose proof (skipSpace_length p3).
    destruct (consume 44 (skipSpace p3)) as [p4|] eqn:E4; [apply consume_length in E4; apply IHi in Hs; lia|].
    apply okOr_Parsed, consume_length in Hs. lia.
Qed.

(** Every turn comes after a byte that was consumed, a nested value after one more. *)
Lemma skip_ends f :
  (∀ p, (2 * length p < f)%nat → skipValue f p ≠ OutOfFuel) ∧
  (∀ p, (2 * length p + 1 < f)%nat → skipMembers f p ≠ OutOfFuel) ∧
  (∀ p, (2 * length p + 1 < f)%nat → skipItems f p ≠ OutOfFuel).
Proof.
  induction f as [|f (IHv & IHm & IHi)]; [split_and!; lia|]. split_and!; intros p Hp.
  - cbn [skipValue]. destruct p as [|c p1]; [done|]. cbn [length] in Hp.
    repeat (case_match; [solve [auto with go]||idtac|]); try done; auto with go.
    all: (apply IHm || apply IHi); lia.
  - cbn [skipMembers]. pose proof (skipSpace_length p).
    destruct (skipString (skipSpace p)) as [p1|] eqn:E1; [|done]. apply skipString_length in E1.
    destruct (consume 58 (skipSpace p1)) as [p2|] eqn:E2; [|done]. apply consume_length in E2.
    pose proof (skipSpace_length p1). pose proof (skipSpace_length p2).
    specialize (IHv (skipSpace p2) ltac:(lia)).
    destruct (skipValue f (skipSpace p2)) as [p3| |] eqn:E3; [|done..]. cbn [bindl].
    apply (proj1 (skip_lengths f)) in E3. pose proof (skipSpace_length p3).
    destruct (consume 44 (skipSpace p3)) as [p4|] eqn:E4; [|apply okOr_ends]. apply consume_length in E4. apply IHm. lia.
  - cbn [skipItems]. pose proof (skipSpace_length p).
    specialize (IHv (skipSpace p) ltac:(lia)).
    destruct (skipValue f (skipSpace p)) as [p3| |] eqn:E3; [|done..]. cbn [bindl].
    apply (proj1 (skip_lengths f)) in E3. pose proof (skipSpace_length p3).
    destruct (consume 44 (skipSpace p3)) as [p4|] eqn:E4; [|apply okOr_ends]. apply consume_length in E4. apply IHi. lia.
Qed.

Lemma stringArray_length f : ∀ acc p l p', stringArray_loop f acc p = Parsed (l, p') → (length p' < length p)%nat.
Proof.
  induction f as [|f IH]; intros acc p l p'; [done|]. cbn [stringArray_loop].
  destruct (jstring (skipSpace p)) as [[s p1]|] eqn:E1; [|done]. apply jstring_length in E1.
  pose proof (skipSpace_length p). pose proof (skipSpace_length p1).
  destruct (consume 44 (skipSpace p1)) as [p2|] eqn:E2; [apply consume_length in E2; intros Hs%IH; lia|].
  destruct (consume 93 (skipSpace p1)) as [p2|] eqn:E3; [|done]. apply consume_length in E3.
  intros [= <- <-]. lia.
Qed.

Lemma stringArray_ends f : ∀ acc p, (length p < f)%nat → stringArray_loop f acc p ≠ OutOfFuel.
Proof.
  induction f as [|f IH]; intros acc p Hp; [lia|]. cbn [stringArray_loop].
  destruct (jstring (skipSpace p)) as [[s p1]|] eqn:E1; [|done]. apply jstring_length in E1.
  pose proof (skipSpace_length p). pose proof (skipSpace_length p1).
  destruct (consume 44 (skipSpace p1)) as [p2|] eqn:E2; [apply consume_length in E2; apply IH; lia|].
  by destruct (consume 93 (skipSpace p1)).
Qed.

Section RequestProofs.
Context `{GoStd}.

Lemma literal_length p v p' : literal p = Some (v, p') → (length p' < length p)%nat.
Proof.
  unfold literal. repeat case_match; intros ?; simplify_eq;
    match goal with E : skipLiteral _ _ = Some _ |- _ => by apply skipLiteral_length in E end.
Qed.

Lemma requestField_length key q p q' p' : requestField key q p = Parsed (q', p') → (length p' ≤ length p)%nat.
Proof.
  unfold requestField, strField, boolField. intros Hf.
  assert (Hj : ∀ s r, jstring p = Some (s, r) → (length r ≤ length p)%nat) by (intros ? ? ?%jstring_length; lia).
  assert (Hl : ∀ v r, literal p = Some (v, r) → (length r ≤ length p)%nat) by (intros ? ? ?%literal_length; lia).
  assert (Ha : ∀ l r, stringArray p = Parsed (l, r) → (length r ≤ length p)%nat).
  { unfold stringArray. intros l r. destruct (consume 91 p) as [p1|] eqn:E; [|done]. apply consume_length in E.
    pose proof (skipSpace_length p1). assert (length (drop 1 (skipSpace p1)) ≤ length p1)%nat by (rewrite length_drop; lia).
    destruct (peek (skipSpace p1) =? 93); [intros ?; simplify_eq; cbn [drop] in *; lia|]. intros ?%stringArray_length. lia. }
  assert (Hv : ∀ f r, skipValue f p = Parsed r → (length r ≤ length p)%nat).
  { intros f r Hr%(proj1 (skip_lengths f)). lia. }
  unfold okOr, bindl in Hf. repeat case_match; simplify_eq; eauto.
Qed.

Lemma requestField_ends key q p : requestField key q p ≠ OutOfFuel.
Proof.
  assert (stringArray p ≠ OutOfFuel) as Ha.
  { unfold stringArray. destruct (consume 91 p); [|done]. case_match; [done|]. apply stringArray_ends. lia. }
  assert (skipValue (S (2 * length p)) p ≠ OutOfFuel) as Hv by (apply (proj1 (skip_ends _)); lia).
  unfold requestField. repeat (case_match; [solve [auto with go|done|by destruct (stringArray p) as [[]| |]]|]).
  by destruct (skipValue _ p).
Qed.

Lemma request_ends f : ∀ q p, (length p < f)%nat → request_loop f q p ≠ OutOfFuel.
Proof.
  induction f as [|f IH]; intros q p Hp; [lia|]. cbn [request_loop].
  destruct (jstring (skipSpace p)) as [[s p1]|] eqn:E1; [|done]. apply jstring_length in E1.
  destruct (consume 58 (skipSpace p1)) as [p2|] eqn:E2; [|done]. apply consume_length in E2.
  pose proof (requestField_ends s q (skipSpace p2)).
  destruct (requestField s q (skipSpace p2)) as [[q' p3]| |] eqn:E3; [|done..]. apply requestField_length in E3. cbn [bindl].
  pose proof (skipSpace_length p). pose proof (skipSpace_length p1).
  pose proof (skipSpace_length p2). pose proof (skipSpace_length p3).
  destruct (consume 44 (skipSpace p3)) as [p4|] eqn:E4; [apply consume_length in E4; apply IH; lia|].
  repeat case_match; done.
Qed.

(** C38: The request parser terminates on every payload.  A loop that is cut off by the
    model's bound reports [OutOfFuel], which is neither a result nor a refusal; it never
    does: not the parser on a payload, and none of its loops (over members, over array
    elements, over nested values of unknown members) from any position with a bound of
    the length of what is left, twice that for nested values. *)
Theorem request_parser_terminates :
  (∀ payload, parseRequestFast payload ≠ OutOfFuel) ∧
  (∀ f q p, (length p < f)%nat → request_loop f q p ≠ OutOfFuel) ∧
  (∀ f acc p, (length p < f)%nat → stringArray_loop f acc p ≠ OutOfFuel) ∧
  (∀ f p, (2 * length p < f)%nat → skipValue f p ≠ OutOfFuel).
Proof.
  split_and!; [|apply request_ends|apply stringArray_ends|intros f; apply (proj1 (skip_ends f))].
  intros payload. unfold parseRequestFast. destruct (consume 123 _); [|done].
  repeat case_match; [done..|]. apply request_ends. lia.
Qed.

(** ** Whole requests *)

(** The members of a request as encoding/json writes them: empty ones omitted. *)
Definition strMember (name : string) (s : str) : list (str * str) :=
  if bool_decide (s = []) then [] else [(lit name, appendJSONString [] s)].
Definition boolMember (name : string) (b : bool) : list (str * str) :=
  if b then [(lit name, lit "true")] else [].
Definition listMember (name : string) (l : list str) : list (str * str) :=
  if bool_decide (l = []) then [] else [(lit name, appendJSONStringArray [] l)].

Definition requestMembers (q : request) : list (str * str) :=
  strMember "sql" (qSQL q) ++ listMember "sqls" (qSQLs q) ++ strMember "auth" (qAuth q)
  ++ strMember "auth_key" (qAuthKey q) ++ boolMember "atomic" (qAtomic q) ++ boolMember "ping" (qPing q).

Fixpoint joinMembers (l : list (str * str)) : str :=
  match l with
  | [] => []
  | [m] => appendJSONString [] m.1 ++ 58 :: m.2
  | m :: l' => appendJSONString [] m.1 ++ 58 :: m.2 ++ 44 :: joinMembers l'
  end.
Definition encodeRequest (q : request) : str := 123 :: joinMembers (requestMembers q) ++ [125].

(** A member that reads back: the parser applies [f] to the request. *)
Record reads (m : str * str) (f : request → request) : Prop := {
  reads_key : validUTF8 m.1 = true;
  reads_head : ∃ c s, m.2 = c :: s ∧ isJsonSpace c = false;
  reads_value : ∀ q X, (∃ c Y, X = c :: Y ∧ (c = 44 ∨ c = 125)) → requestField m.1 q (m.2 ++ X) = Parsed (f q, X);
}.

Lemma appendStrings_app l : ∀ first out out', appendStrings_loop first (out ++ out') l = out ++ appendStrings_loop first out' l.
Proof.
  induction l as [|s l IH]; intros first out out'; [done|]. cbn [appendStrings_loop].
  rewrite <- IH. f_equal. unfold appendJSONString. destruct first; by rewrite <- !app_assoc.
Qed.

(** The elements of an array, after the opening bracket. *)
Lemma stringArray_encoded l : ∀ f acc X, l ≠ [] → Forall (λ s, validUTF8 s = true) l → (length l ≤ f)%nat →
  stringArray_loop f acc (appendStrings_loop true [] l ++ 93 :: X) = Parsed (acc ++ l, X).
Proof.
  assert (Hone : ∀ s Y, skipSpace (appendJSONString [] s ++ Y) = appendJSONString [] s ++ Y) by done.
  induction l as [|s l IH]; intros f acc X Hne Hv Hf; [done|].
  apply Forall_cons in Hv as [Hs Hv]. destruct f as [|f]; [simpl in Hf; lia|].
  cbn [appendStrings_loop]. destruct l as [|s2 l].
  - cbn [appendStrings_loop stringArray_loop]. rewrite Hone, jstring_encoded by done. done.
  - assert (appendStrings_loop false (appendJSONString [] s) (s2 :: l)
            = appendJSONString [] s ++ 44 :: appendStrings_loop true [] (s2 :: l)) as ->.
    { cbn [appendStrings_loop].
      replace (appendJSONString (appendJSONString [] s ++ [44]) s2)
        with ((appendJSONString [] s ++ [44]) ++ appendJSONString [] s2)
        by (unfold appendJSONString; by rewrite <- !app_assoc).
      rewrite appendStrings_app. rewrite <- app_assoc. done. }
    rewrite <- app_assoc. cbn [stringArray_loop]. rewrite Hone, jstring_encoded by done.
    cbn [app skipSpace]. change (isJsonSpace 44) with false.
    cbv iota. cbn [consume]. change (44 =? 44) with true. cbv iota.
    rewrite IH by (done || (simpl in *; lia)). by rewrite <- app_assoc.
Qed.

(** Each kind of member reads back. *)
Definition valid_all (q : request) : Prop :=
  validUTF8 (qSQL q) = true ∧ Forall (λ s, validUTF8 s = true) (qSQLs q) ∧
  validUTF8 (qAuth q) = true ∧ validUTF8 (qAuthKey q) = true.

Lemma stringArray_read l X : l ≠ [] → Forall (λ s, validUTF8 s = true) l →
  stringArray (appendJSONStringArray [] l ++ X) = Parsed (l, X).
Proof.
  intros Hne Hv. unfold stringArray, appendJSONStringArray. cbn [app].
  change (appendStrings_loop true [91] l) with (appendStrings_loop true ([91] ++ []) l).
  rewrite (appendStrings_app l true [91] []), <- !app_assoc. cbn [app consume].
  change (91 =? 91) with true. cbv iota.
  assert (∃ Y, appendStrings_loop true [] l ++ 93 :: X = dq :: Y) as [Y HY].
  { destruct l as [|s l]; [done|]. cbn [appendStrings_loop].
    rewrite <- (app_nil_r (appendJSONString [] s)), appendStrings_app. by eexists. }
  rewrite HY. change (skipSpace (dq :: Y)) with (dq :: Y). cbn [peek].
  change (dq =? 93) with false. cbv iota. rewrite <- HY, stringArray_encoded; [done..|].
  rewrite length_app. cut (length l ≤ length (appendStrings_loop true [] l))%nat; [lia|].
  clear. generalize true. assert (∀ out first, (length out + length l ≤ length (appendStrings_loop first out l))%nat) as Hl.
  { induction l as [|s l IH]; intros out first; cbn [appendStrings_loop length]; [lia|].
    etransitivity; [|apply IH]. destruct first; unfold appendJSONString; rewrite !length_app; simpl; lia. }
  intros b. exact (Hl [] b).
Qed.

Lemma strMember_reads name set s :
  validUTF8 (lit name) = true → validUTF8 s = true →
  (∀ q p, requestField (lit name) q p = okOr (strField set q p)) →
  Forall (λ m, reads m (λ q, set q s)) (strMember name s).
Proof.
  intros Hk Hs Hf. unfold strMember. case_bool_decide; [constructor|]. repeat constructor; [done|by do 2 eexists|].
  intros q X _. cbn [fst snd]. rewrite Hf. unfold strField. by rewrite jstring_encoded.
Qed.

Lemma boolMember_reads name set b :
  validUTF8 (lit name) = true → (∀ q p, requestField (lit name) q p = okOr (boolField set q p)) →
  Forall (λ m, reads m (λ q, set q b)) (boolMember name b).
Proof.
  intros Hk Hf. unfold boolMember. destruct b; repeat constructor; [done|by do 2 eexists|].
  intros q X _. cbn [fst snd]. rewrite Hf. reflexivity.
Qed.

Lemma listMember_reads l : Forall (λ s, validUTF8 s = true) l →
  Forall (λ m, reads m (λ q, set_sqls q l)) (listMember "sqls" l).
Proof.
  intros Hl. unfold listMember. case_bool_decide as E; [constructor|]. repeat constructor.
  { exists 91, (drop 1 (appendJSONStringArray [] l)). cbn [snd]. split; [|done].
    unfold appendJSONStringArray. cbn [app].
    change (appendStrings_loop true [91] l) with (appendStrings_loop true ([91] ++ []) l).
    by rewrite (appendStrings_app l true [91] []). }
  intros q X _. cbn [fst snd]. change (requestField (lit "sqls") q ?p)
    with (bindl (stringArray p) (λ '(l, p'), Parsed (set_sqls q l, p'))).
  by rewrite stringArray_read.
Qed.

(** The loop over members that all read back. *)
Lemma request_loop_reads ms fs : Forall2 reads ms fs → ms ≠ [] → ∀ f q, (length ms ≤ f)%nat →
  request_loop f q (joinMembers ms ++ [125]) = Parsed (fold_left (λ q g, g q) fs q).
Proof.
  assert (Hone : ∀ s Y, skipSpace (appendJSONString [] s ++ Y) = appendJSONString [] s ++ Y) by done.
  assert (Hstep : ∀ m g f q Y, reads m g → (∃ c Z, Y = c :: Z ∧ (c = 44 ∨ c = 125)) →
    request_loop (S f) q (appendJSONString [] m.1 ++ 58 :: m.2 ++ Y) =
    match consume 44 Y with
    | Some p4 => request_loop f (g q) p4
    | None => match consume 125 Y with
              | Some p4 => if bool_decide (skipSpace p4 = []) then Parsed (g q) else Declined | None => Declined end
    end).
  { intros m g f q Y [Hk (c & s & Ec & Hc) Hv] HY. cbn [request_loop]. rewrite Hone, jstring_encoded by done.
    cbn [skipSpace]. change (isJsonSpace 58) with false. cbv iota. cbn [consume]. change (58 =? 58) with true. cbv iota.
    assert (skipSpace (m.2 ++ Y) = m.2 ++ Y) as -> by (rewrite Ec; cbn [app skipSpace]; by rewrite Hc).
    rewrite Hv by done. destruct HY as (d & Z & -> & [-> | ->]); reflexivity. }
  induction 1 as [|m g ms fs Hm Hms IH]; intros Hne f q Hf; [done|].
  destruct f as [|f]; [simpl in Hf; lia|]. cbn [joinMembers fold_left].
  destruct ms as [|m2 ms].
  - inversion Hms; subst. rewrite <- app_assoc. cbn [app]. rewrite (Hstep m g) by eauto. reflexivity.
  - rewrite <- app_assoc. cbn [app]. rewrite <- app_assoc. cbn [app].
    rewrite (Hstep m g) by eauto. cbn [consume]. change (44 =? 44) with true. cbv iota.
    apply IH; [done|]. simpl in *. lia.
Qed.

(** A request written as its wire members (empty ones omitted, as its struct
    tags have it) is accepted by the single-pass parser, which reads back the same
    statement, batch, credentials, atomicity and ping flag, whatever their text. *)
Theorem request_roundtrip (q : request) :
  qParams q = [] → valid_all q → parseRequestFast (encodeRequest q) = Parsed q.
Proof.
  intros Hp (H1 & H2 & H3 & H4).
  assert (∃ fs, Forall2 reads (requestMembers q) fs ∧ fold_left (λ q g, g q) fs request0 = q) as (fs & Hfs & Hq).
  { destruct q as [sql sqls params auth authKey atomic ping]. cbn [qSQL qSQLs qParams qAuth qAuthKey qAtomic qPing] in *.
    subst params. unfold requestMembers. cbn [qSQL qSQLs qParams qAuth qAuthKey qAtomic qPing].
    pose proof (strMember_reads "sql" set_sql sql eq_refl H1 (λ _ _, eq_refl)) as R1.
    pose proof (listMember_reads sqls H2) as R2.
    pose proof (strMember_reads "auth" set_auth auth eq_refl H3 (λ _ _, eq_refl)) as R3.
    pose proof (strMember_reads "auth_key" set_authKey authKey eq_refl H4 (λ _ _, eq_refl)) as R4.
    pose proof (boolMember_reads "atomic" set_atomic atomic eq_refl (λ _ _, eq_refl)) as R5.
    pose proof (boolMember_reads "ping" set_ping ping eq_refl (λ _ _, eq_refl)) as R6.
    assert (Hrep : ∀ ms g, Forall (λ m, reads m g) ms → Forall2 reads ms (replicate (length ms) g))
      by (induction 1; constructor; done).
    eexists. split; [repeat (apply Forall2_app; [apply Hrep; eassumption|]); apply Hrep; eassumption|].
    rewrite !fold_left_app. unfold strMember, listMember, boolMember.
    repeat case_bool_decide; destruct atomic, ping; subst; reflexivity. }
  unfold parseRequestFast, encodeRequest. cbn [skipSpace]. change (isJsonSpace 123) with false. cbv iota.
  cbn [consume]. change (123 =? 123) with true. cbv iota.
  destruct (requestMembers q) as [|m ms] eqn:Em.
  { apply Forall2_nil_inv_l in Hfs as ->. by rewrite <- Hq. }
  assert (peek (joinMembers (m :: ms) ++ [125]) = dq) as ->.
  { cbn [joinMembers]. by destruct ms. }
  change (dq =? 125) with false. cbv iota. rewrite (request_loop_reads _ fs), Hq; [done..|].
  clear. induction (m :: ms) as [|x l IH]; [simpl; lia|]. cbn [joinMembers length].
  rewrite length_app in *. destruct l; rewrite ?length_app in *; cbn [length] in *; rewrite ?length_app in *; cbn [length] in *; lia.
Qed.
End RequestProofs.
