(* ===== verification/JsonText.v ===== *)
(** * encoding/json: texts, values and compaction

    What the code uses of the standard library's JSON package: the scanner's
    grammar with its nesting limit, the decoding of strings, [json.Unmarshal]'s
    reading of a whole text, and the compaction that [json.Marshal] applies to the
    output of a [MarshalJSON] method. *)

From S2P Require Import Prelude GoLib Json Request.
Open Scope Z_scope.

(** A JSON value; a number keeps its text ([UseNumber]), an object its members in
    order, repeated names included. *)
Unset Elimination Schemes.
Inductive json :=
| JNull
| JBool (b : bool)
| JNum (t : str)
| JStr (s : str)
| JArr (l : list json)
| JObj (l : list (str * json)).
Set Elimination Schemes.

(** ** Strings *)

Definition isSurrogate (r : Z) : bool := in_range 0xD800 0xDFFF r.

(** [getu4]: [b] starts at the backslash. *)
Definition getu4 (b : str) : option Z :=
  match b with c :: u :: b' => if (c =? bs) && (u =? 117) then decodeU b' else None | _ => None end.

(** [utf16.DecodeRune], [None] for the replacement character. *)
Definition utf16_DecodeRune (r1 r2 : Z) : option Z :=
  if in_range 0xD800 0xDBFF r1 && in_range 0xDC00 0xDFFF r2
  then Some (0x10000 + Z.shiftl (r1 - 0xD800) 10 + (r2 - 0xDC00)) else None.

(** One escape; [b] starts at the backslash.  The scanner rejects every other one. *)
Definition unquoteEscape (b : str) : option (str * nat) :=
  match b with
  | _ :: e :: _ =>
      if (e =? dq) || (e =? bs) || (e =? 47) then Some ([e], 2%nat)
      else if e =? 98 then Some ([8], 2%nat)
      else if e =? 102 then Some ([12], 2%nat)
      else if e =? 110 then Some ([10], 2%nat)
      else if e =? 114 then Some ([13], 2%nat)
      else if e =? 116 then Some ([9], 2%nat)
      else match getu4 b with
      | None => None
      | Some r =>
          if isSurrogate r then
            match getu4 (drop 6 b) with
            | Some r2 =>
                match utf16_DecodeRune r r2 with
                | Some dec => Some (encodeRune dec, 12%nat)
                | None => Some (replacementRune, 6%nat)
                end
            | None => Some (replacementRune, 6%nat)
            end
          else Some (encodeRune r, 6%nat)
      end
  | _ => None
  end.

(** The scanner and [unquote] in one pass, after the opening quote; invalid UTF-8
    becomes the replacement character.  [skip] bytes are still to pass over. *)
Fixpoint unquote_loop (skip : nat) (acc : str) (p : str) : option (str * str) :=
  match p with
  | [] => None
  | c :: p' =>
      match skip with
      | S k => unquote_loop k acc p'
      | O =>
          if c =? dq then Some (acc, p')
          else if c =? bs then
            match unquoteEscape p with
            | Some (out, n) => unquote_loop (n - 1) (acc ++ out) p'
            | None => None
            end
          else if c <? 0x20 then None
          else if c <? 0x80 then unquote_loop 0 (acc ++ [c]) p'
          else
            let size := (DecodeRune p).2 in
            if (size <=? 1)%nat then unquote_loop 0 (acc ++ replacementRune) p'
            else unquote_loop (size - 1) (acc ++ take size p) p'
      end
  end.
Definition unquote (p : str) : option (str * str) :=
  match consume dq p with Some p' => unquote_loop 0 [] p' | None => None end.

(** ** Values *)

Definition maxNestingDepth : Z := 10000.

(** The text of a number and what follows it. *)
Definition scanNumber (p : str) : option (str * str) :=
  match skipNumber p with
  | Some p' => Some (take (length p - length p') p, p')
  | None => None
  end.

(** [p] is at the value; [depth] arrays and objects are open.  [fuel] bounds the
    calls, of which there are at most two per byte. *)
Fixpoint scanValue (fuel : nat) (depth : Z) (p : str) : option (json * str) :=
  match fuel with
  | O => None
  | S f =>
      match p with
      | [] => None
      | c :: p' =>
          if c =? dq then match unquote p with Some (s, r) => Some (JStr s, r) | None => None end
          else if c =? 123 then
            if maxNestingDepth <? depth + 1 then None
            else let q := skipSpace p' in
                 if peek q =? 125 then Some (JObj [], drop 1 q)
                 else match scanMembers f (depth + 1) p' with Some (l, r) => Some (JObj l, r) | None => None end
          else if c =? 91 then
            if maxNestingDepth <? depth + 1 then None
            else let q := skipSpace p' in
                 if peek q =? 93 then Some (JArr [], drop 1 q)
                 else match scanItems f (depth + 1) p' with Some (l, r) => Some (JArr l, r) | None => None end
          else if c =? 116 then match skipLiteral (lit "true") p with Some r => Some (JBool true, r) | None => None end
          else if c =? 102 then match skipLiteral (lit "false") p with Some r => Some (JBool false, r) | None => None end
          else if c =? 110 then match skipLiteral (lit "null") p with Some r => Some (JNull, r) | None => None end
          else if (c =? 45) || is_digit c then
            match scanNumber p with Some (t, r) => Some (JNum t, r) | None => None end
          else None
      end
  end
with scanMembers (fuel : nat) (depth : Z) (p : str) : option (list (str * json) * str) :=
  match fuel with
  | O => None
  | S f =>
      match unquote (skipSpace p) with
      | None => None
      | Some (k, p1) =>
          match consume 58 (skipSpace p1) with
          | None => None
          | Some p2 =>
              match scanValue f depth (skipSpace p2) with
              | None => None
              | Some (v, p3) =>
                  let q := skipSpace p3 in
                  match consume 44 q with
                  | Some p4 => match scanMembers f depth p4 with
                               | Some (l, r) => Some ((k, v) :: l, r) | None => None end
                  | None => match consume 125 q with Some r => Some ([(k, v)], r) | None => None end
                  end
              end
          end
      end
  end
with scanItems (fuel : nat) (depth : Z) (p : str) : option (list json * str) :=
  match fuel with
  | O => None
  | S f =>
      match scanValue f depth (skipSpace p) with
      | None => None
      | Some (v, p3) =>
          let q := skipSpace p3 in
          match consume 44 q with
          | Some p4 => match scanItems f depth p4 with Some (l, r) => Some (v :: l, r) | None => None end
          | None => match consume 93 q with Some r => Some ([v], r) | None => None end
          end
      end
  end.

Definition scanFuel (p : str) : nat := S (2 * length p).

(** A whole text: one value between spaces. *)
Definition parseJSON (b : str) : option json :=
  let p := skipSpace b in
  match scanValue (scanFuel p) 0 p with
  | Some (v, r) => if bool_decide (skipSpace r = []) then Some v else None
  | None => None
  end.

(** ** Compaction *)

(** The state of a compaction: inside a string, and after a backslash in it. *)
Definition compactByte (q : bool) (c : Z) : str := if negb q && isJsonSpace c then [] else [c].
Definition compactQuote (q e : bool) (c : Z) : bool := if (c =? dq) && negb e then negb q else q.
Definition compactEsc (q e : bool) (c : Z) : bool := q && negb e && (c =? bs).

(** U+2028 or U+2029 at the head. *)
Definition lineSep (p : str) : bool :=
  match p with
  | a :: b :: d :: _ => (a =? 0xE2) && (b =? 0x80) && ((d =? 0xA8) || (d =? 0xA9))
  | _ => false
  end.

(** [appendCompact] with HTML escaping on a valid text: spaces between tokens go,
    and '<', '>', '&', U+2028 and U+2029 are escaped. *)
Fixpoint compact_loop (q e : bool) (skip : nat) (p : str) : str :=
  match p with
  | [] => []
  | c :: p' =>
      match skip with
      | S k => compact_loop q e k p'
      | O =>
          if (c =? 60) || (c =? 62) || (c =? 38)
          then (bs :: lit "u00" ++ [hexAt (Z.shiftr c 4); hexAt (Z.land c 15)]) ++ compact_loop q false 0 p'
          else if lineSep p
          then (bs :: lit "u202" ++ [hexAt (Z.land (nth 1 p' 0) 15)]) ++ compact_loop q false 2 p'
          else compactByte q c ++ compact_loop (compactQuote q e c) (compactEsc q e c) 0 p'
      end
  end.

(** [json.Marshal] of a value whose [MarshalJSON] returned [b]: the text must be
    valid, and is compacted. *)
Definition marshalText (b : str) : str + err :=
  match parseJSON b with
  | Some _ => inl (compact_loop false false 0 b)
  | None => inr (EMsg (lit "json: error calling MarshalJSON"))
  end.

