(* ===== verification/JsonTextProofs.v ===== *)
(** * JSON texts: what is printed is read back, compacted or not *)

From S2P Require Import Prelude GoLib GoFacts Fold Value Bytes Bind Json Request RequestProofs JsonText.
Open Scope Z_scope.

Lemma json_ind (P : json → Prop) :
  P JNull → (∀ b, P (JBool b)) → (∀ t, P (JNum t)) → (∀ s, P (JStr s)) →
  (∀ l, Forall P l → P (JArr l)) → (∀ l, Forall (λ p, P p.2) l → P (JObj l)) → ∀ j, P j.
Proof.
  intros Hn Hb Hm Hs Ha Ho. fix IH 1. intros [|b|t|s|l|l]; [done|auto..| |].
  - apply Ha. induction l; constructor; auto.
  - apply Ho. induction l; constructor; auto.
Qed.

(** ** Strings: the request parser and encoding/json agree *)

Lemma getu4_drop6 b : default 0 (b !! 6%nat) = bs → default 0 (b !! 7%nat) = 117 → getu4 (drop 6 b) = decodeU (drop 8 b).
Proof.
  intros H6 H7. destruct (b !! 6%nat) as [c|] eqn:E6; [|done]. destruct (b !! 7%nat) as [d|] eqn:E7; [|done].
  simpl in H6, H7. subst. by rewrite (drop_S _ _ _ E6), (drop_S _ _ _ E7).
Qed.

Lemma escape_agree b out n : escapeAt (bs :: b) = Some (out, n) → unquoteEscape (bs :: b) = Some (out, n).
Proof.
  destruct b as [|e b2]; [done|]. unfold escapeAt, unquoteEscape. repeat (case_match; [done|]).
  destruct (Z.eqb_spec e 117) as [->|]; [|done]. change (getu4 (bs :: 117 :: b2)) with (decodeU b2).
  destruct (decodeU b2) as [r|]; [|done].
  destruct (in_range 55296 56319 r && _ && _ && _) eqn:E.
  - rewrite !andb_true_iff, !Z.eqb_eq in E. destruct E as [[[Hr _] H6] H7]. rewrite getu4_drop6 by done.
    destruct (decodeU (drop 8 _)) as [lo|]; [|done]. destruct (in_range 56320 57343 lo) eqn:El; [|done].
    intros [= <- <-]. assert (isSurrogate r = true) as ->.
    { unfold isSurrogate, in_range in *. rewrite andb_true_iff, !Z.leb_le in *. lia. }
    unfold utf16_DecodeRune. by rewrite Hr, El.
  - destruct (in_range 55296 57343 r) eqn:Es; [done|]. unfold isSurrogate. by rewrite Es.
Qed.

(** Whatever string the request parser accepts, encoding/json reads the same. *)
Lemma string_agree p : ∀ k acc r, string_loop k acc p = Some r → unquote_loop k acc p = Some r.
Proof.
  induction p as [|c p IH]; intros k acc r; [done|]. cbn [string_loop unquote_loop].
  destruct k as [|k]; [|apply IH]. case_match; [done|].
  destruct (Z.eqb_spec c bs) as [->|].
  { destruct (escapeAt (bs :: p)) as [[out n]|] eqn:E; [|done]. rewrite (escape_agree _ _ _ E). apply IH. }
  case_match; [done|]. case_match; [apply IH|]. destruct (_ <=? 1)%nat; [done|apply IH].
Qed.

(** ** What compaction makes of an encoded string *)

(** [jsonBody] with the two line separators escaped. *)
Fixpoint escBody (skip : nat) (s : str) : str :=
  match s with
  | [] => []
  | c :: s' =>
      match skip with
      | S k => escBody k s'
      | O =>
          if c <? 128 then escapeByte c ++ escBody 0 s'
          else if lineSep s then (bs :: lit "u202" ++ [hexAt (Z.land (nth 1 s' 0) 15)]) ++ escBody 2 s'
          else take (DecodeRune s).2 s ++ escBody ((DecodeRune s).2 - 1) s'
      end
  end.
Lemma escBody_skip k s : escBody k s = escBody 0 (drop k s).
Proof. revert s. induction k as [|k IH]; intros s; [done|]. destruct s as [|c s]; [done|]. apply IH. Qed.
Lemma compact_skip q e k p : compact_loop q e k p = compact_loop q e 0 (drop k p).
Proof. revert p. induction k as [|k IH]; intros p; [done|]. destruct p as [|c p]; [done|]. apply IH. Qed.

(** A byte that compaction copies inside a string without a change of state. *)
Definition plainByte (c : Z) : bool :=
  negb ((c =? 60) || (c =? 62) || (c =? 38) || (c =? 0xE2) || (c =? dq) || (c =? bs)).

Lemma lineSep_other c p : c ≠ 0xE2 → lineSep (c :: p) = false.
Proof. intros Hc. simpl. destruct p as [|b [|d p]]; [done|done|]. by rewrite (proj2 (Z.eqb_neq _ _) Hc). Qed.

Lemma compact_plain c X e : plainByte c = true →
  compact_loop true e 0 (c :: X) = c :: compact_loop true false 0 X.
Proof.
  unfold plainByte. rewrite negb_true_iff, !orb_false_iff. intros [[[[[H1 H2] H3] H4] H5] H6].
  cbn [compact_loop]. rewrite H1, H2, H3. cbn [orb].
  rewrite lineSep_other by (by apply Z.eqb_neq).
  unfold compactByte, compactQuote, compactEsc. rewrite H5, H6. by rewrite andb_false_r.
Qed.
Lemma compact_plains l X : forallb plainByte l = true →
  compact_loop true false 0 (l ++ X) = l ++ compact_loop true false 0 X.
Proof.
  induction l as [|c l IH]; [done|]. cbn [forallb app]. intros [Hc Hl]%andb_true_iff.
  rewrite compact_plain by done. by rewrite IH.
Qed.
Lemma compact_escaped c X : plainByte c = true ∨ c = dq ∨ c = bs →
  compact_loop true false 0 (bs :: c :: X) = bs :: c :: compact_loop true false 0 X.
Proof.
  intros Hc. transitivity (bs :: compact_loop true true 0 (c :: X)).
  { cbn [compact_loop]. by rewrite (lineSep_other bs). }
  f_equal. destruct Hc as [Hc|[->| ->]]; [by apply compact_plain|..]; cbn [compact_loop]; by rewrite lineSep_other.
Qed.

(** Escapes survive compaction. *)
Definition escapedOK (c : Z) : bool :=
  match escapeByte c with
  | [d] => plainByte d
  | b :: d :: l => (b =? bs) && (plainByte d || (d =? dq) || (d =? bs)) && forallb plainByte l
  | [] => false
  end.
Lemma compact_escape c X : 0 ≤ c < 128 →
  compact_loop true false 0 (escapeByte c ++ X) = escapeByte c ++ compact_loop true false 0 X.
Proof.
  intros Hc. assert (escapedOK c = true) as Ho.
  { assert (Forall (λ n, escapedOK (Z.of_nat n) = true) (seq 0 128)) as Hf
      by (apply (bool_decide_unpack _); vm_compute; exact I).
    rewrite Forall_forall in Hf. specialize (Hf (Z.to_nat c)). rewrite Z2Nat.id in Hf by lia.
    apply Hf, elem_of_seq. lia. }
  unfold escapedOK in Ho. destruct (escapeByte c) as [|b [|d l]]; [done|by apply compact_plain|].
  rewrite !andb_true_iff, !orb_true_iff, !Z.eqb_eq in Ho. destruct Ho as [[-> Hd] Hl].
  cbn [app]. rewrite compact_escaped by tauto. by rewrite compact_plains.
Qed.

(** The bytes of a rune of several bytes: a leading one, then continuation bytes. *)
Lemma rune_tail a s : (2 ≤ (DecodeRune (a :: s)).2)%nat →
  forallb cont (take ((DecodeRune (a :: s)).2 - 1) s) = true ∧ (a = 0xE2 → (DecodeRune (a :: s)).2 = 3%nat).
Proof.
  assert (∀ lo hi b, in_range lo hi b = true → 128 ≤ lo → hi ≤ 191 → cont b = true) as Hin.
  { intros lo hi b Hb ??. unfold in_range, cont in *. rewrite andb_true_iff, !Z.leb_le in *. lia. }
  cbn [DecodeRune]. destruct (a <? 128); [simpl; lia|].
  destruct (in_range 194 223 a) eqn:E2.
  { unfold in_range in E2. rewrite andb_true_iff, !Z.leb_le in E2.
    destruct s as [|b s]; [simpl; lia|]. destruct (cont b) eqn:Eb; simpl; [|lia]. rewrite Eb. split; [done|lia]. }
  destruct (in_range 224 239 a) eqn:E3.
  { destruct s as [|b [|c s]]; [simpl; lia..|]. destruct (_ && cont c) eqn:E; simpl; [|lia].
    apply andb_true_iff in E as [Hb ->].
    rewrite (Hin _ _ _ Hb) by (destruct (a =? 224), (a =? 237); lia). split; done. }
  destruct (in_range 240 244 a) eqn:E4; [|simpl; lia].
  unfold in_range in E4. rewrite andb_true_iff, !Z.leb_le in E4.
  destruct s as [|b [|c [|d s]]]; [simpl; lia..|]. destruct (_ && cont c && cont d) eqn:E; simpl; [|lia].
  rewrite !andb_true_iff in E. destruct E as [[Hb ->] ->].
  rewrite (Hin _ _ _ Hb) by (destruct (a =? 240), (a =? 244); lia).
  split; [done|lia].
Qed.

Lemma compact_rune a s X :
  (2 ≤ (DecodeRune (a :: s)).2)%nat → lineSep (a :: s) = false →
  compact_loop true false 0 (take (DecodeRune (a :: s)).2 (a :: s) ++ X)
  = take (DecodeRune (a :: s)).2 (a :: s) ++ compact_loop true false 0 X.
Proof.
  intros Hs Hl. destruct (rune_tail a s Hs) as [Ht H3]. pose proof (DecodeRune_prefix (a :: s) [] Hs) as [Hlen _].
  assert (128 ≤ a) as Ha.
  { destruct (Z.ltb_spec a 128) as [Hc|]; [|done]. cbn [DecodeRune] in Hs.
    rewrite (proj2 (Z.ltb_lt _ _) Hc) in Hs. simpl in Hs. lia. }
  remember (DecodeRune (a :: s)).2 as n. destruct n as [|n]; [lia|]. cbn [take app length] in *.
  replace (S n - 1)%nat with n in Ht by lia.
  assert (compact_loop true false 0 (a :: take n s ++ X) = a :: compact_loop true false 0 (take n s ++ X)) as ->.
  { cbn [compact_loop]. assert (lineSep (a :: take n s ++ X) = false) as ->.
    { destruct (decide (a = 0xE2)) as [->|]; [|by apply lineSep_other]. specialize (H3 eq_refl).
      destruct n as [|[|n]]; [lia|lia|]. destruct s as [|b [|c s]]; [simpl in Hlen; lia..|]. done. }
    assert (∀ z, z < 128 → (a =? z) = false) as Hz by (intros; apply Z.eqb_neq; lia).
    unfold compactByte, compactQuote, compactEsc. by rewrite !Hz by (unfold dq, bs; lia). }
  cbn [app]. f_equal. apply compact_plains. clear -Ht. induction (take n s) as [|c l IH]; [done|].
  simpl in *. apply andb_true_iff in Ht as [Hc Hl]. rewrite IH by done. rewrite andb_true_r.
  unfold cont, plainByte, dq, bs in *. rewrite andb_true_iff, !Z.leb_le in Hc.
  by rewrite !(proj2 (Z.eqb_neq c _)) by lia.
Qed.

Lemma compact_body n : ∀ s X, (length s ≤ n)%nat → validUTF8 s = true →
  compact_loop true false 0 (jsonBody 0 s ++ X) = escBody 0 s ++ compact_loop true false 0 X.
Proof.
  unfold validUTF8. induction n as [|n IH]; intros s X Hn Hv; [by destruct s; [|simpl in Hn; lia]|].
  destruct s as [|c s]; [done|]. cbn [jsonBody escBody validUTF8_loop length] in *.
  destruct (Z.ltb_spec c 128) as [Hc|Hc].
  - apply andb_true_iff in Hv as [Hc0%Z.leb_le Hv]. rewrite <- !app_assoc, compact_escape, IH by (done || lia). done.
  - apply andb_true_iff in Hv as [Hs%Nat.leb_le Hv]. pose proof (compact_rune c s) as Hr.
    pose proof (rune_tail c s Hs) as [_ H3]. pose proof (DecodeRune_prefix (c :: s) [] Hs) as [Hlen _].
    destruct (DecodeRune (c :: s)) as [r size]. cbn [snd] in *.
    destruct (Nat.leb_spec size 1) as [|_]; [lia|]. rewrite andb_false_r, <- app_assoc.
    rewrite jsonBody_skip. rewrite validUTF8_skip in Hv.
    destruct (lineSep (c :: s)) eqn:El.
    + destruct s as [|b [|d s]]; [done..|]. simpl in El. rewrite !andb_true_iff, orb_true_iff, !Z.eqb_eq in El.
      destruct El as [[-> ->] Hd]. specialize (H3 eq_refl) as ->. cbn [take app drop Nat.sub] in *.
      rewrite <- app_assoc, escBody_skip. cbn [drop]. rewrite <- (IH s) by (done || (simpl in *; lia)).
      cbn [app compact_loop]. destruct Hd as [-> | ->]; done.
    + rewrite Hr by done. rewrite <- app_assoc, escBody_skip. f_equal. apply IH; [rewrite length_drop; lia|done].
Qed.

Lemma unquote_body n : ∀ s acc rest, (length s ≤ n)%nat → validUTF8 s = true →
  string_loop 0 acc (escBody 0 s ++ dq :: rest) = Some (acc ++ s, rest).
Proof.
  unfold validUTF8. induction n as [|n IH]; intros s acc rest Hn Hv.
  { destruct s; [|simpl in Hn; lia]. simpl. by rewrite app_nil_r. }
  destruct s as [|c s]; [simpl; by rewrite app_nil_r|].
  cbn [escBody validUTF8_loop length] in *. destruct (Z.ltb_spec c 128) as [Hc|Hc].
  - apply andb_true_iff in Hv as [Hc0%Z.leb_le Hv].
    rewrite <- app_assoc, escape_ascii, IH by (done || lia). by rewrite <- app_assoc.
  - apply andb_true_iff in Hv as [Hs%Nat.leb_le Hv]. pose proof (rune_tail c s Hs) as [_ H3].
    rewrite validUTF8_skip in Hv. destruct (lineSep (c :: s)) eqn:El.
    + destruct s as [|b [|d s]]; [done..|]. simpl in El. rewrite !andb_true_iff, orb_true_iff, !Z.eqb_eq in El.
      destruct El as [[-> ->] Hd]. rewrite (H3 eq_refl) in Hv. rewrite <- app_assoc, escBody_skip. cbn [drop Nat.sub] in *.
      transitivity (string_loop 0 (acc ++ [226; 128; d]) (escBody 0 s ++ dq :: rest)); [by destruct Hd as [-> | ->]|].
      rewrite IH by (done || (simpl in *; lia)). by rewrite <- app_assoc.
    + pose proof (proj1 (DecodeRune_prefix (c :: s) [] Hs)) as Hl.
      rewrite <- app_assoc, string_rune, escBody_skip by done.
      destruct (DecodeRune (c :: s)).2 as [|size]; [lia|]. replace (S size - 1)%nat with size in * by lia.
      rewrite IH by (done || (rewrite length_drop; lia)).
      cbn [take]. by rewrite <- app_assoc, <- app_comm_cons, take_drop.
Qed.

(** ** Printing *)

(** The text of a value, given the text of strings. *)
Section Print.
Context (q : str → str).

Fixpoint commas (l : list str) : str :=
  match l with [] => [] | [s] => s | s :: l' => s ++ 44 :: commas l' end.

Fixpoint printJ (j : json) : str :=
  match j with
  | JNull => lit "null"
  | JBool b => fmtBool b
  | JNum t => t
  | JStr s => q s
  | JArr l => 91 :: commas (map printJ l) ++ [93]
  | JObj l => 123 :: commas (map (λ p, q p.1 ++ 58 :: printJ p.2) l) ++ [125]
  end.
Definition printMember (p : str * json) : str := q p.1 ++ 58 :: printJ p.2.
End Print.

(** The bytes of a number. *)
Definition numByte (c : Z) : bool :=
  is_digit c || (c =? 43) || (c =? 45) || (c =? 46) || (c =? 69) || (c =? 101).
Definition isNumber (t : str) : bool := bool_decide (skipNumber t = Some []) && forallb numByte t.

(** Strings are UTF-8 and numbers are numbers. *)
Fixpoint jsonOK (j : json) : bool :=
  match j with
  | JNull | JBool _ => true
  | JNum t => isNumber t
  | JStr s => validUTF8 s
  | JArr l => forallb jsonOK l
  | JObj l => forallb (λ p, validUTF8 p.1 && jsonOK p.2) l
  end.
Fixpoint jdepth (j : json) : Z :=
  match j with
  | JArr l => 1 + foldr Z.max 0 (map jdepth l)
  | JObj l => 1 + foldr Z.max 0 (map (λ p, jdepth p.2) l)
  | _ => 0
  end.
(** The calls scanning a value takes. *)
Fixpoint jsize (j : json) : nat :=
  match j with
  | JArr l => S (sum_list_with (λ v, S (jsize v)) l)
  | JObj l => S (sum_list_with (λ p, S (jsize p.2)) l)
  | _ => 1
  end.

(** What may follow a value in a text. *)
Definition ends (rest : str) : Prop := match rest with c :: _ => numByte c = false ∧ isJsonSpace c = false | [] => True end.

Lemma skipDigits_app t rest : ends rest → skipDigits (t ++ rest) = skipDigits t ++ rest.
Proof.
  intros He. induction t as [|c t IH]; simpl; [|by case_match].
  destruct rest as [|c rest]; [done|]. destruct He as [Hn _]. unfold numByte in Hn.
  simpl. destruct (is_digit c); done.
Qed.
Lemma consume_end c rest : ends rest → numByte c = true → consume c rest = None.
Proof. destruct rest as [|d rest]; [done|]. intros [Hd _] Hc. simpl. destruct (Z.eqb_spec d c); [congruence|done]. Qed.
Lemma peek_end c rest : ends rest → numByte c = true → (peek rest =? c) = false.
Proof. destruct rest as [|d rest]; simpl; [by destruct c|]. intros [Hd _] Hc. apply Z.eqb_neq. congruence. Qed.

Lemma needDigits_app t r rest : ends rest → needDigits t = Some r → needDigits (t ++ rest) = Some (r ++ rest).
Proof.
  intros He. unfold needDigits. destruct t as [|c t]; [done|]. cbn [peek app]. case_match; [|done].
  intros [= <-]. by rewrite app_comm_cons, skipDigits_app.
Qed.

Lemma consume_app c t rest : ends rest → numByte c = true →
  consume c (t ++ rest) = (λ p, p ++ rest) <$> consume c t.
Proof. intros He Hc. destruct t as [|d t]; simpl; [by apply consume_end|]. by case_match. Qed.

(** A number is not changed by what ends it. *)
Lemma skipNumber_app t rest : ends rest → skipNumber t = Some [] → skipNumber (t ++ rest) = Some rest.
Proof.
  intros He. unfold skipNumber. rewrite (consume_app 45) by done.
  set (p := match consume 45 t with Some p' => p' | None => t end).
  replace (match _ <$> consume 45 t with Some p' => p' | None => t ++ rest end) with (p ++ rest)
    by (unfold p; by destruct (consume 45 t)).
  clearbody p. clear t. destruct p as [|c p]; [done|]. cbn [app].
  destruct (if c =? 48 then _ else _) as [p1|] eqn:E1; [|done].
  assert ((if c =? 48 then Some (p ++ rest) else if in_range 49 57 c then Some (skipDigits (c :: p ++ rest)) else None)
          = Some (p1 ++ rest)) as ->.
  { destruct (c =? 48); [by simplify_eq|]. destruct (in_range 49 57 c); [|done].
    rewrite app_comm_cons, skipDigits_app by done. by simplify_eq. }
  clear c p E1. rewrite (consume_app 46) by done.
  destruct (match consume 46 p1 with Some p' => needDigits p' | None => Some p1 end) as [p2|] eqn:E2; [|done].
  assert (match (λ p, p ++ rest) <$> consume 46 p1 with Some p' => needDigits p' | None => Some (p1 ++ rest) end
          = Some (p2 ++ rest)) as ->.
  { destruct (consume 46 p1); simpl; [by apply needDigits_app|by simplify_eq]. }
  clear p1 E2. destruct p2 as [|c p2]; cbn [app].
  { intros _. by rewrite (peek_end 101 rest), (peek_end 69 rest). }
  cbn [peek drop]. destruct ((c =? 101) || (c =? 69)); [|done]. rewrite !drop_0.
  destruct p2 as [|d p2]; [done|]. cbn [app peek drop]. rewrite !drop_0.
  intros Hn. destruct ((d =? 43) || (d =? 45)); by apply (needDigits_app _ [] rest He) in Hn.
Qed.

Lemma isNumber_scan t rest : isNumber t = true → ends rest → scanNumber (t ++ rest) = Some (t, rest).
Proof.
  unfold isNumber, scanNumber. rewrite andb_true_iff, bool_decide_eq_true. intros [Hs _] He.
  rewrite skipNumber_app by done. rewrite length_app.
  by replace (length t + length rest - length rest)%nat with (length t) by lia; rewrite take_app_length.
Qed.
Lemma isNumber_head t : isNumber t = true → ∃ c t', t = c :: t' ∧ (c = 45 ∨ is_digit c = true).
Proof.
  unfold isNumber. rewrite andb_true_iff, bool_decide_eq_true. intros [Hs _].
  destruct t as [|c t]; [done|]. exists c, t. split; [done|]. unfold skipNumber in Hs. cbn [consume] in Hs.
  destruct (Z.eqb_spec c 45); [by left|]. right.
  destruct (Z.eqb_spec c 48) as [->|]; [done|]. destruct (in_range 49 57 c) eqn:E; [|done].
  unfold in_range, is_digit in *. rewrite andb_true_iff, !Z.leb_le in *. lia.
Qed.

Lemma skipDigits_all s : forallb is_digit s = true → skipDigits s = [].
Proof. induction s as [|c s IH]; [done|]. simpl. by destruct (is_digit c). Qed.

(** Integers print as JSON numbers. *)
Lemma isNumber_FormatInt n : isNumber (FormatInt n) = true.
Proof.
  assert (∀ m, 0 ≤ m → skipNumber (FormatUint m) = Some [] ∧ skipNumber (45 :: FormatUint m) = Some []) as Hm.
  { intros m Hm. destruct (decide (m = 0)) as [->|]; [done|].
    destruct (FormatUint_head m) as (c & s & E & Hc); [lia|]. pose proof (FormatUint_digits m Hm) as Hd.
    rewrite E in *. unfold skipNumber. cbn [consume]. change (45 =? 45) with true. cbv iota.
    rewrite !(proj2 (Z.eqb_neq c _)) by lia.
    assert (in_range 49 57 c = true) as -> by (unfold in_range; rewrite andb_true_iff, !Z.leb_le; lia).
    by rewrite skipDigits_all. }
  assert (∀ m, 0 ≤ m → forallb numByte (FormatUint m) = true) as Hb.
  { intros m H0. pose proof (FormatUint_digits m H0) as Hd. clear -Hd. induction (FormatUint m) as [|c s IH]; [done|].
    simpl in *. apply andb_true_iff in Hd as [Hc Hd]. unfold numByte at 1. rewrite Hc. by apply IH. }
  unfold isNumber, FormatInt. destruct (Z.ltb_spec n 0); rewrite andb_true_iff, bool_decide_eq_true.
  - split; [apply Hm; lia|]. simpl. apply Hb. lia.
  - split; [apply Hm; lia|]. apply Hb. lia.
Qed.

(** ** Scanning what was printed *)

Section Scan.
Context (q : str → str).
Context (Hq : ∀ s rest, validUTF8 s = true → unquote (q s ++ rest) = Some (s, rest)).

Lemma q_head s : validUTF8 s = true → ∃ t, q s = dq :: t.
Proof.
  intros Hv. specialize (Hq s [] Hv). rewrite app_nil_r in Hq. unfold unquote, consume in Hq.
  destruct (q s) as [|c t]; [done|]. destruct (Z.eqb_spec c dq) as [->|]; [by eauto|done].
Qed.

(** The first byte of a printed value opens it. *)
Definition opens (c : Z) : bool := negb (isJsonSpace c) && negb (c =? 93) && negb (c =? 125).
Lemma print_head j : jsonOK j = true → ∃ c t, printJ q j = c :: t ∧ opens c = true.
Proof.
  destruct j as [|[]|t|s|l|l]; intros Ho; try (by do 2 eexists).
  - destruct (isNumber_head t Ho) as (c & t' & -> & Hc). exists c, t'. split; [done|].
    destruct Hc as [->|Hc]; [done|]. unfold is_digit in Hc. rewrite andb_true_iff, !Z.leb_le in Hc.
    unfold opens, isJsonSpace. by rewrite !(proj2 (Z.eqb_neq c _)) by lia.
  - destruct (q_head s Ho) as [t Ht]. exists dq, t. by rewrite <- Ht.
Qed.
Lemma skipSpace_opens c t : opens c = true → skipSpace (c :: t) = c :: t.
Proof. unfold opens. simpl. by destruct (isJsonSpace c). Qed.
Lemma skipSpace_ends rest : ends rest → skipSpace rest = rest.
Proof. destruct rest as [|c rest]; [done|]. intros [_ Hc]. simpl. by rewrite Hc. Qed.

Definition scans (j : json) : Prop := ∀ fuel depth rest,
  jsonOK j = true → (jsize j ≤ fuel)%nat → depth + jdepth j ≤ maxNestingDepth → ends rest →
  scanValue fuel depth (printJ q j ++ rest) = Some (j, rest).

Lemma commas_cons s l rest : commas (s :: l) ++ rest
  = s ++ match l with [] => rest | _ => 44 :: commas l ++ rest end.
Proof. destruct l; simpl; [done|]. by rewrite <- app_assoc. Qed.

Lemma scan_items l : l ≠ [] → Forall scans l → ∀ fuel depth rest,
  forallb jsonOK l = true → (sum_list_with (λ v, S (jsize v)) l ≤ fuel)%nat →
  depth + foldr Z.max 0 (map jdepth l) ≤ maxNestingDepth →
  scanItems fuel depth (commas (map (printJ q) l) ++ 93 :: rest) = Some (l, rest).
Proof.
  intros Hne Hl. induction Hl as [|v l Hv _ IH]; [done|]. intros fuel depth rest Ho Hf Hd.
  simpl in Ho, Hf, Hd. apply andb_true_iff in Ho as [Hov Hol].
  destruct fuel as [|fuel]; [lia|]. cbn [scanItems map]. rewrite commas_cons.
  destruct (print_head v Hov) as (c & t & Hp & Hc). rewrite Hp. cbn [app].
  rewrite skipSpace_opens by done. rewrite app_comm_cons, <- Hp.
  destruct l as [|v2 l]; cbn [map].
  - rewrite Hv by (done || lia || by split). done.
  - rewrite Hv by (done || lia || by split). cbn [consume skipSpace isJsonSpace]. cbn -[scanItems commas].
    rewrite (IH ltac:(done)) by (done || (simpl in *; lia)). done.
Qed.
Lemma scan_members l : l ≠ [] → Forall (λ p, scans p.2) l → ∀ fuel depth rest,
  forallb (λ p, validUTF8 p.1 && jsonOK p.2) l = true →
  (sum_list_with (λ p, S (jsize p.2)) l ≤ fuel)%nat →
  depth + foldr Z.max 0 (map (λ p, jdepth p.2) l) ≤ maxNestingDepth →
  scanMembers fuel depth (commas (map (printMember q) l) ++ 125 :: rest) = Some (l, rest).
Proof.
  intros Hne Hl. induction Hl as [|[k v] l Hv _ IH]; [done|]. intros fuel depth rest Ho Hf Hd.
  simpl in Ho, Hf, Hd, Hv. rewrite !andb_true_iff in Ho. destruct Ho as [[Hk Hov] Hol].
  destruct fuel as [|fuel]; [lia|]. cbn [scanMembers map]. rewrite commas_cons.
  unfold printMember at 1. cbn [fst snd]. rewrite <- app_assoc, <- app_comm_cons.
  destruct (q_head k Hk) as [t Ht]. rewrite Ht. cbn [app]. rewrite skipSpace_opens by done.
  rewrite app_comm_cons, <- Ht, Hq by done. cbn [skipSpace]. change (isJsonSpace 58) with false. cbv iota.
  cbn [consume]. change (58 =? 58) with true. cbv iota.
  destruct (print_head v Hov) as (c & t' & Hp & Hc). rewrite Hp. cbn [app].
  rewrite skipSpace_opens by done. rewrite app_comm_cons, <- Hp.
  destruct l as [|m2 l]; cbn [map].
  - rewrite Hv by (done || lia || by split). done.
  - rewrite Hv by (done || lia || by split). cbn -[scanMembers commas printMember].
    rewrite (IH ltac:(done)) by (done || (simpl in *; lia)). done.
Qed.

Lemma commas_head s l c t : s = c :: t → ∃ t', commas (s :: l) = c :: t'.
Proof. intros ->. destruct l; simpl; eauto. Qed.

Lemma scan_printed j : scans j.
Proof.
  induction j as [|[]|t|s|l Hl|l Hl] using json_ind; intros fuel depth rest Ho Hf Hd He;
    (destruct fuel as [|fuel]; [simpl in Hf; lia|]).
  - done.
  - done.
  - done.
  - cbn [printJ]. destruct (isNumber_head t Ho) as (c & t' & -> & Hc). cbn [app scanValue].
    rewrite app_comm_cons, isNumber_scan by done.
    assert (c = 45 ∨ 48 ≤ c ≤ 57) as Hc'.
    { destruct Hc as [|Hc]; [by left|]. unfold is_digit in Hc. rewrite andb_true_iff, !Z.leb_le in Hc. by right. }
    unfold dq. rewrite !(proj2 (Z.eqb_neq c _)) by lia.
    destruct Hc as [->|Hc]; [done|]. rewrite Hc, orb_true_r. done.
  - cbn [printJ scanValue]. destruct (q_head s Ho) as [t Ht]. rewrite Ht. cbn [app].
    change (dq =? dq) with true. cbv iota. rewrite app_comm_cons, <- Ht, Hq by done. done.
  - cbn [printJ scanValue]. cbn [app]. rewrite <- app_assoc. cbn [app]. change (91 =? dq) with false.
    change (91 =? 123) with false. change (91 =? 91) with true. cbv iota.
    simpl in Hd. rewrite (proj2 (Z.ltb_ge _ _)) by (assert (0 ≤ foldr Z.max 0 (map jdepth l)) by (clear; induction l; simpl; lia); lia).
    destruct l as [|v l]; [done|]. simpl in Ho. apply andb_true_iff in Ho as [Hov Hol].
    destruct (print_head v Hov) as (c & t & Hp & Hc).
    destruct (commas_head (printJ q v) (map (printJ q) l) c t Hp) as [t' Ht'].
    assert ((peek (skipSpace (commas (map (printJ q) (v :: l)) ++ 93 :: rest)) =? 93) = false) as ->.
    { cbn [map]. rewrite Ht'. cbn [app]. rewrite skipSpace_opens by done. cbn [peek].
      unfold opens in Hc. rewrite !andb_true_iff, !negb_true_iff in Hc. tauto. }
    rewrite scan_items; [done|done|done| |simpl in *; lia|simpl in *; lia]. simpl. by rewrite Hov.
  - cbn [printJ scanValue]. cbn [app]. rewrite <- app_assoc. cbn [app]. change (123 =? dq) with false.
    change (123 =? 123) with true. cbv iota. fold (printMember q).
    simpl in Hd. rewrite (proj2 (Z.ltb_ge _ _)) by (assert (0 ≤ foldr Z.max 0 (map (λ p : str * json, jdepth p.2) l)) by (clear; induction l; simpl; lia); lia).
    destruct l as [|[k v] l]; [done|]. simpl in Ho. rewrite !andb_true_iff in Ho. destruct Ho as [[Hk Hov] Hol].
    destruct (q_head k Hk) as [t Ht].
    assert ((peek (skipSpace (commas (map (printMember q) ((k, v) :: l)) ++ 125 :: rest)) =? 125) = false) as ->.
    { cbn [map]. destruct (commas_head (printMember q (k, v)) (map (printMember q) l) dq (t ++ 58 :: printJ q v)) as [t' Ht'].
      { unfold printMember. simpl. by rewrite Ht. }
      rewrite Ht'. done. }
    rewrite scan_members; [done|done|done| |simpl in *; lia|simpl in *; lia]. simpl. by rewrite Hk, Hov.
Qed.
Lemma commas_length l : (sum_list_with length l + length l ≤ S (length (commas l)))%nat.
Proof.
  induction l as [|s [|s2 l] IH]; [simpl; lia..|]. cbn [sum_list_with length] in *.
  change (commas (s :: s2 :: l)) with (s ++ 44 :: commas (s2 :: l)). rewrite length_app. simpl in *. lia.
Qed.

Lemma jsize_length j : jsonOK j = true → (S (jsize j) ≤ 2 * length (printJ q j))%nat.
Proof.
  induction j as [|[]|t|s|l Hl|l Hl] using json_ind; intros Ho; try (simpl; lia).
  - destruct (isNumber_head t Ho) as (c & t' & -> & _). simpl. lia.
  - destruct (q_head s Ho) as [t Ht]. cbn [printJ jsize]. rewrite Ht. simpl. lia.
  - assert (sum_list_with (λ v, S (jsize v)) l ≤ 2 * sum_list_with length (map (printJ q) l))%nat as Hs.
    { simpl in Ho. clear -Hl Ho. induction Hl as [|v l Hv _ IH]; [simpl; lia|]. simpl in Ho.
      apply andb_true_iff in Ho as [? ?]. simpl. specialize (Hv ltac:(done)). specialize (IH ltac:(done)). lia. }
    pose proof (commas_length (map (printJ q) l)) as Hc. rewrite length_map in Hc.
    cbn [printJ jsize length]. rewrite length_app. cbn [length]. lia.
  - fold (printMember q) in *.
    assert (sum_list_with (λ p, S (jsize p.2)) l ≤ 2 * sum_list_with length (map (printMember q) l))%nat as Hs.
    { simpl in Ho. clear -Hl Ho. induction Hl as [|v l Hv _ IH]; [simpl; lia|]. simpl in Ho.
      rewrite !andb_true_iff in Ho. destruct Ho as [[? ?] ?]. simpl. specialize (Hv ltac:(done)). specialize (IH ltac:(done)).
      assert (length (printJ q v.2) ≤ length (printMember q v))%nat by (unfold printMember; rewrite length_app; simpl; lia).
      lia. }
    pose proof (commas_length (map (printMember q) l)) as Hc. cbn [printJ jsize length]. fold (printMember q).
    rewrite length_app. cbn [length]. rewrite length_map in Hc. lia.
Qed.

(** A printed value is read back by [json.Unmarshal]'s scanner. *)
Lemma parse_printed j : jsonOK j = true → jdepth j ≤ maxNestingDepth → parseJSON (printJ q j) = Some j.
Proof.
  intros Ho Hd. unfold parseJSON. destruct (print_head j Ho) as (c & t & Hp & Hc).
  rewrite Hp, skipSpace_opens by done. rewrite <- Hp. pose proof (jsize_length j Ho).
  pose proof (scan_printed j (scanFuel (printJ q j)) 0 []) as Hs. rewrite app_nil_r in Hs.
  rewrite Hs; [done|done|unfold scanFuel; lia|lia|done].
Qed.
End Scan.

(** ** Compaction of what was printed *)

Definition quoteJ (s : str) : str := appendJSONString [] s.
Definition quoteEsc (s : str) : str := dq :: escBody 0 s ++ [dq].

Lemma unquote_quoteJ s rest : validUTF8 s = true → unquote (quoteJ s ++ rest) = Some (s, rest).
Proof.
  intros Hv. pose proof (jstring_encoded s rest Hv) as E. unfold jstring, unquote in *.
  destruct (consume dq (quoteJ s ++ rest)) as [p|] eqn:Ec; unfold quoteJ in Ec; rewrite Ec in E; [|done].
  by apply string_agree.
Qed.
Lemma unquote_quoteEsc s rest : validUTF8 s = true → unquote (quoteEsc s ++ rest) = Some (s, rest).
Proof.
  intros Hv. unfold unquote, quoteEsc. cbn [app consume]. rewrite Z.eqb_refl, <- app_assoc. cbn [app].
  apply string_agree. by rewrite (unquote_body (length s)).
Qed.

Lemma compact_quoted s X : validUTF8 s = true →
  compact_loop false false 0 (quoteJ s ++ X) = quoteEsc s ++ compact_loop false false 0 X.
Proof.
  intros Hv. unfold quoteJ, quoteEsc, appendJSONString. cbn [app]. rewrite <- !app_assoc. cbn [app].
  transitivity (dq :: compact_loop true false 0 (jsonBody 0 s ++ dq :: X)).
  { cbn [compact_loop]. by rewrite (lineSep_other dq). }
  rewrite (compact_body (length s)) by done. f_equal. f_equal. cbn [compact_loop]. by rewrite (lineSep_other dq).
Qed.

(** Bytes outside strings that are kept. *)
Definition tokenByte (c : Z) : bool := plainByte c && negb (isJsonSpace c).
Lemma compact_token l X : forallb tokenByte l = true →
  compact_loop false false 0 (l ++ X) = l ++ compact_loop false false 0 X.
Proof.
  induction l as [|c l IH]; [done|]. cbn [forallb app]. intros [Hc Hl]%andb_true_iff. rewrite <- IH by done.
  unfold tokenByte, plainByte in Hc. rewrite andb_true_iff, !negb_true_iff, !orb_false_iff in Hc.
  destruct Hc as [[[[[[H1 H2] H3] H4] H5] H6] H7]. cbn [compact_loop]. rewrite H1, H2, H3. cbn [orb].
  rewrite lineSep_other by (by apply Z.eqb_neq). unfold compactByte, compactQuote, compactEsc.
  by rewrite H5, H7.
Qed.

Lemma compact_mark c X : tokenByte c = true → compact_loop false false 0 (c :: X) = c :: compact_loop false false 0 X.
Proof. intros Hc. apply (compact_token [c]). simpl. by rewrite Hc. Qed.

Lemma compact_commas {A} (f g : A → str) l X : Forall (λ a, ∀ X,
    compact_loop false false 0 (f a ++ X) = g a ++ compact_loop false false 0 X) l →
  compact_loop false false 0 (commas (map f l) ++ X) = commas (map g l) ++ compact_loop false false 0 X.
Proof.
  induction 1 as [|a l Ha _ IH]; [done|]. cbn [map]. rewrite !commas_cons.
  destruct l as [|b l]; cbn [map]; rewrite Ha; [done|]. f_equal.
  rewrite compact_mark by done. cbn [map] in IH. by rewrite IH.
Qed.

Lemma compact_printed j : jsonOK j = true → ∀ X,
  compact_loop false false 0 (printJ quoteJ j ++ X) = printJ quoteEsc j ++ compact_loop false false 0 X.
Proof.
  induction j as [|[]|t|s|l Hl|l Hl] using json_ind; intros Ho X; try (by apply compact_token).
  - cbn [printJ]. apply compact_token. unfold jsonOK, isNumber in Ho. apply andb_true_iff in Ho as [_ Ho].
    clear -Ho. induction t as [|c t IH]; [done|]. simpl in *. apply andb_true_iff in Ho as [Hc Ho].
    rewrite IH, andb_true_r by done. clear -Hc. unfold numByte, is_digit in Hc.
    unfold tokenByte, plainByte, isJsonSpace, dq, bs.
    rewrite !orb_true_iff, andb_true_iff, !Z.leb_le, !Z.eqb_eq in Hc.
    by rewrite !(proj2 (Z.eqb_neq c _)) by lia.
  - by apply compact_quoted.
  - cbn [printJ]. rewrite <- !app_comm_cons, <- !app_assoc. rewrite compact_mark by done. f_equal.
    rewrite (compact_commas (printJ quoteJ) (printJ quoteEsc)).
    + cbn [app]. by rewrite compact_mark.
    + simpl in Ho. clear -Hl Ho. induction Hl as [|v l Hv _ IH]; [done|]. simpl in Ho. apply andb_true_iff in Ho as [? ?].
      constructor; auto.
  - cbn [printJ]. rewrite <- !app_comm_cons, <- !app_assoc. rewrite compact_mark by done. f_equal.
    fold (printMember quoteJ) (printMember quoteEsc).
    rewrite (compact_commas (printMember quoteJ) (printMember quoteEsc)).
    + cbn [app]. by rewrite compact_mark.
    + simpl in Ho. clear -Hl Ho. induction Hl as [|v l Hv _ IH]; [done|]. simpl in Ho.
      rewrite !andb_true_iff in Ho. destruct Ho as [[? ?] ?]. constructor; [|by apply IH]. intros X.
      unfold printMember. rewrite <- !app_assoc. cbn [app]. rewrite compact_quoted by done. f_equal.
      rewrite compact_mark by done. f_equal. auto.
Qed.

(** [json.Marshal] of a value whose method printed [j]. *)
Lemma marshal_printed j : jsonOK j = true → jdepth j ≤ maxNestingDepth →
  marshalText (printJ quoteJ j) = inl (printJ quoteEsc j).
Proof.
  intros Ho Hd. unfold marshalText. rewrite (parse_printed quoteJ unquote_quoteJ) by done.
  pose proof (compact_printed j Ho []) as E. rewrite !app_nil_r in E. cbn [compact_loop] in E. by rewrite E.
Qed.
