(* ===== verification/Image.v ===== *)
(** * Restoring a database image: UnmarshalJSON of internal/engine/snapshot.go

    The decoding of a JSON text into the exported fields of the engine's types, as
    encoding/json does it for [databaseImage], and the repair of what it decoded:
    numbers parsed by column type, the order slice filtered and completed, indexes
    and fast path rebuilt. *)

From S2P Require Import Prelude GoLib Fold Value Parser Table Schema Database.
From S2P Require Import Bind Json Request JsonText.
Open Scope Z_scope.

(** ** encoding/json into Go values

    A decoder takes what the variable holds and returns what it holds afterwards,
    [None] for a type mismatch (the package goes on after one, and reports it). *)

(** [foldName]: field names are compared up to simple case folding, which maps two
    runes beyond ASCII to letters. *)
Definition foldRune (r : Z) : Z :=
  if in_range 97 122 r then r - 32 else if r =? 0x17F then 83 else if r =? 0x212A then 75 else r.
Definition isField (key : str) (name : string) : bool :=
  bool_decide (map foldRune (to_runes key) = map foldRune (lit name)).

Definition decString (s : str) (j : json) : option str :=
  match j with JNull => Some s | JStr x => Some x | _ => None end.
Definition decBool (b : bool) (j : json) : option bool :=
  match j with JNull => Some b | JBool x => Some x | _ => None end.

(** A map variable, nil or not; every element is decoded into a new zero value. *)
Definition decMap {A} (zero : A) (dec : A → json → option A) (m : option (gmap str A)) (j : json)
    : option (option (gmap str A)) :=
  match j with
  | JNull => Some None
  | JObj l =>
      Some <$> foldl (λ acc p, m ← acc; v ← dec zero p.2; Some (<[p.1 := v]> m)) (Some (default ∅ m)) l
  | _ => None
  end.

(** A slice: its backing array and length.  Elements are decoded in place. *)
Record slice (A : Type) := mkSlice { slBack : list A; slLen : nat }.
Arguments mkSlice {A} _ _.
Arguments slBack {A} _.
Arguments slLen {A} _.
Definition nilSlice {A} : slice A := mkSlice [] 0.
Definition sliceList {A} (s : slice A) : list A := take (slLen s) (slBack s).

Fixpoint decItems {A} (zero : A) (dec : A → json → option A) (back : list A) (l : list json) : option (list A) :=
  match l with
  | [] => Some back
  | v :: l' => a ← dec (hd zero back) v; r ← decItems zero dec (tl back) l'; Some (a :: r)
  end.
Definition decSlice {A} (zero : A) (dec : A → json → option A) (s : slice A) (j : json) : option (slice A) :=
  match j with
  | JNull => Some nilSlice
  | JArr [] => Some nilSlice
  | JArr l => r ← decItems zero dec (slBack s) l; Some (mkSlice r (length l))
  | _ => None
  end.

(** A struct: its members in order, unknown ones ignored. *)
Definition decStruct {A} (field : A → str → json → option A) (a : A) (j : json) : option A :=
  match j with
  | JNull => Some a
  | JObj l => foldl (λ acc p, a ← acc; field a p.1 p.2) (Some a) l
  | _ => None
  end.

(** ** The image *)

Definition decColumn : Column → json → option Column :=
  decStruct (λ c key v,
    if isField key "Name" then s ← decString (cName c) v; Some (mkColumn s (cType c) (cPrimary c))
    else if isField key "Type" then s ← decString (typeName (cType c)) v; Some (mkColumn (cName c) (typeOf s) (cPrimary c))
    else if isField key "Primary" then b ← decBool (cPrimary c) v; Some (mkColumn (cName c) (cType c) b)
    else Some c).
Definition column0 : Column := mkColumn [] (TOther []) false.

(** A cell as decoded: a json.Number, a plain value, or an array or object, which no
    statement stores. *)
Inductive cell := Number (t : str) | Cell (v : value) | Nested.
Definition decAny (_ : cell) (j : json) : option cell :=
  Some match j with
       | JNull => Cell VNil | JBool b => Cell (VBool b) | JStr s => Cell (VStr s)
       | JNum t => Number t | JArr _ | JObj _ => Nested
       end.

(** [struct{}] *)
Definition decUnit (_ : unit) (j : json) : option unit := match j with JNull | JObj _ => Some tt | _ => None end.

Record tableImage := mkImage {
  tiName : str;
  tiColumns : slice Column;
  tiRows : option (gmap str (option (gmap str cell)));
  tiOrder : slice str;
  tiIndexes : option (gmap str (option (gmap str (option (gmap str unit)))));
  tiIndexNames : option (gmap str str);
}.
Definition image0 : tableImage := mkImage [] nilSlice None nilSlice None None.

Definition decTable : tableImage → json → option tableImage :=
  decStruct (λ t key v,
    if isField key "Name" then
      s ← decString (tiName t) v; Some (mkImage s (tiColumns t) (tiRows t) (tiOrder t) (tiIndexes t) (tiIndexNames t))
    else if isField key "Columns" then
      x ← decSlice column0 decColumn (tiColumns t) v;
      Some (mkImage (tiName t) x (tiRows t) (tiOrder t) (tiIndexes t) (tiIndexNames t))
    else if isField key "Rows" then
      x ← decMap None (decMap (Cell VNil) decAny) (tiRows t) v;
      Some (mkImage (tiName t) (tiColumns t) x (tiOrder t) (tiIndexes t) (tiIndexNames t))
    else if isField key "Order" then
      x ← decSlice [] decString (tiOrder t) v;
      Some (mkImage (tiName t) (tiColumns t) (tiRows t) x (tiIndexes t) (tiIndexNames t))
    else if isField key "Indexes" then
      x ← decMap None (decMap None (decMap tt decUnit)) (tiIndexes t) v;
      Some (mkImage (tiName t) (tiColumns t) (tiRows t) (tiOrder t) x (tiIndexNames t))
    else if isField key "IndexNames" then
      x ← decMap [] decString (tiIndexNames t) v;
      Some (mkImage (tiName t) (tiColumns t) (tiRows t) (tiOrder t) (tiIndexes t) x)
    else Some t).

(** [*Table]: null, or a new table. *)
Definition decTablePtr (_ : option tableImage) (j : json) : option (option tableImage) :=
  match j with JNull => Some None | _ => Some <$> decTable image0 j end.

Abbreviation databaseImage := (option (gmap str (option tableImage))).
Definition decDatabase : databaseImage → json → option databaseImage :=
  decStruct (λ m key v, if isField key "Tables" then decMap None decTablePtr m v else Some m).

(** ** Repair *)

Inductive restoreErr :=
| RDecode                                  (* syntax or type *)
| RTable (name : str)                      (* invalid table *)
| RRow (name : str)                        (* invalid row in *)
| RCell (name column : str) (e : res value).

Section Restore.
Context `{GoStd} (order : list str → list str).

(** The numbers of one row, column by column. *)
Fixpoint restoreRow (name : str) (cols : list Column) (r : gmap str cell) : gmap str cell + restoreErr :=
  match cols with
  | [] => inl r
  | c :: cols' =>
      match r !! cName c with
      | Some (Number t) =>
          match parseVal t (cType c) with
          | Ok v => restoreRow name cols' (<[cName c := Cell v]> r)
          | er => inr (RCell name (cName c) er)
          end
      | _ => restoreRow name cols' r
      end
  end.

Definition isCell (c : cell) : bool := match c with Cell _ => true | _ => false end.
(** The row, if every cell is a value a statement could have stored. *)
Definition plainRow (r : gmap str cell) : option row :=
  if forallb (λ p, isCell p.2) (map_to_list r)
  then Some (omap (λ c, match c with Cell v => Some v | _ => None end) r) else None.

(** The rows in visiting order; [inl None]: some cell is not a plain value. *)
Fixpoint restoreRows (name : str) (cols : list Column) (src : gmap str (option (gmap str cell)))
    (keys : list str) (acc : option (gmap str row)) : option (gmap str row) + restoreErr :=
  match keys with
  | [] => inl acc
  | k :: keys' =>
      match src !! k with
      | Some (Some r) =>
          match restoreRow name cols r with
          | inl r' => restoreRows name cols src keys'
                        (m ← acc; x ← plainRow r'; Some (<[k := x]> m))
          | inr e => inr e
          end
      | _ => inr (RRow name)
      end
  end.

(** The keys of the image's order that have a row, each once, then the rest. *)
Definition orderKeep (rows : gmap str row) (s : gset str * list str) (k : str) : gset str * list str :=
  if isLive rows k && bool_decide (k ∉ s.1) then ({[k]} ∪ s.1, s.2 ++ [k]) else s.
Definition restoreOrder (rows : gmap str row) (src : list str) : list str :=
  (foldl (orderKeep rows) (foldl (orderKeep rows) (∅, []) src) (order (mapKeys rows))).2.

Definition restoreIndex (rows : gmap str row) (column : str) : index :=
  foldl (λ m k, match rows !! k with Some r => bucketAdd m (valueKey (rowGet r column)) k | None => m end)
        ∅ (order (mapKeys rows)).

Definition restoreTable (name : str) (t : tableImage) : option Table + restoreErr :=
  let cols := sliceList (tiColumns t) in
  let src := default ∅ (tiRows t) in
  match restoreRows name cols src (order (mapKeys src)) (Some ∅) with
  | inr e => inr e
  | inl None => inl None
  | inl (Some rows) =>
      inl (Some (rebuildFastPathLocked
        (mkTable (tiName t) cols rows (restoreOrder rows (sliceList (tiOrder t)))
           (map_imap (λ column _, Some (restoreIndex rows column)) (default ∅ (tiIndexes t)))
           (default ∅ (tiIndexNames t)) noFast 0 0)))
  end.

Fixpoint restoreTables (src : gmap str (option tableImage)) (names : list str) (acc : option (gmap str Table))
    : option (gmap str Table) + restoreErr :=
  match names with
  | [] => inl acc
  | name :: names' =>
      match src !! name with
      | Some (Some t) =>
          match restoreTable name t with
          | inl t' => restoreTables src names' (m ← acc; x ← t'; Some (<[name := x]> m))
          | inr e => inr e
          end
      | _ => inr (RTable name)
      end
  end.

(** [Foreign]: the image holds a cell that is an array, an object, or a number in an
    undeclared column; the code keeps it as a Go value that the model has not. *)
Inductive restored := Restored (d : Database) | RestoreErr (e : restoreErr) | Foreign.

Definition restoreImage (img : databaseImage) (d : Database) : restored :=
  let src := default ∅ img in
  match restoreTables src (order (mapKeys src)) (Some ∅) with
  | inl (Some ts) => Restored (bumpRevision (set_tables d ts))
  | inl None => Foreign
  | inr e => RestoreErr e
  end.

(** [json.Unmarshal(b, db)]: the text is validated, then handed to [UnmarshalJSON]. *)
Definition UnmarshalJSON (b : str) (d : Database) : restored :=
  match parseJSON b with
  | None => RestoreErr RDecode
  | Some j =>
      match decDatabase None j with
      | None => RestoreErr RDecode
      | Some img => restoreImage img d
      end
  end.
End Restore.
