(* ===== verification/ImageProofs.v ===== *)
(** * Database images: what is marshalled is restored *)

From S2P Require Import Prelude GoLib GoFacts Fold Value Parser Table TableInv InsertProofs Schema SchemaProofs Database.
From S2P Require Import OrderBy Select SelectProofs AccessProofs Bytes Bind Json Request RequestProofs JsonText JsonTextProofs Image.
Open Scope Z_scope.

(** ** The image as a JSON value *)

Section Tree.
Context `{JsonStd}.

Definition cellTree (v : value) : json :=
  match v with
  | VNil => JNull
  | VStr s => JStr s
  | VBool b => JBool b
  | VInt n | VGoInt n => JNum (FormatInt n)
  | VFloat f => match json_Float f with inl t => JNum t | inr _ => JNull end
  end.

(** An object over the keys of a map, sorted. *)
Definition objTree {A} (g : str → json) (m : gmap str A) : json :=
  JObj (map (λ k, (k, g k)) (sortStrings (mapKeys m))).

Definition rowTree (r : row) : json := objTree (λ k, cellTree (rowGet r k)) r.
Definition columnTree (c : Column) : json :=
  JObj [(lit "Name", JStr (cName c)); (lit "Type", JStr (typeName (cType c))); (lit "Primary", JBool (cPrimary c))].
Definition setTree (s : gset str) : json := JObj (map (λ k, (k, JObj [])) (sortStrings (elements s))).

Context (nilOrder nilNames : Table → bool).

Definition tableTree (t : Table) : json :=
  JObj [(lit "Name", JStr (tName t));
        (lit "Columns", JArr (map columnTree (tColumns t)));
        (lit "Rows", objTree (λ k, rowTree (default ∅ (tRows t !! k))) (tRows t));
        (lit "Order", if bool_decide (tOrder t = []) && nilOrder t then JNull else JArr (map JStr (tOrder t)));
        (lit "Indexes", objTree (λ c, let ix := default ∅ (tIndexes t !! c) in
                                      objTree (λ v, setTree (default ∅ (ix !! v))) ix) (tIndexes t));
        (lit "IndexNames", if bool_decide (tIndexNames t = ∅) && nilNames t then JNull
                           else objTree (λ n, JStr (default [] (tIndexNames t !! n))) (tIndexNames t))].
Definition imageTree (d : Database) : json :=
  JObj [(lit "Tables", objTree (λ n, match dTables d !! n with Some t => tableTree t | None => JNull end) (dTables d))].

(** ** The encoders print the tree *)

Abbreviation pr := (printJ quoteJ).

Lemma appendMembers_print (enc : str → str → str) (g : str → json) keys :
  (∀ out k, k ∈ keys → enc out k = out ++ pr (g k)) → ∀ first out,
  appendMembers enc first out keys
  = out ++ match keys with [] => [] | _ => (if first : bool then [] else [44]) ++ commas (map (printMember quoteJ) (map (λ k, (k, g k)) keys)) end.
Proof.
  induction keys as [|k keys IH]; intros He first out; [by rewrite app_nil_r|].
  cbn [appendMembers map]. rewrite He by set_solver. rewrite IH by set_solver. unfold appendJSONString.
  destruct keys as [|k2 keys]; cbn [map commas]; unfold printMember, quoteJ, appendJSONString; simpl;
    destruct first; simplify_list_eq; done.
Qed.

Lemma appendObject_print {A} (enc : str → str → str) (g : str → json) (out : str) (m : gmap str A) :
  (∀ o k, is_Some (m !! k) → enc o k = o ++ pr (g k)) → appendObject enc out m = out ++ pr (objTree g m).
Proof.
  intros He. unfold appendObject, objTree. rewrite (appendMembers_print enc g).
  - cbn [printJ]. destruct (sortStrings (mapKeys m)); cbn [app]; by rewrite <- ?app_assoc.
  - intros o k Hk. apply He. unfold sortStrings in Hk. rewrite merge_sort_Permutation in Hk. unfold mapKeys in Hk.
    apply list_elem_of_fmap in Hk as ([k' a] & -> & Hk%elem_of_map_to_list). by eexists.
Qed.

Lemma strings_print l : ∀ first out, appendStrings_loop first out l
  = out ++ match l with [] => [] | _ => (if first : bool then [] else [44]) ++ commas (map pr (map JStr l)) end.
Proof.
  induction l as [|s l IH]; intros first out; [by rewrite app_nil_r|]. cbn [appendStrings_loop map]. rewrite IH.
  destruct l as [|s2 l]; cbn [map commas printJ]; unfold quoteJ, appendJSONString; destruct first; simplify_list_eq; done.
Qed.
Lemma stringArray_print (out : str) l : appendJSONStringArray out l = out ++ pr (JArr (map JStr l)).
Proof.
  unfold appendJSONStringArray. rewrite strings_print. cbn [printJ]. destruct l; cbn [app]; by rewrite <- ?app_assoc.
Qed.

Lemma columns_print cols : ∀ first (out : str), appendColumns first out cols
  = out ++ match cols with [] => [] | _ => (if first : bool then [] else [44]) ++ commas (map pr (map columnTree cols)) end.
Proof.
  induction cols as [|c cols IH]; intros first out; [by rewrite app_nil_r|]. cbn [appendColumns map]. rewrite IH.
  assert (∀ o, member true (appendJSONString (member true (appendJSONString (member false (o ++ [123]) "Name") (cName c)) "Type")
            (typeName (cType c))) "Primary" ++ fmtBool (cPrimary c) ++ [125] = o ++ pr (columnTree c)) as E.
  { intros o. unfold columnTree, member, appendJSONString. cbn [printJ map commas fst snd].
    unfold quoteJ, appendJSONString. cbn [app]. repeat rewrite <- ?app_assoc, <- ?app_comm_cons. cbn [app]. done. }
  rewrite E. destruct cols as [|c2 cols]; cbn [map commas]; destruct first; cbn [app]; rewrite <- ?app_assoc, ?app_nil_r; done.
Qed.

(** Floats whose text is JSON. *)
Definition floatsPrint (r : row) : Prop := ∀ k f, r !! k = Some (VFloat f) → ∃ t, json_Float f = inl t.

Lemma row_print (out : str) r : floatsPrint r → appendRowJSON out r = out ++ pr (rowTree r).
Proof.
  intros Hf. unfold appendRowJSON, rowTree. apply appendObject_print. intros o k [v Hk].
  unfold appendCellJSON, rowGet. rewrite Hk. cbn [default appendJSONValue cellTree].
  destruct v as [|n|f|s|b|n]; try done. simpl. destruct (Hf _ _ Hk) as [t ->]. done.
Qed.

Lemma set_print (out : str) s :
  appendMembers (λ o _, o ++ [123; 125]) true (out ++ [123]) (sortStrings (elements s)) ++ [125] = out ++ pr (setTree s).
Proof.
  rewrite (appendMembers_print _ (λ _, JObj [])) by done. unfold setTree. cbn [printJ].
  destruct (sortStrings (elements s)); cbn [app]; by rewrite <- ?app_assoc.
Qed.

Lemma rows_print (out : str) t : map_Forall (λ _ r, floatsPrint r) (tRows t) →
  appendObject (λ o k, appendRowJSON o (default ∅ (tRows t !! k))) out (tRows t)
  = out ++ pr (objTree (λ k, rowTree (default ∅ (tRows t !! k))) (tRows t)).
Proof. intros Hf. apply appendObject_print. intros o k [r Hk]. rewrite Hk. by apply row_print, (Hf k). Qed.

Lemma indexes_print (out : str) t :
  appendObject (λ o column,
    let ix := default ∅ (tIndexes t !! column) in
    appendObject (λ o v,
      appendMembers (λ o _, o ++ [123; 125]) true (o ++ [123])
        (sortStrings (elements (default ∅ (ix !! v)))) ++ [125]) o ix) out (tIndexes t)
  = out ++ pr (objTree (λ c, let ix := default ∅ (tIndexes t !! c) in
                             objTree (λ v, setTree (default ∅ (ix !! v))) ix) (tIndexes t)).
Proof. apply appendObject_print. intros o c _. apply appendObject_print. intros o' v _. apply set_print. Qed.

Lemma table_print (out : str) t : map_Forall (λ _ r, floatsPrint r) (tRows t) →
  appendTableJSON nilOrder nilNames out t = out ++ pr (tableTree t).
Proof.
  intros Hf. unfold appendTableJSON. rewrite columns_print, rows_print, indexes_print by done.
  rewrite stringArray_print, (appendObject_print _ (λ n, JStr (default [] (tIndexNames t !! n)))) by done.
  unfold tableTree, member, appendJSONString.
  set (rows := objTree _ (tRows t)). set (ixs := objTree _ (tIndexes t)). set (nms := objTree _ (tIndexNames t)).
  destruct (bool_decide (tOrder t = []) && nilOrder t), (bool_decide (tIndexNames t = ∅) && nilNames t),
    (tColumns t) as [|c cols]; cbn [printJ map commas fst snd]; unfold quoteJ, appendJSONString; cbn [app];
    repeat rewrite <- ?app_assoc, <- ?app_comm_cons; cbn [app]; done.
Qed.

(** The floats of a database have a text. *)
Definition db_prints (d : Database) : Prop := map_Forall (λ _ t, map_Forall (λ _ r, floatsPrint r) (tRows t)) (dTables d).

Lemma image_print d : db_prints d → MarshalJSON nilOrder nilNames d = pr (imageTree d).
Proof.
  intros Hf. unfold MarshalJSON, appendDatabaseJSON.
  rewrite (appendObject_print _ (λ n, match dTables d !! n with Some t => tableTree t | None => JNull end)).
  - done.
  - intros o k [t Hk]. rewrite Hk. by apply table_print, (Hf k).
Qed.

(** ** Nesting *)

Lemma depth_obj l n : 0 ≤ n → Forall (λ p : str * json, jdepth p.2 ≤ n) l → jdepth (JObj l) ≤ n + 1.
Proof.
  intros Hn Hl. cbn [jdepth]. assert (foldr Z.max 0 (map (λ p : str * json, jdepth p.2) l) ≤ n); [|lia].
  induction Hl; simpl; lia.
Qed.
Lemma depth_arr l n : 0 ≤ n → Forall (λ j, jdepth j ≤ n) l → jdepth (JArr l) ≤ n + 1.
Proof.
  intros Hn Hl. cbn [jdepth]. assert (foldr Z.max 0 (map jdepth l) ≤ n); [|lia]. induction Hl; simpl; lia.
Qed.
Lemma depth_objTree {A} (g : str → json) (m : gmap str A) n : 0 ≤ n → (∀ k, jdepth (g k) ≤ n) → jdepth (objTree g m) ≤ n + 1.
Proof. intros Hn Hg. apply depth_obj; [done|]. apply Forall_forall. intros p (k & -> & _)%list_elem_of_fmap. apply Hg. Qed.

Lemma depth_cell v : jdepth (cellTree v) ≤ 0.
Proof. destruct v; simpl; try lia. by case_match. Qed.

Lemma depth_table t : jdepth (tableTree t) ≤ 5.
Proof.
  apply (depth_obj _ 4); [lia|]. rewrite !Forall_cons. split_and!; cbn [snd]; [..|by constructor].
  - simpl. lia.
  - etransitivity; [apply (depth_arr _ 1); [lia|]|lia]. apply Forall_forall. intros j (c & -> & _)%list_elem_of_fmap. done.
  - etransitivity; [apply (depth_objTree _ _ 1); [lia|]|lia]. intros k. unfold rowTree. apply (depth_objTree _ _ 0); [lia|]. intros c. apply depth_cell.
  - case_match; [simpl; lia|]. etransitivity; [apply (depth_arr _ 0); [lia|]|lia].
    apply Forall_forall. by intros j (c & -> & _)%list_elem_of_fmap.
  - apply (depth_objTree _ _ 3); [lia|]. intros c. apply (depth_objTree _ _ 2); [lia|]. intros v.
    apply (depth_obj _ 1); [lia|]. apply Forall_forall. by intros p (k & -> & _)%list_elem_of_fmap.
  - case_match; [simpl; lia|]. etransitivity; [apply (depth_objTree _ _ 0); [lia|]|lia]. done.
Qed.

Lemma depth_image d : jdepth (imageTree d) ≤ maxNestingDepth.
Proof.
  transitivity 7; [|by unfold maxNestingDepth]. apply (depth_obj _ 6); [lia|]. apply Forall_cons. split; [|done].
  apply (depth_objTree _ _ 5); [lia|]. intros k. case_match; [apply depth_table|simpl; lia].
Qed.
End Tree.

(** ** Decoding *)

Lemma isField_eq (key : str) name : map foldRune (to_runes key) = map foldRune (lit name) → isField key name = true.
Proof. intros E. unfold isField. by rewrite bool_decide_eq_true. Qed.

Lemma decMap_insert {A} (zero : A) (dec : A → json → option A) (g : str → json) (h : str → A) keys : (∀ k, k ∈ keys → dec zero (g k) = Some (h k)) → ∀ m : gmap str A,
  foldl (λ acc p, m ← acc; v ← dec zero p.2; Some (<[p.1 := v]> m)) (Some m) (map (λ k, (k, g k)) keys)
  = Some (foldl (λ m k, <[k := h k]> m) m keys).
Proof.
  induction keys as [|k keys IH]; intros Hd m; [done|]. cbn [map foldl fst snd].
  cbn [mbind option_bind]. rewrite Hd by set_solver. cbn [mbind option_bind]. apply IH. set_solver.
Qed.
Lemma foldl_insert_lookup {A} (h : str → A) keys : ∀ (m : gmap str A) k,
  foldl (λ m k, <[k := h k]> m) m keys !! k = if decide (k ∈ keys) then Some (h k) else m !! k.
Proof.
  induction keys as [|x keys IH]; intros m k; [done|]. cbn [foldl]. rewrite IH.
  destruct (decide (k ∈ keys)) as [Hk|Hk].
  - rewrite decide_True; [done|set_solver].
  - rewrite lookup_insert. case_decide; subst.
    + rewrite decide_True; [done|set_solver].
    + rewrite decide_False; [done|set_solver].
Qed.
Lemma sorted_keys {A} (m : gmap str A) k : k ∈ sortStrings (mapKeys m) ↔ is_Some (m !! k).
Proof.
  unfold sortStrings. rewrite merge_sort_Permutation. unfold mapKeys. rewrite list_elem_of_fmap. split.
  - intros ([k' a] & -> & Hk%elem_of_map_to_list). by eexists.
  - intros [a Hk]. exists (k, a). by rewrite elem_of_map_to_list.
Qed.

(** An object printed from a map decodes to the map, element by element. *)
Lemma decMap_objTree {A B} (zero : B) (dec : B → json → option B) (g : str → json) (h : A → B) (m : gmap str A) :
  (∀ k a, m !! k = Some a → dec zero (g k) = Some (h a)) → decMap zero dec None (objTree g m) = Some (Some (h <$> m)).
Proof.
  intros Hd. unfold decMap, objTree. cbn [default].
  rewrite (decMap_insert zero dec g (λ k, from_option h zero (m !! k))).
  - cbn [fmap option_fmap option_map]. do 2 f_equal. apply map_eq. intros k. rewrite foldl_insert_lookup, lookup_fmap.
    destruct (m !! k) as [a|] eqn:E; case_decide as Hk; rewrite sorted_keys, E in Hk; try done; by destruct Hk.
  - intros k [a Hk]%sorted_keys. rewrite Hk. by apply Hd.
Qed.

Lemma decItems_map {A} (zero : A) (dec : A → json → option A) (g : A → json) l :
  (∀ a, a ∈ l → dec zero (g a) = Some a) → decItems zero dec [] (map g l) = Some l.
Proof.
  induction l as [|a l IH]; intros Hd; [done|]. cbn [map decItems hd tl]. rewrite Hd by set_solver.
  cbn [mbind option_bind]. rewrite IH by set_solver. done.
Qed.
Lemma decSlice_map {A} (zero : A) (dec : A → json → option A) (g : A → json) l :
  (∀ a, a ∈ l → dec zero (g a) = Some a) →
  ∃ s, decSlice zero dec nilSlice (JArr (map g l)) = Some s ∧ sliceList s = l.
Proof.
  intros Hd. destruct l as [|a l]; [by exists nilSlice|]. exists (mkSlice (a :: l) (length (a :: l))). split.
  - unfold decSlice. cbn [map slBack nilSlice]. change (g a :: map g l) with (map g (a :: l)).
    rewrite decItems_map by done. cbn [mbind option_bind]. by rewrite length_map.
  - unfold sliceList. simpl. by rewrite firstn_all.
Qed.

(** A cell as decoded. *)
Definition decoded `{JsonStd} (v : value) : cell :=
  match v with
  | VInt n | VGoInt n => Number (FormatInt n)
  | VFloat f => match json_Float f with inl t => Number t | inr _ => Cell VNil end
  | _ => Cell v
  end.

Section Decode.
Context `{JsonStd} (nilOrder nilNames : Table → bool).

Lemma decAny_cell v : decAny (Cell VNil) (cellTree v) = Some (decoded v).
Proof. destruct v; try done. simpl. by case_match. Qed.

Lemma decRow r : decMap (Cell VNil) decAny None (rowTree r) = Some (Some (decoded <$> r)).
Proof. unfold rowTree. apply decMap_objTree. intros k v Hk. unfold rowGet. rewrite Hk. apply decAny_cell. Qed.

Lemma decColumn_tree c : typeOf (typeName (cType c)) = cType c → decColumn column0 (columnTree c) = Some c.
Proof.
  intros Ht. transitivity (Some (mkColumn (cName c) (typeOf (typeName (cType c))) (cPrimary c))); [reflexivity|].
  rewrite Ht. by destruct c.
Qed.

(** Column types that their names determine: the four constants, and no other. *)
Definition types_ok (t : Table) : Prop := Forall (λ c, typeOf (typeName (cType c)) = cType c) (tColumns t).

Lemma decSet s : decMap tt decUnit None (setTree s) = Some (Some (gset_to_gmap tt s)).
Proof.
  unfold setTree, decMap. cbn [default]. rewrite (decMap_insert tt decUnit _ (λ _, tt)) by done.
  cbn [fmap option_fmap option_map]. do 2 f_equal. apply map_eq. intros k.
  rewrite foldl_insert_lookup, lookup_empty, lookup_gset_to_gmap. unfold sortStrings.
  case_decide as Hk; rewrite merge_sort_Permutation, elem_of_elements in Hk.
  - by rewrite option_guard_True.
  - by rewrite option_guard_False.
Qed.

(** What the decoder makes of a table. *)
Definition tableDecoded (t : Table) (ti : tableImage) : Prop :=
  tiName ti = tName t ∧ sliceList (tiColumns ti) = tColumns t ∧
  tiRows ti = Some ((λ r : row, Some (decoded <$> r)) <$> tRows t) ∧ sliceList (tiOrder ti) = tOrder t ∧
  dom (default ∅ (tiIndexes ti)) = dom (tIndexes t) ∧ default ∅ (tiIndexNames ti) = tIndexNames t.

Lemma decTable_tree t : types_ok t →
  ∃ ti, decTable image0 (tableTree nilOrder nilNames t) = Some ti ∧ tableDecoded t ti.
Proof.
  intros Ht.
  set (ord := if bool_decide (tOrder t = []) && nilOrder t then JNull else JArr (map JStr (tOrder t))).
  set (nms := if bool_decide (tIndexNames t = ∅) && nilNames t then JNull
              else objTree (λ n, JStr (default [] (tIndexNames t !! n))) (tIndexNames t)).
  set (ixs := objTree (λ c, let ix := default ∅ (tIndexes t !! c) in
                            objTree (λ v, setTree (default ∅ (ix !! v))) ix) (tIndexes t)).
  set (rws := objTree (λ k, rowTree (default ∅ (tRows t !! k))) (tRows t)).
  assert (decTable image0 (tableTree nilOrder nilNames t)
    = (c ← decSlice column0 decColumn nilSlice (JArr (map columnTree (tColumns t)));
       r ← decMap None (decMap (Cell VNil) decAny) None rws;
       o ← decSlice [] decString nilSlice ord;
       x ← decMap None (decMap None (decMap tt decUnit)) None ixs;
       n ← decMap [] decString None nms;
       Some (mkImage (tName t) c r o x n))) as ->.
  { unfold tableTree. fold ord nms ixs rws. generalize (JArr (map columnTree (tColumns t))) rws ord ixs nms. clear.
    intros cols rows ord ixs nms. unfold decTable, decStruct. cbn [foldl fst snd].
    repeat (match goal with |- context [isField ?k ?n] => let b := eval vm_compute in (isField k n) in change (isField k n) with b end; cbv iota).
    cbn [mbind option_bind decString tiName tiColumns tiRows tiOrder tiIndexes tiIndexNames image0].
    destruct (decSlice column0 decColumn nilSlice cols); [|done]. cbn [mbind option_bind tiName tiColumns tiRows tiOrder tiIndexes tiIndexNames].
    destruct (decMap None _ None rows); [|done]. cbn [mbind option_bind tiName tiColumns tiRows tiOrder tiIndexes tiIndexNames].
    destruct (decSlice [] decString nilSlice ord); [|done]. cbn [mbind option_bind tiName tiColumns tiRows tiOrder tiIndexes tiIndexNames].
    destruct (decMap None _ None ixs); done. }
  destruct (decSlice_map column0 decColumn columnTree (tColumns t)) as (cs & Ec & Hc).
  { intros c Hin. apply decColumn_tree. by eapply Forall_forall in Ht. }
  rewrite Ec. cbn [mbind option_bind].
  unfold rws. rewrite (decMap_objTree None _ _ (λ r : row, Some (decoded <$> r)) (tRows t)).
  2: { intros k r Hk. rewrite Hk. apply decRow. }
  cbn [mbind option_bind].
  assert (∃ os, decSlice [] decString nilSlice ord = Some os ∧ sliceList os = tOrder t) as (os & Eo & Ho).
  { unfold ord. destruct (bool_decide_reflect (tOrder t = [])) as [->|]; cbn [andb].
    - exists nilSlice. by destruct (nilOrder t).
    - by apply decSlice_map. }
  rewrite Eo. cbn [mbind option_bind].
  unfold ixs. rewrite (decMap_objTree None _ _ (λ ix : index, Some ((λ s : gset str, Some (gset_to_gmap tt s)) <$> ix)) (tIndexes t)).
  2: { intros c ix Hix. rewrite Hix. cbv zeta. change (default ∅ (Some ix)) with ix. apply decMap_objTree. intros v s Hv. rewrite Hv. apply decSet. }
  cbn [mbind option_bind].
  assert (∃ ns, decMap [] decString None nms = Some ns ∧ default ∅ ns = tIndexNames t) as (ns & En & Hn).
  { unfold nms. destruct (bool_decide_reflect (tIndexNames t = ∅)) as [Hz|]; cbn [andb].
    - rewrite Hz. destruct (nilNames t); [by exists None|]. by exists (Some ∅).
    - exists (Some (id <$> tIndexNames t)). split; [|by rewrite map_fmap_id].
      apply (decMap_objTree [] decString). intros k c Hk. by rewrite Hk. }
  rewrite En. cbn [mbind option_bind]. eexists. split; [done|]. split_and!; try done. simpl. by rewrite dom_fmap_L.
Qed.
End Decode.

(** ** Repairing what was decoded *)

Section Restore.
Context `{JsonStd} `{GoStd} (order : list str → list str) (Horder : ∀ l, order l ≡ₚ l).

(** Every FLOAT cell has a text that is a JSON number and parses back. *)
Definition floatsRead (r : row) : Prop := ∀ k f, r !! k = Some (VFloat f) →
  ∃ t, json_Float f = inl t ∧ parseVal t Float = Ok (VFloat f).

Lemma decoded_parses ty v : has_type ty v →
  (∀ f, v = VFloat f → ∃ t, json_Float f = inl t ∧ parseVal t Float = Ok (VFloat f)) →
  decoded v = Cell v ∨ ∃ t, decoded v = Number t ∧ parseVal t ty = Ok v.
Proof.
  intros Ht Hf. destruct v as [|n|f|s|b|n]; try (by left).
  - right. destruct ty; try done. exists (FormatInt n). split; [done|]. by apply parseVal_FormatInt.
  - right. destruct ty; try done. destruct (Hf f eq_refl) as (t & E & Hp). exists t. simpl. by rewrite E.
Qed.

Lemma restoreRow_ok name r cols : floatsRead r → (∀ c, c ∈ cols → has_type (cType c) (rowGet r (cName c))) → ∀ m : gmap str cell,
  (∀ k, m !! k = Cell <$> r !! k ∨ m !! k = decoded <$> r !! k) →
  ∃ m', restoreRow name cols m = inl m' ∧
    ∀ k, (m' !! k = Cell <$> r !! k) ∨ (m' !! k = m !! k ∧ hasColumn cols k = false).
Proof.
  intros Hf. induction cols as [|c cols IH]; intros Ht m Hm; [exists m; split; [done|]; by right|].
  cbn [restoreRow]. specialize (IH (λ c' Hc', Ht c' (list_elem_of_further _ _ _ Hc'))).
  assert (∀ m0 : gmap str cell, (∀ k, k ≠ cName c → m0 !! k = m !! k) → m0 !! cName c = Cell <$> r !! cName c →
    ∃ m', restoreRow name cols m0 = inl m' ∧
      ∀ k, (m' !! k = Cell <$> r !! k) ∨ (m' !! k = m !! k ∧ hasColumn (c :: cols) k = false)) as Hgo.
  { intros m0 Hm0 Hc. destruct (IH m0) as (m' & -> & Hm').
    { intros k. destruct (decide (k = cName c)) as [->|Hk]; [by left|]. rewrite Hm0 by done. apply Hm. }
    exists m'. split; [done|]. intros k. destruct (Hm' k) as [|[Hk Hn]]; [by left|].
    destruct (decide (k = cName c)) as [->|Hne]; [left; congruence|]. right. rewrite Hk, Hm0 by done.
    split; [done|]. simpl. rewrite Hn, orb_false_r. by apply bool_decide_eq_false. }
  assert (Hk := Hm (cName c)). destruct (r !! cName c) as [v|] eqn:Ev; simpl in Hk.
  - destruct (decoded_parses (cType c) v) as [E|(t & E & Hp)].
    + specialize (Ht c (list_elem_of_here _ _)). unfold rowGet in Ht. by rewrite Ev in Ht.
    + intros f ->. by apply (Hf (cName c)).
    + rewrite E in Hk. assert (m !! cName c = Some (Cell v)) as Hk' by (by destruct Hk). rewrite Hk'. by apply Hgo.
    + destruct Hk as [Hk|Hk]; rewrite Hk; [by apply Hgo|]. rewrite E, Hp. apply Hgo; [|by rewrite lookup_insert_eq].
      intros k Hne. by rewrite lookup_insert_ne.
  - assert (m !! cName c = None) as Hk' by (by destruct Hk). rewrite Hk'. by apply Hgo.
Qed.

Lemma plainRow_cells (r : row) : plainRow (Cell <$> r) = Some r.
Proof.
  unfold plainRow. assert (forallb (λ p, isCell p.2) (map_to_list (Cell <$> r)) = true) as ->.
  { apply forallb_forall. intros [k x] Hin. apply list_elem_of_In, elem_of_map_to_list in Hin.
    rewrite lookup_fmap in Hin. destruct (r !! k); simplify_eq/=. done. }
  f_equal. apply map_eq. intros k. rewrite lookup_omap, lookup_fmap. by destruct (r !! k).
Qed.

Lemma restoreRow_table name cols r : floatsRead r → row_ok cols r → restoreRow name cols (decoded <$> r) = inl (Cell <$> r).
Proof.
  intros Hf [Hdom Hty]. destruct (restoreRow_ok name r cols Hf Hty (decoded <$> r)) as (m' & -> & Hm').
  { intros k. right. by rewrite lookup_fmap. }
  f_equal. apply map_eq. intros k. rewrite lookup_fmap. destruct (Hm' k) as [|[Hk Hn]]; [done|].
  rewrite Hk, lookup_fmap. destruct (r !! k) eqn:E; [|done].
  assert (hasColumn cols k = true) by (apply Hdom; by rewrite E). congruence.
Qed.

Lemma restoreRows_table (name : str) (cols : list Column) (rows : gmap str row) :
  map_Forall (λ _ r, floatsRead r ∧ row_ok cols r) rows → ∀ keys acc, (∀ k, k ∈ keys → is_Some (rows !! k)) →
  restoreRows name cols ((λ r : row, Some (decoded <$> r)) <$> rows) keys (Some acc)
  = inl (Some (foldl (λ m k, <[k := default ∅ (rows !! k)]> m) acc keys)).
Proof.
  intros Hr keys. induction keys as [|k keys IH]; intros acc Hk; [done|]. cbn [restoreRows foldl].
  destruct (Hk k (list_elem_of_here _ _)) as [r E]. rewrite lookup_fmap, E. cbn [fmap option_fmap option_map].
  destruct (Hr k r E) as [Hf Ho]. rewrite restoreRow_table by done. cbn [mbind option_bind].
  rewrite plainRow_cells. cbn [mbind option_bind]. rewrite IH by set_solver. done.
Qed.

Lemma rows_restored (name : str) (cols : list Column) (rows : gmap str row) :
  map_Forall (λ _ r, floatsRead r ∧ row_ok cols r) rows →
  let src := (λ r : row, Some (decoded <$> r)) <$> rows in
  restoreRows name cols src (order (mapKeys src)) (Some ∅) = inl (Some rows).
Proof.
  intros Hr src. assert (∀ k, k ∈ order (mapKeys src) ↔ is_Some (rows !! k)) as Hk.
  { intros k. rewrite Horder. unfold mapKeys, src. rewrite list_elem_of_fmap. split.
    - intros ([k' x] & -> & Hin%elem_of_map_to_list). rewrite lookup_fmap in Hin. simpl. destruct (rows !! k'); [by eexists|done].
    - intros [r E]. exists (k, Some (decoded <$> r)). rewrite elem_of_map_to_list, lookup_fmap. by rewrite E. }
  unfold src at 1. rewrite restoreRows_table; [|done|by intros k ?%Hk]. do 2 f_equal. apply map_eq. intros k.
  rewrite (foldl_insert_lookup (λ k, default ∅ (rows !! k))), lookup_empty.
  case_decide as Hin; rewrite Hk in Hin; destruct (rows !! k) eqn:E; try done; by destruct Hin.
Qed.

Lemma keep_all (rows : gmap str row) (l : list str) : NoDup l → ∀ s : gset str * list str, (∀ k, k ∈ l → k ∉ s.1) →
  foldl (orderKeep rows) s l
  = (list_to_set (filter (λ k, isLive rows k = true) l) ∪ s.1, s.2 ++ filter (λ k, isLive rows k = true) l).
Proof.
  induction 1 as [|k l Hk _ IH]; intros [seen out] Hs; cbn [foldl].
  { simpl. rewrite app_nil_r. f_equal. set_solver. }
  unfold orderKeep at 2. cbn [fst snd]. rewrite filter_cons. destruct (isLive rows k) eqn:E; cbn [andb].
  - rewrite bool_decide_eq_true_2 by (apply Hs; set_solver). rewrite IH by set_solver. rewrite decide_True by done.
    cbn [fst snd list_to_set]. rewrite <- app_assoc. f_equal. set_solver.
  - rewrite IH by set_solver. by rewrite decide_False.
Qed.
Lemma keep_none (rows : gmap str row) (l : list str) (s : gset str * list str) :
  (∀ k, k ∈ l → isLive rows k = true → k ∈ s.1) → foldl (orderKeep rows) s l = s.
Proof.
  induction l as [|k l IH]; intros Hs; [done|]. cbn [foldl]. unfold orderKeep at 2.
  destruct (isLive rows k) eqn:E; cbn [andb]; [|apply IH; set_solver].
  rewrite bool_decide_eq_false_2; [apply IH; set_solver|]. intros Hn. apply Hn, Hs; set_solver.
Qed.
Lemma order_restored rows src dead : order_ok rows src dead →
  restoreOrder order rows src = filter (λ k, isLive rows k = true) src.
Proof.
  intros [Hnd Hlive _]. unfold restoreOrder. rewrite (keep_all rows src) by (done || set_solver).
  rewrite keep_none; [done|]. cbn [fst]. intros k _ Hk. rewrite elem_of_union, elem_of_list_to_set, list_elem_of_filter.
  left. split; [done|]. apply Hlive. by apply isLive_true.
Qed.

(** An index is determined by the rows. *)
Lemma index_unique rows c m m' : index_ok rows c m → index_ok rows c m' → m = m'.
Proof.
  intros [Hm Hn] [Hm' Hn']. apply map_eq. intros v.
  assert (default ∅ (m !! v) = default ∅ (m' !! v)) as E by (apply set_eq; intros k; by rewrite Hm, Hm').
  specialize (Hn v). specialize (Hn' v). destruct (m !! v), (m' !! v); simplify_eq/=; congruence.
Qed.
Lemma index_restored rows c m : index_ok rows c m → restoreIndex order rows c = m.
Proof.
  intros Hm. eapply index_unique; [|done].
  apply (buildIndex_ok (mkTable [] [] rows [] ∅ ∅ noFast 0 0) c). apply Horder.
Qed.

(** A table as it comes back: the stale keys of its order slice are gone, its fast
    path is rebuilt, its counters start over; all else is the same. *)
Definition restoredTable (t : Table) : Table :=
  rebuildFastPathLocked (mkTable (tName t) (tColumns t) (tRows t) (liveOrder t) (tIndexes t) (tIndexNames t) noFast 0 0).

Lemma restoredTable_wf t : table_wf t → table_wf (restoredTable t) ∧ absRows (restoredTable t) = absRows t.
Proof.
  intros [Wc Wr Wk Wo Wi Wx Wn Wf Wa]. split.
  - apply rebuild_wf. split; try done. by eapply order_ok_reap.
  - unfold restoredTable. rewrite rebuild_abs. apply absL_live.
Qed.
Lemma restoredTable_idemp t : restoredTable (restoredTable t) = restoredTable t.
Proof.
  unfold restoredTable at 1. pose proof (rebuild_fields (mkTable (tName t) (tColumns t) (tRows t) (liveOrder t) (tIndexes t) (tIndexNames t) noFast 0 0))
    as (H1 & H2 & H3 & H4 & H5 & H6 & _). fold (restoredTable t) in *. cbn in H1, H2, H3, H4, H5, H6.
  unfold liveOrder. rewrite H1, H2, H3, H4, H5, H6. unfold restoredTable, liveOrder. do 2 f_equal.
  rewrite list_filter_filter. apply list_filter_iff. tauto.
Qed.

Lemma restoreTable_ok name t ti : table_wf t → map_Forall (λ _ r, floatsRead r) (tRows t) → tableDecoded t ti →
  restoreTable order name ti = inl (Some (restoredTable t)).
Proof.
  intros [Wc Wr Wk Wo Wi Wx Wn Wf Wa] Hf (Hn & Hc & Hr & Ho & Hi & Hx). unfold restoreTable.
  rewrite Hc, Hr, Hn, Ho, Hx. change (default ∅ (Some ?x)) with x.
  rewrite rows_restored by (intros k r Hk; split; [by eapply Hf|by eapply Wr]).
  do 2 f_equal. unfold restoredTable. f_equal.
  rewrite (order_restored (tRows t) (tOrder t) (tDead t)) by done. f_equal.
  apply map_eq. intros c. rewrite map_lookup_imap.
  assert (is_Some (default ∅ (tiIndexes ti) !! c) ↔ is_Some (tIndexes t !! c)) as Hd.
  { by rewrite <- !elem_of_dom, Hi. }
  destruct (default ∅ (tiIndexes ti) !! c) eqn:E1, (tIndexes t !! c) as [m|] eqn:E2; simpl.
  - f_equal. apply index_restored. by apply (Wi c).
  - by destruct (proj1 Hd ltac:(by eexists)).
  - by destruct (proj2 Hd ltac:(by eexists)).
  - done.
Qed.
End Restore.

(** ** The whole image *)

Section Image.
Context `{JsonStd} `{GoStd} (order : list str → list str) (Horder : ∀ l, order l ≡ₚ l).
Context (nilOrder nilNames : Table → bool).

(** What an image can carry: well-formed tables over the four column types, whose
    texts are UTF-8 and whose floats print as JSON numbers that parse back. *)
Record image_ok (d : Database) : Prop := {
  io_wf : db_wf d;
  io_types : map_Forall (λ _ t, types_ok t) (dTables d);
  io_text : jsonOK (imageTree nilOrder nilNames d) = true;
  io_floats : map_Forall (λ _ t, map_Forall (λ _ r, floatsRead r) (tRows t)) (dTables d);
}.

Lemma image_prints d : image_ok d → db_prints d.
Proof. intros [_ _ _ Hf] n t Ht k r Hr c f Hc. destruct (Hf n t Ht k r Hr c f Hc) as (x & E & _). by exists x. Qed.

Lemma tables_restored d : db_wf d → map_Forall (λ _ t, map_Forall (λ _ r, floatsRead r) (tRows t)) (dTables d) →
  ∀ (src : gmap str (option tableImage)),
  (∀ n t, dTables d !! n = Some t → ∃ ti, src !! n = Some (Some ti) ∧ tableDecoded t ti) →
  ∀ names acc, (∀ n, n ∈ names → is_Some (dTables d !! n)) →
  restoreTables order src names (Some acc)
  = inl (Some (foldl (λ m n, <[n := from_option restoredTable (restoredTable (mkTable [] [] ∅ [] ∅ ∅ noFast 0 0)) (dTables d !! n)]> m) acc names)).
Proof.
  intros Hd Hf src Hsrc names. induction names as [|n names IH]; intros acc Hn; [done|]. cbn [restoreTables foldl].
  destruct (Hn n (list_elem_of_here _ _)) as [t Ht]. destruct (Hsrc n t Ht) as (ti & -> & Hti).
  rewrite (restoreTable_ok order Horder n t ti) by (done || by eapply Hd || by eapply Hf).
  cbn [mbind option_bind]. rewrite IH by set_solver. by rewrite Ht.
Qed.

Lemma decode_image d : image_ok d →
  ∃ src : gmap str (option tableImage), decDatabase None (imageTree nilOrder nilNames d) = Some (Some src) ∧
    dom src = dom (dTables d) ∧
    ∀ n t, dTables d !! n = Some t → ∃ ti, src !! n = Some (Some ti) ∧ tableDecoded t ti.
Proof.
  intros [Hd Ht _ _].
  set (tree n := match dTables d !! n with Some t => tableTree nilOrder nilNames t | None => JNull end).
  set (h n := default None (decTablePtr None (tree n))).
  assert (∀ n t, dTables d !! n = Some t → ∃ ti, decTablePtr None (tree n) = Some (Some ti) ∧ tableDecoded t ti) as Hone.
  { intros n t E. destruct (decTable_tree nilOrder nilNames t (Ht n t E)) as (ti & Hti & Hdec).
    exists ti. split; [|done]. unfold tree. rewrite E. unfold decTablePtr. cbn -[decTable tableTree]. unfold tableTree in *.
    by rewrite Hti. }
  exists (map_imap (λ n _, Some (h n)) (dTables d)). split_and!.
  - assert (decDatabase None (imageTree nilOrder nilNames d) = decMap None decTablePtr None (objTree tree (dTables d))) as ->.
    { unfold imageTree. fold tree. generalize (objTree tree (dTables d)). intros j. unfold decDatabase, decStruct. cbn [foldl fst snd].
      change (isField (lit "Tables") "Tables") with true. cbv iota. done. }
    unfold decMap, objTree. cbn [default]. rewrite (decMap_insert None decTablePtr tree h).
    + cbn [fmap option_fmap option_map]. do 2 f_equal. apply map_eq. intros n. rewrite foldl_insert_lookup, map_lookup_imap.
      destruct (dTables d !! n) as [t|] eqn:E; case_decide as Hk; rewrite sorted_keys, E in Hk; try done; by destruct Hk.
    + intros n [t E]%sorted_keys. destruct (Hone n t E) as (ti & Hti & _). unfold h. by rewrite Hti.
  - apply set_eq. intros n. rewrite !elem_of_dom, map_lookup_imap.
    destruct (dTables d !! n); simpl; [split; by eexists|done].
  - intros n t E. destruct (Hone n t E) as (ti & Hti & Hdec). exists ti. split; [|done].
    rewrite map_lookup_imap, E. cbn. unfold h. by rewrite Hti.
Qed.

(** Restoring the text of the image, printed with either quoting. *)
Lemma restore_text q d d0 : (∀ s rest, validUTF8 s = true → unquote (q s ++ rest) = Some (s, rest)) → image_ok d →
  UnmarshalJSON order (printJ q (imageTree nilOrder nilNames d)) d0
  = Restored (bumpRevision (set_tables d0 (restoredTable <$> dTables d))).
Proof.
  intros Hq Hok. unfold UnmarshalJSON. rewrite (parse_printed q Hq) by (apply Hok || apply depth_image).
  destruct (decode_image d Hok) as (src & -> & Hdom & Hsrc). unfold restoreImage. change (default ∅ (Some src)) with src.
  assert (∀ n, n ∈ order (mapKeys src) ↔ is_Some (dTables d !! n)) as Hk.
  { intros n. rewrite Horder. rewrite <- (elem_of_dom (D:=gset str)), <- Hdom, elem_of_dom.
    rewrite <- sorted_keys. unfold sortStrings. by rewrite merge_sort_Permutation. }
  rewrite (tables_restored d (io_wf d Hok) (io_floats d Hok) src Hsrc) by (by intros n ?%Hk). do 2 f_equal. f_equal.
  apply map_eq. intros n. rewrite foldl_insert_lookup, lookup_fmap, lookup_empty.
  case_decide as Hin; rewrite Hk in Hin; destruct (dTables d !! n) eqn:E; try done; by destruct Hin.
Qed.

(** The image of a database survives [json.Marshal] and [json.Unmarshal]. *)
Lemma marshal_restores d d0 : image_ok d →
  ∃ payload, marshalText (MarshalJSON nilOrder nilNames d) = inl payload ∧
    UnmarshalJSON order payload d0 = Restored (bumpRevision (set_tables d0 (restoredTable <$> dTables d))).
Proof.
  intros Hok. rewrite image_print by (by apply image_prints). eexists. split.
  - apply marshal_printed; [apply Hok|apply depth_image].
  - apply restore_text; [apply unquote_quoteEsc|done].
Qed.

(** *** Restored databases can be restored again *)

Lemma jsonOK_objTree {A} (g : str → json) (m : gmap str A) :
  jsonOK (objTree g m) = true ↔ ∀ k, is_Some (m !! k) → validUTF8 k = true ∧ jsonOK (g k) = true.
Proof.
  unfold objTree. cbn [jsonOK]. rewrite forallb_forall. split.
  - intros Hf k Hk. apply andb_true_iff. apply (Hf (k, g k)), list_elem_of_In, list_elem_of_fmap.
    exists k. by rewrite sorted_keys.
  - intros Hf p Hp. apply list_elem_of_In, list_elem_of_fmap in Hp as (k & -> & Hk%sorted_keys). simpl.
    destruct (Hf k Hk) as [-> ->]. done.
Qed.
Lemma jsonOK_strings l : jsonOK (JArr (map JStr l)) = true ↔ ∀ s, s ∈ l → validUTF8 s = true.
Proof.
  cbn [jsonOK]. rewrite forallb_forall. split.
  - intros Hf s Hs. apply (Hf (JStr s)), list_elem_of_In, list_elem_of_fmap. by exists s.
  - intros Hf j Hj. apply list_elem_of_In, list_elem_of_fmap in Hj as (s & -> & Hs). by apply Hf.
Qed.

Lemma restored_text t : jsonOK (tableTree nilOrder nilNames t) = true →
  jsonOK (tableTree nilOrder nilNames (restoredTable t)) = true.
Proof.
  pose proof (rebuild_fields (mkTable (tName t) (tColumns t) (tRows t) (liveOrder t) (tIndexes t) (tIndexNames t) noFast 0 0))
    as (Hn & Hc & Hr & Ho & Hi & Hx & _). fold (restoredTable t) in *. cbn in Hn, Hc, Hr, Ho, Hi, Hx.
  unfold tableTree. rewrite Hn, Hc, Hr, Ho, Hi, Hx. cbn [jsonOK forallb fst snd].
  change (validUTF8 (lit "Name")) with true. change (validUTF8 (lit "Columns")) with true.
  change (validUTF8 (lit "Rows")) with true. change (validUTF8 (lit "Order")) with true.
  change (validUTF8 (lit "Indexes")) with true. change (validUTF8 (lit "IndexNames")) with true. cbn [andb].
  rewrite !andb_true_iff. intros (H1 & H2 & H3 & H4 & H5 & H6 & _). split_and!; try done.
  - destruct (bool_decide (liveOrder t = []) && _); [done|]. apply jsonOK_strings. intros s Hs. unfold liveOrder in Hs.
    apply list_elem_of_filter in Hs as [_ Hs]. destruct (bool_decide_reflect (tOrder t = [])) as [Hz|]; cbn [andb] in H4.
    + rewrite Hz in Hs. set_solver.
    + by apply (proj1 (jsonOK_strings _) H4).
  - destruct (bool_decide_reflect (tIndexNames t = ∅)) as [Hz|]; cbn [andb] in *; [|done].
    destruct (nilNames (restoredTable t)); [done|]. apply jsonOK_objTree. rewrite Hz. intros k [? Hk]. by rewrite lookup_empty in Hk.
Qed.

Lemma image_ok_restored d d0 : image_ok d → image_ok (bumpRevision (set_tables d0 (restoredTable <$> dTables d))).
Proof.
  intros [Hw Ht Hx Hf].
  assert (∀ t, tName (restoredTable t) = tName t ∧ tColumns (restoredTable t) = tColumns t ∧ tRows (restoredTable t) = tRows t) as Hfld.
  { intros t. pose proof (rebuild_fields (mkTable (tName t) (tColumns t) (tRows t) (liveOrder t) (tIndexes t) (tIndexNames t) noFast 0 0))
      as (? & ? & ? & _). done. }
  split; cbn [dTables bumpRevision set_tables].
  - intros n t' Hn. cbn [dTables bumpRevision set_tables] in Hn. rewrite lookup_fmap in Hn. destruct (dTables d !! n) as [t|] eqn:E; simplify_eq/=.
    destruct (Hw n t E) as [Hwt Hnm]. split; [by apply restoredTable_wf|]. by rewrite (proj1 (Hfld t)).
  - intros n t' Hn. rewrite lookup_fmap in Hn. destruct (dTables d !! n) as [t|] eqn:E; simplify_eq/=.
    unfold types_ok. rewrite (proj1 (proj2 (Hfld t))). by apply (Ht n).
  - unfold imageTree in *. cbn [jsonOK forallb fst snd] in *. rewrite andb_true_r in *. apply andb_true_iff in Hx as [_ Hx].
    apply andb_true_iff. split; [done|]. apply jsonOK_objTree. intros n [t' Hn]. cbn [dTables bumpRevision set_tables] in *.
    rewrite lookup_fmap in *. destruct (dTables d !! n) as [t|] eqn:E; simplify_eq/=.
    destruct (proj1 (jsonOK_objTree _ _) Hx n) as [Hv Ho]; [by eexists|]. split; [done|]. rewrite E in Ho. by apply restored_text.
  - intros n t' Hn. rewrite lookup_fmap in Hn. destruct (dTables d !! n) as [t|] eqn:E; simplify_eq/=.
    rewrite (proj2 (proj2 (Hfld t))). by apply (Hf n).
Qed.

(** C7: A database image is faithful. What [json.Marshal] writes of a well-formed
    database (any number of tables, rows, indexes; NULLs, integers at their limits,
    floats, text with quotes, control characters and any UTF-8) is read back by
    [json.Unmarshal] whatever order maps are visited in: the same tables with the
    same schema, rows in the same order, indexes and index names, well-formed, with
    only the stale order keys gone. The previous content is replaced as a whole and
    the revision moves on. *)
Theorem image_roundtrip d d0 : image_ok d →
  ∃ payload d', marshalText (MarshalJSON nilOrder nilNames d) = inl payload ∧
    UnmarshalJSON order payload d0 = Restored d' ∧ dRevision d' = (dRevision d0 + 1) mod 2 ^ 64 ∧
    dom (dTables d') = dom (dTables d) ∧
    ∀ n t, dTables d !! n = Some t → ∃ t', dTables d' !! n = Some t' ∧ table_wf t' ∧
      tName t' = tName t ∧ tColumns t' = tColumns t ∧ absRows t' = absRows t ∧ tRows t' = tRows t ∧
      tOrder t' = liveOrder t ∧ tIndexes t' = tIndexes t ∧ tIndexNames t' = tIndexNames t.
Proof.
  intros Hok. destruct (marshal_restores d d0 Hok) as (payload & Hp & Hr). exists payload. eexists.
  split_and!; [done|done|done|simpl; by rewrite dom_fmap_L|].
  intros n t Ht. exists (restoredTable t). cbn [dTables bumpRevision set_tables]. rewrite lookup_fmap, Ht.
  destruct (restoredTable_wf t) as [Hw Ha]; [by eapply (io_wf d Hok)|].
  pose proof (rebuild_fields (mkTable (tName t) (tColumns t) (tRows t) (liveOrder t) (tIndexes t) (tIndexNames t) noFast 0 0))
    as (? & ? & ? & ? & ? & ? & _). done.
Qed.
End Image.
