(* ===== verification/Sha256.v ===== *)
(** * SHA-256: crypto/sha256 and encoding/hex

    The digest of FIPS 180-4 on byte strings, used by the backup manifests and the
    hosted server's authenticator. *)

From S2P Require Import Prelude GoLib Bytes Json.
Open Scope Z_scope.

Definition w32 (x : Z) : Z := Z.land x 0xFFFFFFFF.
Definition rotr (n x : Z) : Z := Z.lor (Z.shiftr x n) (w32 (Z.shiftl x (32 - n))).

Definition sha_k : list Z :=
  [0x428a2f98; 0x71374491; 0xb5c0fbcf; 0xe9b5dba5; 0x3956c25b; 0x59f111f1; 0x923f82a4; 0xab1c5ed5;
   0xd807aa98; 0x12835b01; 0x243185be; 0x550c7dc3; 0x72be5d74; 0x80deb1fe; 0x9bdc06a7; 0xc19bf174;
   0xe49b69c1; 0xefbe4786; 0x0fc19dc6; 0x240ca1cc; 0x2de92c6f; 0x4a7484aa; 0x5cb0a9dc; 0x76f988da;
   0x983e5152; 0xa831c66d; 0xb00327c8; 0xbf597fc7; 0xc6e00bf3; 0xd5a79147; 0x06ca6351; 0x14292967;
   0x27b70a85; 0x2e1b2138; 0x4d2c6dfc; 0x53380d13; 0x650a7354; 0x766a0abb; 0x81c2c92e; 0x92722c85;
   0xa2bfe8a1; 0xa81a664b; 0xc24b8b70; 0xc76c51a3; 0xd192e819; 0xd6990624; 0xf40e3585; 0x106aa070;
   0x19a4c116; 0x1e376c08; 0x2748774c; 0x34b0bcb5; 0x391c0cb3; 0x4ed8aa4a; 0x5b9cca4f; 0x682e6ff3;
   0x748f82ee; 0x78a5636f; 0x84c87814; 0x8cc70208; 0x90befffa; 0xa4506ceb; 0xbef9a3f7; 0xc67178f2].

Definition sha_h0 : list Z :=
  [0x6a09e667; 0xbb67ae85; 0x3c6ef372; 0xa54ff53a; 0x510e527f; 0x9b05688c; 0x1f83d9ab; 0x5be0cd19].

(** The message, a one bit, zeros to a multiple of 64 bytes less 8, its length in bits. *)
Definition sha_pad (m : str) : str :=
  let n := Z.of_nat (length m) in
  m ++ 0x80 :: repeat 0 (Z.to_nat ((55 - n) mod 64)) ++ putUint 8 (8 * n).

Fixpoint sha_words (fuel : nat) (b : str) : list Z :=
  match fuel with
  | O => []
  | S f => getUint (take 4 b) :: sha_words f (drop 4 b)
  end.

(** The schedule, latest word first. *)
Fixpoint sha_schedule (n : nat) (w : list Z) : list Z :=
  match n with
  | O => w
  | S n' =>
      let w2 := nth 1 w 0 in let w15 := nth 14 w 0 in
      let s0 := Z.lxor (Z.lxor (rotr 7 w15) (rotr 18 w15)) (Z.shiftr w15 3) in
      let s1 := Z.lxor (Z.lxor (rotr 17 w2) (rotr 19 w2)) (Z.shiftr w2 10) in
      sha_schedule n' (w32 (nth 15 w 0 + s0 + nth 6 w 0 + s1) :: w)
  end.

Definition sha_round (s : list Z) (kw : Z * Z) : list Z :=
  match s with
  | [a; b; c; d; e; f; g; h] =>
      let s1 := Z.lxor (Z.lxor (rotr 6 e) (rotr 11 e)) (rotr 25 e) in
      let ch := Z.lxor (Z.land e f) (Z.land (Z.lxor e 0xFFFFFFFF) g) in
      let t1 := w32 (h + s1 + ch + kw.1 + kw.2) in
      let s0 := Z.lxor (Z.lxor (rotr 2 a) (rotr 13 a)) (rotr 22 a) in
      let maj := Z.lxor (Z.lxor (Z.land a b) (Z.land a c)) (Z.land b c) in
      [w32 (t1 + s0 + maj); a; b; c; w32 (d + t1); e; f; g]
  | _ => s
  end.

Definition sha_block (h : list Z) (b : str) : list Z :=
  let w := reverse (sha_schedule 48 (reverse (sha_words 16 b))) in
  zip_with (λ x y, w32 (x + y)) h (foldl sha_round h (zip sha_k w)).

Fixpoint sha_blocks (fuel : nat) (h : list Z) (b : str) : list Z :=
  match fuel with
  | O => h
  | S f => if bool_decide (b = []) then h else sha_blocks f (sha_block h (take 64 b)) (drop 64 b)
  end.

(** [sha256.Sum256] *)
Definition Sum256 (m : str) : str :=
  let p := sha_pad m in flat_map (putUint 4) (sha_blocks (length p) sha_h0 p).

(** [hex.EncodeToString] *)
Definition hexEncode (b : str) : str := flat_map (λ c, [hexAt (Z.shiftr c 4); hexAt (Z.land c 15)]) b.

Example sha256_abc :
  hexEncode (Sum256 (lit "abc")) = lit "ba7816bf8f01cfea414140de5dae2223b00361a396177a9cb410ff61f20015ad".
Proof. by vm_compute. Qed.
Example sha256_two_blocks :
  hexEncode (Sum256 (lit "abcdbcdecdefdefgefghfghighijhijkijkljklmklmnlmnomnopnopq"))
  = lit "248d6a61d20638b8e5c026930c3e6039a33ce45964ff2167f6ecedd419db06c1".
Proof. by vm_compute. Qed.
