(* ===== verification/Session.v ===== *)
(** * Sessions: internal/server/server.go, limits.go, persistence.go

    A connection of the local server: transactions on a private clone, batches,
    admission and size limits, and what is made durable when.  The database, the
    files and the cluster behind a server form the [World]; everything a
    connection keeps is its [Session]. *)

From S2P Require Import Prelude GoLib Fold Value Table Schema Database.
From S2P Require Import Storage Bind Request.
Open Scope Z_scope.

(** ** Limits *)

(** QueryTimeout shows as the cancellation of the environment, AcquireTimeout as
    the outcome of admission. *)
Record Limits := mkLimits {
  MaxResultRows : Z; MaxResultBytes : Z; MaxInflightQueries : Z; MaxConnections : Z;
  MaxBatchStatements : Z; MaxTxStatements : Z; MaxTxDatabaseRows : Z; MaxRequestBytes : Z;
}.
Definition noLimits : Limits := mkLimits 0 0 0 0 0 0 0 0.

Definition ErrBusy : err := EMsg (lit "server busy: too many concurrent queries").

(** A counting semaphore: [None] for a nil channel, else its capacity; the tokens
    in it; and how many were turned away (uint64). *)
Record Limiter := mkLimiter {
  connSem : option nat; connUsed : nat;
  querySem : option nat; queryUsed : nat;
  rejectedConns : Z; rejectedQueries : Z;
}.

Definition NewLimiter (l : Limits) : Limiter :=
  let sem n := if 0 <? n then Some (Z.to_nat n) else None in
  mkLimiter (sem (MaxConnections l)) 0 (sem (MaxInflightQueries l)) 0 0 0.

(** A nil limiter admits everything. *)
Definition AcquireConn (l : option Limiter) : bool * option Limiter :=
  match l with
  | None => (true, l)
  | Some m =>
      match connSem m with
      | None => (true, l)
      | Some cap =>
          if (connUsed m <? cap)%nat
          then (true, Some (mkLimiter (connSem m) (S (connUsed m)) (querySem m) (queryUsed m)
                              (rejectedConns m) (rejectedQueries m)))
          else (false, Some (mkLimiter (connSem m) (connUsed m) (querySem m) (queryUsed m)
                               ((rejectedConns m + 1) mod 2 ^ 64) (rejectedQueries m)))
      end
  end.

(** [None]: the receive blocks on an empty channel. *)
Definition ReleaseConn (l : option Limiter) : option (option Limiter) :=
  match l with
  | None => Some l
  | Some m =>
      match connSem m, connUsed m with
      | None, _ => Some l
      | Some _, O => None
      | Some _, S n => Some (Some (mkLimiter (connSem m) n (querySem m) (queryUsed m)
                                     (rejectedConns m) (rejectedQueries m)))
      end
  end.

(** Which case of the [select] in [AcquireQuery] was taken. *)
Inductive acquireCase := Sent | Done (c : CtxErr) | TimedOut.

(** [None]: that case is not ready (the channel is full). *)
Definition AcquireQuery (l : option Limiter) (c : acquireCase) : option (option err * option Limiter) :=
  match l with
  | None => Some (None, l)
  | Some m =>
      match querySem m with
      | None => Some (None, l)
      | Some cap =>
          let reject er := Some (Some er, Some (mkLimiter (connSem m) (connUsed m) (querySem m) (queryUsed m)
                                   (rejectedConns m) ((rejectedQueries m + 1) mod 2 ^ 64))) in
          match c with
          | Sent => if (queryUsed m <? cap)%nat
                    then Some (None, Some (mkLimiter (connSem m) (connUsed m) (querySem m) (S (queryUsed m))
                                       (rejectedConns m) (rejectedQueries m)))
                    else None
          | Done er => reject (ECtx er)
          | TimedOut => reject ErrBusy
          end
      end
  end.

Definition ReleaseQuery (l : option Limiter) : option (option Limiter) :=
  match l with
  | None => Some l
  | Some m =>
      match querySem m, queryUsed m with
      | None, _ => Some l
      | Some _, O => None
      | Some _, S n => Some (Some (mkLimiter (connSem m) (connUsed m) (querySem m) n
                                     (rejectedConns m) (rejectedQueries m)))
      end
  end.

(** ** Files *)

(** The log and snapshot files; [dkWriter]: no shared writer, or whether it is open. *)
Record Disk := mkDisk { dkWal : option str; dkWriter : option bool; dkSnap : option str }.

(** What the system calls of one persist answer. *)
Record persistIO := mkPersistIO { piOpen : option err; piWal : ioOutcome; piFs : fsOutcome }.

Inductive persistErr := PWal (e : walErr) | PSnap (e : snapErr).

(** ** State *)

Record Session := mkSession {
  sTx : option Database; sTxSQL : list str; sBatch : bool; sPending : list str;
}.
Definition session0 : Session := mkSession None [] false [].

(** The server side of a cluster node: a statement, or an atomic batch. *)
Record ClusterExec (C : Type) := mkCluster {
  clExec : C → str → (Result + err) * C;
  clExecAtomic : C → list str → (list Result + err) * C;
}.
Arguments clExec {C} _ _ _.
Arguments clExecAtomic {C} _ _ _.

Record World (C : Type) := mkWorld { wDB : Database; wDisk : Disk; wCluster : C }.
Arguments mkWorld {C} _ _ _.
Arguments wDB {C} _.
Arguments wDisk {C} _.
Arguments wCluster {C} _.
Definition set_db {C} (w : World C) d := mkWorld d (wDisk w) (wCluster w).
Definition set_disk {C} (w : World C) k := mkWorld (wDB w) k (wCluster w).
Definition set_cluster {C} (w : World C) (c : C) := mkWorld (wDB w) (wDisk w) c.

(** What a request is answered with: the "error" text as a prefix and its cause, a
    "message", a result, or the answers of a batch.  [RCrash]: the handler panics. *)
Inductive cause := CText | CErr (e : err) | CPersist (e : persistErr).
Inductive reply :=
| RError (text : str) (c : cause)
| RMessage (text : str)
| RStatus (text : str)
| RResult (r : Result)
| RCrash.
(** One reply, or the replies of a batch. *)
Inductive answer := AOne (r : reply) | AList (l : list reply).
Definition rerror (s : string) : reply := RError (lit s) CText.

(** ** Helpers *)

(** [keyword] is upper case. *)
Fixpoint equalFold (s keyword : str) : bool :=
  match s, keyword with
  | [], [] => true
  | c :: s', k :: keyword' => (upper_byte c =? k) && equalFold s' keyword'
  | _, _ => false
  end.

Definition checkAuth (supplied required : str) : bool :=
  if bool_decide (required = []) then true else bool_decide (supplied = required).

Definition execErrorMessage (e : err) : reply :=
  match e with
  | ECtx DeadlineExceeded => rerror "query timeout exceeded"
  | ECtx Canceled => rerror "query canceled"
  | _ => RError [] (CErr e)
  end.

Definition rowLimitText (rows limit : Z) : str :=
  lit "result row limit exceeded: " ++ FormatInt rows ++ lit " rows (limit " ++ FormatInt limit ++ lit ")".

Definition capResult (r : Result) (l : Limits) : reply :=
  let n := Z.of_nat (length (rRows r)) in
  if (0 <? MaxResultRows l) && (MaxResultRows l <? n)
  then RError (rowLimitText n (MaxResultRows l)) CText else RResult r.

Section Session.
Context `{GoStd} `{Zlib}.

Definition isWriteSQL (raw : str) : bool := negb (IsReadOnly raw).

Fixpoint writeStatements (sqls : list str) : list str :=
  match sqls with
  | [] => []
  | sql :: sqls' => if isWriteSQL sql then sql :: writeStatements sqls' else writeStatements sqls'
  end.

(** [marshal]: json.Marshal of the database. *)
Context (marshal : Database → str + err).

Definition persistStatements (io : persistIO) (mode : str) (sqls : list str) (img : Database) (k : Disk)
    : option persistErr * Disk :=
  if bool_decide (mode = lit "wal") then
    match dkWriter k with
    | Some opened =>
        let '(er, file) := Append (piWal io) (if opened : bool then Some (default [] (dkWal k)) else None) sqls in
        (PWal <$> er, if opened : bool then mkDisk file (dkWriter k) (dkSnap k) else k)
    | None =>
        let '(er, file) := AppendWALBatch (piOpen io) (piWal io) (dkWal k) sqls in
        (PWal <$> er, mkDisk file (dkWriter k) (dkSnap k))
    end
  else if bool_decide (mode = lit "snapshot") && negb (bool_decide (sqls = [])) then
    let '(er, file) := WriteSnapshot (piFs io) (dkSnap k) (marshal img) in
    (PSnap <$> er, mkDisk (dkWal k) (dkWriter k) file)
  else (None, k).

(** [s.db.CommitFrom(tx, persist)]: the revision check, then persistence of the
    image, then publication. *)
Inductive commitErr := CommitConflict (e : err) | CommitPersist (e : persistErr).
Definition commit {C} (io : persistIO) (mode : str) (writes : list str) (tx : Database) (w : World C)
    : option commitErr * World C :=
  if negb (dRevision (wDB w) =? dBase tx)
  then (match (CommitFrom (wDB w) tx None).1 with Some er => Some (CommitConflict er) | None => None end, w)
  else
    let '(er, k) := persistStatements io mode writes (cloneImage tx) (wDisk w) in
    match er with
    | Some er => (Some (CommitPersist er), set_disk w k)
    | None => (None, mkWorld (CommitFrom (wDB w) tx None).2 k (wCluster w))
    end.

Definition commitError (prefix : string) (e : commitErr) : reply :=
  match e with
  | CommitConflict er => RError (lit prefix) (CErr er)
  | CommitPersist er => RError (lit prefix) (CPersist er)
  end.

(** ** One statement *)

Section Handlers.
Context {C : Type} (cluster : option (ClusterExec C)) (limits : Limits) (mode : str).

Definition rolledBack (s : Session) : Session := mkSession None [] (sBatch s) (sPending s).

Definition isTxKeyword (s : str) : bool :=
  equalFold s (lit "BEGIN") || equalFold s (lit "COMMIT") || equalFold s (lit "ROLLBACK").

Definition execCluster (cl : ClusterExec C) (raw : str) (w : World C) (s : Session)
    : reply * World C * Session :=
  if isTxKeyword (TrimSpace raw)
  then (rerror "session transactions are not supported in cluster mode; send atomic batches instead", w, s)
  else match clExec cl (wCluster w) raw with
  | (inr er, c) => (RError [] (CErr er), set_cluster w c, s)
  | (inl r, c) => (capResult r limits, set_cluster w c, s)
  end.

Definition beginTx (w : World C) (s : Session) : reply * World C * Session :=
  match sTx s with
  | Some _ => (rerror "transaction already active", w, s)
  | None =>
      let lim := MaxTxDatabaseRows limits in
      if (0 <? lim) && (lim <? RowCount (wDB w))
      then (RError (lit "transaction rejected: database holds " ++ FormatInt (RowCount (wDB w))
                    ++ lit " rows (limit " ++ FormatInt lim ++ lit ")") CText, w, s)
      else (RMessage (lit "BEGIN ok"), w, mkSession (Some (Clone (wDB w))) [] (sBatch s) (sPending s))
  end.

Definition rollbackTx (w : World C) (s : Session) : reply * World C * Session :=
  match sTx s with
  | None => (rerror "no transaction active", w, s)
  | Some _ => (RMessage (lit "ROLLBACK ok"), w, rolledBack s)
  end.

Definition commitTx (io : persistIO) (w : World C) (s : Session) : reply * World C * Session :=
  match sTx s with
  | None => (rerror "no transaction active", w, s)
  | Some tx =>
      match writeStatements (sTxSQL s) with
      | [] => (RMessage (lit "COMMIT ok"), w, rolledBack s)
      | writes =>
          match commit io mode writes tx w with
          | (Some er, w') => (commitError "commit: " er, w', s)
          | (None, w') => (RMessage (lit "COMMIT ok"), w', rolledBack s)
          end
      end
  end.

(** The bookkeeping after a statement that succeeded. *)
Definition recordWrite (io : persistIO) (raw : str) (r : Result) (w : World C) (s : Session)
    : reply * World C * Session :=
  if negb (isWriteSQL raw) then (RResult r, w, s)
  else match sTx s with
  | Some _ =>
      let lim := MaxTxStatements limits in
      if (0 <? lim) && (lim <=? Z.of_nat (length (sTxSQL s)))
      then (RError (lit "transaction aborted: exceeded " ++ FormatInt lim ++ lit " buffered statements") CText,
            w, rolledBack s)
      else (RResult r, w, mkSession (sTx s) (sTxSQL s ++ [raw]) (sBatch s) (sPending s))
  | None =>
      if sBatch s then (RResult r, w, mkSession (sTx s) (sTxSQL s) (sBatch s) (sPending s ++ [raw]))
      else match persistStatements io mode [raw] (wDB w) (wDisk w) with
      | (Some er, k) => (RError (lit "persist: ") (CPersist er), set_disk w k, s)
      | (None, k) => (RResult r, set_disk w k, s)
      end
  end.

Definition execStatement (e : Env) (io : persistIO) (raw : str) (w : World C) (s : Session)
    : reply * World C * Session :=
  let active := match sTx s with Some tx => tx | None => wDB w end in
  let '(r, d) := ExecWithOptions e active raw (MaxResultRows limits) in
  let '(w', s') := match sTx s with
                   | Some _ => (w, mkSession (Some d) (sTxSQL s) (sBatch s) (sPending s))
                   | None => (set_db w d, s)
                   end in
  match r with
  | Err er => (execErrorMessage er, w', s')
  | Panic => (RCrash, w', s')
  | Ok r => recordWrite io raw r w' s'
  end.

Definition executeSQL (e : Env) (io : persistIO) (raw : str) (w : World C) (s : Session)
    : reply * World C * Session :=
  match cluster with
  | Some cl => execCluster cl raw w s
  | None =>
      let sql := TrimSpace raw in
      if equalFold sql (lit "BEGIN") then beginTx w s
      else if equalFold sql (lit "ROLLBACK") then rollbackTx w s
      else if equalFold sql (lit "COMMIT") then commitTx io w s
      else execStatement e io raw w s
  end.

(** ** Batches *)

(** The environment and system calls of the [i]-th statement of a request. *)
Context (env : nat → Env) (ios : nat → persistIO).

Fixpoint executeBatch (i : nat) (sqls : list str) (w : World C) (s : Session)
    : list reply * World C * Session :=
  match sqls with
  | [] => ([], w, s)
  | sql :: sqls' =>
      let '(r, w1, s1) := executeSQL (env i) (ios i) sql w s in
      match r with
      | RCrash => ([RCrash], w1, s1)
      | _ => let '(rs, w2, s2) := executeBatch (S i) sqls' w1 s1 in (r :: rs, w2, s2)
      end
  end.

(** The statements of an atomic batch on the clone: the results and the writes, or
    the position and the failure of the first that fails. *)
Fixpoint runAtomic (i : nat) (sqls : list str) (d : Database) : (list Result * list str * Database) + (nat * res Result) :=
  match sqls with
  | [] => inl ([], [], d)
  | sql :: sqls' =>
      match ExecWithOptions (env i) d sql (MaxResultRows limits) with
      | (Ok r, d') =>
          match runAtomic (S i) sqls' d' with
          | inl (rs, ws, d2) => inl (r :: rs, if isWriteSQL sql then sql :: ws else ws, d2)
          | inr x => inr x
          end
      | (er, _) => inr (i, er)
      end
  end.

Definition statementError (i : nat) (r : res Result) : reply :=
  let prefix := lit "statement " ++ FormatInt (Z.of_nat i + 1) ++ lit ": " in
  match r with
  | Err er => match execErrorMessage er with
              | RError text c => RError (prefix ++ text) c
              | other => other
              end
  | _ => RCrash
  end.

Definition executeAtomicBatch (sqls : list str) (w : World C) (s : Session) : answer * World C :=
  match sTx s with
  | Some _ => (AOne (rerror "atomic batch not allowed inside a transaction"), w)
  | None =>
      match runAtomic 0 sqls (Clone (wDB w)) with
      | inr (i, er) => (AOne (statementError i er), w)
      | inl (rs, ws, d) =>
          match commit (ios (length sqls)) mode ws d w with
          | (Some er, w') => (AOne (commitError "batch commit: " er), w')
          | (None, w') => (AList (map RResult rs), w')
          end
      end
  end.

(** ** Requests *)

Definition endsInCrash (l : list reply) : bool :=
  match last l with Some RCrash => true | _ => false end.

(** [admission]: the outcome of waiting for a query slot. *)
Definition executeRequest (admission : option err) (q : request) (w : World C) (s : Session)
    : answer * World C * Session :=
  let many := negb (bool_decide (qSQLs q = [])) in
  if many && negb (bool_decide (qParams q = []))
  then (AOne (rerror "params are only supported on single sql requests"), w, s)
  else match (if many then Ok (qSQL q) else BindParams (qSQL q) (qParams q)) with
  | Panic => (AOne RCrash, w, s)
  | Err er => (AOne (RError [] (CErr er)), w, s)
  | Ok sql =>
      match admission with
      | Some er => (AOne (RError [] (CErr er)), w, s)
      | None =>
          if negb many then let '(r, w', s') := executeSQL (env 0) (ios 0) sql w s in (AOne r, w', s')
          else
            let lim := MaxBatchStatements limits in
            if (0 <? lim) && (lim <? Z.of_nat (length (qSQLs q)))
            then (AOne (RError (lit "batch exceeds maximum of " ++ FormatInt lim ++ lit " statements") CText), w, s)
            else if qAtomic q then
              match cluster with
              | Some cl =>
                  match clExecAtomic cl (wCluster w) (qSQLs q) with
                  | (inr er, c) => (AOne (RError [] (CErr er)), set_cluster w c, s)
                  | (inl rs, c) => (AList (map (λ r, capResult r limits) rs), set_cluster w c, s)
                  end
              | None => let '(r, w') := executeAtomicBatch (qSQLs q) w s in (r, w', s)
              end
            else
              let '(out, w1, s1) := executeBatch 0 (qSQLs q) w (mkSession (sTx s) (sTxSQL s) true []) in
              if endsInCrash out then (AOne RCrash, w1, s1)
              else
                let '(er, k) := persistStatements (ios (length (qSQLs q))) mode (sPending s1) (wDB w1) (wDisk w1) in
                let out := match er with
                           | Some er => out ++ [RError (lit "persist batch: ") (CPersist er)]
                           | None => out
                           end in
                (AList out, set_disk w1 k, mkSession (sTx s1) (sTxSQL s1) false [])
      end
  end.

(** One turn of the loop of [HandleWithOptions] on a request that was read. *)
Definition serveRequest (authKey : str) (admission : option err) (q : request) (w : World C) (s : Session)
    : answer * World C * Session :=
  if qPing q then (AOne (RStatus (lit "ok")), w, s)
  else if negb (checkAuth (qAuth q) authKey) then (AOne (rerror "unauthorized: invalid or missing auth key"), w, s)
  else executeRequest admission q w s.
End Handlers.

(** ** Recovery *)

(** [apply] of server.ReplayWAL: the statement on the database; a panic ends the
    replay like an error. *)
Definition applyLogged (e : Env) (d : Database) (sql : str) : Database * option err :=
  match ExecWithOptions e d sql 0 with
  | (Ok _, d') => (d', None)
  | (Err er, d') => (d', Some er)
  | (Panic, d') => (d', Some (EMsg (lit "panic")))
  end.

Definition recoverWAL (e : Env) (wal legacy : option str) (rd : option err) (d : Database)
    : Database * option replayErr :=
  ReplayWAL (applyLogged e) (match wal with Some _ => wal | None => legacy end) rd d.

End Session.
