(* ===== verification/SessionProofs.v ===== *)
(** * Sessions: durability, isolation and admission *)

From S2P Require Import Prelude GoLib Fold Value Table Schema Insert Mutate Select Group Database DatabaseProofs.
From S2P Require Import Storage StorageProofs Bind Request Session.
Open Scope Z_scope.

(** ** Statements depend on the tables only *)

Section Same.
Context `{GoStd}.

Definition sameT (p p' : res Result * Database) : Prop := p.1 = p'.1 ∧ dTables p.2 = dTables p'.2.

Lemma orFail_same {A} d d' (m m' : res A) k k' :
  dTables d = dTables d' → m = m' → (∀ a, sameT (k a) (k' a)) → sameT (orFail d m k) (orFail d' m' k').
Proof. intros Hd <- Hk. destruct m; cbn [orFail]; [apply Hk|split; done..]. Qed.
Lemma onTable_same d d' name k : dTables d = dTables d' → sameT (onTable d name k) (onTable d' name k).
Proof.
  intros Hd. unfold onTable. apply orFail_same; [done|by unfold dbTable; rewrite Hd|].
  intros t. destruct (k t) as [r t']. split; [done|]. cbn [snd set_tables dTables]. by rewrite Hd.
Qed.
Lemma fail_same d d' m : dTables d = dTables d' → sameT (fail m d) (fail m d').
Proof. done. Qed.

Lemma exec_same e d d' sql maxRows :
  dTables d = dTables d' → sameT (exec e d sql maxRows) (exec e d' sql maxRows).
Proof.
  destruct d as [T r b], d' as [T' r' b']. cbn [dTables]. intros <-.
  unfold exec. cbv zeta. repeat (case_match; [|]); try done.
  - unfold create. apply orFail_same; [done..|]. intros [name cols]. cbn beta iota. cbn [dTables]. by destruct (T !! name).
  - unfold createIndex. apply orFail_same; [done..|]. intros [[? ?] ?]. by apply onTable_same.
  - unfold alterTable. repeat case_match; try done; try by apply onTable_same.
    all: apply orFail_same; [done..|]; intros _; cbv zeta; first [done | by apply onTable_same].
  - unfold dropStmt, dropTable, dropIndex. case_match; apply orFail_same; try done; intros rest; cbv zeta.
    + cbn [dTables]. repeat case_match; done.
    + repeat (case_match; [done|]); by apply onTable_same.
  - unfold truncate. apply orFail_same; [done..|]. intros rest. cbv zeta. repeat case_match; first [done | by apply onTable_same].
  - unfold insertStmt. apply orFail_same; [done..|]. intros [rep body]. cbv zeta. case_match; [done|].
    case_match.
    + unfold insertSelect. apply orFail_same; [done..|]. intros hd. case_match; [|done].
      apply orFail_same; [done..|]. intros t. apply orFail_same; [done..|]. intros src.
      case_match; [done|]. apply orFail_same; [done..|]. intros rows. by apply onTable_same.
    + apply orFail_same; [done..|]. intros hd. case_match; first [done | by apply onTable_same].
  - unfold updateStmt. cbv zeta. repeat case_match; first [done | by apply onTable_same].
  - unfold deleteStmt. case_match; [|done]. by apply onTable_same.
Qed.

Lemma ExecWithOptions_same e d d' sql maxRows :
  dTables d = dTables d' → sameT (ExecWithOptions e d sql maxRows) (ExecWithOptions e d' sql maxRows).
Proof.
  intros Hd. unfold ExecWithOptions. pose proof (exec_same e d d' sql maxRows Hd) as [H1 H2].
  destruct (exec e d sql maxRows) as [r x], (exec e d' sql maxRows) as [r' x']. cbn [fst snd] in *. subst r'.
  destruct (env_err e site_exec 0), (env_err e site_exec 1); try (split; done).
  by destruct (negb _ && isOk r).
Qed.
End Same.

(** ** Units of durability

    A statement committed on its own, or the statements of a transaction, which run
    on a clone whose image is published. *)
Inductive dunit := Auto (sql : str) | Tx (sqls : list str).
Definition stmtsOf (u : dunit) : list str := match u with Auto sql => [sql] | Tx sqls => sqls end.
Definition flat (us : list dunit) : list str := concat (map stmtsOf us).

Section Durability.
Context `{GoStd} `{Zlib} (e : Env) (Hquiet : env_quiet e).

Definition run1 (d : Database) (sql : str) : Database := (ExecWithOptions e d sql 0).2.
Definition ok1 (d : Database) (sql : str) : bool := isOk (ExecWithOptions e d sql 0).1.
Definition runStmts (d : Database) (sqls : list str) : Database := foldl run1 d sqls.
Fixpoint okStmts (d : Database) (sqls : list str) : bool :=
  match sqls with [] => true | sql :: sqls' => ok1 d sql && okStmts (run1 d sql) sqls' end.

(** Publishing keeps the image of the transaction's clone. *)
Definition runUnit (d : Database) (u : dunit) : Database :=
  match u with
  | Auto sql => run1 d sql
  | Tx sqls => set_tables d (dTables (cloneImage (runStmts (Clone d) sqls)))
  end.
Definition runUnits (d : Database) (us : list dunit) : Database := foldl runUnit d us.
Definition okUnit (d : Database) (u : dunit) : bool :=
  match u with Auto sql => ok1 d sql | Tx sqls => okStmts (Clone d) sqls end.
Fixpoint okUnits (d : Database) (us : list dunit) : bool :=
  match us with [] => true | u :: us' => okUnit d u && okUnits (runUnit d u) us' end.

(** A copy is exact when no table keeps column positions for an inactive array. *)
Definition exactCopy (d : Database) : Prop := cloneLocked <$> dTables d = dTables d.
Fixpoint exactUnits (d : Database) (us : list dunit) : Prop :=
  match us with
  | [] => True
  | u :: us' =>
      match u with Auto _ => True | Tx sqls => exactCopy d ∧ exactCopy (runStmts (Clone d) sqls) end
      ∧ exactUnits (runUnit d u) us'
  end.

Lemma run1_same d d' sql : dTables d = dTables d' → dTables (run1 d sql) = dTables (run1 d' sql).
Proof. intros Hd. unfold run1. by destruct (ExecWithOptions_same e d d' sql 0 Hd) as [_ ->]. Qed.
Lemma ok1_same d d' sql : dTables d = dTables d' → ok1 d sql = ok1 d' sql.
Proof. intros Hd. unfold ok1. by destruct (ExecWithOptions_same e d d' sql 0 Hd) as [-> _]. Qed.
Lemma runStmts_same sqls : ∀ d d', dTables d = dTables d' → dTables (runStmts d sqls) = dTables (runStmts d' sqls).
Proof. induction sqls as [|sql sqls IH]; intros d d' Hd; [done|]. simpl. apply IH. by apply run1_same. Qed.
Lemma okStmts_same sqls : ∀ d d', dTables d = dTables d' → okStmts d sqls = okStmts d' sqls.
Proof.
  induction sqls as [|sql sqls IH]; intros d d' Hd; [done|]. simpl. rewrite (ok1_same d d') by done.
  f_equal. apply IH. by apply run1_same.
Qed.
Lemma runStmts_app d l1 l2 : runStmts d (l1 ++ l2) = runStmts (runStmts d l1) l2.
Proof. apply foldl_app. Qed.
Lemma okStmts_app l1 : ∀ d l2, okStmts d (l1 ++ l2) = okStmts d l1 && okStmts (runStmts d l1) l2.
Proof. induction l1 as [|x l1 IH]; intros d l2; [done|]. simpl. by rewrite IH, andb_assoc. Qed.
Lemma runUnits_app d u1 u2 : runUnits d (u1 ++ u2) = runUnits (runUnits d u1) u2.
Proof. apply foldl_app. Qed.
Lemma okUnits_app u1 : ∀ d u2, okUnits d (u1 ++ u2) = okUnits d u1 && okUnits (runUnits d u1) u2.
Proof. induction u1 as [|x u1 IH]; intros d u2; [done|]. simpl. by rewrite IH, andb_assoc. Qed.

Lemma Clone_same d d' : dTables d = dTables d' → dTables (Clone d) = dTables (Clone d').
Proof. intros Hd. simpl. by rewrite Hd. Qed.
Lemma runUnit_same d d' u : dTables d = dTables d' → dTables (runUnit d u) = dTables (runUnit d' u).
Proof.
  intros Hd. destruct u as [sql|sqls]; simpl; [by apply run1_same|].
  f_equal. by apply runStmts_same, Clone_same.
Qed.
Lemma okUnit_same d d' u : dTables d = dTables d' → okUnit d u = okUnit d' u.
Proof. intros Hd. destruct u; [by apply ok1_same|]. by apply okStmts_same, Clone_same. Qed.
Lemma runUnits_same us : ∀ d d', dTables d = dTables d' → dTables (runUnits d us) = dTables (runUnits d' us).
Proof. induction us as [|u us IH]; intros d d' Hd; [done|]. simpl. apply IH. by apply runUnit_same. Qed.

(** Units as plain statements. *)
Lemma autos_run sqls : ∀ d, runUnits d (Auto <$> sqls) = runStmts d sqls ∧ okUnits d (Auto <$> sqls) = okStmts d sqls.
Proof. induction sqls as [|sql sqls IH]; intros d; [done|]. destruct (IH (run1 d sql)) as [E1 E2].
  split; [exact E1|]. simpl. by rewrite <- E2. Qed.
Lemma flat_autos sqls : flat (Auto <$> sqls) = sqls.
Proof. unfold flat. induction sqls as [|sql sqls IH]; simpl; [done|]. f_equal. apply IH. Qed.
Lemma flat_app u1 u2 : flat (u1 ++ u2) = flat u1 ++ flat u2.
Proof. unfold flat. by rewrite map_app, concat_app. Qed.

(** With exact copies, units replay as the flat list of their statements. *)
Lemma units_flat us : ∀ d d', dTables d = dTables d' → okUnits d us = true → exactUnits d us →
  dTables (runStmts d' (flat us)) = dTables (runUnits d us) ∧ okStmts d' (flat us) = true.
Proof.
  induction us as [|u us IH]; intros d d' Hd Hok Hx; [done|].
  simpl in Hok, Hx. apply andb_true_iff in Hok as [Hu Hok]. destruct Hx as [Hc Hx].
  unfold flat. cbn [map concat]. fold (flat us). rewrite runStmts_app, okStmts_app.
  assert (dTables (runUnit d u) = dTables (runStmts d' (stmtsOf u)) ∧ okStmts d' (stmtsOf u) = true) as [E1 E2].
  { destruct u as [sql|sqls]; cbn [stmtsOf runUnit okUnit] in *.
    - simpl. rewrite andb_true_r, <- (ok1_same d d') by done. split; [|done]. by apply run1_same.
    - destruct Hc as [Hc1 Hc2]. unfold exactCopy in *.
      assert (dTables (Clone d) = dTables d') as Hcl by (simpl; by rewrite Hc1).
      rewrite <- (okStmts_same _ (Clone d) d') by done. split; [|done].
      cbn [set_tables dTables cloneImage]. rewrite Hc2. by apply runStmts_same. }
  rewrite E2. cbn [andb]. apply (IH (runUnit d u)); done.
Qed.

(** Recovery applies a log all of whose statements succeed. *)
Lemma applyLogged_all sqls : ∀ n d, okStmts d sqls = true →
  applyAll (applyLogged e) n sqls d = (runStmts d sqls, None).
Proof.
  induction sqls as [|sql sqls IH]; intros n d Hok; [done|]. simpl in *.
  apply andb_true_iff in Hok as [H1 H2]. unfold applyLogged, ok1, run1 in *.
  destruct (ExecWithOptions e d sql 0) as [r d']. destruct r; try done. by apply IH.
Qed.

(** ** Revisions *)

(** [d'] is [d] after [m] published changes. *)
Definition moved (d d' : Database) (m : nat) : Prop :=
  dRevision d' = (dRevision d + Z.of_nat m) mod 2 ^ 64 ∧ 0 ≤ dRevision d' < 2 ^ 64 ∧
  (m = 0%nat → dTables d' = dTables d).

Lemma moved_refl d : 0 ≤ dRevision d < 2 ^ 64 → moved d d 0.
Proof. intros Hr. split; [|done]. by rewrite Z.add_0_r, Z.mod_small. Qed.
Lemma moved_trans d1 d2 d3 m n : moved d1 d2 m → moved d2 d3 n → moved d1 d3 (m + n).
Proof.
  intros (H1 & H2 & H3) (H4 & H5 & H6). split_and!; [|lia|lia|].
  - rewrite H4, H1, Zplus_mod_idemp_l. f_equal. lia.
  - intros Hm. rewrite H6, H3 by lia. done.
Qed.

Lemma exec_moved d sql : 0 ≤ dRevision d < 2 ^ 64 →
  if ok1 d sql && isWriteSQL sql
  then moved d (run1 d sql) 1 ∧ dBase (run1 d sql) = dBase d
  else run1 d sql = d.
Proof.
  intros Hr. pose proof (runCall_meta d (mkCall e sql 0) Hr) as [H1 H2].
  pose proof (runCall_unchanged d (mkCall e sql 0)) as Hu.
  unfold runCall, writes in *. cbn [caEnv caSQL caMax] in *. unfold run1, ok1, isWriteSQL.
  rewrite andb_comm. destruct (negb (IsReadOnly sql) && isOk _) eqn:E; [|by apply Hu].
  split; [|done]. split_and!; [done|rewrite H1; apply Z.mod_pos_bound; lia..|done].
Qed.

Lemma moved_zero d d' m : moved d d' m → 0 ≤ dRevision d < 2 ^ 64 → Z.of_nat m < 2 ^ 64 →
  dRevision d' = dRevision d → m = 0%nat.
Proof.
  intros (H1 & _) Hr Hm E. rewrite E in H1. destruct (decide (dRevision d + Z.of_nat m < 2 ^ 64)).
  - rewrite Z.mod_small in H1 by lia. lia.
  - replace (dRevision d + Z.of_nat m) with (dRevision d + Z.of_nat m - 2 ^ 64 + 1 * 2 ^ 64) in H1 by lia.
    rewrite Z.mod_add, Z.mod_small in H1 by lia. lia.
Qed.

(** ** One session *)

Context (marshal : Database → str + err) {C : Type} (limits : Limits) (Hrows : MaxResultRows limits = 0).
Abbreviation walMode := (lit "wal").

(** Neither lost to the file system nor to a panic. *)
Definition good (r : reply) : bool :=
  match r with RError _ (CPersist _) | RCrash => false | _ => true end.

Lemma persist_wal io sqls img k k' :
  persistStatements marshal io walMode sqls img k = (None, k') →
  default [] (dkWal k') = default [] (dkWal k) ++ walEncode sqls ∧ Forall fits sqls.
Proof.
  unfold persistStatements. rewrite bool_decide_true by done.
  assert (Hf : oversized sqls = false → Forall fits sqls).
  { unfold oversized, fits. intros Ho. apply Forall_forall. intros x Hx.
    destruct (Z.ltb_spec maxPayloadSize (Z.of_nat (length x))) as [Hl|]; [|lia]. exfalso.
    rewrite <- not_true_iff_false in Ho. apply Ho, existsb_exists. exists x.
    split; [by apply list_elem_of_In|]. by apply Z.ltb_lt. }
  assert (Happ : ∀ file f', Append (piWal io) (Some file) sqls = (None, f') →
    default [] f' = file ++ walEncode sqls ∧ Forall fits sqls).
  { intros file f'. unfold Append. case_bool_decide as E; [subst; intros [= <-]; simpl; by rewrite app_nil_r|].
    destruct (oversized sqls) eqn:Eo; [done|]. cbv zeta. destruct (ioWrite (piWal io)); [done|].
    destruct (Nat.eqb_spec (ioWritten (piWal io)) (length (walEncode sqls))) as [El|]; [|done]. cbn [negb].
    intros [= Hs <-]. cbn [default]. rewrite El, firstn_all. by auto. }
  destruct (dkWriter k) as [[]|].
  - destruct (Append _ _ _) as [er f'] eqn:E. destruct er; [done|]. intros [= <-]. cbn [dkWal]. by apply Happ in E.
  - destruct (Append _ _ _) as [er f'] eqn:E. destruct er; [done|]. intros [= <-].
    unfold Append in E. case_bool_decide as En; [subst; by rewrite app_nil_r|]. by case_match.
  - destruct (AppendWALBatch _ _ _ _) as [er f'] eqn:E. destruct er; [done|]. intros [= <-]. cbn [dkWal].
    unfold AppendWALBatch in E. case_bool_decide as En.
    { injection E as <-. subst. by rewrite app_nil_r. }
    destruct (oversized sqls); [done|]. destruct (piOpen io); [done|]. by apply Happ in E.
Qed.

(** An open transaction ran its recorded writes on a clone of the database as it
    was [n] changes ago. *)
Definition tracks (now : Database) (N : nat) (s : Session) : Prop :=
  match sTx s with
  | None => True
  | Some tx => ∃ db n, (n ≤ N)%nat ∧ moved db now n ∧ 0 ≤ dRevision db < 2 ^ 64 ∧ 0 ≤ dRevision tx < 2 ^ 64 ∧
      dBase tx = dRevision db ∧ dTables tx = dTables (runStmts (Clone db) (sTxSQL s)) ∧
      okStmts (Clone db) (sTxSQL s) = true ∧ writeStatements (sTxSQL s) = sTxSQL s
  end.

Lemma tracks_moved now now' N m s : tracks now N s → moved now now' m → tracks now' (N + m) s.
Proof.
  unfold tracks. destruct (sTx s) as [tx|]; [|done]. intros (db & n & Hn & Hm & Ht) Hm'.
  exists db, (n + m)%nat. split; [lia|]. split; [by eapply moved_trans|done].
Qed.

Lemma writeStatements_snoc sqls sql : isWriteSQL sql = true → writeStatements sqls = sqls →
  writeStatements (sqls ++ [sql]) = sqls ++ [sql].
Proof.
  intros Hw. revert sqls. assert (Happ : ∀ l1 l2, writeStatements (l1 ++ l2) = writeStatements l1 ++ writeStatements l2).
  { induction l1 as [|x l1 IH]; intros l2; [done|]. simpl. rewrite IH. by case_match. }
  intros sqls E. rewrite Happ, E. simpl. by rewrite Hw.
Qed.

(** What one ordinary statement does: nothing to the shared database and files, or
    a write of its own. *)
Lemma execStatement_cases io raw w s r w' s' N :
  execStatement marshal limits walMode (C:=C) e io raw w s = (r, w', s') → good r = true →
  0 ≤ dRevision (wDB w) < 2 ^ 64 → tracks (wDB w) N s →
  (wDB w' = wDB w ∧ wDisk w' = wDisk w ∧ tracks (wDB w) N s' ∧ sBatch s' = sBatch s ∧ sPending s' = sPending s) ∨
  (sTx s = None ∧ ok1 (wDB w) raw = true ∧ isWriteSQL raw = true ∧ wDB w' = run1 (wDB w) raw ∧
   if sBatch s then wDisk w' = wDisk w ∧ s' = mkSession None (sTxSQL s) true (sPending s ++ [raw])
   else s' = s ∧ default [] (dkWal (wDisk w')) = default [] (dkWal (wDisk w)) ++ walEncode [raw] ∧ fits raw).
Proof.
  unfold execStatement. rewrite Hrows. intros Hx Hg Hrev Ht.
  destruct (sTx s) as [tx|] eqn:Etx.
  - left. unfold tracks in Ht. rewrite Etx in Ht. destruct Ht as (db & n & Hn & Hm & Hdb & Htx & Hb & Ett & Hok & Hw).
    pose proof (exec_moved tx raw Htx) as Hmv. unfold ok1, run1 in *.
    destruct (ExecWithOptions e tx raw 0) as [x d] eqn:Ex. cbn [fst snd] in *.
    assert (Hkeep : d = tx → tracks (wDB w) N (mkSession (Some d) (sTxSQL s) (sBatch s) (sPending s))).
    { intros ->. exists db, n. done. }
    destruct x as [res|er|]; cbn [isOk andb] in Hmv.
    + unfold recordWrite in Hx. destruct (isWriteSQL raw) eqn:Ew; cbn [negb] in Hx.
      * cbn [sTx sTxSQL sBatch sPending] in Hx. cbv zeta in Hx.
        destruct ((0 <? _) && _); injection Hx as <- <- <-; [by split_and!|].
        split_and!; try done. destruct Hmv as [(_ & Hr & _) Hbase]. exists db, n.
        cbn [sTx sTxSQL]. split_and!; try done; try lia.
        { rewrite runStmts_app. simpl. unfold run1 at 1.
          destruct (ExecWithOptions_same e tx (runStmts (Clone db) (sTxSQL s)) raw 0 Ett) as [_ <-]. by rewrite Ex. }
        { rewrite okStmts_app, Hok. simpl. rewrite andb_true_r. unfold ok1.
          destruct (ExecWithOptions_same e tx (runStmts (Clone db) (sTxSQL s)) raw 0 Ett) as [<- _]. by rewrite Ex. }
        by apply writeStatements_snoc.
      * injection Hx as <- <- <-. split_and!; try done. by apply Hkeep.
    + injection Hx as <- <- <-. split_and!; try done. by apply Hkeep.
    + by injection Hx as <- <- <-.
  - pose proof (exec_moved (wDB w) raw Hrev) as Hmv. unfold ok1, run1 in *.
    destruct (ExecWithOptions e (wDB w) raw 0) as [x d] eqn:Ex. cbn [fst snd] in *.
    assert (Htr : tracks (wDB w) N s) by done.
    destruct x as [res|er|]; cbn [isOk andb] in Hmv.
    + unfold recordWrite in Hx. rewrite Etx in Hx. destruct (isWriteSQL raw) eqn:Ew; cbn [negb] in Hx.
      * right. destruct (sBatch s) eqn:Eb.
        { injection Hx as <- <- <-. by split_and!. }
        destruct (persistStatements _ _ _ _ _ _) as [[er|] k] eqn:Ep; injection Hx as <- <- <-; [done|].
        apply persist_wal in Ep as [Ep Hf]. apply Forall_cons in Hf as [Hf _]. by split_and!.
      * left. subst d. injection Hx as <- <- <-. by split_and!.
    + left. subst d. injection Hx as <- <- <-. by split_and!.
    + by injection Hx as <- <- <-.
Qed.

(** The live tables and the log file both come from the units [us]. *)
Record link (d0 : Database) (w : World C) (us : list dunit) : Prop := {
  link_tables : dTables (wDB w) = dTables (runUnits d0 us);
  link_ok : okUnits d0 us = true;
  link_wal : default [] (dkWal (wDisk w)) = walEncode (flat us);
  link_fits : Forall fits (flat us);
  link_rev : 0 ≤ dRevision (wDB w) < 2 ^ 64;
}.

(** Appending units that ran on the live database and were logged. *)
Lemma link_extend d0 w w' us us' :
  link d0 w us → okUnits (wDB w) us' = true → dTables (wDB w') = dTables (runUnits (wDB w) us') →
  default [] (dkWal (wDisk w')) = default [] (dkWal (wDisk w)) ++ walEncode (flat us') →
  Forall fits (flat us') → 0 ≤ dRevision (wDB w') < 2 ^ 64 → link d0 w' (us ++ us').
Proof.
  intros [H1 H2 H3 H4 H5] Hok Ht Hw Hf Hr. split; try done.
  - rewrite Ht, runUnits_app. by apply runUnits_same.
  - rewrite okUnits_app, H2. cbn [andb]. rewrite <- Hok. symmetry. clear -H1 Hquiet.
    revert H1. generalize (wDB w), (runUnits d0 us).
    induction us' as [|u us' IH]; intros d d' Hd; [done|]. simpl. rewrite (okUnit_same d d') by done.
    f_equal. apply IH. by apply runUnit_same.
  - by rewrite flat_app, walEncode_app, Hw, H3.
  - rewrite flat_app. by apply Forall_app.
Qed.

Lemma link_same d0 w w' us : link d0 w us → wDB w' = wDB w → wDisk w' = wDisk w → link d0 w' us.
Proof. intros [H1 H2 H3 H4 H5] E1 E2. by split; rewrite ?E1, ?E2. Qed.

(** Recovery rebuilds the tables. *)
Lemma link_recovers d0 w us : link d0 w us →
  dTables (wDB w) = dTables (runUnits d0 us) ∧ okUnits d0 us = true ∧
  default [] (dkWal (wDisk w)) = walEncode (flat us) ∧
  (exactUnits d0 us → ∃ d, recoverWAL e (Some (default [] (dkWal (wDisk w)))) None None d0 = (d, None) ∧
                           dTables d = dTables (wDB w)).
Proof.
  intros [L1 L2 L3 L4 L5]. split_and!; try done. intros Hex.
  destruct (units_flat us d0 d0 eq_refl L2 Hex) as [F1 F2].
  exists (runStmts d0 (flat us)). split; [|congruence].
  unfold recoverWAL. rewrite L3, replay_all by done. by apply applyLogged_all.
Qed.

(** What a request does to the world and to its session. *)
Definition advances (d0 : Database) (N : nat) (cost : nat) (w : World C) (us : list dunit) (w' : World C) (s' : Session) : Prop :=
  ∃ us' m, (m ≤ cost)%nat ∧ link d0 w' (us ++ us') ∧ moved (wDB w) (wDB w') m ∧ tracks (wDB w') (N + m) s' ∧
    sBatch s' = false ∧ sPending s' = [].

Lemma advances_still d0 N cost w us w' s' :
  link d0 w us → wDB w' = wDB w → wDisk w' = wDisk w → tracks (wDB w) N s' → sBatch s' = false → sPending s' = [] →
  advances d0 N cost w us w' s'.
Proof.
  intros Hl E1 E2 Ht Hb Hp. exists [], 0%nat. rewrite app_nil_r, Nat.add_0_r, E1.
  split_and!; try done; [lia|by eapply link_same|apply moved_refl, Hl].
Qed.

(** Publication of an image that ran [writes] on a clone of the current tables. *)
Lemma commit_advances d0 N io writes tx db w us er w' :
  commit marshal io walMode writes tx w = (er, w') → link d0 w us →
  dTables (wDB w) = dTables db → dTables tx = dTables (runStmts (Clone db) writes) →
  okStmts (Clone db) writes = true → er = None →
  advances d0 N 1 w us w' session0.
Proof.
  intros Hc Hl Edb Etx Hok ->. unfold commit in Hc.
  destruct (Z.eqb_spec (dRevision (wDB w)) (dBase tx)) as [Er|Er]; cbn [negb] in Hc.
  2:{ unfold CommitFrom, replace in Hc. apply Z.eqb_neq in Er. rewrite Er in Hc. done. }
  destruct (persistStatements _ _ _ _ _ _) as [[?|] k] eqn:Ep; [done|]. injection Hc as <-.
  apply persist_wal in Ep as [Ep Hf].
  assert (Epub : (CommitFrom (wDB w) tx None).2 = bumpRevision (set_tables (wDB w) (dTables (cloneImage tx)))).
  { unfold CommitFrom, replace. apply Z.eqb_eq in Er. by rewrite Er. }
  rewrite Epub. exists [Tx writes], 1%nat.
  assert (Hrev : 0 ≤ (dRevision (wDB w) + 1) mod 2 ^ 64 < 2 ^ 64) by (apply Z.mod_pos_bound; lia).
  assert (Hflat : flat [Tx writes] = writes) by (unfold flat; cbn; by rewrite app_nil_r).
  split_and!; try done; try lia.
  eapply link_extend; rewrite ?Hflat; try done.
  - cbn [okUnits okUnit]. rewrite andb_true_r. rewrite <- Hok. apply okStmts_same. by apply Clone_same.
  - cbn [wDB bumpRevision set_tables dTables runUnits foldl runUnit cloneImage]. f_equal. rewrite Etx.
    apply runStmts_same. symmetry. by apply Clone_same.
Qed.

Lemma commit_failed io writes tx (w : World C) er w' :
  commit marshal io walMode writes tx w = (Some er, w') → (∃ pe, er = CommitPersist pe) ∨ w' = w.
Proof.
  unfold commit. destruct (negb _); [intros Hc; right; by injection Hc|].
  destruct (persistStatements _ _ _ _ _ _) as [[pe|] k]; [|done]. intros [= <- _]. eauto.
Qed.
Lemma commit_revision io writes tx (w : World C) w' :
  commit marshal io walMode writes tx w = (None, w') → dRevision (wDB w) = dBase tx.
Proof.
  unfold commit. destruct (Z.eqb_spec (dRevision (wDB w)) (dBase tx)) as [Er|Er]; [done|]. cbn [negb].
  unfold CommitFrom, replace. apply Z.eqb_neq in Er. by rewrite Er.
Qed.

(** One statement request. *)
Lemma executeSQL_advances d0 N io raw w s r w' s' us :
  executeSQL marshal (C:=C) None limits walMode e io raw w s = (r, w', s') → good r = true →
  link d0 w us → tracks (wDB w) N s → Z.of_nat N < 2 ^ 64 → sBatch s = false → sPending s = [] →
  advances d0 N 1 w us w' s'.
Proof.
  unfold executeSQL. intros Hx Hg Hl Ht HN Hb Hp. pose proof (link_rev _ _ _ Hl) as Hrev.
  destruct (equalFold _ _); [|destruct (equalFold _ _); [|destruct (equalFold _ _)]].
  - unfold beginTx in Hx. destruct (sTx s) eqn:Etx; [injection Hx as <- <- <-; by apply advances_still|].
    cbv zeta in Hx. destruct ((0 <? _) && _); injection Hx as <- <- <-; apply advances_still; try done.
    exists (wDB w), 0%nat. split_and!; try done; try lia. by apply moved_refl.
  - unfold rollbackTx in Hx. destruct (sTx s) eqn:Etx; injection Hx as <- <- <-; by apply advances_still.
  - unfold commitTx in Hx. destruct (sTx s) as [tx|] eqn:Etx; [|injection Hx as <- <- <-; by apply advances_still].
    pose proof Ht as Ht'. unfold tracks in Ht'. rewrite Etx in Ht'.
    destruct Ht' as (db & n & Hn & Hm & Hdb & Htx & Hbase & Ett & Hok & Hw).
    destruct (writeStatements (sTxSQL s)) as [|sql sqls] eqn:Ew; [injection Hx as <- <- <-; by apply advances_still|].
    destruct (commit _ _ _ _ _ _) as [[er|] w1] eqn:Ec; injection Hx as <- <- <-.
    + apply commit_failed in Ec as [[pe ->]| ->]; [done|]. by apply advances_still.
    + assert (Erev : dRevision (wDB w) = dRevision db) by (apply commit_revision in Ec; congruence).
      eapply (commit_advances d0 N _ _ _ db) in Ec as (us' & m & H1 & H2 & H3 & H4 & H5 & H6); try done.
      * exists us', m. by split_and!.
      * apply Hm. by apply (moved_zero _ _ _ Hm); [|lia|].
      * by rewrite <- Hw in Ett.
      * by rewrite <- Hw in Hok.
  - apply (execStatement_cases _ _ _ _ _ _ _ N) in Hx as [(E1 & E2 & Ht' & Hb' & Hp')|(_ & Ho & Hw & Ed & Hk)]; try done.
    + apply advances_still; try done; congruence.
    + rewrite Hb in Hk. destruct Hk as (-> & Hk & Hf). pose proof (exec_moved (wDB w) raw Hrev) as Hmv.
      rewrite Ho, Hw in Hmv. cbn [andb] in Hmv. destruct Hmv as [Hmv _]. rewrite <- Ed in Hmv.
      exists [Auto raw], 1%nat. split; [lia|]. split; [|split_and!; try done; by eapply tracks_moved].
      eapply link_extend; try done; [cbn [okUnits okUnit]; by rewrite Ho|by rewrite Ed|by repeat constructor|apply Hmv].
Qed.

(** ** Batches *)

Definition noTx (sql : str) : Prop := isTxKeyword (TrimSpace sql) = false.

(** The loop over the statements of a batch: the writes [ws] made outside a
    transaction are pending. *)
Lemma executeBatch_pending ios sqls : ∀ i N w s rs w' s',
  executeBatch marshal (C:=C) None limits walMode (λ _, e) ios i sqls w s = (rs, w', s') →
  Forall noTx sqls → forallb good rs = true → 0 ≤ dRevision (wDB w) < 2 ^ 64 → tracks (wDB w) N s → sBatch s = true →
  ∃ ws m, (m ≤ length sqls)%nat ∧ moved (wDB w) (wDB w') m ∧ tracks (wDB w') (N + m) s' ∧
    wDisk w' = wDisk w ∧ wDB w' = runStmts (wDB w) ws ∧ okStmts (wDB w) ws = true ∧
    sBatch s' = true ∧ sPending s' = sPending s ++ ws.
Proof.
  induction sqls as [|sql sqls IH]; intros i N w s rs w' s' Hx Hn Hg Hrev Ht Hb.
  { injection Hx as <- <- <-. exists [], 0%nat. rewrite Nat.add_0_r, app_nil_r. by split_and!; try apply moved_refl. }
  apply Forall_cons in Hn as [Hn Hns]. cbn [executeBatch] in Hx.
  destruct (executeSQL _ _ _ _ _ _ _ _ _) as [[r w1] s1] eqn:E1.
  assert (good r = true ∧ ∃ rs', executeBatch marshal None limits walMode (λ _, e) ios (S i) sqls w1 s1 = (rs', w', s')
                ∧ forallb good rs' = true) as (Hgr & rs' & Hx' & Hg').
  { destruct r; [..|by injection Hx as <- <- <-].
    all: (destruct (executeBatch _ _ _ _ _ _ _ _ _ _) as [[rs' w2] s2]; injection Hx as <- <- <-;
      cbn [forallb] in Hg; apply andb_true_iff in Hg as [? ?]; split; [done|by eexists]). }
  unfold executeSQL in E1. unfold noTx, isTxKeyword in Hn.
  apply orb_false_iff in Hn as [[Hn1 Hn2]%orb_false_iff Hn3]. rewrite Hn1, Hn2, Hn3 in E1.
  apply (execStatement_cases _ _ _ _ _ _ _ N) in E1 as [(E2 & E3 & Ht1 & Hb1 & Hp1)|(_ & Ho & Hw & Ed & Hk)]; try done.
  - rewrite <- E2 in Ht1, Hrev.
    destruct (IH _ N _ _ _ _ _ Hx' Hns Hg' Hrev Ht1 ltac:(congruence)) as (ws & m & H1 & H2 & H3 & H4 & H5 & H6 & H7 & H8).
    rewrite E2 in H2, H5, H6. exists ws, m. split_and!; try done; try congruence. simpl. lia.
  - rewrite Hb in Hk. destruct Hk as [Hd ->]. pose proof (exec_moved (wDB w) sql Hrev) as Hmv.
    rewrite Ho, Hw in Hmv. destruct Hmv as [Hmv _]. rewrite <- Ed in Hmv. pose proof Hmv as (_ & Hrev1 & _).
    destruct (IH _ (N + 1)%nat _ _ _ _ _ Hx' Hns Hg' Hrev1 I eq_refl) as (ws & m & H1 & H2 & H3 & H4 & H5 & H6 & H7 & H8).
    exists (sql :: ws), (1 + m)%nat. split; [simpl; lia|]. split; [by eapply moved_trans|].
    split; [by replace (N + (1 + m))%nat with (N + 1 + m)%nat by lia|].
    rewrite Ed in H5, H6. split_and!; try done; [congruence|simpl; by rewrite Ho, H6|].
    rewrite H8. cbn [sPending]. by rewrite <- app_assoc.
Qed.

Lemma runAtomic_runs sqls : ∀ i d rs ws d',
  runAtomic limits (λ _, e) i sqls d = inl (rs, ws, d') → 0 ≤ dRevision d < 2 ^ 64 →
  dTables d' = dTables (runStmts d ws) ∧ okStmts d ws = true ∧ dBase d' = dBase d.
Proof.
  induction sqls as [|sql sqls IH]; intros i d rs ws d' Hx Hr; cbn [runAtomic] in Hx; [by injection Hx as <- <- <-|].
  rewrite Hrows in Hx. pose proof (exec_moved d sql Hr) as Hmv. unfold ok1, run1 in Hmv.
  destruct (ExecWithOptions e d sql 0) as [x d1] eqn:Ex. destruct x as [r| |]; try done.
  destruct (runAtomic _ _ _ _ _) as [[[rs1 ws1] d2]|] eqn:E1; [|done]. injection Hx as <- <- <-.
  cbn [isOk fst snd andb] in Hmv. destruct (isWriteSQL sql) eqn:Ew.
  - destruct Hmv as [Hm Hb]. apply IH in E1 as (H1 & H2 & H3); [|apply Hm].
    simpl. unfold ok1, run1 at 1 2. rewrite Ex. cbn [fst snd isOk andb]. split_and!; try done. congruence.
  - subst d1. by apply IH in E1.
Qed.

Lemma atomic_advances d0 N ios sqls w s a w' us :
  executeAtomicBatch marshal (C:=C) limits walMode (λ _, e) ios sqls w s = (a, w') →
  (∀ r, a = AOne r → good r = true) → link d0 w us → tracks (wDB w) N s → sBatch s = false → sPending s = [] →
  advances d0 N 1 w us w' s.
Proof.
  unfold executeAtomicBatch. intros Hx Hg Hl Ht Hb Hp. destruct (sTx s) eqn:Etx.
  { injection Hx as <- <-. by apply advances_still. }
  destruct (runAtomic _ _ _ _ _) as [[[rs ws] d]|[i er]] eqn:Er; [|injection Hx as <- <-; by apply advances_still].
  apply runAtomic_runs in Er as (H1 & H2 & H3); [|simpl; lia].
  destruct (commit _ _ _ _ _ _) as [[er|] w1] eqn:Ec; injection Hx as <- <-.
  - apply commit_failed in Ec as [[pe ->]| ->]; [by specialize (Hg _ eq_refl)|]. by apply advances_still.
  - eapply (commit_advances d0 N _ _ _ (wDB w)) in Ec as (us' & m & K1 & K2 & K3 & K4 & K5 & K6); try done.
    exists us', m. split_and!; try done. unfold tracks. by rewrite Etx.
Qed.

(** ** Requests and servers *)

Definition answered (a : answer) : bool := match a with AOne r => good r | AList l => forallb good l end.
(** The transaction keywords are not hidden in plain batches. *)
Definition plainBatch (q : request) : Prop := qAtomic q = false → Forall noTx (qSQLs q).
Definition costOf (q : request) : nat := S (length (qSQLs q)).

Lemma executeRequest_advances d0 N ios admission q w s a w' s' us :
  executeRequest marshal (C:=C) None limits walMode (λ _, e) ios admission q w s = (a, w', s') →
  answered a = true → plainBatch q → link d0 w us → tracks (wDB w) N s → Z.of_nat N < 2 ^ 64 →
  sBatch s = false → sPending s = [] → advances d0 N (costOf q) w us w' s'.
Proof.
  unfold executeRequest. intros Hx Hg Hq Hl Ht HN Hb Hp. cbv zeta in Hx.
  assert (Hsub : advances d0 N 1 w us w' s' → advances d0 N (costOf q) w us w' s').
  { intros (us' & m & Hm & Hr). exists us', m. split; [unfold costOf; lia|done]. }
  assert (Hstill : w' = w → s' = s → advances d0 N (costOf q) w us w' s') by (intros -> ->; by apply advances_still).
  destruct (negb (bool_decide (qSQLs q = []))) eqn:Emany; cbn [andb negb] in Hx.
  2:{ destruct (BindParams _ _); try (injection Hx as <- <- <-; by apply Hstill).
      destruct admission; [injection Hx as <- <- <-; by apply Hstill|].
      destruct (executeSQL _ _ _ _ _ _ _ _ _) as [[r w1] s1] eqn:E1. injection Hx as <- <- <-.
      apply Hsub. by eapply executeSQL_advances. }
  destruct (negb (bool_decide (qParams q = []))); [injection Hx as <- <- <-; by apply Hstill|].
  destruct admission; [injection Hx as <- <- <-; by apply Hstill|].
  destruct ((0 <? _) && _); [injection Hx as <- <- <-; by apply Hstill|].
  destruct (qAtomic q) eqn:Ea.
  { destruct (executeAtomicBatch _ _ _ _ _ _ _ _) as [a1 w1] eqn:E1. injection Hx as <- <- <-.
    apply Hsub. eapply atomic_advances; try done. by intros r ->. }
  destruct (executeBatch _ _ _ _ _ _ _ _ _ _) as [[out w1] s1] eqn:E1.
  destruct (endsInCrash out); [by injection Hx as <- <- <-|].
  destruct (persistStatements _ _ _ _ _ _) as [er k] eqn:Ep. injection Hx as <- <- <-. cbn [answered] in Hg.
  assert (er = None ∧ forallb good out = true) as [-> Hgo].
  { destruct er as [er|]; [|done]. rewrite forallb_app in Hg. by apply andb_true_iff in Hg as [_ ?]. }
  apply persist_wal in Ep as [Ep Hf].
  destruct (executeBatch_pending _ _ _ N _ _ _ _ _ E1) as (ws & m & H1 & H2 & H3 & H4 & H5 & H6 & H7 & H8);
    [by apply Hq|done|apply Hl|done|done|]. cbn [sPending app] in H8. rewrite H8 in Ep, Hf.
  exists (Auto <$> ws), m. destruct (autos_run ws (wDB w)) as [A1 A2].
  split; [unfold costOf; lia|]. split; [|by split_and!].
  apply (link_extend _ w); rewrite ?flat_autos; cbn [set_disk wDB wDisk];
    [done|by rewrite A2|by rewrite A1, <- H5|by rewrite Ep, H4|done|apply H2].
Qed.

(** Connections by number, each with its session; a request of one of them. *)
Record event := mkEvent { evConn : nat; evIO : nat → persistIO; evAdmit : option err; evReq : request }.
Definition sessionOf (ss : gmap nat Session) (c : nat) : Session := default session0 (ss !! c).

Fixpoint serveAll (authKey : str) (es : list event) (w : World C) (ss : gmap nat Session)
    : list answer * World C * gmap nat Session :=
  match es with
  | [] => ([], w, ss)
  | ev :: es' =>
      let '(a, w1, s1) := serveRequest marshal None limits walMode (λ _, e) (evIO ev) authKey (evAdmit ev)
                            (evReq ev) w (sessionOf ss (evConn ev)) in
      let '(l, w2, ss2) := serveAll authKey es' w1 (<[evConn ev := s1]> ss) in
      (a :: l, w2, ss2)
  end.
Definition totalCost (es : list event) : nat := foldr (λ ev n, (costOf (evReq ev) + n)%nat) 0%nat es.

Record server_ok (d0 : Database) (N : nat) (w : World C) (ss : gmap nat Session) (us : list dunit) : Prop := {
  so_link : link d0 w us;
  so_sessions : ∀ c, tracks (wDB w) N (sessionOf ss c) ∧ sBatch (sessionOf ss c) = false ∧ sPending (sessionOf ss c) = [];
}.

Lemma serveAll_ok authKey d0 es : ∀ N w ss us l w' ss',
  serveAll authKey es w ss = (l, w', ss') → forallb answered l = true → Forall (plainBatch ∘ evReq) es →
  server_ok d0 N w ss us → Z.of_nat (N + totalCost es) < 2 ^ 64 →
  ∃ us', server_ok d0 (N + totalCost es) w' ss' (us ++ us').
Proof.
  induction es as [|ev es IH]; intros N w ss us l w' ss' Hx Hg Hq Ho HN.
  { injection Hx as <- <- <-. exists []. by rewrite app_nil_r, Nat.add_0_r. }
  apply Forall_cons in Hq as [Hq Hqs]. cbn [serveAll totalCost foldr] in *. fold (totalCost es) in *.
  destruct (serveRequest _ _ _ _ _ _ _ _ _ _ _) as [[a w1] s1] eqn:E1.
  destruct (serveAll authKey es w1 _) as [[l1 w2] ss2] eqn:E2. injection Hx as <- <- <-.
  simpl in Hg. apply andb_true_iff in Hg as [Hga Hgl].
  assert (advances d0 N (costOf (evReq ev)) w us w1 s1) as (us1 & m & Hm & Hl & Hmv & Ht & Hb & Hp).
  { destruct Ho as [Hl Hs]. destruct (Hs (evConn ev)) as (Ht & Hb & Hp). unfold serveRequest in E1.
    destruct (qPing _); [injection E1 as <- <- <-; by apply advances_still|].
    destruct (negb (checkAuth _ _)); [injection E1 as <- <- <-; by apply advances_still|].
    eapply executeRequest_advances; try done. lia. }
  destruct (IH (N + costOf (evReq ev))%nat _ _ (us ++ us1) _ _ _ E2 Hgl Hqs) as [us2 H2].
  - split; [done|]. assert (Hmono : ∀ s, tracks (wDB w1) (N + m) s → tracks (wDB w1) (N + costOf (evReq ev)) s).
    { intros s. unfold tracks. destruct (sTx s); [|done]. intros (db & n & Hn & Hr). exists db, n. split; [lia|done]. }
    intros c. unfold sessionOf. destruct (decide (c = evConn ev)) as [->|Hne].
    + rewrite lookup_insert_eq. cbn [default]. split_and!; try done. by apply Hmono.
    + rewrite lookup_insert_ne by done. destruct (so_sessions _ _ _ _ _ Ho c) as (Ht' & Hb' & Hp').
      split_and!; try done. apply Hmono. by eapply tracks_moved.
  - lia.
  - exists (us1 ++ us2). rewrite app_assoc. by rewrite Nat.add_assoc.
Qed.

End Durability.

(** ** Authentication *)

Section Auth.
Context `{GoStd} `{Zlib} (e : Env) (marshal : Database → str + err) {C : Type} (limits : Limits).

(** The requests that reach execution: neither probes nor refused. *)
Definition admitted (authKey : str) (ev : event) : bool :=
  negb (qPing (evReq ev)) && (bool_decide (authKey = []) || bool_decide (qAuth (evReq ev) = authKey)).

Lemma serveAll_ext authKey es : ∀ (w : World C) ss ss',
  (∀ c, sessionOf ss c = sessionOf ss' c) →
  let '(l, w1, ss1) := serveAll e marshal limits authKey es w ss in
  let '(l', w1', ss1') := serveAll e marshal limits authKey es w ss' in
  l = l' ∧ w1 = w1' ∧ ∀ c, sessionOf ss1 c = sessionOf ss1' c.
Proof.
  induction es as [|ev es IH]; intros w ss ss' Hs; cbn [serveAll]; [done|]. rewrite <- Hs.
  destruct (serveRequest _ _ _ _ _ _ _ _ _ _ _) as [[a w1] s1].
  specialize (IH w1 (<[evConn ev := s1]> ss) (<[evConn ev := s1]> ss')).
  destruct (serveAll _ _ _ _ es w1 (<[evConn ev := s1]> ss)) as [[l1 w2] ss2].
  destruct (serveAll _ _ _ _ es w1 (<[evConn ev := s1]> ss')) as [[l1' w2'] ss2'].
  destruct IH as (-> & -> & ?); [|done]. intros c. unfold sessionOf. destruct (decide (c = evConn ev)) as [->|].
  - by rewrite !lookup_insert_eq.
  - rewrite !lookup_insert_ne by done. apply Hs.
Qed.

(** Authentication gates execution.  With a key configured, the effect of any
    stream of requests on the database, the files and every session is the effect
    of those that carry exactly that key: refused requests and liveness probes
    leave no trace, wherever they are interleaved. *)
Theorem auth_gates_execution authKey es (w : World C) ss :
  let '(_, w1, ss1) := serveAll e marshal limits authKey es w ss in
  let '(_, w2, ss2) := serveAll e marshal limits authKey (filter (λ ev, admitted authKey ev = true) es) w ss in
  w1 = w2 ∧ ∀ c, sessionOf ss1 c = sessionOf ss2 c.
Proof.
  revert w ss. induction es as [|ev es IH]; intros w ss; [done|]. rewrite filter_cons.
  destruct (decide (admitted authKey ev = true)) as [Ha|Ha].
  - cbn [serveAll]. destruct (serveRequest _ _ _ _ _ _ _ _ _ _ _) as [[a w1] s1].
    specialize (IH w1 (<[evConn ev := s1]> ss)).
    destruct (serveAll _ _ _ _ es w1 _) as [[l1 w2] ss2]. by destruct (serveAll _ _ _ _ (filter _ es) w1 _) as [[l1' w2'] ss2'].
  - assert (∃ a, serveRequest marshal None limits (lit "wal") (λ _, e) (evIO ev) authKey (evAdmit ev) (evReq ev) w
                   (sessionOf ss (evConn ev)) = (a, w, sessionOf ss (evConn ev))) as [a Ea].
    { unfold admitted in Ha. unfold serveRequest, checkAuth. destruct (qPing (evReq ev)); [by eexists|].
      cbn [negb andb] in Ha. case_bool_decide; [done|]. case_bool_decide; [done|]. by eexists. }
    cbn [serveAll]. rewrite Ea. specialize (IH w ss).
    pose proof (serveAll_ext authKey es w (<[evConn ev := sessionOf ss (evConn ev)]> ss) ss) as Hx.
    destruct (serveAll _ _ _ _ es w (<[_ := _]> ss)) as [[l1 w1] ss1].
    destruct (serveAll _ _ _ _ es w ss) as [[l2 w2] ss2].
    destruct (serveAll _ _ _ _ (filter _ es) w ss) as [[l3 w3] ss3].
    destruct IH as [-> IH]. destruct Hx as (_ & -> & Hx).
    + intros c. unfold sessionOf. destruct (decide (c = evConn ev)) as [->|]; [by rewrite lookup_insert_eq|by rewrite lookup_insert_ne].
    + split; [done|]. intros c. by rewrite Hx.
Qed.
End Auth.

(** ** Admission control *)

(** The connections and queries that hold a slot, with their limiter. *)
Record admission := mkAdm { aLimiter : option Limiter; aConns : nat; aQueries : nat }.

Inductive admissionStep : admission → admission → Prop :=
| step_conn l l' c q : AcquireConn l = (true, l') → admissionStep (mkAdm l c q) (mkAdm l' (S c) q)
| step_refuse l l' c q : AcquireConn l = (false, l') → admissionStep (mkAdm l c q) (mkAdm l' c q)
| step_close l l' c q : ReleaseConn l = Some l' → admissionStep (mkAdm l (S c) q) (mkAdm l' c q)
| step_query l l' c q : AcquireQuery l Sent = Some (None, l') → admissionStep (mkAdm l c q) (mkAdm l' c (S q))
| step_shed l l' c q k er : AcquireQuery l k = Some (Some er, l') → admissionStep (mkAdm l c q) (mkAdm l' c q)
| step_answer l l' c q : ReleaseQuery l = Some l' → admissionStep (mkAdm l c (S q)) (mkAdm l' c q).

(** The tokens are the holders, within the capacity. *)
Definition admission_ok (lim : Limits) (a : admission) : Prop :=
  ∃ m, aLimiter a = Some m ∧
    connSem m = connSem (NewLimiter lim) ∧ querySem m = querySem (NewLimiter lim) ∧
    (∀ cap, connSem m = Some cap → connUsed m = aConns a ∧ (aConns a ≤ cap)%nat) ∧
    (∀ cap, querySem m = Some cap → queryUsed m = aQueries a ∧ (aQueries a ≤ cap)%nat).

Lemma admission_step lim a a' : admission_ok lim a → admissionStep a a' → admission_ok lim a'.
Proof.
  intros (m & Hl & Hc & Hq & H1 & H2) Hs. unfold admission_ok.
  assert (Hcap : ∀ cap, connSem m = Some cap → connUsed m = aConns a ∧ (aConns a ≤ cap)%nat) by done.
  destruct Hs as [l l' c q E|l l' c q E|l l' c q E|l l' c q E|l l' c q k er E|l l' c q E]; cbn [aLimiter aConns aQueries] in *;
    subst l; unfold AcquireConn, ReleaseConn, AcquireQuery, ReleaseQuery in E; cbv zeta in E;
    repeat case_match; simplify_eq; eexists; (split; [reflexivity|]); cbn [connSem connUsed querySem queryUsed];
    split_and!; try done; try congruence; intros cap Hcap'; simplify_eq;
    try (destruct (H1 _ eq_refl)); try (destruct (H2 _ eq_refl)); try btoz; try lia; try (split; lia).
Qed.

(** C39: Admission control.  Starting from a listener's limiter, however connections
    and queries come, wait, time out and go: never more connections or concurrent
    queries than configured are admitted, one that is admitted never blocks when it
    gives its slot back, and a connection is refused only when the limit is reached. *)
Theorem admission_bounds lim a :
  rtc admissionStep (mkAdm (Some (NewLimiter lim)) 0 0) a →
  (0 < MaxConnections lim → Z.of_nat (aConns a) ≤ MaxConnections lim) ∧
  (0 < MaxInflightQueries lim → Z.of_nat (aQueries a) ≤ MaxInflightQueries lim) ∧
  ((0 < aConns a)%nat → is_Some (ReleaseConn (aLimiter a))) ∧
  ((0 < aQueries a)%nat → is_Some (ReleaseQuery (aLimiter a))) ∧
  ((AcquireConn (aLimiter a)).1 = false → Z.of_nat (aConns a) = MaxConnections lim).
Proof.
  intros Hr. assert (admission_ok lim a) as (m & Hl & Hc & Hq & H1 & H2).
  { revert Hr. apply (rtc_ind_r (admission_ok lim)); [|intros; by eapply admission_step].
    eexists. split; [done|]. cbn [connUsed queryUsed NewLimiter aConns aQueries].
    split_and!; try done; intros cap _; split; [done|lia|done|lia]. }
  rewrite Hl. cbn [NewLimiter connSem querySem] in Hc, Hq. unfold ReleaseConn, ReleaseQuery, AcquireConn.
  split_and!.
  - intros Hp. rewrite (proj2 (Z.ltb_lt _ _) Hp) in Hc. destruct (H1 _ Hc). lia.
  - intros Hp. rewrite (proj2 (Z.ltb_lt _ _) Hp) in Hq. destruct (H2 _ Hq). lia.
  - intros Hp. destruct (connSem m) as [cap|]; [|done]. destruct (H1 _ eq_refl) as [-> _]. destruct (aConns a); [lia|done].
  - intros Hp. destruct (querySem m) as [cap|]; [|done]. destruct (H2 _ eq_refl) as [-> _]. destruct (aQueries a); [lia|done].
  - destruct (connSem m) as [cap|] eqn:E; [|done]. destruct (H1 _ eq_refl) as [-> Hle].
    destruct (Nat.ltb_spec (aConns a) cap); [done|]. intros _.
    destruct (0 <? MaxConnections lim) eqn:Ep; [|done]. btoz. simplify_eq. lia.
Qed.
