(* ===== verification/Interleaving.v ===== *)
(** * Statements of several connections at the grain of locks: internal/server/server.go, executeSQL

    Session runs a request in one step.  In the program a statement outside a transaction
    runs under the lock of the engine, and its text is appended to the log afterwards,
    under the lock of the log's writer: between the two any other connection may run
    and log statements of its own.  COMMIT persists and publishes under the engine's
    lock.  Here is the transition system with that grain, in mode wal, and what still
    holds of the log. *)

From S2P Require Import Prelude GoLib GoConc GoFacts Fold Value Table TableInv Schema Database DatabaseProofs.
From S2P Require Import Bytes Storage StorageProofs Bind Request Session SessionProofs.
Open Scope Z_scope.

(** The shared state, the sessions, and the statements that ran and are not yet logged. *)
Record shared := mkShared { shWorld : World unit; shSessions : gmap nat Session; shPending : gmap nat str }.
Definition shared0 (w : World unit) : shared := mkShared w ∅ ∅.
Definition sessionIn (x : shared) (c : nat) : Session := sessionOf (shSessions x) c.

Section Steps.
Context `{GoStd} `{Zlib} (e : Env) (marshal : Database → str + err) (limits : Limits).
(** When a connection may start a write: always in the program. *)
Context (may : shared → Prop).
Abbreviation sql1 := (executeSQL marshal (C:=unit) None limits (lit "wal") e).

(** Reached after the units [us] took effect, in this order, and the statements [lg] were
    logged, in this order; the writes to the log succeed. *)
Inductive interleaved (w0 : World unit) : list dunit → list str → shared → Prop :=
| il_start : interleaved w0 [] [] (shared0 w0)
(** a statement outside a transaction runs; if it wrote, it has still to be logged *)
| il_exec us lg x c raw r d : interleaved w0 us lg x → may x →
    shPending x !! c = None → sTx (sessionIn x c) = None → isTxKeyword (TrimSpace raw) = false → isWriteSQL raw = true →
    ExecWithOptions e (wDB (shWorld x)) raw (MaxResultRows limits) = (Ok r, d) →
    interleaved w0 (us ++ [Auto raw]) lg (mkShared (set_db (shWorld x) d) (shSessions x) (<[c := raw]> (shPending x)))
(** it is logged and answered *)
| il_log us lg x c raw io k : interleaved w0 us lg x → shPending x !! c = Some raw →
    persistStatements marshal io (lit "wal") [raw] (wDB (shWorld x)) (wDisk (shWorld x)) = (None, k) →
    interleaved w0 us (lg ++ [raw]) (mkShared (set_disk (shWorld x) k) (shSessions x) (delete c (shPending x)))
(** COMMIT of a transaction that wrote *)
| il_commit us lg x c raw io tx r w' s' : interleaved w0 us lg x → may x →
    shPending x !! c = None → sTx (sessionIn x c) = Some tx → equalFold (TrimSpace raw) (lit "COMMIT") = true →
    writeStatements (sTxSQL (sessionIn x c)) ≠ [] →
    sql1 io raw (shWorld x) (sessionIn x c) = (r, w', s') → sTx s' = None → good r = true →
    interleaved w0 (us ++ [Tx (writeStatements (sTxSQL (sessionIn x c)))]) (lg ++ writeStatements (sTxSQL (sessionIn x c)))
      (mkShared w' (<[c := s']> (shSessions x)) (shPending x))
(** anything else, which changes neither the database nor the files *)
| il_other us lg x c raw io r w' s' : interleaved w0 us lg x → shPending x !! c = None →
    sql1 io raw (shWorld x) (sessionIn x c) = (r, w', s') → good r = true →
    wDB w' = wDB (shWorld x) → wDisk w' = wDisk (shWorld x) →
    interleaved w0 us lg (mkShared w' (<[c := s']> (shSessions x)) (shPending x)).
End Steps.

(** ** The invariant *)

Section Interleaving.
Context `{GoStd} `{Zlib} (e : Env) (Hquiet : env_quiet e) (marshal : Database → str + err).
Context (limits : Limits) (Hrows : MaxResultRows limits = 0) (may : shared → Prop).
Abbreviation reached := (interleaved e marshal limits may).

(** What is not yet logged. *)
Definition unlogged (x : shared) : list str := (map_to_list (shPending x)).*2.

Record inter_ok (d0 : Database) (us : list dunit) (lg : list str) (x : shared) : Prop := {
  io_tables : dTables (wDB (shWorld x)) = dTables (runUnits e d0 us);
  io_ok : okUnits e d0 us = true;
  io_rev : 0 ≤ dRevision (wDB (shWorld x)) < 2 ^ 64;
  io_wal : default [] (dkWal (wDisk (shWorld x))) = walEncode lg;
  io_fits : Forall fits lg;
  io_tracks : ∀ c, tracks e (wDB (shWorld x)) (length us) (sessionIn x c) ∧ sBatch (sessionIn x c) = false;
  io_perm : lg ++ unlogged x ≡ₚ flat us;
}.

Lemma equalFold_length s k : equalFold s k = true → length s = length k.
Proof.
  revert k. induction s as [|c s IH]; intros [|b k]; try done. simpl. intros [_ Hs]%andb_true_iff. f_equal. by apply IH.
Qed.

(** A statement that leaves the shared state alone. *)
Lemma other_tracks io raw (w : World unit) s r w' s' N :
  executeSQL marshal None limits (lit "wal") e io raw w s = (r, w', s') → good r = true → wDB w' = wDB w →
  0 ≤ dRevision (wDB w) < 2 ^ 64 → tracks e (wDB w) N s → sBatch s = false →
  tracks e (wDB w) N s' ∧ sBatch s' = false.
Proof.
  unfold executeSQL. intros Hx Hg Hdb Hrev Ht Hb. destruct (equalFold _ _); [|destruct (equalFold _ _); [|destruct (equalFold _ _)]].
  - unfold beginTx in Hx. destruct (sTx s) eqn:Etx; [by simplify_eq|]. cbv zeta in Hx. destruct ((0 <? _) && _); simplify_eq; [done|].
    split; [|done]. exists (wDB w'), 0%nat. split_and!; try done; try lia. by apply moved_refl.
  - unfold rollbackTx in Hx. by destruct (sTx s); simplify_eq.
  - unfold commitTx in Hx. destruct (sTx s) as [tx|] eqn:Etx; [|by simplify_eq].
    destruct (writeStatements _); [by simplify_eq|]. destruct (commit _ _ _ _ _ _) as [[er|] w1]; by simplify_eq.
  - apply (execStatement_cases e Hquiet marshal limits Hrows _ _ _ _ _ _ _ N) in Hx as [(_ & _ & Ht' & Hb' & _)|(_ & _ & _ & _ & Hk)]; try done.
    + split; [done|]. by rewrite Hb'.
    + rewrite Hb in Hk. by destruct Hk as [-> _].
Qed.

(** A commit that succeeded. *)
Lemma commit_runs io raw tx (w : World unit) s r w' s' N :
  executeSQL marshal None limits (lit "wal") e io raw w s = (r, w', s') → good r = true →
  sTx s = Some tx → equalFold (TrimSpace raw) (lit "COMMIT") = true → writeStatements (sTxSQL s) ≠ [] → sTx s' = None →
  0 ≤ dRevision (wDB w) < 2 ^ 64 → tracks e (wDB w) N s → Z.of_nat N < 2 ^ 64 →
  let writes := writeStatements (sTxSQL s) in
  dTables (wDB w') = dTables (runUnit e (wDB w) (Tx writes)) ∧ okUnit e (wDB w) (Tx writes) = true ∧
  moved (wDB w) (wDB w') 1 ∧ default [] (dkWal (wDisk w')) = default [] (dkWal (wDisk w)) ++ walEncode writes ∧
  Forall fits writes ∧ sBatch s' = sBatch s.
Proof.
  intros Hx Hg Etx Hc Hne Hs' Hrev Ht HN. cbv zeta. pose proof (equalFold_length _ _ Hc) as Hlen.
  unfold executeSQL in Hx.
  destruct (equalFold _ (lit "BEGIN")) eqn:E1; [apply equalFold_length in E1; rewrite Hlen in E1; discriminate E1|].
  destruct (equalFold _ (lit "ROLLBACK")) eqn:E2; [apply equalFold_length in E2; rewrite Hlen in E2; discriminate E2|].
  rewrite Hc in Hx. unfold commitTx in Hx. rewrite Etx in Hx. unfold tracks in Ht. rewrite Etx in Ht.
  destruct Ht as (db & n & Hn & Hm & Hdb & Htx & Hbase & Ett & Hok & Hw). rewrite Hw in *.
  destruct (sTxSQL s) as [|sql sqls] eqn:Es; [done|].
  destruct (commit _ _ _ _ _ _) as [[er|] w1] eqn:Ec; [injection Hx as <- <- <-; congruence|]. injection Hx as <- <- <-.
  pose proof (commit_revision marshal _ _ _ _ _ Ec) as Er.
  assert (dTables (wDB w) = dTables db) as Edb by (apply Hm; by apply (moved_zero _ _ _ Hm); [|lia|congruence]).
  unfold commit in Ec. rewrite (proj2 (Z.eqb_eq _ _) Er) in Ec. cbn [negb] in Ec.
  destruct (persistStatements _ _ _ _ _ _) as [[?|] k] eqn:Ep; [done|]. injection Ec as <-. apply persist_wal in Ep as [Ep Hf].
  assert (Epub : (CommitFrom (wDB w) tx None).2 = bumpRevision (set_tables (wDB w) (dTables (cloneImage tx)))).
  { unfold CommitFrom, replace. by rewrite (proj2 (Z.eqb_eq _ _) Er). }
  assert (Hrev1 : 0 ≤ (dRevision (wDB w) + 1) mod 2 ^ 64 < 2 ^ 64) by (apply Z.mod_pos_bound; lia).
  split_and!; try done; rewrite ?Epub; cbn [wDB wDisk].
  - cbn [bumpRevision set_tables dTables runUnit cloneImage]. f_equal. rewrite Ett. apply (runStmts_same e). symmetry. by apply Clone_same.
  - cbn [okUnit]. rewrite <- Hok. apply (okStmts_same e). by apply Clone_same.
  - split; [done|]. by split.
Qed.

(** Another unit at the end. *)
Lemma units_snoc d0 us d u : dTables d = dTables (runUnits e d0 us) → okUnits e d0 us = true → okUnit e d u = true →
  dTables (runUnit e d u) = dTables (runUnits e d0 (us ++ [u])) ∧ okUnits e d0 (us ++ [u]) = true.
Proof.
  intros Hd Hok Hu. rewrite runUnits_app, (okUnits_app e), Hok. cbn [runUnits foldl okUnits]. split.
  - by apply (runUnit_same e).
  - by rewrite <- (okUnit_same e d), Hu.
Qed.

Lemma unlogged_insert x c raw w ss : shPending x !! c = None →
  unlogged (mkShared w ss (<[c := raw]> (shPending x))) ≡ₚ raw :: unlogged x.
Proof. intros Hc. unfold unlogged. cbn [shPending]. by rewrite map_to_list_insert. Qed.
Lemma unlogged_delete x c raw w ss : shPending x !! c = Some raw →
  raw :: unlogged (mkShared w ss (delete c (shPending x))) ≡ₚ unlogged x.
Proof. intros Hc. unfold unlogged. cbn [shPending]. by rewrite <- (map_to_list_delete (shPending x) c raw). Qed.

Lemma sessionIn_insert x c s' w p c' :
  sessionIn (mkShared w (<[c := s']> (shSessions x)) p) c' = if decide (c' = c) then s' else sessionIn x c'.
Proof. unfold sessionIn, sessionOf. cbn [shSessions]. rewrite lookup_insert. by repeat case_decide; subst. Qed.

Lemma reached_ok w0 us lg x : default [] (dkWal (wDisk w0)) = [] → 0 ≤ dRevision (wDB w0) < 2 ^ 64 →
  reached w0 us lg x → Z.of_nat (length us) < 2 ^ 64 → inter_ok (wDB w0) us lg x.
Proof.
  intros Hw0 Hrev0. induction 1 as [|us lg x c raw r d Hr IH _ Hp Hs Htx Hw Hx|us lg x c raw io k Hr IH Hp Hx|us lg x c raw io tx r w' s' Hr IH _ Hp Hs Hc Hne Hx Hs' Hg|us lg x c raw io r w' s' Hr IH Hp Hx Hg Hdb Hdk]; intros HN.
  - by split.
  - rewrite length_app in HN. cbn [length] in HN. destruct IH as [I1 I2 I3 I4 I5 I6 I7]; [lia|].
    pose proof (exec_moved e Hquiet (wDB (shWorld x)) raw I3) as Hmv. unfold ok1, run1 in Hmv. rewrite Hrows in Hx. rewrite Hx, Hw in Hmv.
    cbn [isOk fst snd andb] in Hmv. destruct Hmv as [Hmv _].
    assert (Hu : okUnit e (wDB (shWorld x)) (Auto raw) = true) by (unfold okUnit, ok1; by rewrite Hx).
    assert (Hru : runUnit e (wDB (shWorld x)) (Auto raw) = d) by (unfold runUnit, run1; by rewrite Hx).
    destruct (units_snoc _ _ _ _ I1 I2 Hu) as [E1 E2]. rewrite Hru in E1. split; cbn [shWorld set_db wDB wDisk]; try done.
    + apply Hmv.
    + intros c'. rewrite length_app. destruct (I6 c') as [Ht Hb]. split; [|done]. by eapply tracks_moved.
    + rewrite unlogged_insert, flat_app by done. unfold flat at 2. cbn [map concat stmtsOf app]. rewrite <- I7, <- app_assoc.
      apply Permutation_app_head, Permutation_cons_append.
  - destruct (IH HN) as [I1 I2 I3 I4 I5 I6 I7]. apply persist_wal in Hx as [Hk Hf]. split; cbn [shWorld set_disk wDB wDisk]; try done.
    + by rewrite Hk, I4, walEncode_app.
    + by apply Forall_app.
    + rewrite <- app_assoc. cbn [app]. by rewrite unlogged_delete.
  - rewrite length_app in HN. cbn [length] in HN. destruct IH as [I1 I2 I3 I4 I5 I6 I7]; [lia|]. destruct (I6 c) as [Ht Hb].
    destruct (commit_runs _ _ _ _ _ _ _ _ _ Hx Hg Hs Hc Hne Hs' I3 Ht) as (C1 & C2 & C3 & C4 & C5 & C6); [lia|].
    destruct (units_snoc _ _ _ _ I1 I2 C2) as [E1 E2]. split; cbn [shWorld]; try done.
    + by rewrite C1.
    + apply C3.
    + by rewrite C4, I4, walEncode_app.
    + by apply Forall_app.
    + intros c'. rewrite length_app, sessionIn_insert. case_decide; [|destruct (I6 c') as [Ht' ?]; split; [by eapply tracks_moved|done]].
      split; [unfold tracks; by rewrite Hs'|by rewrite C6].
    + rewrite flat_app. unfold flat at 2. cbn [map concat stmtsOf]. rewrite app_nil_r, <- I7. unfold unlogged. cbn [shPending].
      rewrite <- !app_assoc. apply Permutation_app_head, Permutation_app_comm.
  - destruct (IH HN) as [I1 I2 I3 I4 I5 I6 I7]. destruct (I6 c) as [Ht Hb].
    destruct (other_tracks _ _ _ _ _ _ _ _ Hx Hg Hdb I3 Ht Hb) as [Ht' Hb'].
    split; cbn [shWorld]; rewrite ?Hdb, ?Hdk; try done.
    intros c'. rewrite sessionIn_insert. case_decide; [done|]. apply I6.
Qed.

(** C20: The log keeps every acknowledged write, in some order.  Statements of any number of
    connections interleave at the grain of the engine's and the log's locks.  The live
    tables are a serial run of the statements and transactions in the order they took
    effect; the log is the encoding of a list that holds, with the statements that ran
    and are not yet logged, exactly the statements of that run, each as often as it
    ran.  So when none is pending, nothing is lost from the log or doubled in it. *)
Theorem log_permutes w0 us lg x : default [] (dkWal (wDisk w0)) = [] → 0 ≤ dRevision (wDB w0) < 2 ^ 64 →
  reached w0 us lg x → Z.of_nat (length us) < 2 ^ 64 →
  dTables (wDB (shWorld x)) = dTables (runUnits e (wDB w0) us) ∧ okUnits e (wDB w0) us = true ∧
  default [] (dkWal (wDisk (shWorld x))) = walEncode lg ∧ lg ++ unlogged x ≡ₚ flat us.
Proof. intros Hw Hrev Hr HN. by destruct (reached_ok _ _ _ _ Hw Hrev Hr HN). Qed.
End Interleaving.

(** ** One writer at a time *)

Section Solo.
Context `{GoStd} `{Zlib} (e : Env) (Hquiet : env_quiet e) (marshal : Database → str + err).
Context (limits : Limits) (Hrows : MaxResultRows limits = 0).
(** No write starts while another has still to be logged. *)
Definition solo (x : shared) : Prop := shPending x = ∅.
Abbreviation reached := (interleaved e marshal limits solo).

(** At most one statement is pending, and the log is in the order of execution. *)
Lemma solo_order w0 us lg x : reached w0 us lg x →
  lg ++ unlogged x = flat us ∧ (shPending x = ∅ ∨ ∃ c raw, shPending x = {[c := raw]}).
Proof.
  unfold unlogged. induction 1 as [|us lg x c raw r d Hr IH Hsolo Hp Hs Htx Hw Hx|us lg x c raw io k Hr IH Hp Hx|us lg x c raw io tx r w' s' Hr IH Hsolo Hp Hs Hc Hne Hx Hs' Hg|us lg x c raw io r w' s' Hr IH Hp Hx Hg Hdb Hdk];
    cbn [shPending shared0] in *.
  - split; [by rewrite map_to_list_empty|by left].
  - destruct IH as [IH _]. rewrite Hsolo, map_to_list_empty, app_nil_r in IH. rewrite Hsolo, insert_empty, flat_app, <- IH.
    split; [by rewrite map_to_list_singleton|right; by exists c, raw].
  - destruct IH as [IH [Hq|(c' & raw' & Hq)]]; rewrite Hq in *; [by rewrite lookup_empty in Hp|].
    apply lookup_singleton_Some in Hp as [-> ->]. rewrite map_to_list_singleton in IH. cbn in IH.
    rewrite delete_singleton_eq, map_to_list_empty, app_nil_r. split; [done|by left].
  - destruct IH as [IH _]. rewrite Hsolo, map_to_list_empty, app_nil_r in *. rewrite flat_app, <- IH. split; [|by left].
    unfold flat. cbn. by rewrite app_nil_r.
  - exact IH.
Qed.

(** When writes do not overlap with the logging of others, a restart recovers them all. *)
Theorem solo_writes_recover w0 us lg x : default [] (dkWal (wDisk w0)) = [] → 0 ≤ dRevision (wDB w0) < 2 ^ 64 →
  reached w0 us lg x → Z.of_nat (length us) < 2 ^ 64 → shPending x = ∅ → exactUnits e (wDB w0) us →
  ∃ d, recoverWAL e (Some (default [] (dkWal (wDisk (shWorld x))))) None None (wDB w0) = (d, None) ∧
       dTables d = dTables (wDB (shWorld x)).
Proof.
  intros Hw Hrev Hr HN Hp Hex. destruct (reached_ok e Hquiet marshal limits Hrows solo _ _ _ _ Hw Hrev Hr HN) as [I1 I2 _ I4 I5 _ _].
  destruct (solo_order _ _ _ _ Hr) as [Ho _]. unfold unlogged in Ho. rewrite Hp, map_to_list_empty, app_nil_r in Ho. subst lg.
  destruct (units_flat e us (wDB w0) (wDB w0) eq_refl I2 Hex) as [F1 F2].
  exists (runStmts e (wDB w0) (flat us)). split; [|congruence]. unfold recoverWAL. rewrite I4, replay_all by done. by apply applyLogged_all.
Qed.
End Solo.
