(* ===== verification/Recovery.v ===== *)
(** * Start-up, compaction and backups: internal/server/persistence.go and backups.go

    The files of a data directory, their loading and replay at start-up, the
    folding of the log into a snapshot, and timestamped backups with their
    checksum manifests.  The outcome of every system call is an argument. *)

From S2P Require Import Prelude GoLib Fold Value Parser Table Schema Database.
From S2P Require Import Bytes Storage Bind Json Request JsonText Image Session Sha256.
Open Scope Z_scope.

(** The snapshot and the log, and their legacy names (internal/storage/paths.go). *)
Record DataDir := mkDir { ddSnap : option str; ddLegacySnap : option str; ddWal : option str; ddLegacyWal : option str }.
Definition set_ddSnap k x := mkDir x (ddLegacySnap k) (ddWal k) (ddLegacyWal k).

(** [engine.New] *)
Definition newDB : Database := mkDB ∅ 0 0.

(** What reading the files answers. *)
Record readIO := mkReads { rdSnap : option err; rdLegacySnap : option err; rdWal : option err }.
Definition reads0 : readIO := mkReads None None None.

Inductive startErr :=
| ESnap (e : readErr) | EReplay (e : replayErr) | ESave (e : snapErr)
| EClear (e : err)                  (* remove replayed WAL *)
| EForeign.                         (* an image the model does not represent, see [Image.Foreign] *)

Section Recovery.
Context `{GoStd} `{Zlib} `{JsonStd} (order : list str → list str) (nilOrder nilNames : Table → bool) (e : Env).

(** [json.Marshal] and [json.Unmarshal] of a database. *)
Definition marshalDB (d : Database) : str + err := marshalText (MarshalJSON nilOrder nilNames d).
Definition loadImage (d : Database) (b : str) : option Database + err :=
  match UnmarshalJSON order b d with
  | Restored d' => inl (Some d')
  | RestoreErr _ => inr (EMsg (lit "parse snapshot"))
  | Foreign => inl None
  end.

Definition loaded (d : Database) (r : option (option Database) + readErr) : (Database * option startErr) :=
  match r with
  | inl (Some (Some d')) => (d', None)
  | inl (Some None) => (d, Some EForeign)
  | inl None => (d, None)
  | inr er => (d, Some (ESnap er))
  end.

Definition LoadSnapshot (io : readIO) (k : DataDir) (d : Database) : Database * option startErr :=
  match ReadSnapshot (loadImage d) (ddSnap k) (rdSnap io) with
  | (_, inr er) => (d, Some (ESnap er))
  | (true, r) => loaded d r
  | (false, inl _) => loaded d (ReadSnapshot (loadImage d) (ddLegacySnap k) (rdLegacySnap io)).2
  end.

Definition ReplayDir (io : readIO) (k : DataDir) (d : Database) : Database * option startErr :=
  let '(d', er) := recoverWAL e (ddWal k) (ddLegacyWal k) (rdWal io) d in (d', EReplay <$> er).

(** What a server does before it accepts connections. *)
Definition startUp (io : readIO) (k : DataDir) (d : Database) : Database * option startErr :=
  match LoadSnapshot io k d with
  | (d1, Some er) => (d1, Some er)
  | (d1, None) => ReplayDir io k d1
  end.

Definition saveSnapshot (fs : fsOutcome) (k : DataDir) (d : Database) : option startErr * DataDir :=
  let '(er, file) := WriteSnapshot fs (ddSnap k) (marshalDB d) in (ESave <$> er, set_ddSnap k file).

(** [os.Remove], for which a missing file is no failure here. *)
Definition removeFile (file : option str) (rm : option err) : option err * option str :=
  match file, rm with
  | None, _ => (None, None)
  | Some _, None => (None, None)
  | Some _, Some er => (Some er, file)
  end.
Definition clearWAL (rm1 rm2 : option err) (k : DataDir) : option startErr * DataDir :=
  match removeFile (ddWal k) rm1 with
  | (Some er, _) => (Some (EClear er), k)
  | (None, wal) =>
      let '(er, legacy) := removeFile (ddLegacyWal k) rm2 in
      (EClear <$> er, mkDir (ddSnap k) (ddLegacySnap k) wal legacy)
  end.

(** The database, the error and the files. *)
Definition Compact (io : readIO) (fs : fsOutcome) (rm1 rm2 : option err) (k : DataDir) (d : Database)
    : Database * option startErr * DataDir :=
  match LoadSnapshot io k d with
  | (d1, Some er) => (d1, Some er, k)
  | (d1, None) =>
      match ReplayDir io k d1 with
      | (d2, Some er) => (d2, Some er, k)
      | (d2, None) =>
          match saveSnapshot fs k d2 with
          | (Some er, k1) => (d2, Some er, k1)
          | (None, k1) => let '(er, k2) := clearWAL rm1 rm2 k1 in (d2, er, k2)
          end
      end
  end.
End Recovery.
