(* ===== verification/RecoveryProofs.v ===== *)
(** * Compaction and backups preserve the database *)

From S2P Require Import Prelude GoLib GoFacts Fold Value Parser Table TableInv Schema SchemaProofs Database.
From S2P Require Import Bytes Storage StorageProofs Bind Json Request RequestProofs JsonText JsonTextProofs Image ImageProofs.
From S2P Require Import Session Sha256 Recovery.
Open Scope Z_scope.

Section Recovery.
Context `{GoStd} `{Zl : Zlib} `{!ZlibLaws Zl} `{JsonStd}.
Context (order : list str → list str) (Horder : ∀ l, order l ≡ₚ l) (nilOrder nilNames : Table → bool) (e : Env).

(** A snapshot that was written loads what it was written from. *)
Lemma saved_loads fs k d k' d0 io : image_ok nilOrder nilNames d → rdSnap io = None →
  saveSnapshot nilOrder nilNames fs k d = (None, k') →
  LoadSnapshot order io k' d0 = (bumpRevision (set_tables d0 (restoredTable <$> dTables d)), None).
Proof.
  intros Hok Hio. unfold saveSnapshot, marshalDB.
  destruct (marshal_restores order Horder nilOrder nilNames d d0 Hok) as (p & -> & Hr).
  destruct (WriteSnapshot fs (ddSnap k) (inl p)) as [[er|] file] eqn:Ew; [done|]. intros [= <-].
  unfold LoadSnapshot. cbn [ddSnap set_ddSnap]. rewrite Hio, (snapshot_written _ _ _ _ _ Ew).
  unfold loadImage. by rewrite Hr.
Qed.
Lemma save_failed fs k d er k' : saveSnapshot nilOrder nilNames fs k d = (Some er, k') →
  ddWal k' = ddWal k ∧ ddLegacyWal k' = ddLegacyWal k ∧
  (ddSnap k' = ddSnap k ∨ (is_Some (fsRename1 fs) ∧ is_Some (fsRename2 fs) ∧ ddSnap k' = None)).
Proof.
  unfold saveSnapshot. destruct (WriteSnapshot fs _ _) as [[x|] file] eqn:Ew; [|done].
  intros [= _ <-]. split_and!; [done..|]. by eapply snapshot_failed.
Qed.

Lemma cleared rm1 rm2 k k' : clearWAL rm1 rm2 k = (None, k') →
  k' = mkDir (ddSnap k) (ddLegacySnap k) None None.
Proof. unfold clearWAL, removeFile. repeat case_match; simplify_eq/=; try done; by intros [= <-]. Qed.

(** C6: Compaction keeps the database. When folding the log into the snapshot
    reports success, the log is gone and starting up from what is left yields the
    tables that starting up from snapshot and log yielded before, so no statement
    is lost or applied twice. When it fails in removing the log, the new snapshot
    holds everything already, and the log would be applied to it again. When it fails
    before, the log is untouched, and so is the snapshot, unless both renames of its
    replacement failed: then it is gone, and with it what it held. *)
Theorem compact_recovers io fs rm1 rm2 k d0 d2 er k' d1 :
  startUp order e io k d0 = (d2, None) → image_ok nilOrder nilNames d2 →
  Compact order nilOrder nilNames e io fs rm1 rm2 k d0 = (d2, er, k') →
  match er with
  | None => ddWal k' = None ∧ ddLegacyWal k' = None ∧
      ∃ d', startUp order e reads0 k' d1 = (d', None) ∧ dTables d' = restoredTable <$> dTables d2
  | Some (EClear _) => ∃ d', LoadSnapshot order reads0 k' d1 = (d', None) ∧ dTables d' = restoredTable <$> dTables d2
  | Some _ => ddWal k' = ddWal k ∧ ddLegacyWal k' = ddLegacyWal k ∧
      (ddSnap k' = ddSnap k ∨ (is_Some (fsRename1 fs) ∧ is_Some (fsRename2 fs) ∧ ddSnap k' = None))
  end.
Proof.
  intros Hs Hok. unfold Compact. unfold startUp in Hs.
  destruct (LoadSnapshot order io k d0) as [d0' [x|]]; [done|]. rewrite Hs.
  destruct (saveSnapshot nilOrder nilNames fs k d2) as [[x|] k1] eqn:Ek.
  - intros [= <- <-]. pose proof (save_failed _ _ _ _ _ Ek) as Hf.
    assert (∃ y, x = ESave y) as [y ->].
    { unfold saveSnapshot in Ek. destruct (WriteSnapshot _ _ _) as [[y|] file]; [|done]. injection Ek as <- _. by eexists. }
    done.
  - pose proof (saved_loads fs k d2 k1 d1 reads0 Hok eq_refl Ek) as Hl.
    assert (∀ k2, ddSnap k2 = ddSnap k1 → LoadSnapshot order reads0 k2 d1 = LoadSnapshot order reads0 k1 d1) as Hsame.
    { intros k2 Hk2. unfold LoadSnapshot at 1. rewrite Hk2. unfold saveSnapshot, marshalDB in Ek.
      destruct (marshal_restores order Horder nilOrder nilNames d2 d1 Hok) as (p & Ep & _). rewrite Ep in Ek.
      destruct (WriteSnapshot fs (ddSnap k) (inl p)) as [[er'|] file] eqn:Ew; [done|]. injection Ek as <-.
      unfold LoadSnapshot. cbn [ddSnap set_ddSnap]. by rewrite (snapshot_written _ _ _ _ _ Ew). }
    destruct (clearWAL rm1 rm2 k1) as [[x|] k2] eqn:Ec; intros [= <- <-].
    + assert (∃ y, x = EClear y ∧ ddSnap k2 = ddSnap k1) as (y & -> & Hk2).
      { revert Ec. unfold clearWAL. destruct (removeFile (ddWal k1) rm1) as [[y|] w].
        - intros [= <- <-]. by eexists.
        - destruct (removeFile (ddLegacyWal k1) rm2) as [[y|] w2]; [|done]. intros [= <- <-]. by eexists. }
      rewrite Hsame by done. by eexists.
    + apply cleared in Ec as ->. split_and!; [done..|]. unfold startUp. rewrite Hsame by done. rewrite Hl.
      unfold ReplayDir, recoverWAL. simpl. by eexists.
Qed.
End Recovery.
