(* ===== verification/Backup.v ===== *)
(** * Backups: internal/server/backups.go

    Timestamped snapshots of the live database in a backup directory, each with a
    SHA-256 manifest, their verification, and recovery from the newest. *)

From S2P Require Import Prelude GoLib Fold Value Parser Table Schema Database.
From S2P Require Import Bytes Storage Bind Json Request JsonText Image Session Sha256 Recovery.
Open Scope Z_scope.

(** The files of a backup directory by name. *)
Abbreviation Backups := (gmap str str).

Record backupManifest := mkManifest { mfVersion : Z; mfSize : Z; mfSHA256 : str }.
Definition manifest0 : backupManifest := mkManifest 0 0 [].
Record BackupVerification := mkVerification { bvPath : str; bvSize : Z; bvSHA256 : str; bvChecksum : bool }.

Inductive backupErr :=
| BMkdir (e : err) | BWrite (e : snapErr)
| BOpen | BCopy (e : err) | BClose (e : err)
| BDecode (e : readErr) | BDisappeared | BForeign
| BReadManifest (e : err) | BParseManifest | BVersion (v : Z) | BMismatch
| BManifest (e : err) | BNone
| BValidate (e : backupErr) | BLoad (e : startErr) | BRestore (e : snapErr) | BClear (e : startErr).

Definition backupManifestPath (path : str) : str := path ++ lit ".manifest.json".

(** [json.MarshalIndent(manifest, "", "  ")] *)
Definition manifestText (m : backupManifest) : str :=
  let line (name : string) := 10 :: 32 :: 32 :: dq :: lit name ++ [dq; 58; 32] in
  123 :: line "version"%string ++ FormatInt (mfVersion m) ++ 44 :: line "size_bytes"%string ++ FormatInt (mfSize m)
  ++ 44 :: line "sha256"%string ++ appendJSONString [] (mfSHA256 m) ++ [10; 125].

(** A number into an int64 (or int) field. *)
Definition decInt (n : Z) (j : json) : option Z :=
  match j with
  | JNull => Some n
  | JNum t => match ParseInt t with inl x => Some x | inr _ => None end
  | _ => None
  end.
Definition parseManifest (b : str) : option backupManifest :=
  j ← parseJSON b;
  decStruct (λ m key v,
    if isField key "version" then x ← decInt (mfVersion m) v; Some (mkManifest x (mfSize m) (mfSHA256 m))
    else if isField key "size_bytes" then x ← decInt (mfSize m) v; Some (mkManifest (mfVersion m) x (mfSHA256 m))
    else if isField key "sha256" then x ← decString (mfSHA256 m) v; Some (mkManifest (mfVersion m) (mfSize m) x)
    else Some m) manifest0 j.

(** What the calls that read a file, and write its manifest, answer. *)
Record hashIO := mkHashIO { hOpen : option err; hCopy : option err; hClose : option err }.
Record verifyIO := mkVerifyIO { vHash : hashIO; vRead : option err; vManifest : option err }.
Record manifestIO := mkManifestIO { mHash : hashIO; mWritten : nat; mWrite : option err; mRename : option err }.
Definition hash0 : hashIO := mkHashIO None None None.
Definition verify0 : verifyIO := mkVerifyIO hash0 None None.

Section Backup.
Context `{GoStd} `{Zlib} `{JsonStd} (order : list str → list str) (nilOrder nilNames : Table → bool).

(** Size and digest of a file. *)
Definition hashFile (io : hashIO) (b : Backups) (path : str) : (Z * str) + backupErr :=
  match b !! path, hOpen io, hCopy io, hClose io with
  | None, _, _, _ | _, Some _, _, _ => inr BOpen
  | _, _, Some er, _ => inr (BCopy er)
  | _, _, _, Some er => inr (BClose er)
  | Some f, None, None, None => inl (Z.of_nat (length f), hexEncode (Sum256 f))
  end.

Definition VerifyBackup (io : verifyIO) (b : Backups) (path : str) : BackupVerification + backupErr :=
  match hashFile (vHash io) b path with
  | inr er => inr er
  | inl (size, hash) =>
      match ReadSnapshot (loadImage order newDB) (b !! path) (vRead io) with
      | (_, inr er) => inr (BDecode er)
      | (false, _) => inr BDisappeared
      | (true, inl (Some None)) => inr BForeign
      | (true, _) =>
          match b !! backupManifestPath path, vManifest io with
          | None, _ => inl (mkVerification path size hash false)
          | Some _, Some er => inr (BReadManifest er)
          | Some text, None =>
              match parseManifest text with
              | None => inr BParseManifest
              | Some m =>
                  if negb (mfVersion m =? 1) then inr (BVersion (mfVersion m))
                  else if negb (mfSize m =? size) || negb (EqualFold (mfSHA256 m) hash) then inr BMismatch
                  else inl (mkVerification path size hash true)
              end
          end
      end
  end.

Definition writeBackupManifest (io : manifestIO) (b : Backups) (path : str) : option backupErr * Backups :=
  match hashFile (mHash io) b path with
  | inr er => (Some er, b)
  | inl (size, hash) =>
      let data := manifestText (mkManifest 1 size hash) ++ [10] in
      let tmp := backupManifestPath path ++ lit ".tmp" in
      match mWrite io, mRename io with
      | Some er, _ => (Some (BManifest er), <[tmp := take (mWritten io) data]> b)
      | None, Some er => (Some (BManifest er), delete tmp b)
      | None, None => (None, <[backupManifestPath path := data]> (delete tmp b))
      end
  end.

Definition backupName (stamp : str) : str := lit "snapshot-" ++ stamp ++ lit ".spdb".

(** [rm]: whether the removal of a rejected backup works. *)
Definition removed (rm : bool) (b : Backups) (path : str) : Backups := if rm then delete path b else b.

Definition CreateBackup (stamp : str) (mkdir : option err) (fs : fsOutcome) (v : verifyIO) (m : manifestIO) (rm : bool)
    (b : Backups) (d : Database) : (str + backupErr) * Backups :=
  match mkdir with
  | Some er => (inr (BMkdir er), b)
  | None =>
      let path := backupName stamp in
      let '(er, file) := WriteSnapshot fs (b !! path) (marshalDB nilOrder nilNames d) in
      let b1 := match file with Some f => <[path := f]> b | None => delete path b end in
      match er with
      | Some er => (inr (BWrite er), b1)
      | None =>
          match VerifyBackup v b1 path with
          | inr er => (inr (BValidate er), removed rm b1 path)
          | inl _ =>
              match writeBackupManifest m b1 path with
              | (Some er, b2) => (inr er, removed rm b2 path)
              | (None, b2) => (inl path, b2)
              end
          end
      end
  end.

(** [filepath.Glob] of "snapshot-*.spdb" in a directory whose own name has no glob
    characters. *)
Definition isBackup (name : str) : bool :=
  let pre := lit "snapshot-" in let suf := lit ".spdb" in
  (length pre + length suf <=? length name)%nat && bool_decide (take (length pre) name = pre)
  && bool_decide (drop (length name - length suf) name = suf).
Definition LatestBackup (b : Backups) : str + backupErr :=
  match last (sortStrings (filter (λ n, isBackup n = true) (mapKeys b))) with
  | Some path => inl path
  | None => inr BNone
  end.

Definition RecoverLatest (v : verifyIO) (rd : option err) (fs : fsOutcome) (rm1 rm2 : option err)
    (b : Backups) (k : DataDir) : (str + backupErr) * DataDir :=
  match LatestBackup b with
  | inr er => (inr er, k)
  | inl backup =>
      match VerifyBackup v b backup with
      | inr er => (inr (BValidate er), k)
      | inl _ =>
          match loaded newDB (ReadSnapshot (loadImage order newDB) (b !! backup) rd).2 with
          | (_, Some er) => (inr (BLoad er), k)
          | (d, None) =>
              let '(er, file) := WriteSnapshot fs (ddSnap k) (marshalDB nilOrder nilNames d) in
              let k1 := set_ddSnap k file in
              match er with
              | Some er => (inr (BRestore er), k1)
              | None =>
                  match clearWAL rm1 rm2 k1 with
                  | (Some er, k2) => (inr (BClear er), k2)
                  | (None, k2) => (inl backup, k2)
                  end
              end
          end
      end
  end.
End Backup.
