(* ===== verification/BackupProofs.v ===== *)
(** * Backups: what is backed up is what recovery restores *)

From S2P Require Import Prelude GoLib GoFacts Fold Value Parser Table TableInv Schema SchemaProofs OrderByProofs Database.
From S2P Require Import Bytes Storage StorageProofs Bind Json Request RequestProofs JsonText JsonTextProofs Image ImageProofs.
From S2P Require Import Session Sha256 Recovery RecoveryProofs Backup.
Open Scope Z_scope.

(** ** Manifests *)

(** A member on its own line. *)
Lemma scan_line (name : string) T R v fuel :
  (∀ X, unquote (dq :: lit name ++ dq :: X) = Some (lit name, X)) →
  (∃ c t, T = c :: t ∧ opens c = true) → scanValue fuel 1 (T ++ R) = Some (v, R) →
  scanMembers (S fuel) 1 (10 :: 32 :: 32 :: dq :: lit name ++ dq :: 58 :: 32 :: T ++ R)
  = match consume 44 (skipSpace R) with
    | Some p4 => match scanMembers fuel 1 p4 with Some (l, r) => Some ((lit name, v) :: l, r) | None => None end
    | None => match consume 125 (skipSpace R) with Some r => Some ([(lit name, v)], r) | None => None end
    end.
Proof.
  intros Hn (c & t & -> & Hc) Hs. cbn [scanMembers skipSpace]. change (isJsonSpace 10) with true.
  change (isJsonSpace 32) with true. change (isJsonSpace dq) with false. cbv iota. rewrite Hn.
  change (skipSpace (58 :: 32 :: (c :: t) ++ R)) with (58 :: 32 :: (c :: t) ++ R). cbn [consume].
  change (58 =? 58) with true. cbv iota. change (skipSpace (32 :: (c :: t) ++ R)) with (skipSpace ((c :: t) ++ R)).
  cbn [app]. rewrite skipSpace_opens by done. change (c :: t ++ R) with ((c :: t) ++ R). by rewrite Hs.
Qed.

Lemma number_opens n : ∃ c t, FormatInt n = c :: t ∧ opens c = true.
Proof. apply (print_head quoteJ unquote_quoteJ (JNum (FormatInt n))). apply isNumber_FormatInt. Qed.

Lemma manifest_parses m : is_int64 (mfVersion m) → is_int64 (mfSize m) → validUTF8 (mfSHA256 m) = true →
  parseManifest (manifestText m ++ [10]) = Some m.
Proof.
  intros Hv Hs Hu. unfold parseManifest, parseJSON.
  set (L3 := 10 :: 32 :: 32 :: dq :: lit "sha256" ++ dq :: 58 :: 32 :: quoteJ (mfSHA256 m) ++ [10; 125; 10]).
  set (L2 := 10 :: 32 :: 32 :: dq :: lit "size_bytes" ++ dq :: 58 :: 32 :: FormatInt (mfSize m) ++ 44 :: L3).
  set (L1 := 10 :: 32 :: 32 :: dq :: lit "version" ++ dq :: 58 :: 32 :: FormatInt (mfVersion m) ++ 44 :: L2).
  assert (manifestText m ++ [10] = 123 :: L1) as ->.
  { unfold manifestText, L1, L2, L3, quoteJ. cbn [app]. repeat rewrite <- ?app_assoc, <- ?app_comm_cons. cbn [app]. done. }
  change (skipSpace (123 :: L1)) with (123 :: L1).
  assert (8 ≤ scanFuel (123%Z :: L1))%nat as Hf by (unfold scanFuel; simpl; lia).
  destruct (scanFuel (123 :: L1)) as [|[|[|[|[|f]]]]]; [lia..|]. cbn [scanValue].
  change (123 =? dq) with false. change (123 =? 123) with true. cbv iota. change (maxNestingDepth <? 0 + 1) with false. cbv iota.
  change (peek (skipSpace L1)) with dq. change (dq =? 125) with false. cbv iota. change (0 + 1) with 1.
  assert (∀ n g R, ends R → scanValue (S g) 1 (FormatInt n ++ R) = Some (JNum (FormatInt n), R)) as Hnum.
  { intros n g R HR. apply (scan_printed quoteJ unquote_quoteJ (JNum (FormatInt n))); [apply isNumber_FormatInt|simpl; lia|done|done]. }
  unfold L1 at 1. rewrite (scan_line "version" (FormatInt (mfVersion m)) (44 :: L2) (JNum (FormatInt (mfVersion m))));
    [|done|apply number_opens|by apply Hnum].
  change (consume 44 (skipSpace (44 :: L2))) with (Some L2). cbv iota.
  unfold L2 at 1. rewrite (scan_line "size_bytes" (FormatInt (mfSize m)) (44 :: L3) (JNum (FormatInt (mfSize m))));
    [|done|apply number_opens|by apply Hnum].
  change (consume 44 (skipSpace (44 :: L3))) with (Some L3). cbv iota.
  unfold L3 at 1. rewrite (scan_line "sha256" (quoteJ (mfSHA256 m)) [10; 125; 10] (JStr (mfSHA256 m)));
    [|done|by eexists _, _|].
  2: { cbn [scanValue]. pose proof (unquote_quoteJ (mfSHA256 m) [10; 125; 10] Hu) as E. unfold quoteJ, appendJSONString in *. cbn [app] in *.
       change (dq =? dq) with true. cbv iota. by rewrite E. }
  cbn. rewrite (FormatInt_parse _ Hv). cbn. rewrite (FormatInt_parse _ Hs). cbn. by destruct m.
Qed.

Lemma hexAt_range i : 0 ≤ hexAt i < 128.
Proof.
  unfold hexAt. destruct (decide (Z.to_nat i < length lowerHex)%nat) as [Hl|Hl].
  - assert (Forall (λ c, 0 ≤ c < 128) lowerHex) as Hf
      by (apply (bool_decide_unpack _); vm_compute; exact I).
    rewrite Forall_forall in Hf. apply Hf, list_elem_of_In. by apply nth_In.
  - rewrite nth_overflow by lia. lia.
Qed.
Lemma hexEncode_text b : validUTF8 (hexEncode b) = true ∧ is_ascii (hexEncode b) = true.
Proof.
  unfold validUTF8, is_ascii. induction b as [|c b [IH1 IH2]]; [done|].
  change (hexEncode (c :: b)) with (hexAt (Z.shiftr c 4) :: hexAt (Z.land c 15) :: hexEncode b).
  cbn [validUTF8_loop forallb]. pose proof (hexAt_range (Z.shiftr c 4)). pose proof (hexAt_range (Z.land c 15)).
  rewrite !(proj2 (Z.ltb_lt _ 128)), !(proj2 (Z.leb_le 0 _)) by lia. done.
Qed.

(** ** The newest backup *)

#[local] Instance str_le_total : Total str_le.
Proof.
  intros a b. unfold str_le. destruct (str_ltb_total a b) as [->|[Hl|Hl]]; [left; apply str_ltb_irrefl|..].
  - left. by apply str_ltb_asym.
  - right. by apply str_ltb_asym.
Qed.
#[local] Instance str_le_transitive : Transitive str_le.
Proof.
  intros a b c Hab Hbc. unfold str_le in *. destruct (str_ltb c a) eqn:E; [|done].
  destruct (str_ltb_total a b) as [->|[Hl|Hl]]; [congruence| |congruence].
  pose proof (str_ltb_trans c a b E Hl). congruence.
Qed.

Lemma last_sorted l x : x ∈ l → (∀ y, y ∈ l → y ≠ x → str_ltb y x = true) → last (sortStrings l) = Some x.
Proof.
  intros Hx Hmax. assert (x ∈ sortStrings l) as Hin by (unfold sortStrings; by rewrite merge_sort_Permutation).
  assert (StronglySorted str_le (sortStrings l)) as Hs by (apply StronglySorted_merge_sort; apply _).
  assert (∀ y, y ∈ sortStrings l → y ∈ l) as Hsub by (intros y Hy; unfold sortStrings in Hy; by rewrite merge_sort_Permutation in Hy).
  destruct (last (sortStrings l)) as [y|] eqn:E; [|apply last_None in E; rewrite E in Hin; set_solver].
  apply last_Some in E as [l' E]. rewrite E in Hin, Hs, Hsub. f_equal.
  destruct (decide (y = x)) as [|Hne]; [done|]. assert (x ∈ l') as Hl' by set_solver.
  assert (str_le x y) as Hle.
  { apply list_elem_of_split in Hl' as (l1 & l2 & ->). clear -Hs. induction l1 as [|z l1 IH]; simpl in Hs.
    - apply StronglySorted_inv in Hs as [_ Hf]. rewrite Forall_forall in Hf. apply Hf. set_solver.
    - apply StronglySorted_inv in Hs as [Hs _]. by apply IH. }
  unfold str_le in Hle. rewrite Hmax in Hle; [done| |done]. apply Hsub. set_solver.
Qed.

Lemma isBackup_name stamp : isBackup (backupName stamp) = true.
Proof.
  unfold isBackup, backupName. rewrite !length_app. rewrite !andb_true_iff. split_and!.
  - apply Nat.leb_le. simpl. lia.
  - by apply bool_decide_eq_true.
  - apply bool_decide_eq_true. rewrite app_assoc, drop_app_length' by (rewrite length_app; simpl; lia). done.
Qed.
Lemma isBackup_manifest path : isBackup (backupManifestPath path) = false.
Proof.
  unfold isBackup, backupManifestPath. apply andb_false_iff. right. apply bool_decide_eq_false.
  change (lit ".manifest.json") with (lit ".manifest" ++ lit ".json"). rewrite app_assoc, length_app.
  rewrite drop_app_length' by (simpl; lia). done.
Qed.

Lemma written_file `{Zlib} o file p file' :
  WriteSnapshot o file (inl p) = (None, file') → ∃ f, file' = Some f ∧ Z.of_nat (length f) ≤ int64_max.
Proof.
  unfold WriteSnapshot. destruct (encode snapshotKind p) as [f|e] eqn:Ef; [|done].
  pose proof (atomicWrite_outcome o file f) as Ha. destruct (atomicWrite o file f) as [[e|] file'']; [done|].
  intros [= <-]. exists f. split; [done|]. revert Ef. unfold encode, encodeFrame. repeat (case_match; try done).
  intros Ef. apply (f_equal (λ x, match x with inl y => length y | inr _ => 0%nat end)) in Ef. cbv beta iota in Ef.
  assert (maxPayloadSize = 268435456) as Hmax by reflexivity. unfold int64_max.
  repeat match goal with Hx : (_ <? _) = false |- _ => apply Z.ltb_ge in Hx end.
  unfold frameHeader in Ef. rewrite !length_app, !putUint_length in Ef. simpl length in Ef. lia.
Qed.

Section Backups.
Context `{GoStd} `{Zl : Zlib} `{!ZlibLaws Zl} `{JsonStd}.
Context (order : list str → list str) (Horder : ∀ l, order l ≡ₚ l) (nilOrder nilNames : Table → bool).

(** What a successful backup leaves behind. *)
Lemma backup_created stamp mkdir fs v m rm b d path b' : image_ok nilOrder nilNames d →
  CreateBackup order nilOrder nilNames stamp mkdir fs v m rm b d = (inl path, b') →
  path = backupName stamp ∧ ∃ f, b' !! path = Some f ∧
    (∀ d0, ReadSnapshot (loadImage order d0) (Some f) None
           = (true, inl (Some (Some (bumpRevision (set_tables d0 (restoredTable <$> dTables d))))))) ∧
    b' !! backupManifestPath path = Some (manifestText (mkManifest 1 (Z.of_nat (length f)) (hexEncode (Sum256 f))) ++ [10]) ∧
    Z.of_nat (length f) ≤ int64_max ∧
    ∀ n, is_Some (b' !! n) → isBackup n = true → n = path ∨ is_Some (b !! n).
Proof.
  intros Hok. unfold CreateBackup. destruct mkdir; [done|]. unfold marshalDB.
  assert (∃ p, marshalText (MarshalJSON nilOrder nilNames d) = inl p ∧ ∀ d0, UnmarshalJSON order p d0
            = Restored (bumpRevision (set_tables d0 (restoredTable <$> dTables d)))) as (p & Ep & Hp).
  { destruct (marshal_restores order Horder nilOrder nilNames d newDB Hok) as (p & E & _). exists p. split; [done|].
    intros d0. destruct (marshal_restores order Horder nilOrder nilNames d d0 Hok) as (p' & E' & Hr). congruence. }
  rewrite Ep. set (nm := backupName stamp).
  destruct (WriteSnapshot fs (b !! nm) (inl p)) as [[er|] file] eqn:Ew; [done|].
  destruct (written_file _ _ _ _ Ew) as (f & -> & Hlen).
  destruct (VerifyBackup order v (<[nm := f]> b) nm) as [bv|]; [|done].
  destruct (writeBackupManifest m (<[nm := f]> b) nm) as [[er|] b2] eqn:Em; [done|]. intros [= <- <-].
  split; [done|]. exists f.
  assert (b2 = <[backupManifestPath nm := manifestText (mkManifest 1 (Z.of_nat (length f)) (hexEncode (Sum256 f))) ++ [10]]>
                 (delete (backupManifestPath nm ++ lit ".tmp") (<[nm := f]> b))) as ->.
  { revert Em. unfold writeBackupManifest, hashFile. rewrite lookup_insert_eq.
    destruct (hOpen (mHash m)), (hCopy (mHash m)), (hClose (mHash m)); try done.
    destruct (mWrite m), (mRename m); try done. by intros [= <-]. }
  assert (backupManifestPath nm ≠ nm) as Hne.
  { intros E. apply (f_equal isBackup) in E. rewrite isBackup_manifest in E. unfold nm in E. by rewrite isBackup_name in E. }
  assert (backupManifestPath nm ++ lit ".tmp" ≠ nm) as Hne2.
  { intros E. apply (f_equal length) in E. unfold backupManifestPath in E. rewrite !length_app in E. simpl in E. lia. }
  split_and!.
  - by rewrite lookup_insert_ne, lookup_delete_ne, lookup_insert_eq.
  - intros d0. rewrite (snapshot_written _ _ _ _ _ Ew). unfold loadImage. by rewrite Hp.
  - apply lookup_insert_eq.
  - done.
  - intros n Hn Hb. rewrite lookup_insert in Hn. case_decide as E; [subst n; by rewrite isBackup_manifest in Hb|].
    rewrite lookup_delete in Hn. case_decide; [by destruct Hn|]. rewrite lookup_insert in Hn. case_decide; [by left|by right].
Qed.

(** C33: A backup is worth having. After [CreateBackup] reports success, the backup
    verifies against its own checksum manifest; and when it is the newest one and
    [RecoverLatest] reports success, it is the one recovered, the log is cleared, and
    starting up from the data directory, whatever was there before, yields exactly
    the tables that were backed up. *)
Theorem backup_recovers e stamp mkdir fs v m rm b d path b' v2 rd fs2 rm1 rm2 k r k' d1 :
  image_ok nilOrder nilNames d →
  CreateBackup order nilOrder nilNames stamp mkdir fs v m rm b d = (inl path, b') →
  (∀ n, is_Some (b !! n) → isBackup n = true → n ≠ path → str_ltb n path = true) →
  (∃ bv, VerifyBackup order verify0 b' path = inl bv ∧ bvChecksum bv = true) ∧
  (RecoverLatest order nilOrder nilNames v2 rd fs2 rm1 rm2 b' k = (inl r, k') →
   r = path ∧ ddWal k' = None ∧ ddLegacyWal k' = None ∧
   ∃ d', startUp order e reads0 k' d1 = (d', None) ∧ dTables d' = restoredTable <$> dTables d).
Proof.
  intros Hok Hc Hnew. destruct (backup_created _ _ _ _ _ _ _ _ _ _ Hok Hc) as (Hpath & f & Hf & Hread & Hm & Hlen & Hdom).
  split.
  - exists (mkVerification path (Z.of_nat (length f)) (hexEncode (Sum256 f)) true). split; [|done]. unfold VerifyBackup, hashFile. rewrite Hf, Hm, Hread. cbn [vHash vRead vManifest verify0 hOpen hCopy hClose hash0].
    destruct (hexEncode_text (Sum256 f)) as [Hu Ha]. rewrite manifest_parses by (done || unfold is_int64, int64_min in *; simpl; lia || done).
    cbn [mfVersion mfSize mfSHA256]. rewrite Z.eqb_refl. cbn [negb]. rewrite Z.eqb_refl. unfold EqualFold. rewrite Ha.
    cbn [andb negb orb]. by rewrite bool_decide_eq_true_2.
  - assert (LatestBackup b' = inl path) as El.
    { unfold LatestBackup. rewrite (last_sorted _ path); [done| |].
      - rewrite list_elem_of_filter. split; [rewrite Hpath; apply isBackup_name|].
        rewrite <- (merge_sort_Permutation str_le). apply sorted_keys. by rewrite Hf.
      - intros n [Hb Hn]%list_elem_of_filter Hne. rewrite <- (merge_sort_Permutation str_le) in Hn. apply sorted_keys in Hn.
        destruct (Hdom n Hn Hb) as [|Hn']; [done|]. by apply Hnew. }
    unfold RecoverLatest. rewrite El. destruct (VerifyBackup order v2 b' path); [|done]. rewrite Hf.
    destruct rd as [er|]; [done|]. rewrite Hread. cbn [loaded snd].
    set (d2 := bumpRevision (set_tables newDB (restoredTable <$> dTables d))).
    pose proof (image_ok_restored order Horder nilOrder nilNames d newDB Hok) as Hok2. fold d2 in Hok2.
    destruct (WriteSnapshot fs2 (ddSnap k) (marshalDB nilOrder nilNames d2)) as [[er|] file] eqn:Ew; [done|].
    destruct (clearWAL rm1 rm2 (set_ddSnap k file)) as [[er|] k2] eqn:Ec; [done|]. intros [= <- <-].
    apply cleared in Ec as ->. split_and!; [done..|].
    assert (saveSnapshot nilOrder nilNames fs2 (mkDir (ddSnap k) (ddLegacySnap k) None None) d2
            = (None, mkDir file (ddLegacySnap k) None None)) as Es.
    { unfold saveSnapshot. cbn [ddSnap]. by rewrite Ew. }
    unfold startUp. cbn [ddSnap ddLegacySnap set_ddSnap]. rewrite (saved_loads order Horder nilOrder nilNames _ _ _ _ d1 reads0 Hok2 eq_refl Es).
    unfold ReplayDir, recoverWAL. cbn [ddWal ddLegacyWal rdWal reads0]. eexists. split; [reflexivity|].
    cbn [dTables bumpRevision set_tables]. unfold d2. cbn [dTables bumpRevision set_tables].
    rewrite <- map_fmap_compose. apply map_fmap_ext. intros n t _. apply restoredTable_idemp.
Qed.
End Backups.
