(* ===== verification/Config.v ===== *)
(** * Configuration and credentials of the hosted server: internal/remote/config.go

    Flags, environment and defaults merged into one configuration, and the
    authenticator.  Durations are nanoseconds (int64); [getenv] is the process
    environment and [ParseDuration] the function of package time. *)

From S2P Require Import Prelude GoLib Fold Value Table Schema Database.
From S2P Require Import Bind Request Storage Session Sha256.
Open Scope Z_scope.

(** [server.Limits] with its two durations. *)
Record HostLimits := mkHostLimits { hlQueryTimeout : Z; hlAcquireTimeout : Z; hlLimits : Limits }.

Record Config := mkConfig {
  cfHost : str; cfPort : Z; cfDataDir : str; cfMode : str;
  cfUsername : str; cfPassword : str; cfTLSCert : str; cfTLSKey : str;
  cfMaxConnections : Z;
  cfReadTimeout : Z; cfWriteTimeout : Z; cfIdleTimeout : Z; cfShutdownTimeout : Z;
  cfHealthAddr : str; cfClusterAddr : str; cfAdvertiseAddr : str; cfJoinAddrs : list str; cfRegion : str;
  cfLimits : HostLimits;
}.

Definition second : Z := 10 ^ 9.
Definition noHostLimits : HostLimits := mkHostLimits 0 0 noLimits.
Definition defaults : Config :=
  mkConfig (lit "127.0.0.1") 7432 (lit "./data") (lit "wal") [] [] [] [] 128
    (60 * second) (30 * second) (5 * 60 * second) (10 * second) [] [] [] [] [] noHostLimits.

(** An explicitly set value wins. *)
Definition orText (flag cfg : str) : str := if bool_decide (flag = []) then cfg else flag.
Definition orInt (flag cfg : Z) : Z := if flag =? 0 then cfg else flag.

Definition mergeLimits (dst src : HostLimits) : HostLimits :=
  let d := hlLimits dst in
  let s := hlLimits src in
  mkHostLimits (orInt (hlQueryTimeout src) (hlQueryTimeout dst)) (orInt (hlAcquireTimeout src) (hlAcquireTimeout dst))
    (mkLimits (orInt (MaxResultRows s) (MaxResultRows d)) (orInt (MaxResultBytes s) (MaxResultBytes d))
       (orInt (MaxInflightQueries s) (MaxInflightQueries d)) (orInt (MaxConnections s) (MaxConnections d))
       (orInt (MaxBatchStatements s) (MaxBatchStatements d)) (orInt (MaxTxStatements s) (MaxTxStatements d))
       (orInt (MaxTxDatabaseRows s) (MaxTxDatabaseRows d)) (orInt (MaxRequestBytes s) (MaxRequestBytes d))).

(** [merge] of LoadConfig *)
Definition mergeFlags (flag cfg : Config) : Config :=
  mkConfig (orText (cfHost flag) (cfHost cfg)) (orInt (cfPort flag) (cfPort cfg))
    (orText (cfDataDir flag) (cfDataDir cfg)) (orText (cfMode flag) (cfMode cfg))
    (orText (cfUsername flag) (cfUsername cfg)) (orText (cfPassword flag) (cfPassword cfg))
    (orText (cfTLSCert flag) (cfTLSCert cfg)) (orText (cfTLSKey flag) (cfTLSKey cfg))
    (orInt (cfMaxConnections flag) (cfMaxConnections cfg))
    (orInt (cfReadTimeout flag) (cfReadTimeout cfg)) (orInt (cfWriteTimeout flag) (cfWriteTimeout cfg))
    (orInt (cfIdleTimeout flag) (cfIdleTimeout cfg)) (orInt (cfShutdownTimeout flag) (cfShutdownTimeout cfg))
    (orText (cfHealthAddr flag) (cfHealthAddr cfg)) (orText (cfClusterAddr flag) (cfClusterAddr cfg))
    (orText (cfAdvertiseAddr flag) (cfAdvertiseAddr cfg))
    (match cfJoinAddrs flag with [] => cfJoinAddrs cfg | l => l end)
    (orText (cfRegion flag) (cfRegion cfg))
    (mergeLimits (cfLimits cfg) (cfLimits flag)).

(** ** The environment *)

Section Env.
Context (getenv : string → str) (ParseDuration : str → Z + err).

Definition envText (name : string) (cfg : str) : str := orText (getenv name) cfg.
Definition parsed {E} (cfg : Z) (r : Z + E) : Z := match r with inl n => n | inr _ => cfg end.
(** An integer variable: ignored when it does not parse. *)
Definition envInt (name : string) (cfg : Z) : Z :=
  match getenv name with [] => cfg | v => parsed cfg (Atoi v) end.
Definition envDuration (name : string) (cfg : Z) : Z :=
  match getenv name with [] => cfg | v => parsed cfg (ParseDuration v) end.
(** PORT counts only when SUPERDB_PORT is not set. *)
Definition envPort (cfg : Z) : Z :=
  match getenv "SUPERDB_PORT" with [] => envInt "PORT" cfg | v => parsed cfg (Atoi v) end.

(** The variables of the loop over a map and the limits they set. *)
Definition limitVars : list (string * (Limits → (Z → Z) → Limits)) :=
  [("SUPERDB_MAX_RESULT_ROWS", λ l f, mkLimits (f (MaxResultRows l)) (MaxResultBytes l) (MaxInflightQueries l)
      (MaxConnections l) (MaxBatchStatements l) (MaxTxStatements l) (MaxTxDatabaseRows l) (MaxRequestBytes l));
   ("SUPERDB_MAX_RESULT_BYTES", λ l f, mkLimits (MaxResultRows l) (f (MaxResultBytes l)) (MaxInflightQueries l)
      (MaxConnections l) (MaxBatchStatements l) (MaxTxStatements l) (MaxTxDatabaseRows l) (MaxRequestBytes l));
   ("SUPERDB_MAX_INFLIGHT_QUERIES", λ l f, mkLimits (MaxResultRows l) (MaxResultBytes l) (f (MaxInflightQueries l))
      (MaxConnections l) (MaxBatchStatements l) (MaxTxStatements l) (MaxTxDatabaseRows l) (MaxRequestBytes l));
   ("SUPERDB_MAX_BATCH_STATEMENTS", λ l f, mkLimits (MaxResultRows l) (MaxResultBytes l) (MaxInflightQueries l)
      (MaxConnections l) (f (MaxBatchStatements l)) (MaxTxStatements l) (MaxTxDatabaseRows l) (MaxRequestBytes l));
   ("SUPERDB_MAX_TX_STATEMENTS", λ l f, mkLimits (MaxResultRows l) (MaxResultBytes l) (MaxInflightQueries l)
      (MaxConnections l) (MaxBatchStatements l) (f (MaxTxStatements l)) (MaxTxDatabaseRows l) (MaxRequestBytes l));
   ("SUPERDB_MAX_TX_DATABASE_ROWS", λ l f, mkLimits (MaxResultRows l) (MaxResultBytes l) (MaxInflightQueries l)
      (MaxConnections l) (MaxBatchStatements l) (MaxTxStatements l) (f (MaxTxDatabaseRows l)) (MaxRequestBytes l))]%string.

(** [visit]: the order in which the map is ranged over. *)
Definition envLimits (visit : list (string * (Limits → (Z → Z) → Limits)) → list (string * (Limits → (Z → Z) → Limits)))
    (l : HostLimits) : HostLimits :=
  mkHostLimits (envDuration "SUPERDB_QUERY_TIMEOUT" (hlQueryTimeout l))
    (envDuration "SUPERDB_QUERY_QUEUE_TIMEOUT" (hlAcquireTimeout l))
    (foldr (λ p l, p.2 l (envInt p.1)) (hlLimits l) (visit limitVars)).

Definition envConfig visit (cfg : Config) : Config :=
  mkConfig (envText "SUPERDB_HOST" (cfHost cfg)) (envPort (cfPort cfg))
    (envText "SUPERDB_DATA_DIR" (cfDataDir cfg)) (envText "SUPERDB_MODE" (cfMode cfg))
    (envText "SUPERDB_USERNAME" (cfUsername cfg)) (envText "SUPERDB_PASSWORD" (cfPassword cfg))
    (envText "SUPERDB_TLS_CERT" (cfTLSCert cfg)) (envText "SUPERDB_TLS_KEY" (cfTLSKey cfg))
    (envInt "SUPERDB_MAX_CONNECTIONS" (cfMaxConnections cfg))
    (cfReadTimeout cfg) (cfWriteTimeout cfg) (cfIdleTimeout cfg) (cfShutdownTimeout cfg)
    (envText "SUPERDB_HEALTH_ADDR" (cfHealthAddr cfg)) (cfClusterAddr cfg) (cfAdvertiseAddr cfg) (cfJoinAddrs cfg)
    (cfRegion cfg) (envLimits visit (cfLimits cfg)).

Definition atLeastOne (cfg : Config) : Config :=
  mkConfig (cfHost cfg) (cfPort cfg) (cfDataDir cfg) (cfMode cfg) (cfUsername cfg) (cfPassword cfg)
    (cfTLSCert cfg) (cfTLSKey cfg) (if cfMaxConnections cfg <=? 0 then 128 else cfMaxConnections cfg)
    (cfReadTimeout cfg) (cfWriteTimeout cfg) (cfIdleTimeout cfg) (cfShutdownTimeout cfg)
    (cfHealthAddr cfg) (cfClusterAddr cfg) (cfAdvertiseAddr cfg) (cfJoinAddrs cfg) (cfRegion cfg) (cfLimits cfg).

Definition LoadConfig visit (flag : Config) : Config := atLeastOne (mergeFlags flag (envConfig visit defaults)).

(** The order of the range over the map does not show. *)
Lemma envLimits_order visit l :
  visit limitVars ≡ₚ limitVars → envLimits visit l = envLimits id l.
Proof.
  intros Hp. unfold envLimits. f_equal. symmetry in Hp |- *.
  apply (foldr_permutation (=) (λ p l, p.2 l (envInt p.1)) (hlLimits l)); [|done].
  intros j1 a1 j2 a2 b _ E1 E2. destruct b.
  repeat (destruct j1 as [|j1]; [injection E1 as <-;
    repeat (destruct j2 as [|j2]; [by injection E2 as <-|]); done|]). done.
Qed.
End Env.

(** ** Credentials *)

Record Authenticator := mkAuth { auUser : str; auPass : str; auRequired : bool }.

Definition NewAuthenticator (username password : str) : Authenticator :=
  if bool_decide (username = []) && bool_decide (password = []) then mkAuth (repeat 0 32) (repeat 0 32) false
  else mkAuth (Sum256 (orText username (lit "admin"))) (Sum256 password) true.

Definition Verify (a : Authenticator) (username password : str) : bool :=
  negb (auRequired a) || (bool_decide (Sum256 username = auUser a) && bool_decide (Sum256 password = auPass a)).
