(* ===== verification/Remote.v ===== *)
(** * The hosted server: internal/remote/session.go, server.go, response.go, metrics.go

    A connection of the hosted server: the statement interpreter [execOne], the
    frame handler, panic isolation, admission and size limits, and the loop over the
    frames of a connection.  The shared database and files are the [World] of
    Session; what a connection keeps is its [RSession]. *)

From S2P Require Import Prelude GoLib Fold Value Table Schema Database.
From S2P Require Import Storage Bind Json Request JsonText Image Wire Session Config.
Open Scope Z_scope.

(** ** Errors *)

Record execError := mkExecError { xCode : str; xMsg : str; xLeader : str; xRetryable : bool }.
Definition xerr (code : string) (msg : str) : execError := mkExecError (lit code) msg [] false.
Definition xretry (code : string) (msg : str) : execError := mkExecError (lit code) msg [] true.

(** What a cluster node answers: a [*cluster.Error], or another error with its text. *)
Inductive clusterErr := ClusterErr (code msg : str) | OtherErr (text : str).
Definition RCluster (C : Type) : Type := C → str → (Result + clusterErr) * C.

Definition Contains (s sub : str) : bool := 0 <=? Index s sub.

(** The outcome of a statement; [OPanic]: the engine panics. *)
Inductive outcome := OResult (r : Result) | OError (e : execError) | OPanic.

Record RSession := mkRSession {
  rTx : option Database; rTxSQL : list str; rAuthed : bool; rDatabase : str; rAuthFails : Z;
}.
Definition set_tx (s : RSession) (tx : option Database) (sqls : list str) : RSession :=
  mkRSession tx sqls (rAuthed s) (rDatabase s) (rAuthFails s).

Section Remote.
Context `{GoStd} `{Zlib} `{JsonStd} (marshal : Database → str + err).
(** [strconv.Quote], and the texts of file-system errors. *)
Context (Quote : str → str) (persistText : persistErr → str).

(** [err.Error()] of the engine's errors. *)
Definition errText (e : err) : str :=
  match e with
  | EMsg m => m
  | ENum fn num er =>
      lit "strconv." ++ fn ++ lit ": parsing " ++ Quote num ++ lit ": "
      ++ match er with ErrSyntax => lit "invalid syntax" | ErrRange => lit "value out of range" end
  | ECtx Canceled => lit "context canceled"
  | ECtx DeadlineExceeded => lit "context deadline exceeded"
  | ETooLarge rows limit =>
      lit "result row limit exceeded: " ++ FormatInt rows ++ lit " rows emitted (limit " ++ FormatInt limit ++ lit ")"
  end.

Definition queryErrorCode (text : str) : string :=
  let msg := ToLower text in
  if Contains msg (lit "table not found") then "NOT_FOUND"
  else if Contains msg (lit "unsupported") then "UNSUPPORTED"
  else "QUERY_ERROR".

Definition mapEngineError (e : err) : execError :=
  match e with
  | ECtx DeadlineExceeded => xretry "TIMEOUT" (lit "query timeout exceeded")
  | ECtx Canceled => xretry "TIMEOUT" (lit "query canceled")
  | ETooLarge _ _ => xerr "RESULT_TOO_LARGE" (errText e)
  | _ => xerr (queryErrorCode (errText e)) (errText e)
  end.

Definition mapClusterError (e : clusterErr) : execError :=
  match e with
  | ClusterErr code msg =>
      if bool_decide (code = lit "no_leader") || bool_decide (code = lit "no_quorum")
      then xretry "NOT_LEADER" (lit "no leader available for write")
      else if bool_decide (code = lit "invalid_argument") then xerr "INVALID_REQUEST" msg
      else if bool_decide (code = lit "not_found") || bool_decide (code = lit "range_not_found")
      then xerr "NOT_FOUND" msg
      else xerr "QUERY_ERROR" msg
  | OtherErr msg =>
      let lower := ToLower msg in
      if Contains lower (lit "no leader") then xretry "NOT_LEADER" (lit "no leader available for write")
      else if Contains lower (lit "table not found") then xerr "NOT_FOUND" msg
      else if Contains lower (lit "unsupported") then xerr "UNSUPPORTED" msg
      else xerr "QUERY_ERROR" msg
  end.

(** ** One statement *)

Section Exec.
Context {C : Type} (cluster : option (RCluster C)) (limits : Limits) (mode : str).
Abbreviation state := (World C * RSession)%type.

Definition message (text : string) : Result := resultMessage text.

Definition execOneCluster (cl : RCluster C) (raw : str) (w : World C) (s : RSession) : outcome * state :=
  if isTxKeyword (TrimSpace raw)
  then (OError (xerr "UNSUPPORTED"
          (lit "session transactions are not supported in cluster mode; send atomic batches instead")), (w, s))
  else match cl (wCluster w) raw with
  | (inr er, c) => (OError (mapClusterError er), (set_cluster w c, s))
  | (inl r, c) =>
      let n := Z.of_nat (length (rRows r)) in
      (if (0 <? MaxResultRows limits) && (MaxResultRows limits <? n)
       then OError (xerr "RESULT_TOO_LARGE" (rowLimitText n (MaxResultRows limits))) else OResult r,
       (set_cluster w c, s))
  end.

Definition beginOne (w : World C) (s : RSession) : outcome * state :=
  match rTx s with
  | Some _ => (OError (xerr "INVALID_REQUEST" (lit "transaction already active")), (w, s))
  | None =>
      let lim := MaxTxDatabaseRows limits in
      if (0 <? lim) && (lim <? RowCount (wDB w))
      then (OError (xretry "SERVER_BUSY"
              (lit "transaction rejected: database holds " ++ FormatInt (RowCount (wDB w))
               ++ lit " rows (limit " ++ FormatInt lim ++ lit ")")), (w, s))
      else (OResult (message "BEGIN ok"), (w, set_tx s (Some (Clone (wDB w))) []))
  end.

Definition rollbackOne (w : World C) (s : RSession) : outcome * state :=
  match rTx s with
  | None => (OError (xerr "INVALID_REQUEST" (lit "no transaction active")), (w, s))
  | Some _ => (OResult (message "ROLLBACK ok"), (w, set_tx s None []))
  end.

Definition commitErrText (e : commitErr) : str :=
  match e with CommitConflict er => errText er | CommitPersist er => persistText er end.

Definition commitOne (io : persistIO) (w : World C) (s : RSession) : outcome * state :=
  match rTx s with
  | None => (OError (xerr "INVALID_REQUEST" (lit "no transaction active")), (w, s))
  | Some tx =>
      match writeStatements (rTxSQL s) with
      | [] => (OResult (message "COMMIT ok"), (w, set_tx s None []))
      | writes =>
          match commit marshal io mode writes tx w with
          | (Some er, w') => (OError (xerr "QUERY_ERROR" (lit "commit failed: " ++ commitErrText er)), (w', s))
          | (None, w') => (OResult (message "COMMIT ok"), (w', set_tx s None []))
          end
      end
  end.

(** After a statement that succeeded on the transaction's clone or on the database. *)
Definition recordOne (io : persistIO) (raw : str) (r : Result) (w : World C) (s : RSession) : outcome * state :=
  match rTx s with
  | Some _ =>
      if isWriteSQL raw then
        let lim := MaxTxStatements limits in
        if (0 <? lim) && (lim <=? Z.of_nat (length (rTxSQL s)))
        then (OError (xerr "INVALID_REQUEST"
                (lit "transaction aborted: exceeded " ++ FormatInt lim ++ lit " buffered statements")),
              (w, set_tx s None []))
        else (OResult r, (w, set_tx s (rTx s) (rTxSQL s ++ [raw])))
      else (OResult r, (w, s))
  | None =>
      if isWriteSQL raw then
        match persistStatements marshal io mode [raw] (wDB w) (wDisk w) with
        | (Some er, k) => (OError (xerr "INTERNAL_ERROR" (lit "persist failed: " ++ persistText er)), (set_disk w k, s))
        | (None, k) => (OResult r, (set_disk w k, s))
        end
      else (OResult r, (w, s))
  end.

Definition statementOne (e : Env) (io : persistIO) (raw : str) (w : World C) (s : RSession) : outcome * state :=
  let active := match rTx s with Some tx => tx | None => wDB w end in
  let '(r, d) := ExecWithOptions e active raw (MaxResultRows limits) in
  let '(w', s') := match rTx s with
                   | Some _ => (w, set_tx s (Some d) (rTxSQL s))
                   | None => (set_db w d, s)
                   end in
  match r with
  | Err er => (OError (mapEngineError er), (w', s'))
  | Panic => (OPanic, (w', s'))
  | Ok r => recordOne io raw r w' s'
  end.

Definition execOne (e : Env) (io : persistIO) (raw : str) (w : World C) (s : RSession) : outcome * state :=
  match cluster with
  | Some cl => execOneCluster cl raw w s
  | None =>
      let sql := TrimSpace raw in
      if equalFold sql (lit "BEGIN") then beginOne w s
      else if equalFold sql (lit "ROLLBACK") then rollbackOne w s
      else if equalFold sql (lit "COMMIT") then commitOne io w s
      else statementOne e io raw w s
  end.
End Exec.

(** ** Payloads *)

Record AuthPayload := mkAuthPayload { apMechanism : str; apUsername : str; apPassword : str; apToken : str; apDatabase : str }.
Definition decAuth : AuthPayload → json → option AuthPayload :=
  decStruct (λ p key v,
    if isField key "mechanism" then
      s ← decString (apMechanism p) v; Some (mkAuthPayload s (apUsername p) (apPassword p) (apToken p) (apDatabase p))
    else if isField key "username" then
      s ← decString (apUsername p) v; Some (mkAuthPayload (apMechanism p) s (apPassword p) (apToken p) (apDatabase p))
    else if isField key "password" then
      s ← decString (apPassword p) v; Some (mkAuthPayload (apMechanism p) (apUsername p) s (apToken p) (apDatabase p))
    else if isField key "token" then
      s ← decString (apToken p) v; Some (mkAuthPayload (apMechanism p) (apUsername p) (apPassword p) s (apDatabase p))
    else if isField key "database" then
      s ← decString (apDatabase p) v; Some (mkAuthPayload (apMechanism p) (apUsername p) (apPassword p) (apToken p) s)
    else Some p).

(** Into an [any], every number is a float64; one out of range is an error, also
    inside an array or object.  [Sprint] is [fmt.Sprint] of what those decode to. *)
Fixpoint numbersOK (j : json) : bool :=
  match j with
  | JNum t => match strconv_ParseFloat t with inl _ => true | inr _ => false end
  | JArr l => forallb numbersOK l
  | JObj l => forallb (λ p, numbersOK p.2) l
  | _ => true
  end.
Context (Sprint : json → str).
Definition decParam (_ : param) (j : json) : option param :=
  match j with
  | JNull => Some PNil
  | JBool b => Some (PBool b)
  | JStr s => Some (PStr s)
  | JNum t => match strconv_ParseFloat t with inl f => Some (PFloat f) | inr _ => None end
  | JArr _ | JObj _ => if numbersOK j then Some (POther (Sprint j)) else None
  end.

Record QueryPayload := mkQueryPayload { qpSQL : str; qpParams : slice param; qpDatabase : str }.
Definition decQuery : QueryPayload → json → option QueryPayload :=
  decStruct (λ p key v,
    if isField key "sql" then s ← decString (qpSQL p) v; Some (mkQueryPayload s (qpParams p) (qpDatabase p))
    else if isField key "params" then
      l ← decSlice PNil decParam (qpParams p) v; Some (mkQueryPayload (qpSQL p) l (qpDatabase p))
    else if isField key "database" then
      s ← decString (qpDatabase p) v; Some (mkQueryPayload (qpSQL p) (qpParams p) s)
    else Some p).

(** [json.Unmarshal] into a zero payload; [None] for an error. *)
Definition unmarshalAuth (b : str) : option AuthPayload := j ← parseJSON b; decAuth (mkAuthPayload [] [] [] [] []) j.
Definition unmarshalQuery (b : str) : option QueryPayload := j ← parseJSON b; decQuery (mkQueryPayload [] nilSlice []) j.

(** ** Responses *)

(** When the fast encoder fails, so does encoding/json, and [MustJSON] panics: [None]. *)
Definition mustResponseJSON (r : Response) : option str :=
  match appendResponseJSON [] r with inl b => Some b | inr _ => None end.
Definition errorOf (id : Z) (code : string) (msg : str) : Response :=
  mkResponse id (lit "error") (lit code) msg [] [] 0 [] [] false.
Definition errorResponse (id : Z) (code : string) (msg : str) : option str := mustResponseJSON (errorOf id code msg).
Definition okResponse (id : Z) (msg : str) : option str :=
  mustResponseJSON (mkResponse id (lit "ok") [] [] [] [] 0 msg [] false).

(** ** Metrics *)

Record Metrics := mkMetrics {
  mActiveConns : Z; mTotalConns : Z; mRejectedConns : Z;       (* int64 *)
  mQueries : Z; mFailedQueries : Z; mRejectedQueries : Z; mAuthFailures : Z;
  mBytesRx : Z; mBytesTx : Z; mLatencyNanos : Z;               (* uint64 *)
}.
Definition add64 (n k : Z) : Z := (n + k) mod 2 ^ 64.
Definition failedQuery m := mkMetrics (mActiveConns m) (mTotalConns m) (mRejectedConns m) (mQueries m)
  (add64 (mFailedQueries m) 1) (mRejectedQueries m) (mAuthFailures m) (mBytesRx m) (mBytesTx m) (mLatencyNanos m).
Definition rejectedQuery m := mkMetrics (mActiveConns m) (mTotalConns m) (mRejectedConns m) (mQueries m)
  (mFailedQueries m) (add64 (mRejectedQueries m) 1) (mAuthFailures m) (mBytesRx m) (mBytesTx m) (mLatencyNanos m).
Definition authFailure m := mkMetrics (mActiveConns m) (mTotalConns m) (mRejectedConns m) (mQueries m)
  (add64 (mFailedQueries m) 1) (mRejectedQueries m) (add64 (mAuthFailures m) 1) (mBytesRx m) (mBytesTx m) (mLatencyNanos m).
Definition received (n : Z) m := mkMetrics (mActiveConns m) (mTotalConns m) (mRejectedConns m) (mQueries m)
  (mFailedQueries m) (mRejectedQueries m) (mAuthFailures m) (add64 (mBytesRx m) n) (mBytesTx m) (mLatencyNanos m).
Definition sent (n : Z) m := mkMetrics (mActiveConns m) (mTotalConns m) (mRejectedConns m) (mQueries m)
  (mFailedQueries m) (mRejectedQueries m) (mAuthFailures m) (mBytesRx m) (add64 (mBytesTx m) n) (mLatencyNanos m).
Definition answeredIn (nanos : Z) m := mkMetrics (mActiveConns m) (mTotalConns m) (mRejectedConns m) (add64 (mQueries m) 1)
  (mFailedQueries m) (mRejectedQueries m) (mAuthFailures m) (mBytesRx m) (mBytesTx m) (add64 (mLatencyNanos m) nanos).

(** ** Frames *)

Section Handler.
Context {C : Type} (cluster : option (RCluster C)) (cfg : Config).

(** The state a handler works on. *)
Record Conn := mkConn { cnWorld : World C; cnSession : RSession; cnMetrics : Metrics }.
Definition counted (f : Metrics → Metrics) (c : Conn) : Conn := mkConn (cnWorld c) (cnSession c) (f (cnMetrics c)).
Definition stepped (st : World C * RSession) (c : Conn) : Conn := mkConn st.1 st.2 (cnMetrics c).

Definition auth : Authenticator := NewAuthenticator (cfUsername cfg) (cfPassword cfg).
Abbreviation limits := (hlLimits (cfLimits cfg)).

(** The credentials of an authentication payload. *)
Definition authUser (p : AuthPayload) : str :=
  orText (apUsername p) (orText (cfUsername cfg) (lit "admin")).
Definition authSecret (p : AuthPayload) : str :=
  if bool_decide (apMechanism p = lit "token")
     || (bool_decide (apMechanism p = []) && negb (bool_decide (apToken p = [])) && bool_decide (apPassword p = []))
  then apToken p else apPassword p.

Definition handleAuth (id : Z) (payload : str) (c : Conn) : option str * Conn :=
  match unmarshalAuth payload with
  | None => (errorResponse id "INVALID_REQUEST" (lit "invalid auth payload"), counted failedQuery c)
  | Some p =>
      let s := cnSession c in
      let db := orText (apDatabase p) (rDatabase s) in
      if Verify auth (authUser p) (authSecret p)
      then (okResponse id (lit "authenticated"),
            mkConn (cnWorld c) (mkRSession (rTx s) (rTxSQL s) true db (rAuthFails s)) (cnMetrics c))
      else (errorResponse id "AUTH_FAILED" (lit "authentication failed"),
            mkConn (cnWorld c) (mkRSession (rTx s) (rTxSQL s) (rAuthed s) db (rAuthFails s + 1)) (authFailure (cnMetrics c)))
  end.

Definition refused (c : Conn) : bool := auRequired auth && negb (rAuthed (cnSession c)).

Definition okResult (id : Z) (r : Result) : option str :=
  mustResponseJSON (mkResponse id (lit "ok") [] [] (rColumns r) (rRows r) (rAffected r) (rMessage r) [] false).
Definition execErrorResponse (id : Z) (e : execError) : option str :=
  mustResponseJSON (mkResponse id (lit "error") (xCode e) (xMsg e) [] [] 0 [] (xLeader e) (xRetryable e)).

Definition handleQuery (e : Env) (io : persistIO) (id : Z) (payload : str) (c : Conn) : option str * Conn :=
  let invalid msg := (errorResponse id "INVALID_REQUEST" msg, counted failedQuery c) in
  if refused c then (errorResponse id "AUTH_REQUIRED" (lit "authentication required"), counted failedQuery c)
  else match unmarshalQuery payload with
  | None => invalid (lit "invalid request payload")
  | Some p =>
      if bool_decide (qpSQL p = []) then invalid (lit "sql required")
      else if MaxQuerySize <? Z.of_nat (length (qpSQL p)) then invalid (lit "query too large")
      else match remoteBind (qpSQL p) (sliceList (qpParams p)) with
      | Err er => invalid (errText er)
      | Panic => (None, c)
      | Ok bound =>
          let '(r, st) := execOne cluster limits (cfMode cfg) e io bound (cnWorld c) (cnSession c) in
          let c' := stepped st c in
          match r with
          | OPanic => (None, c')
          | OError er => (execErrorResponse id er, counted failedQuery c')
          | OResult r => (okResult id r, c')
          end
      end
  end.

(** BEGIN, COMMIT and ROLLBACK frames: the leader address and the retry flag of the
    error are not passed on. *)
Definition handleTx (e : Env) (io : persistIO) (id : Z) (stmt : string) (c : Conn) : option str * Conn :=
  if refused c then (errorResponse id "AUTH_REQUIRED" (lit "authentication required"), c)
  else
    let '(r, st) := execOne cluster limits (cfMode cfg) e io (lit stmt) (cnWorld c) (cnSession c) in
    let c' := stepped st c in
    match r with
    | OPanic => (None, c')
    | OError er => (mustResponseJSON (mkResponse id (lit "error") (xCode er) (xMsg er) [] [] 0 [] [] false), counted failedQuery c')
    | OResult r => (okResponse id (rMessage r), c')
    end.

Definition handle (e : Env) (io : persistIO) (hdr : Header) (payload : str) (c : Conn) : option str * Conn :=
  let id := hRequestID hdr in
  let t := hType hdr in
  if t =? TypeHello then (okResponse id (lit "SDB1 v1"), c)
  else if t =? TypeAuth then handleAuth id payload c
  else if t =? TypePing then (okResponse id (lit "pong"), c)
  else if (t =? TypeQuery) || (t =? TypeExec) then handleQuery e io id payload c
  else if t =? TypeBegin then handleTx e io id "BEGIN" c
  else if t =? TypeCommit then handleTx e io id "COMMIT" c
  else if t =? TypeRollback then handleTx e io id "ROLLBACK" c
  else if t =? TypeClose then (okResponse id (lit "bye"), c)
  else (errorResponse id "UNSUPPORTED" (lit "unsupported operation"), counted failedQuery c).

(** The error responses are without rows and always encode. *)
Definition errorBytes (id : Z) (code : string) (msg : str) : str := default [] (errorResponse id code msg).

(** A panic is answered as an internal error; what it changed before stays. *)
Definition dispatch (e : Env) (io : persistIO) (hdr : Header) (payload : str) (c : Conn) : str * Conn :=
  match handle e io hdr payload c with
  | (Some out, c') => (out, c')
  | (None, c') => (errorBytes (hRequestID hdr) "INTERNAL_ERROR" (lit "internal error"), counted failedQuery c')
  end.

Definition isQueryFrame (t : Z) : bool :=
  (t =? TypeQuery) || (t =? TypeExec) || (t =? TypeBegin) || (t =? TypeCommit) || (t =? TypeRollback).

(** What the outside decides about one request: the environment of its statement,
    the system calls, the wait for a query slot, the time it took, and how much of
    the answer the connection takes. *)
Record turnIO := mkTurn { tuEnv : Env; tuIO : persistIO; tuAdmit : option err; tuNanos : Z; tuWrite : writeOutcome }.

Definition admitAndDispatch (u : turnIO) (hdr : Header) (payload : str) (c : Conn) : str * Conn :=
  match (if isQueryFrame (hType hdr) then tuAdmit u else None) with
  | Some _ => (errorBytes (hRequestID hdr) "SERVER_BUSY" (lit "server overloaded; retry later"), counted rejectedQuery c)
  | None => dispatch (tuEnv u) (tuIO u) hdr payload c
  end.

(** The answer within the configured result size and the frame size. *)
Definition capped (id : Z) (resp : str) (c : Conn) : str * Conn :=
  let max := MaxResultBytes limits in
  let '(resp, c) := if (0 <? max) && (max <? Z.of_nat (length resp))
                    then (errorBytes id "RESULT_TOO_LARGE" (lit "result exceeds maximum size"), counted failedQuery c)
                    else (resp, c) in
  (if MaxFrameSize <? Z.of_nat (length resp) then errorBytes id "INTERNAL_ERROR" (lit "response too large") else resp, c).

(** [WriteFrameRaw] into the buffered writer and [Flush]: the first [woCount] bytes
    of the frame reach the connection. *)
Definition flushFrame (o : writeOutcome) (out : str) (t id : Z) (payload : str) : option wireErr * str :=
  match WriteFrameRaw (fullWrite (rawHead t id payload)) (fullWrite payload) [] t id payload with
  | (Some er, _) => (Some er, out)
  | (None, b) => (WIO <$> woErr o, out ++ take (woCount o) b)
  end.

Definition maxAuthFailures : Z := 5.

(** Why a connection's loop returned. *)
Inductive connEnd := ReadFailed (e : wireErr) | WriteFailed (e : wireErr) | Closed | AuthLimit | NoFuel.

(** The answer to one request that was read, and the state after it. *)
Definition serveFrame (u : turnIO) (hdr : Header) (payload : str) (c : Conn) : str * Conn :=
  let n := Z.of_nat (length payload) in
  let c := counted (received (Z.of_nat HeaderLen + n)) c in
  let '(resp, c) := admitAndDispatch u hdr payload c in
  capped (hRequestID hdr) resp (counted (answeredIn (tuNanos u)) c).

(** The loop of [handleConn]: [input] is what the client sends, [turn i] what the
    outside decides at the [i]-th request.  Every turn reads a header, so the length
    of the input bounds the turns. *)
Fixpoint connLoop (turn : nat → turnIO) (fuel i : nat) (input out : str) (c : Conn) : connEnd * str * Conn :=
  match fuel with
  | O => (NoFuel, out, c)
  | S f =>
      match ReadFrame input with
      | (inr er, _) => (ReadFailed er, out, c)
      | (inl (hdr, payload), input') =>
          let '(resp, c) := serveFrame (turn i) hdr payload c in
          match flushFrame (tuWrite (turn i)) out TypeResponse (hRequestID hdr) resp with
          | (Some er, out') => (WriteFailed er, out', c)
          | (None, out') =>
              let c := counted (sent (Z.of_nat HeaderLen + Z.of_nat (length resp))) c in
              if hType hdr =? TypeClose then (Closed, out', c)
              else if maxAuthFailures <=? rAuthFails (cnSession c) then (AuthLimit, out', c)
              else connLoop turn f (S i) input' out' c
          end
      end
  end.

Definition newSession : RSession := mkRSession None [] (negb (auRequired auth)) [] 0.

(** A connection the limiter let in. *)
Definition handleConn (turn : nat → turnIO) (input : str) (w : World C) (m : Metrics) : connEnd * str * Conn :=
  connLoop turn (S (length input)) 0 input [] (mkConn w newSession m).
End Handler.
End Remote.
