(* ===== verification/RemoteProofs.v ===== *)
(** * The hosted server: agreement with the local server, durability, authentication, answers *)

From S2P Require Import Prelude GoLib GoFacts Fold Value Table Schema Database DatabaseProofs.
From S2P Require Import Bytes Storage StorageProofs Bind Json Request JsonText Image Wire Session SessionProofs.
From S2P Require Import Sha256 Config Remote.
Open Scope Z_scope.

(** ** The local and the hosted interpreter *)

Section Agreement.
Context `{GoStd} `{Zlib} (marshal : Database → str + err) (Quote : str → str) (persistText : persistErr → str).
Context {C : Type} (limits : Limits) (mode : str).

(** A hosted session as a local one. *)
Definition localOf (s : RSession) : Session := mkSession (rTx s) (rTxSQL s) false [].

(** The same answer in the two vocabularies: results and texts are those of the
    local server, errors of the engine are mapped to codes. *)
Definition agrees (r : reply) (o : outcome) : Prop :=
  match r, o with
  | RResult x, OResult y => x = y
  | RMessage t, OResult y => y = mkResult [] [] 0 t
  | RError [] (CErr er), OError x => x = mapEngineError Quote er
  | RError _ (CErr er), OError x => x = xerr "QUERY_ERROR" (lit "commit failed: " ++ errText Quote er)
  | RError _ (CPersist pe), OError x =>
      x = xerr "QUERY_ERROR" (lit "commit failed: " ++ persistText pe) ∨
      x = xerr "INTERNAL_ERROR" (lit "persist failed: " ++ persistText pe)
  | RError t CText, OError x => xMsg x = t
  | RCrash, OPanic => True
  | _, _ => False
  end.

(** What a statement leaves alone in the session. *)
Definition sameLogin (s s' : RSession) : Prop :=
  rAuthed s' = rAuthed s ∧ rDatabase s' = rDatabase s ∧ rAuthFails s' = rAuthFails s.

Lemma execOne_agrees e io raw (w : World C) s :
  let '(r, w1, s1) := executeSQL marshal None limits mode e io raw w (localOf s) in
  let '(o, (w2, s2)) := execOne marshal Quote persistText None limits mode e io raw w s in
  w1 = w2 ∧ s1 = localOf s2 ∧ agrees r o ∧ sameLogin s s2.
Proof.
  destruct s as [tx sqls au db fails]. unfold executeSQL, execOne, localOf. cbn [rTx rTxSQL].
  destruct (equalFold _ (lit "BEGIN")); [|destruct (equalFold _ (lit "ROLLBACK"))];
    [..|destruct (equalFold _ (lit "COMMIT"))].
  - unfold beginTx, beginOne. cbn [sTx rTx]. destruct tx; [done|]. cbv zeta. by destruct (_ && _).
  - unfold rollbackTx, rollbackOne. cbn [sTx rTx]. by destruct tx.
  - unfold commitTx, commitOne. cbn [sTx sTxSQL rTx rTxSQL]. destruct tx as [tx|]; [|done].
    destruct (writeStatements sqls); [done|].
    destruct (commit _ _ _ _ _ _) as [[[er|pe]|] w']; cbn [commitError]; split_and!; try done. by left.
  - unfold execStatement, statementOne. cbn [sTx rTx].
    destruct (ExecWithOptions _ _ _ _) as [x d]. destruct tx as [tx|].
    + destruct x as [r|er|]; [|by destruct er as [| |[]|]|done].
      unfold recordWrite, recordOne. cbn [rTx set_tx sTx sTxSQL rTxSQL sBatch sPending].
      destruct (isWriteSQL raw); cbn [negb]; [|done]. cbv zeta. by destruct (_ && _).
    + destruct x as [r|er|]; [|by destruct er as [| |[]|]|done].
      unfold recordWrite, recordOne. cbn [sTx rTx sBatch sPending].
      destruct (isWriteSQL raw); cbn [negb]; [|done].
      destruct (persistStatements _ _ _ _ _ _) as [[pe|] k]; split_and!; try done. by right.
Qed.

(** The statements of a hosted session one after the other, up to a panic. *)
Fixpoint hostScript (env : nat → Env) (ios : nat → persistIO) (i : nat) (sqls : list str) (w : World C) (s : RSession)
    : list outcome * World C * RSession :=
  match sqls with
  | [] => ([], w, s)
  | sql :: sqls' =>
      let '(o, (w1, s1)) := execOne marshal Quote persistText None limits mode (env i) (ios i) sql w s in
      match o with
      | OPanic => ([OPanic], w1, s1)
      | _ => let '(os, w2, s2) := hostScript env ios (S i) sqls' w1 s1 in (o :: os, w2, s2)
      end
  end.

(** One behaviour, not two.  Any sequence of statements, transactions included,
    run by the hosted server's interpreter and by the local server's on the same
    database, files and transaction state in the same environments, leaves the same
    database, the same files and the same transaction, and is answered alike
    statement by statement: the same rows and messages, and for every local error
    the corresponding coded one.  The login state is untouched. *)
Theorem session_matches_local env ios i sqls (w : World C) s :
  let '(rs, w1, s1) := executeBatch marshal None limits mode env ios i sqls w (localOf s) in
  let '(os, w2, s2) := hostScript env ios i sqls w s in
  w1 = w2 ∧ s1 = localOf s2 ∧ Forall2 agrees rs os ∧ sameLogin s s2.
Proof.
  revert i w s. induction sqls as [|sql sqls IH]; intros i w s; [by split_and!|]. cbn [executeBatch hostScript].
  pose proof (execOne_agrees (env i) (ios i) sql w s) as Ha.
  destruct (executeSQL _ _ _ _ _ _ _ _ _) as [[r w1] s1].
  destruct (execOne _ _ _ _ _ _ _ _ _ _ _) as [o [w2 s2]]. destruct Ha as (<- & -> & Ha & Hl).
  assert (Hgo : let '(rs, w3, s3) := (let '(rs, w2, s2) := executeBatch marshal None limits mode env ios (S i) sqls w1 (localOf s2)
                                      in (r :: rs, w2, s2)) in
                let '(os, w4, s4) := (let '(os, w2, s2) := hostScript env ios (S i) sqls w1 s2 in (o :: os, w2, s2)) in
                w3 = w4 ∧ s3 = localOf s4 ∧ Forall2 agrees rs os ∧ sameLogin s s4).
  { specialize (IH (S i) w1 s2). destruct (executeBatch _ _ _ _ _ _ _ _ _ _) as [[rs w3] s3].
    destruct (hostScript _ _ _ _ _ _) as [[os w4] s4]. destruct IH as (H1 & H2 & H3 & H4 & H5 & H6).
    destruct Hl as (L1 & L2 & L3). split_and!; try done; [by constructor|unfold sameLogin; split_and!; congruence]. }
  destruct r, o; try done; try (by destruct text, c). split; [done|]. split; [done|]. split; [by repeat constructor|done].
Qed.
End Agreement.

(** ** Durability *)

Section Hosted.
Context `{GoStd} `{Zlib} `{JsonStd} (e : Env) (Hquiet : env_quiet e) (marshal : Database → str + err).
Context (Quote : str → str) (persistText : persistErr → str) (Sprint : json → str) {C : Type} (cfg : Config).
Context (Hrows : MaxResultRows (hlLimits (cfLimits cfg)) = 0) (Hmode : cfMode cfg = lit "wal").
Abbreviation limits := (hlLimits (cfLimits cfg)).
Abbreviation run := (execOne marshal Quote persistText (C:=C) None limits (cfMode cfg)).

Definition conflictText : str := lit "transaction conflict: database changed since BEGIN".
(** No file-system error reads like a conflict. *)
Context (Htext : ∀ pe, persistText pe ≠ conflictText).

(** Answers that report neither a panic nor a failure to persist. *)
Definition kept (o : outcome) : bool :=
  match o with
  | OPanic => false
  | OResult _ => true
  | OError x => negb (bool_decide (xCode x = lit "INTERNAL_ERROR")) &&
                (negb (has_prefix (xMsg x) (lit "commit failed: ")) || bool_decide (xMsg x = lit "commit failed: " ++ conflictText))
  end.

Lemma kept_good r o : agrees Quote persistText r o → kept o = true → good r = true.
Proof.
  destruct r as [text [|er|pe]| | | |]; try done; destruct o as [|x|]; try done; try (by destruct text).
  intros Ha Hk. exfalso. assert (x = xerr "QUERY_ERROR" (lit "commit failed: " ++ persistText pe) ∨
    x = xerr "INTERNAL_ERROR" (lit "persist failed: " ++ persistText pe)) as [->| ->] by (by destruct text).
  - unfold kept in Hk. cbn [xMsg xCode xerr] in Hk. apply andb_true_iff in Hk as [_ [Hk|Hk]%orb_true_iff].
    + rewrite negb_true_iff, <- not_true_iff_false in Hk. apply Hk, has_prefix_app. eauto.
    + apply bool_decide_eq_true in Hk. apply app_inv_head in Hk. by eapply Htext.
  - done.
Qed.

(** The statement a query payload asks for, and the one a frame executes, if any. *)
Definition queryStatement (payload : str) : option str :=
  p ← unmarshalQuery Sprint payload;
  if bool_decide (qpSQL p = []) || (MaxQuerySize <? Z.of_nat (length (qpSQL p))) then None
  else match remoteBind (qpSQL p) (sliceList (qpParams p)) with Ok bound => Some bound | _ => None end.

Definition frameStatement (admitted : option err) (hdr : Header) (payload : str) (c : Conn (C:=C)) : option str :=
  let t := hType hdr in
  if negb (isQueryFrame t) then None
  else if (match admitted with Some _ => true | None => false end) || refused cfg c then None
  else if t =? TypeBegin then Some (lit "BEGIN")
  else if t =? TypeCommit then Some (lit "COMMIT")
  else if t =? TypeRollback then Some (lit "ROLLBACK")
  else queryStatement payload.

(** [c'] is [c] after the statement, up to login state and metrics. *)
Definition effect (ev : Env) (io : persistIO) (sql : option str) (c c' : Conn (C:=C)) : Prop :=
  match sql with
  | None => cnWorld c' = cnWorld c ∧ rTx (cnSession c') = rTx (cnSession c) ∧ rTxSQL (cnSession c') = rTxSQL (cnSession c)
  | Some sql => cnWorld c' = (run ev io sql (cnWorld c) (cnSession c)).2.1 ∧
                cnSession c' = (run ev io sql (cnWorld c) (cnSession c)).2.2
  end.

Lemma handleTx_effect ev io id stmt c :
  effect ev io (if refused cfg c then None else Some (lit stmt)) c
    (handleTx marshal Quote persistText None cfg ev io id stmt c).2.
Proof.
  unfold handleTx. destruct (refused cfg c); [done|]. unfold effect.
  by destruct (run ev io (lit stmt) (cnWorld c) (cnSession c)) as [[] [w s]].
Qed.
Lemma handleQuery_effect ev io id payload c :
  effect ev io (if refused cfg c then None else queryStatement payload) c
    (handleQuery marshal Quote persistText Sprint None cfg ev io id payload c).2.
Proof.
  unfold handleQuery, queryStatement. cbv zeta. destruct (refused cfg c); [done|].
  destruct (unmarshalQuery Sprint payload) as [p|]; [|done]. cbn [mbind option_bind].
  destruct (bool_decide (qpSQL p = [])); [done|]. destruct (MaxQuerySize <? _); [done|]. cbn [orb].
  destruct (remoteBind _ _) as [bound| |]; [|done..]. unfold effect.
  by destruct (run ev io bound (cnWorld c) (cnSession c)) as [[] [w s]].
Qed.

Lemma handle_effect ev io hdr payload c :
  effect ev io (frameStatement None hdr payload c) c (handle marshal Quote persistText Sprint None cfg ev io hdr payload c).2.
Proof.
  unfold handle, frameStatement, isQueryFrame. cbv zeta. cbn [orb].
  pose proof (handleTx_effect ev io (hRequestID hdr)) as Ht. pose proof (handleQuery_effect ev io (hRequestID hdr) payload c) as Hq.
  destruct (Z.eqb_spec (hType hdr) TypeHello) as [->|]; [done|].
  destruct (Z.eqb_spec (hType hdr) TypeAuth) as [->|].
  { unfold handleAuth. destruct (unmarshalAuth payload); [|done]. by destruct (Verify _ _ _). }
  destruct (Z.eqb_spec (hType hdr) TypePing) as [->|]; [done|].
  destruct (Z.eqb_spec (hType hdr) TypeQuery) as [->|]; [exact Hq|].
  destruct (Z.eqb_spec (hType hdr) TypeExec) as [->|]; [exact Hq|]. cbn [orb].
  destruct (Z.eqb_spec (hType hdr) TypeBegin) as [->|]; [apply Ht|].
  destruct (Z.eqb_spec (hType hdr) TypeCommit) as [->|]; [apply Ht|].
  destruct (Z.eqb_spec (hType hdr) TypeRollback) as [_|]; [apply Ht|].
  by destruct (_ =? TypeClose).
Qed.

Lemma effect_world ev io sql c c' c1 c1' :
  effect ev io sql c c' → cnWorld c1 = cnWorld c → cnSession c1 = cnSession c →
  cnWorld c1' = cnWorld c' → cnSession c1' = cnSession c' → effect ev io sql c1 c1'.
Proof. unfold effect. intros He -> -> -> ->. exact He. Qed.

Abbreviation serve := (serveFrame marshal Quote persistText Sprint None cfg).

Lemma capped_state id resp (c : Conn (C:=C)) :
  cnWorld (capped cfg id resp c).2 = cnWorld c ∧ cnSession (capped cfg id resp c).2 = cnSession c.
Proof. unfold capped. cbv zeta. by destruct (_ && _). Qed.

(** Serving a frame is executing its statement, as far as the database, the files
    and the transaction are concerned. *)
Lemma serveFrame_effect u hdr payload c :
  effect (tuEnv u) (tuIO u) (frameStatement (tuAdmit u) hdr payload c) c (serve u hdr payload c).2.
Proof.
  unfold serveFrame. cbv zeta. set (c1 := counted (received _) c).
  destruct (admitAndDispatch _ _ _ _ _ _ _ _ _ _) as [resp c2] eqn:Ed.
  destruct (capped_state (hRequestID hdr) resp (counted (answeredIn (tuNanos u)) c2)) as [Ew Es].
  apply (effect_world _ _ _ c1 c2); try done. unfold admitAndDispatch in Ed.
  pose proof (handle_effect (tuEnv u) (tuIO u) hdr payload c1) as Hh. unfold frameStatement in *.
  assert (Hd : (if isQueryFrame (hType hdr) then tuAdmit u else None) = None → effect (tuEnv u) (tuIO u)
    (frameStatement None hdr payload c1) c1 c2).
  { intros E. rewrite E in Ed. unfold dispatch in Ed. unfold frameStatement.
    destruct (handle _ _ _ _ _ _ _ _ _ _ c1) as [[out|] c3]; injection Ed as <- <-; [done|]. by eapply effect_world. }
  destruct (isQueryFrame (hType hdr)) eqn:Eq; cbn [negb].
  - destruct (tuAdmit u); [by injection Ed as <- <-|]. specialize (Hd eq_refl). unfold frameStatement in Hd. by rewrite Eq in Hd.
  - specialize (Hd eq_refl). unfold frameStatement in Hd. by rewrite Eq in Hd.
Qed.

(** ** Interleaved connections *)

(** A frame of one of the connections. *)
Record hostEvent := mkHostEvent { hvConn : nat; hvTurn : turnIO; hvHeader : Header; hvBody : str }.
Definition rsessionOf (ss : gmap nat RSession) (c : nat) : RSession := default (newSession cfg) (ss !! c).

(** The answers, and the outcomes of the statements that were executed. *)
Fixpoint hostAll (es : list hostEvent) (w : World C) (ss : gmap nat RSession) (m : Metrics)
    : list str * list outcome * World C * gmap nat RSession * Metrics :=
  match es with
  | [] => ([], [], w, ss, m)
  | ev :: es' =>
      let c := mkConn w (rsessionOf ss (hvConn ev)) m in
      let '(resp, c') := serve (hvTurn ev) (hvHeader ev) (hvBody ev) c in
      let os := match frameStatement (tuAdmit (hvTurn ev)) (hvHeader ev) (hvBody ev) c with
                | Some sql => [(run (tuEnv (hvTurn ev)) (tuIO (hvTurn ev)) sql w (cnSession c)).1]
                | None => []
                end in
      let '(rs, os', w2, ss2, m2) := hostAll es' (cnWorld c') (<[hvConn ev := cnSession c']> ss) (cnMetrics c') in
      (resp :: rs, os ++ os', w2, ss2, m2)
  end.

Record host_ok (d0 : Database) (N : nat) (w : World C) (ss : gmap nat RSession) (us : list dunit) : Prop := {
  ho_link : link e d0 w us;
  ho_sessions : ∀ c, tracks e (wDB w) N (localOf (rsessionOf ss c));
}.

Lemma tracks_weaken now N M s : tracks e now N s → (N ≤ M)%nat → tracks e now M s.
Proof.
  unfold tracks. destruct (sTx s); [|done]. intros (db & n & Hn & Hr) HM. exists db, n. split; [lia|done].
Qed.

(** One frame, as the units it adds. *)
Lemma serveFrame_advances d0 N u hdr payload c us c' :
  (serve u hdr payload c).2 = c' → tuEnv u = e →
  match frameStatement (tuAdmit u) hdr payload c with
  | Some sql => kept (run (tuEnv u) (tuIO u) sql (cnWorld c) (cnSession c)).1 = true
  | None => True
  end →
  link e d0 (cnWorld c) us → tracks e (wDB (cnWorld c)) N (localOf (cnSession c)) → Z.of_nat N < 2 ^ 64 →
  advances e d0 N 1 (cnWorld c) us (cnWorld c') (localOf (cnSession c')).
Proof.
  intros <- He Hk Hl Ht HN. pose proof (serveFrame_effect u hdr payload c) as Hx. unfold effect in Hx.
  destruct (frameStatement (tuAdmit u) hdr payload c) as [sql|].
  - destruct Hx as [-> ->]. rewrite He, Hmode in *.
    pose proof (execOne_agrees marshal Quote persistText (C:=C) limits (lit "wal") e (tuIO u) sql (cnWorld c) (cnSession c)) as Ha.
    destruct (executeSQL _ _ _ _ _ _ _ _ _) as [[r w1] s1] eqn:E1.
    destruct (execOne _ _ _ _ _ _ _ _ _ _ _) as [o [w2 s2]]. cbn [fst snd] in *. destruct Ha as (<- & -> & Ha & _).
    eapply executeSQL_advances; try done. by eapply kept_good.
  - destruct Hx as (Ew & Et & Es). apply advances_still; rewrite ?Ew; try done. unfold localOf. by rewrite Et, Es.
Qed.

Lemma hostAll_ok d0 es : ∀ N w ss m us rs os w' ss' m',
  hostAll es w ss m = (rs, os, w', ss', m') → forallb kept os = true → Forall (λ ev, tuEnv (hvTurn ev) = e) es →
  host_ok d0 N w ss us → Z.of_nat (N + length es) < 2 ^ 64 →
  ∃ us', host_ok d0 (N + length es) w' ss' (us ++ us').
Proof.
  induction es as [|ev es IH]; intros N w ss m us rs os w' ss' m' Hx Hk He Ho HN.
  { injection Hx as <- <- <- <- <-. exists []. by rewrite app_nil_r, Nat.add_0_r. }
  apply Forall_cons in He as [He Hes]. cbn [hostAll length] in *. cbv zeta in Hx.
  destruct (serve _ _ _ _) as [resp c1] eqn:E1. destruct (hostAll es _ _ _) as [[[[rs1 os1] w2] ss2] m2] eqn:E2.
  injection Hx as <- <- <- <- <-. rewrite forallb_app in Hk. apply andb_true_iff in Hk as [Hk1 Hk2].
  assert (advances e d0 N 1 w us (cnWorld c1) (localOf (cnSession c1))) as (us1 & k & Hkm & Hl & Hmv & Ht & _ & _).
  { apply (serveFrame_advances d0 N (hvTurn ev) (hvHeader ev) (hvBody ev) (mkConn w (rsessionOf ss (hvConn ev)) m));
      [by rewrite E1|done| |apply Ho|apply Ho|lia].
    destruct (frameStatement _ _ _ _); [|done]. cbn [forallb cnSession cnWorld] in *. by rewrite andb_true_r in Hk1. }
  destruct (IH (N + 1)%nat _ _ _ (us ++ us1) _ _ _ _ _ E2 Hk2 Hes) as [us2 H2].
  - split; [done|]. intros c. unfold rsessionOf. destruct (decide (c = hvConn ev)) as [->|Hne].
    + rewrite lookup_insert_eq. cbn [default]. eapply tracks_weaken; [exact Ht|lia].
    + rewrite lookup_insert_ne by done. eapply tracks_weaken; [eapply tracks_moved; [apply Ho|done]|lia].
  - lia.
  - exists (us1 ++ us2). rewrite app_assoc. by replace (N + S (length es))%nat with (N + 1 + length es)%nat by lia.
Qed.

End Hosted.

(** ** Connections *)

Section Connection.
Context `{GoStd} `{Zlib} `{JsonStd} (marshal : Database → str + err).
Context (Quote : str → str) (persistText : persistErr → str) (Sprint : json → str).
Context {C : Type} (cluster : option (RCluster C)) (cfg : Config).
Abbreviation serve := (serveFrame marshal Quote persistText Sprint cluster cfg).
Abbreviation loop := (connLoop marshal Quote persistText Sprint cluster cfg).

(** The frames a reader finds in a stream, up to the first it cannot read. *)
Fixpoint framesIn (fuel : nat) (input : str) : list (Header * str) :=
  match fuel with
  | O => []
  | S f => match ReadFrame input with (inl x, rest) => x :: framesIn f rest | (inr _, _) => [] end
  end.

(** Credentials that the server accepts. *)
Definition grants (x : Header * str) : Prop :=
  hType x.1 = TypeAuth ∧ ∃ p, unmarshalAuth x.2 = Some p ∧ Verify (auth cfg) (authUser cfg p) (authSecret p) = true.

(** A connection that has not logged in has touched nothing. *)
Record locked (w : World C) (c : Conn (C:=C)) : Prop := {
  lk_world : cnWorld c = w;
  lk_authed : rAuthed (cnSession c) = false;
  lk_tx : rTx (cnSession c) = None;
}.

Lemma locked_counted w f c : locked w c → locked w (counted f c).
Proof. by intros [? ? ?]. Qed.

Lemma handle_locked w ev io hdr payload c :
  auRequired (auth cfg) = true → locked w c → ¬ grants (hdr, payload) →
  let '(r, c') := handle marshal Quote persistText Sprint cluster cfg ev io hdr payload c in
  locked w c' ∧ rAuthFails (cnSession c) ≤ rAuthFails (cnSession c') ≤ rAuthFails (cnSession c) + 1.
Proof.
  intros Hr Hl Hg. assert (Href : refused cfg c = true) by (unfold refused; by rewrite Hr, (lk_authed _ _ Hl)).
  assert (Hstay : ∀ f, locked w (counted f c) ∧
    rAuthFails (cnSession c) ≤ rAuthFails (cnSession (counted f c)) ≤ rAuthFails (cnSession c) + 1).
  { intros f. split; [by apply locked_counted|]. cbn [counted cnSession]. lia. }
  assert (Hsame : locked w c ∧ rAuthFails (cnSession c) ≤ rAuthFails (cnSession c) ≤ rAuthFails (cnSession c) + 1).
  { split; [done|lia]. }
  unfold handle, handleQuery, handleTx. cbv zeta. rewrite Href.
  destruct (_ =? TypeHello); [done|]. destruct (Z.eqb_spec (hType hdr) TypeAuth) as [Et|].
  { unfold handleAuth. destruct (unmarshalAuth payload) as [p|] eqn:Ep; [|apply Hstay]. cbv zeta.
    destruct (Verify _ _ _) eqn:Ev; [by destruct Hg; split; [|exists p]|].
    destruct Hl as [? ? ?]. cbn [cnSession rAuthFails]. split; [by split|lia]. }
  destruct (_ =? TypePing); [done|]. destruct (_ || _); [apply Hstay|].
  destruct (_ =? TypeBegin); [done|]. destruct (_ =? TypeCommit); [done|].
  destruct (_ =? TypeRollback); [done|]. destruct (_ =? TypeClose); [done|]. apply Hstay.
Qed.

Lemma serve_locked w u hdr payload c :
  auRequired (auth cfg) = true → locked w c → ¬ grants (hdr, payload) →
  let '(r, c') := serve u hdr payload c in
  locked w c' ∧ rAuthFails (cnSession c) ≤ rAuthFails (cnSession c') ≤ rAuthFails (cnSession c) + 1.
Proof.
  intros Hr Hl Hg. unfold serveFrame. cbv zeta. set (c1 := counted (received _) c).
  assert (Hd : locked w (admitAndDispatch marshal Quote persistText Sprint cluster cfg u hdr payload c1).2 ∧
    rAuthFails (cnSession c) ≤ rAuthFails (cnSession (admitAndDispatch marshal Quote persistText Sprint cluster cfg u hdr payload c1).2)
    ≤ rAuthFails (cnSession c) + 1).
  { unfold admitAndDispatch. case_match; [split; [by repeat apply locked_counted|cbn; lia]|]. unfold dispatch.
    pose proof (handle_locked w (tuEnv u) (tuIO u) hdr payload c1 Hr (locked_counted _ _ _ Hl) Hg) as Hh.
    destruct (handle _ _ _ _ _ _ _ _ _ _ _) as [[out|] c2]; [exact Hh|]. cbn [snd]. split; [apply locked_counted, Hh|apply Hh]. }
  destruct (admitAndDispatch _ _ _ _ _ _ _ _ _ _) as [resp c2]. cbn [snd] in Hd.
  destruct (capped_state cfg (hRequestID hdr) resp (counted (answeredIn (tuNanos u)) c2)) as [Ew Es].
  destruct (capped _ _ _ _) as [resp' c3]. cbn [snd] in *. rewrite Es. destruct Hd as [[? ? ?] Hb]. split; [|exact Hb].
  split; by rewrite ?Ew, ?Es.
Qed.

Lemma loop_locked w turn fuel : ∀ i input out c,
  auRequired (auth cfg) = true → locked w c → rAuthFails (cnSession c) < maxAuthFailures →
  Forall (λ x, ¬ grants x) (framesIn fuel input) →
  let '(_, _, c') := loop turn fuel i input out c in
  locked w c' ∧ rAuthFails (cnSession c') ≤ maxAuthFailures.
Proof.
  induction fuel as [|fuel IH]; intros i input out c Hr Hl Hf Hg; cbn [connLoop framesIn] in *; [split; [done|lia]|].
  destruct (ReadFrame input) as [[[hdr payload]|er] input']; [|split; [done|lia]].
  apply Forall_cons in Hg as [Hg Hgs]. pose proof (serve_locked w (turn i) hdr payload c Hr Hl Hg) as Hs.
  destruct (serve _ _ _ _) as [resp c1]. destruct Hs as [Hl1 Hb].
  destruct (flushFrame _ _ _ _ _) as [[er|] out']; [split; [done|lia]|]. cbv zeta.
  set (c2 := counted (sent _) c1). assert (Hl2 : locked w c2) by by apply locked_counted.
  assert (E : rAuthFails (cnSession c2) = rAuthFails (cnSession c1)) by done.
  destruct (_ =? TypeClose); [split; [done|lia]|].
  destruct (Z.leb_spec maxAuthFailures (rAuthFails (cnSession c2))); [split; [done|lia]|]. by apply IH.
Qed.

(** C27: The hosted server is closed without credentials, and open with them.  When
    a user name or password is configured, a connection none of whose frames carries
    credentials with the configured digests leaves the database, the files and the
    cluster as they were, never logs in, opens no transaction, and is dropped at
    the fifth failed attempt; and a client that presents the configured password with
    the configured user name, or with none, is accepted (also when only a password
    is configured). *)
Theorem hosted_auth_gates turn input (w : World C) m :
  auRequired (auth cfg) = true →
  (Forall (λ x, ¬ grants x) (framesIn (S (length input)) input) →
   let '(_, _, c) := handleConn marshal Quote persistText Sprint cluster cfg turn input w m in
   cnWorld c = w ∧ rAuthed (cnSession c) = false ∧ rTx (cnSession c) = None ∧ rAuthFails (cnSession c) ≤ maxAuthFailures) ∧
  (∀ p, authSecret p = cfPassword cfg → apUsername p = cfUsername cfg ∨ apUsername p = [] →
        Verify (auth cfg) (authUser cfg p) (authSecret p) = true).
Proof.
  intros Hr. split.
  - intros Hg. unfold handleConn.
    pose proof (loop_locked w turn (S (length input)) 0 input [] (mkConn w (newSession cfg) m) Hr) as Hx.
    destruct (loop _ _ _ _ _ _) as [[why out] c]. destruct Hx as [[? ? ?] ?]; [|done..|by split_and!].
    split; [done| |done]. cbn. by rewrite Hr.
  - intros p Hs Hu. unfold Verify, auth, NewAuthenticator, authUser, orText in *.
    destruct (bool_decide (cfUsername cfg = []) && bool_decide (cfPassword cfg = [])); [done|].
    cbn [auRequired auUser auPass negb orb]. rewrite Hs. rewrite (bool_decide_true (Sum256 (cfPassword cfg) = _)) by done.
    rewrite andb_true_r. apply bool_decide_true. f_equal. destruct Hu as [-> | ->]; repeat case_bool_decide; done.
Qed.

(** ** Answers *)

Lemma fmt_digits_length fuel : ∀ n acc, (length (fmt_digits fuel n acc) ≤ fuel + length acc)%nat.
Proof.
  induction fuel as [|f IH]; intros n acc; cbn [fmt_digits]; [lia|]. case_match; [cbn [length]; lia|].
  etransitivity; [apply IH|]. cbn [length]. lia.
Qed.
Lemma FormatUint_length n : 0 ≤ n < 2 ^ 64 → (length (FormatUint n) ≤ 64)%nat.
Proof.
  intros Hn. unfold FormatUint. etransitivity; [apply fmt_digits_length|]. cbn [length].
  destruct (decide (n = 0)) as [->|]; [vm_compute; lia|].
  assert (Z.log2 n < 64) by (apply Z.log2_lt_pow2; lia). pose proof (Z.log2_nonneg n). lia.
Qed.
Lemma error_small id : 0 ≤ id < 2 ^ 64 →
  Z.of_nat (length (errorBytes id "INTERNAL_ERROR" (lit "response too large"))) ≤ MaxFrameSize.
Proof.
  intros Hid. pose proof (FormatUint_length id Hid) as Hf.
  unfold errorBytes, errorResponse, mustResponseJSON, appendResponseJSON, errorOf.
  cbn [rpID rpStatus rpErrorCode rpErrorMessage rpColumns rpRows rpAffected rpMessage rpLeaderAddr rpRetryable].
  unfold optString. vm_compute (bool_decide _). cbn [Z.eqb default from_option Datatypes.id].
  unfold appendJSONString, member. rewrite !length_app. generalize dependent (FormatUint id). intros t Ht.
  change MaxFrameSize with 16777216. vm_compute (length (dq :: _)). cbn [length]. lia.
Qed.

Lemma capped_size id resp (c : Conn (C:=C)) : 0 ≤ id < 2 ^ 64 →
  Z.of_nat (length (capped cfg id resp c).1) ≤ MaxFrameSize.
Proof.
  intros Hid. unfold capped. cbv zeta.
  destruct (if _ && _ then _ else _) as [r c']; cbn [fst]. destruct (Z.ltb_spec MaxFrameSize (Z.of_nat (length r))); [by apply error_small|lia].
Qed.

(** A connection that takes every answer. *)
Definition takesAll (turn : nat → turnIO) : Prop :=
  ∀ i, woErr (tuWrite (turn i)) = None ∧ Z.of_nat HeaderLen + MaxFrameSize ≤ Z.of_nat (woCount (tuWrite (turn i))).

Lemma flush_all o out t id b : woErr o = None → Z.of_nat HeaderLen + MaxFrameSize ≤ Z.of_nat (woCount o) →
  Z.of_nat (length b) ≤ MaxFrameSize → flushFrame o out t id b = (None, out ++ encodeOf (mkFrame t id b)).
Proof.
  intros He Hc Hb. unfold flushFrame, WriteFrameRaw, fullWrite. cbn [woErr woCount].
  destruct (Z.ltb_spec MaxFrameSize (Z.of_nat (length b))); [lia|]. cbn [app fmap option_fmap option_map].
  rewrite He, rawHead_frameHead, (take_ge b) by done. rewrite (take_ge (frameHead t id b)) by done.
  rewrite take_ge; [done|]. rewrite length_app, frameHead_length. lia.
Qed.

(** Answer [r] belongs to request [f]. *)
Definition answers (f r : frame) : Prop := fType r = TypeResponse ∧ fID r = fID f ∧ frame_ok r.

(** Why the loop stopped, given the requests answered and left. *)
Definition stopped (why : connEnd) (served rest : list frame) (c : Conn (C:=C)) : Prop :=
  match why with
  | ReadFailed er => er = WEOF ∧ rest = []
  | Closed => ∃ f, last served = Some f ∧ fType f = TypeClose
  | AuthLimit => maxAuthFailures ≤ rAuthFails (cnSession c)
  | WriteFailed _ | NoFuel => False
  end.

Lemma loop_answers turn fs : takesAll turn → ∀ fuel i out c,
  Forall frame_ok fs → (length fs < fuel)%nat →
  let '(why, out', c') := loop turn fuel i (concat (map encodeOf fs)) out c in
  ∃ served rest rs, fs = served ++ rest ∧ out' = out ++ concat (map encodeOf rs) ∧
    Forall2 answers served rs ∧ stopped why served rest c'.
Proof.
  intros Ht. induction fs as [|f fs IH]; intros fuel i out c Hf Hlen; (destruct fuel as [|fuel]; [simpl in Hlen; lia|]).
  { cbn [map concat connLoop]. exists [], [], []. split; [done|]. split; [by rewrite app_nil_r|]. by split; [constructor|]. }
  apply Forall_cons in Hf as [Hf Hfs]. cbn [map concat connLoop]. rewrite ReadFrame_encode by done.
  assert (Hsz : Z.of_nat (length (serve (turn i) (headerOf f) (fBody f) c).1) ≤ MaxFrameSize).
  { unfold serveFrame. cbv zeta. destruct (admitAndDispatch _ _ _ _ _ _ _ _ _ _). apply capped_size, Hf. }
  destruct (serve _ _ _ _) as [resp c1]. cbn [fst] in Hsz. destruct (Ht i) as [He Hc].
  rewrite flush_all by done. cbv zeta. cbn [headerOf hRequestID hType].
  set (r := mkFrame TypeResponse (fID f) resp).
  assert (Ha : answers f r) by (split_and!; [done|done|split; [done|]; split; [apply Hf|done]]).
  destruct (Z.eqb_spec (fType f) TypeClose) as [Ec|].
  { exists [f], fs, [r]. split_and!; [done|simpl; by rewrite app_nil_r|constructor; [exact Ha|constructor]|by exists f]. }
  destruct (Z.leb_spec maxAuthFailures (rAuthFails (cnSession (counted (sent (Z.of_nat HeaderLen + Z.of_nat (length resp))) c1)))).
  { exists [f], fs, [r]. split_and!; [done|simpl; by rewrite app_nil_r|constructor; [exact Ha|constructor]|done]. }
  specialize (IH fuel (S i) (out ++ encodeOf r) (counted (sent (Z.of_nat HeaderLen + Z.of_nat (length resp))) c1) Hfs).
  destruct (loop _ _ _ _ _ _) as [[why out'] c']. destruct IH as (served & rest & rs & -> & -> & H2a & Hs); [simpl in Hlen; lia|].
  exists (f :: served), rest, (r :: rs). split_and!; [done|cbn [map concat]; by rewrite app_assoc|by constructor|].
  destruct why; try done. destruct Hs as (g & Hg & ?). exists g. split; [|done]. by destruct served.
Qed.

(** C28: Every request of a connection is answered once, in order, under its own id.
    For any sequence of well-formed frames a client sends, whatever their types and
    payloads (malformed ones, panicking statements, refused and oversized results
    included), the server's output is read by the client as one response frame per
    request served, in the order of the requests and with their ids, none above the
    frame limit; and all requests are served unless the client said Close or reached
    the limit of failed logins.  The loop never stops for another reason. *)
Theorem connection_answers turn fs (w : World C) m :
  takesAll turn → Forall frame_ok fs →
  let '(why, out, c) := handleConn marshal Quote persistText Sprint cluster cfg turn (concat (map encodeOf fs)) w m in
  ∃ served rest rs, fs = served ++ rest ∧ Forall2 answers served rs ∧ stopped why served rest c ∧
    readFrames (length served) out = (inl (map (λ r, (headerOf r, fBody r)) rs), []).
Proof.
  intros Ht Hf. unfold handleConn.
  pose proof (loop_answers turn fs Ht (S (length (concat (map encodeOf fs)))) 0 [] (mkConn w (newSession cfg) m) Hf) as Hx.
  destruct (loop _ _ _ _ _ _) as [[why out] c]. destruct Hx as (served & rest & rs & -> & -> & H2a & Hs).
  { apply Nat.lt_succ_r. clear. induction fs as [|f fs IH]; [done|]. cbn [map concat length]. rewrite length_app.
    unfold encodeOf at 1, EncodeFrame. rewrite length_app, frameHead_length. unfold HeaderLen. lia. }
  exists served, rest, rs. split_and!; try done. rewrite (Forall2_length _ _ _ H2a). cbn [app].
  rewrite <- (app_nil_r (concat _)). apply readFrames_concat.
  apply Forall_forall. intros r Hr. apply list_elem_of_lookup in Hr as [j Hj].
  destruct (Forall2_lookup_r _ _ _ _ _ H2a Hj) as (f & _ & _ & _ & Hok). exact Hok.
Qed.
End Connection.
