(* ===== verification/Client.v ===== *)
(** * The Go client: client.go and errors.go

    The decoding of responses, the library's calls, and the client's two kinds of
    goroutine as a transition system: callers inside [roundTrip] and the reader that
    hands each response to the call waiting for it.  Every access to the shared
    fields under the mutex, every channel operation and every write is one step. *)

From S2P Require Import Prelude GoLib Json Request JsonText Image Wire Config.
Open Scope Z_scope.

(** ** Responses as the client decodes them *)

(** A cell: every JSON number is a float64. *)
Inductive anyval := ANil | ABool (b : bool) | ANum (f : float64) | AStr (s : str) | ANested.

Record CResponse := mkCResponse {
  crID : Z; crStatus : str; crErrorCode : str; crErrorMessage : str;
  crColumns : slice str; crRows : slice (slice anyval); crAffected : Z;
  crMessage : str; crLeaderAddr : str; crRetryable : bool;
}.
Definition cresponse0 : CResponse := mkCResponse 0 [] [] [] nilSlice nilSlice 0 [] [] false.
Definition set_crID (r : CResponse) (id : Z) : CResponse :=
  mkCResponse id (crStatus r) (crErrorCode r) (crErrorMessage r) (crColumns r) (crRows r) (crAffected r)
    (crMessage r) (crLeaderAddr r) (crRetryable r).

(** [ServerError] and its text *)
Record ServerError := mkServerError { seCode : str; seMessage : str; seRetryable : bool; seLeaderAddr : str }.
Definition serverErrorText (e : ServerError) : str :=
  if bool_decide (seCode e = []) then seMessage e else seCode e ++ lit ": " ++ seMessage e.
Definition toServerError (r : CResponse) : ServerError :=
  mkServerError (crErrorCode r) (crErrorMessage r) (crRetryable r) (crLeaderAddr r).

(** Numbers into a uint64 and an int field. *)
Definition decUint (n : Z) (j : json) : option Z :=
  match j with
  | JNull => Some n
  | JNum t => match parse_uint t with inl k => Some k | inr _ => None end
  | _ => None
  end.
Definition decInt (n : Z) (j : json) : option Z :=
  match j with
  | JNull => Some n
  | JNum t => match ParseInt t with inl k => Some k | inr _ => None end
  | _ => None
  end.

Section Decode.
Context `{GoStd}.

Fixpoint anyOK (j : json) : bool :=
  match j with
  | JNum t => match strconv_ParseFloat t with inl _ => true | inr _ => false end
  | JArr l => forallb anyOK l
  | JObj l => forallb (λ p, anyOK p.2) l
  | _ => true
  end.
Definition decAnyval (_ : anyval) (j : json) : option anyval :=
  match j with
  | JNull => Some ANil
  | JBool b => Some (ABool b)
  | JStr s => Some (AStr s)
  | JNum t => match strconv_ParseFloat t with inl f => Some (ANum f) | inr _ => None end
  | JArr _ | JObj _ => if anyOK j then Some ANested else None
  end.

Definition decResponse : CResponse → json → option CResponse :=
  decStruct (λ r key v,
    let '(mkCResponse id st code msg cols rows aff m lead retry) := r in
    if isField key "request_id" then x ← decUint id v; Some (mkCResponse x st code msg cols rows aff m lead retry)
    else if isField key "status" then x ← decString st v; Some (mkCResponse id x code msg cols rows aff m lead retry)
    else if isField key "error_code" then x ← decString code v; Some (mkCResponse id st x msg cols rows aff m lead retry)
    else if isField key "error_message" then x ← decString msg v; Some (mkCResponse id st code x cols rows aff m lead retry)
    else if isField key "columns" then
      x ← decSlice [] decString cols v; Some (mkCResponse id st code msg x rows aff m lead retry)
    else if isField key "rows" then
      x ← decSlice nilSlice (decSlice ANil decAnyval) rows v; Some (mkCResponse id st code msg cols x aff m lead retry)
    else if isField key "affected_rows" then x ← decInt aff v; Some (mkCResponse id st code msg cols rows x m lead retry)
    else if isField key "message" then x ← decString m v; Some (mkCResponse id st code msg cols rows aff x lead retry)
    else if isField key "leader_addr" then x ← decString lead v; Some (mkCResponse id st code msg cols rows aff m x retry)
    else if isField key "retryable" then x ← decBool retry v; Some (mkCResponse id st code msg cols rows aff m lead x)
    else Some r).

(** [json.Unmarshal] of a payload *)
Definition unmarshalResponse (b : str) : option CResponse := j ← parseJSON b; decResponse cresponse0 j.
End Decode.

(** ** Goroutines *)

(** What a call returns. *)
Inductive callErr := CTooLarge | CClosed | CWrite (e : err) | CCtx (e : CtxErr) | CMismatch.
Abbreviation callResult := (CResponse + callErr)%type.

(** Where a call is in [roundTrip]: with its id, before it registers; registered;
    waiting in the select; about to unregister; returned. *)
Inductive phase :=
| Started (id : Z)
| Registered (id : Z)
| Waiting (id : Z)
| Leaving (id : Z) (r : callResult)
| Returned (r : callResult).

Record call := mkCall { caType : Z; caPayload : str; caPhase : phase; caChan : option CResponse }.
Definition set_phase (c : call) (p : phase) : call := mkCall (caType c) (caPayload c) p (caChan c).
Definition set_chan (c : call) (x : option CResponse) : call := mkCall (caType c) (caPayload c) (caPhase c) x.
(** A send that does not block: dropped when the buffer of one is full. *)
Definition offer (r : CResponse) (c : call) : call :=
  match caChan c with None => set_chan c (Some r) | Some _ => c end.

(** Where the reader is: reading, with a response for a call it has looked up, and
    the stages of [failAll]. *)
Inductive reader := Reading | Delivering (k : nat) (r : CResponse) | Failing (text : str) | Swept | Stopped.

(** Calls are numbered in the order of their ids; [cnPending] maps an id to the call
    whose channel is registered for it; [cnRead] records the frames read. *)
Record client := mkClient {
  cnNext : Z; cnCalls : list call; cnPending : gmap Z nat; cnClosed : bool;
  cnReader : reader; cnIn : str; cnOut : str; cnRead : list (Header * str);
}.
Definition client0 : client := mkClient 0 [] ∅ false Reading [] [] [].

Definition set_calls s x := mkClient (cnNext s) x (cnPending s) (cnClosed s) (cnReader s) (cnIn s) (cnOut s) (cnRead s).
Definition set_pending s x := mkClient (cnNext s) (cnCalls s) x (cnClosed s) (cnReader s) (cnIn s) (cnOut s) (cnRead s).
Definition set_closed s := mkClient (cnNext s) (cnCalls s) (cnPending s) true (cnReader s) (cnIn s) (cnOut s) (cnRead s).
Definition set_reader s x := mkClient (cnNext s) (cnCalls s) (cnPending s) (cnClosed s) x (cnIn s) (cnOut s) (cnRead s).
Definition set_in s x := mkClient (cnNext s) (cnCalls s) (cnPending s) (cnClosed s) (cnReader s) x (cnOut s) (cnRead s).
Definition set_out s x := mkClient (cnNext s) (cnCalls s) (cnPending s) (cnClosed s) (cnReader s) (cnIn s) x (cnRead s).
Definition log_read s x := mkClient (cnNext s) (cnCalls s) (cnPending s) (cnClosed s) (cnReader s) (cnIn s) (cnOut s) (cnRead s ++ [x]).

Definition setPhase (k : nat) (p : phase) (s : client) : client := set_calls s (alter (λ c, set_phase c p) k (cnCalls s)).

(** What a call makes of the response it received. *)
Definition accept (id : Z) (r : CResponse) : callResult :=
  if negb (crID r =? 0) && negb (crID r =? id) then inr CMismatch else inl (set_crID r id).

(** The response [failAll] sends. *)
Definition failure (text : str) (id : Z) : CResponse :=
  mkCResponse id (lit "error") (lit "PROTOCOL_ERROR") text nilSlice nilSlice 0 [] [] false.
Definition sweep (text : str) (pending : gmap Z nat) (calls : list call) : list call :=
  imap (λ k c, foldr (λ p c, if (p.2 =? k)%nat then offer (failure text p.1) c else c) c (map_to_list pending)) calls.

(** A response frame for a registered call; anything else is passed over. *)
Definition routed `{GoStd} (s : client) (hdr : Header) (payload : str) : reader :=
  if negb (hType hdr =? TypeResponse) then Reading
  else match unmarshalResponse payload with
  | None => Reading
  | Some r => match cnPending s !! hRequestID hdr with
              | Some k => Delivering k (set_crID r (hRequestID hdr))
              | None => Reading
              end
  end.

Section Steps.
Context `{GoStd}.

(** Steps of the call [k] of its own accord. *)
Inductive callStep (k : nat) : client → client → Prop :=
| step_closed s c id : cnCalls s !! k = Some c → caPhase c = Started id → cnClosed s = true →
    callStep k s (setPhase k (Returned (inr CClosed)) s)
| step_register s c id : cnCalls s !! k = Some c → caPhase c = Started id → cnClosed s = false →
    callStep k s (setPhase k (Registered id) (set_pending s (<[id := k]> (cnPending s))))
| step_written s c id : cnCalls s !! k = Some c → caPhase c = Registered id →
    callStep k s (setPhase k (Waiting id) (set_out s (cnOut s ++ EncodeFrame (caType c) id (caPayload c))))
| step_writeFailed s c id er n : cnCalls s !! k = Some c → caPhase c = Registered id →
    callStep k s (setPhase k (Leaving id (inr (CWrite er)))
                    (set_out s (cnOut s ++ take n (EncodeFrame (caType c) id (caPayload c)))))
| step_receive s c id r : cnCalls s !! k = Some c → caPhase c = Waiting id → caChan c = Some r →
    callStep k s (set_calls s (alter (λ c, set_phase (set_chan c None) (Leaving id (accept id r))) k (cnCalls s)))
| step_leave s c id r : cnCalls s !! k = Some c → caPhase c = Leaving id r →
    callStep k s (setPhase k (Returned r) (set_pending s (delete id (cnPending s)))).

(** Steps of the reader. *)
Inductive readerStep : client → client → Prop :=
| step_read s hdr payload rest : cnReader s = Reading → ReadFrame (cnIn s) = (inl (hdr, payload), rest) →
    readerStep s (set_reader (log_read (set_in s rest) (hdr, payload)) (routed s hdr payload))
| step_deliver s k r : cnReader s = Delivering k r →
    readerStep s (set_reader (set_calls s (alter (offer r) k (cnCalls s))) Reading)
| step_readFailed s text : cnReader s = Reading → readerStep s (set_reader s (Failing text))
| step_sweep s text : cnReader s = Failing text →
    readerStep s (set_reader (set_calls s (sweep text (cnPending s) (cnCalls s))) Swept)
| step_poison s : cnReader s = Swept → readerStep s (set_reader (set_closed s) Stopped).

(** All steps: also a new call (one above the frame size returns at once and leaves no
    trace), the end of a call's context, the latch of [Close], and bytes that arrive. *)
Inductive clientStep : client → client → Prop :=
| step_call s t payload : Z.of_nat (length payload) ≤ MaxFrameSize →
    let id := (cnNext s + 1) mod 2 ^ 64 in
    clientStep s (mkClient id (cnCalls s ++ [mkCall t payload (Started id) None]) (cnPending s) (cnClosed s)
                    (cnReader s) (cnIn s) (cnOut s) (cnRead s))
| step_cancelled s k c id er : cnCalls s !! k = Some c → caPhase c = Waiting id →
    clientStep s (setPhase k (Leaving id (inr (CCtx er))) s)
| step_markClosed s : clientStep s (set_closed s)
| step_receivedBytes s bytes : clientStep s (set_in s (cnIn s ++ bytes))
| step_ofCall s s' k : callStep k s s' → clientStep s s'
| step_ofReader s s' : readerStep s s' → clientStep s s'.
End Steps.

(** ** The calls of the library

    [roundTrip t payload] is what a call of that kind returned.  The payloads are
    encoded by encoding/json: [encodeHello], [encodeAuth] and [encodeQuery]. *)

Inductive clientErr := CallFailed (e : callErr) | Refused (e : ServerError) | EncodeFailed (e : err).
Record Rows := mkRows { roColumns : slice str; roData : slice (slice anyval) }.
Record ExecResult := mkExecResult { erAffected : Z; erMessage : str }.

Section Library.
Context {A : Type} (roundTrip : Z → str → callResult) (encodeHello : str → str → str).
Context (encodeAuth : str → str → str → str → str) (encodeQuery : str → list A → str → str + err).

Definition checked (r : callResult) : CResponse + clientErr :=
  match r with
  | inr er => inr (CallFailed er)
  | inl resp => if bool_decide (crStatus resp = lit "ok") then inl resp else inr (Refused (toServerError resp))
  end.
Definition acknowledged (t : Z) (payload : str) : option clientErr :=
  match checked (roundTrip t payload) with inl _ => None | inr er => Some er end.

Definition hello : option clientErr := acknowledged TypeHello (encodeHello (lit "superdb-go") (lit "1.0")).
Definition clientAuth (user pass database : str) : option clientErr :=
  acknowledged TypeAuth (encodeAuth (lit "password") user pass database).
Definition Ping : option clientErr := acknowledged TypePing (lit "{}").
Definition Begin : option clientErr := acknowledged TypeBegin (lit "{}").
Definition Commit : option clientErr := acknowledged TypeCommit (lit "{}").
Definition Rollback : option clientErr := acknowledged TypeRollback (lit "{}").

Definition clientQuery (database sql : str) (args : list A) : Rows + clientErr :=
  match encodeQuery sql args database with
  | inr er => inr (EncodeFailed er)
  | inl payload =>
      match checked (roundTrip TypeQuery payload) with
      | inl r => inl (mkRows (crColumns r) (crRows r))
      | inr er => inr er
      end
  end.
Definition clientExec (database sql : str) (args : list A) : ExecResult + clientErr :=
  match encodeQuery sql args database with
  | inr er => inr (EncodeFailed er)
  | inl payload =>
      match checked (roundTrip TypeExec payload) with
      | inl r => inl (mkExecResult (crAffected r) (crMessage r))
      | inr er => inr er
      end
  end.

(** The exchange with which [Dial] opens a connection. *)
Definition handshake (user pass database : str) : option clientErr :=
  match hello with
  | Some er => Some er
  | None => if bool_decide (user = []) && bool_decide (pass = []) then None else clientAuth user pass database
  end.
End Library.
