(* ===== verification/ClientProofs.v ===== *)
(** * The client: responses reach their calls, and a broken connection wakes them *)

From S2P Require Import Prelude GoLib GoFacts Json Request JsonText Image Wire Config Client.
Open Scope Z_scope.

Section Client.
Context `{GoStd}.

(** ** Which response may reach a call *)

(** A response for the call with this id: read from the connection under that id, or
    the report of a broken connection. *)
Definition genuine (read : list (Header * str)) (id : Z) (r : CResponse) : Prop :=
  (∃ hdr payload r0, (hdr, payload) ∈ read ∧ hType hdr = TypeResponse ∧ hRequestID hdr = id ∧
     unmarshalResponse payload = Some r0 ∧ r = set_crID r0 id) ∨
  ∃ text, r = failure text id.

Lemma genuine_accept read id r : genuine read id r → accept id r = inl r.
Proof.
  assert (E : set_crID r id = r → crID r = id → accept id r = inl r).
  { intros E1 E2. unfold accept. rewrite E2, Z.eqb_refl. cbn [negb]. by rewrite andb_false_r, E1. }
  intros [(hdr & payload & r0 & _ & _ & _ & _ & ->)|[text ->]]; by apply E.
Qed.
Lemma genuine_more read x id r : genuine read id r → genuine (read ++ x) id r.
Proof.
  intros [(hdr & payload & r0 & Hin & Hr)|Hf]; [|by right]. left. exists hdr, payload, r0.
  split; [|done]. apply elem_of_app. by left.
Qed.

(** ** The invariant *)

Definition idOf (p : phase) : option Z :=
  match p with Started id | Registered id | Waiting id | Leaving id _ => Some id | Returned _ => None end.
Definition regId (p : phase) : option Z :=
  match p with Registered id | Waiting id | Leaving id _ => Some id | _ => None end.
Definition resultOf (p : phase) : option callResult :=
  match p with Leaving _ r | Returned r => Some r | _ => None end.
Definition result_ok (read : list (Header * str)) (id : Z) (x : callResult) : Prop :=
  match x with inl r => genuine read id r | inr CMismatch => False | inr _ => True end.

Definition callId (k : nat) : Z := Z.of_nat k + 1.

Record call_ok (read : list (Header * str)) (pend : gmap Z nat) (k : nat) (c : call) : Prop := {
  co_id : ∀ id, idOf (caPhase c) = Some id → id = callId k;
  co_reg : ∀ id, regId (caPhase c) = Some id → pend !! id = Some k;
  co_chan : ∀ r, caChan c = Some r → genuine read (callId k) r;
  co_result : ∀ x, resultOf (caPhase c) = Some x → result_ok read (callId k) x;
}.

Record client_ok (s : client) : Prop := {
  ci_next : cnNext s = Z.of_nat (length (cnCalls s));
  ci_calls : ∀ k c, cnCalls s !! k = Some c → call_ok (cnRead s) (cnPending s) k c;
  ci_pend : ∀ id k, cnPending s !! id = Some k → ∃ c, cnCalls s !! k = Some c ∧ regId (caPhase c) = Some id;
  ci_reader : ∀ k r, cnReader s = Delivering k r → genuine (cnRead s) (callId k) r;
}.

Lemma alter_cases (f : call → call) (k : nat) (l : list call) (j : nat) c' : alter f k l !! j = Some c' →
  (j = k ∧ ∃ c, l !! k = Some c ∧ c' = f c) ∨ (j ≠ k ∧ l !! j = Some c').
Proof.
  destruct (decide (j = k)) as [->|Hne].
  - rewrite list_lookup_alter_eq. destruct (l !! k) as [c|]; [|done]. intros [= <-]. left. eauto.
  - rewrite list_lookup_alter_ne by done. by right.
Qed.

(** Changing one call, the pending map with it. *)
Lemma ok_alter s f k c pend :
  client_ok s → cnCalls s !! k = Some c → call_ok (cnRead s) pend k (f c) →
  (∀ id, regId (caPhase (f c)) = Some id ↔ pend !! id = Some k) →
  (∀ id j, j ≠ k → pend !! id = Some j ↔ cnPending s !! id = Some j) →
  client_ok (set_calls (set_pending s pend) (alter f k (cnCalls s))).
Proof.
  intros [H1 H2 H3 H4] Hk Hc Hp Hother. split; cbn [cnNext cnCalls cnPending cnReader cnRead set_calls set_pending].
  - by rewrite length_alter.
  - intros j c' [(-> & c0 & E & ->)|[Hne E]]%alter_cases; [by rewrite Hk in E; simplify_eq|].
    destruct (H2 j c' E) as [A1 A2 A3 A4]. split; try done. intros id Hid. by apply Hother, A2.
  - intros id j Hj. destruct (decide (j = k)) as [->|Hne].
    + exists (f c). rewrite list_lookup_alter_eq, Hk. by split; [|apply Hp].
    + apply Hother in Hj as (c' & E & Hr)%H3; [|done]. exists c'. by rewrite list_lookup_alter_ne.
  - done.
Qed.
(** The same, with an unchanged registration. *)
Lemma ok_alter_same s f k c :
  client_ok s → cnCalls s !! k = Some c → call_ok (cnRead s) (cnPending s) k (f c) →
  regId (caPhase (f c)) = regId (caPhase c) → client_ok (set_calls s (alter f k (cnCalls s))).
Proof.
  intros Hs Hk Hc Hr. replace (set_calls s _) with (set_calls (set_pending s (cnPending s)) (alter f k (cnCalls s)))
    by by destruct s. eapply ok_alter; try done. intros id. rewrite Hr. split.
  - apply (co_reg _ _ _ _ (ci_calls _ Hs k c Hk)).
  - intros (c' & E & Hc')%(ci_pend _ Hs). by rewrite Hk in E; simplify_eq.
Qed.

Lemma call_ok_weaken read x pend k c : call_ok read pend k c → call_ok (read ++ x) pend k c.
Proof.
  intros [H1 H2 H3 H4]. split; try done.
  - intros r Hr. by apply genuine_more, H3.
  - intros [r|[]] Hx; try done; specialize (H4 _ Hx); [by apply genuine_more|done].
Qed.

Lemma client_ok_out s x : client_ok s → client_ok (set_out s x).
Proof. by intros []. Qed.

Lemma callStep_ok k s s' : client_ok s → callStep k s s' → client_ok s'.
Proof.
  intros Hs Hst. inversion Hst as [? c id Hk Hp Hc|? c id Hk Hp Hc|? c id Hk Hp|? c id er n Hk Hp|? c id r Hk Hp Hr|? c id r Hk Hp]; subst;
    pose proof (ci_calls _ Hs k c Hk) as [A1 A2 A3 A4]; rewrite Hp in A1, A2, A4; cbn [idOf regId resultOf] in A1, A2, A4.
  - eapply ok_alter_same; try done; cbn [set_phase caPhase]; [|by rewrite Hp]. split; try done. by intros x [= <-].
  - assert (id = callId k) as -> by by apply A1.
    apply (ok_alter s _ k c (<[callId k := k]> (cnPending s))); try done; cbn [set_phase caPhase regId].
    + split; try done; intros id [= <-]; first [done|by rewrite lookup_insert_eq].
    + intros id. split; [intros [= <-]; by rewrite lookup_insert_eq|]. rewrite lookup_insert. case_decide; [by subst|].
      intros (c' & E & Hc')%(ci_pend _ Hs). rewrite Hk in E. simplify_eq. by rewrite Hp in Hc'.
    + intros id j Hj. rewrite lookup_insert. case_decide as E; [|done]. subst. split; [by intros [= <-]|].
      intros (c' & E & Hc')%(ci_pend _ Hs). pose proof (co_id _ _ _ _ (ci_calls _ Hs j c' E) (callId k)) as Hid.
      assert (callId k = callId j); [|unfold callId in *; lia]. apply Hid. by destruct (caPhase c').
  - apply (ok_alter_same (set_out s _) _ k c (client_ok_out _ _ Hs) Hk); cbn [set_phase caPhase]; [|by rewrite Hp].
    split; try done; by intros ? [= <-]; auto.
  - apply (ok_alter_same (set_out s _) _ k c (client_ok_out _ _ Hs) Hk); cbn [set_phase caPhase]; [|by rewrite Hp].
    split; try done; by intros ? [= <-]; auto.
  - apply (ok_alter_same s _ k c Hs Hk); cbn [set_phase set_chan caPhase]; [|by rewrite Hp].
    split; try done; intros ? [= <-]; auto. assert (id = callId k) as -> by by apply A1.
    rewrite (genuine_accept (cnRead s)) by by apply A3. cbn. by apply A3.
  - assert (id = callId k) as -> by by apply A1.
    apply (ok_alter s _ k c (delete (callId k) (cnPending s))); try done; cbn [set_phase caPhase regId].
    + intros id. split; [done|]. rewrite lookup_delete_Some. intros [Hne (c' & E & Hc')%(ci_pend _ Hs)].
      rewrite Hk in E. simplify_eq. rewrite Hp in Hc'. simpl in Hc'. congruence.
    + intros id j Hj. rewrite lookup_delete_Some. split; [by intros [_ ?]|]. intros Hid. split; [|done].
      intros <-. rewrite A2 in Hid by done. congruence.
Qed.

Lemma offer_ok read pend k r c : call_ok read pend k c → genuine read (callId k) r → call_ok read pend k (offer r c).
Proof.
  intros Hc Hg. unfold offer. destruct (caChan c) eqn:E; [done|]. destruct Hc as [H1 H2 H3 H4]. split; try done.
  by intros r' [= <-].
Qed.
Lemma offer_phase r c : caPhase (offer r c) = caPhase c.
Proof. unfold offer. by destruct (caChan c). Qed.

(** The channels after [failAll]: of a registered call never empty. *)
Definition swept (text : str) (l : list (Z * nat)) (k : nat) (c : call) : call :=
  foldr (λ p c, if (p.2 =? k)%nat then offer (failure text p.1) c else c) c l.
Lemma swept_phase text l k c : caPhase (swept text l k c) = caPhase c.
Proof. induction l as [|p l IH]; [done|]. simpl. case_match; [by rewrite offer_phase|done]. Qed.
Lemma swept_ok read pend text l k c : (∀ id, (id, k) ∈ l → id = callId k) →
  call_ok read pend k c → call_ok read pend k (swept text l k c).
Proof.
  intros Hl Hc. induction l as [|[id j] l IH]; [done|]. simpl.
  assert (call_ok read pend k (swept text l k c)) as Hk by (apply IH; set_solver).
  destruct (Nat.eqb_spec j k) as [->|]; [|done]. apply offer_ok; [done|]. right. exists text. f_equal. apply Hl. set_solver.
Qed.
Lemma swept_full text l k c id : (id, k) ∈ l → is_Some (caChan (swept text l k c)).
Proof.
  assert (Hoff : ∀ r c, is_Some (caChan (offer r c))) by (intros r c0; unfold offer; destruct (caChan c0) eqn:E; by eexists).
  induction l as [|[i j] l IH]; intros Hin; [set_solver|]. simpl. destruct (Nat.eqb_spec j k); [apply Hoff|].
  apply IH. set_solver.
Qed.
Lemma sweep_lookup text pend calls k : sweep text pend calls !! k = swept text (map_to_list pend) k <$> calls !! k.
Proof. unfold sweep. by rewrite list_lookup_imap. Qed.

Lemma pend_id s id k : client_ok s → cnPending s !! id = Some k → id = callId k.
Proof.
  intros Hs (c & Hc & Hr)%(ci_pend _ Hs). apply (co_id _ _ _ _ (ci_calls _ Hs k c Hc)). by destruct (caPhase c).
Qed.

Lemma readerStep_ok s s' : client_ok s → readerStep s s' → client_ok s'.
Proof.
  intros Hs Hst. pose proof Hs as [H1 H2 H3 H4].
  inversion Hst as [? hdr payload rest Hr Hf|? k r Hr|? text Hr|? text Hr|? Hr]; subst.
  - split; cbn [cnNext cnCalls cnPending cnReader cnRead set_reader log_read set_in]; try done.
    + intros k c Hk. by apply call_ok_weaken, H2.
    + intros k r. unfold routed. destruct (Z.eqb_spec (hType hdr) TypeResponse) as [Et|]; [|done]. cbn [negb].
      destruct (unmarshalResponse payload) as [r0|] eqn:Eu; [|done]. destruct (cnPending s !! hRequestID hdr) as [j|] eqn:Ep; [|done].
      intros [= -> <-]. pose proof (pend_id _ _ _ Hs Ep) as Hid. left. exists hdr, payload, r0.
      rewrite <- Hid. split_and!; try done. apply elem_of_app. right. by apply list_elem_of_singleton.
  - destruct (cnCalls s !! k) as [c|] eqn:Ek.
    + assert (client_ok (set_calls s (alter (offer r) k (cnCalls s)))) as [A1 A2 A3 A4].
      { apply (ok_alter_same s _ k c Hs Ek); [|by rewrite offer_phase]. apply offer_ok; [by apply H2|by apply H4]. }
      by split.
    + split; cbn [cnNext cnCalls cnPending cnReader cnRead set_reader set_calls]; try done.
      * by rewrite length_alter.
      * intros j c [(-> & c0 & E & ->)|[Hne E]]%alter_cases; [congruence|]. by apply H2.
      * intros id j (c & E & Hreg)%H3. destruct (decide (j = k)) as [->|]; [congruence|]. exists c. by rewrite list_lookup_alter_ne.
  - by split.
  - split; cbn [cnNext cnCalls cnPending cnReader cnRead set_reader set_calls]; try done.
    + unfold sweep. by rewrite length_imap.
    + intros k c. rewrite sweep_lookup. destruct (cnCalls s !! k) as [c0|] eqn:Ek; [|done]. intros [= <-].
      apply swept_ok; [|by apply H2]. intros id Hin%elem_of_map_to_list. by eapply pend_id.
    + intros id k (c & E & Hreg)%H3. exists (swept text (map_to_list (cnPending s)) k c). by rewrite sweep_lookup, E, swept_phase.
  - by split.
Qed.

Lemma clientStep_ok s s' : client_ok s → clientStep s s' → Z.of_nat (length (cnCalls s')) < 2 ^ 64 → client_ok s'.
Proof.
  intros Hs Hst. pose proof Hs as [H1 H2 H3 H4].
  inversion Hst as [? t payload Hl id|? k c id er Hk Hp|?|?|? ? k Hc|? ? Hr]; subst; intros Hb.
  - cbn [cnCalls] in Hb. rewrite length_app in Hb. cbn [length] in Hb. unfold id in *. rewrite H1.
    assert (Hid : (Z.of_nat (length (cnCalls s)) + 1) mod 2 ^ 64 = callId (length (cnCalls s))).
    { unfold callId. apply Z.mod_small. lia. }
    split; cbn [cnNext cnCalls cnPending cnReader cnRead]; try done.
    + rewrite Hid, length_app. unfold callId. simpl. lia.
    + intros k c [Hk|[Hlen Hk]]%lookup_app_Some; [by apply H2|]. apply list_lookup_singleton_Some in Hk as [Hk <-].
      assert (k = length (cnCalls s)) as -> by lia. split; try done. intros i [= <-]. done.
    + intros i k (c & E & Hr)%H3. exists c. by erewrite lookup_app_l_Some.
  - apply (ok_alter_same s _ k c Hs Hk); cbn [set_phase caPhase]; [|by rewrite Hp].
    destruct (H2 k c Hk) as [A1 A2 A3 A4]. rewrite Hp in A1, A2. split; try done; by intros ? [= <-]; auto.
  - by split.
  - by split.
  - by eapply callStep_ok.
  - by eapply readerStep_ok.
Qed.

Lemma calls_grow s s' : clientStep s s' → (length (cnCalls s) ≤ length (cnCalls s'))%nat.
Proof.
  intros Hst. inversion Hst as [| | | |? ? k Hc|? ? Hr]; subst; cbn [cnCalls set_calls setPhase set_closed set_in];
    rewrite ?length_app, ?length_alter; try lia.
  - inversion Hc; subst; cbn [cnCalls set_calls setPhase set_out set_pending]; by rewrite length_alter.
  - inversion Hr; subst; cbn [cnCalls set_calls set_reader log_read set_in set_closed]; rewrite ?length_alter; try lia.
    unfold sweep. by rewrite length_imap.
Qed.
Lemma run_grow s s' : rtc clientStep s s' → (length (cnCalls s) ≤ length (cnCalls s'))%nat.
Proof. induction 1 as [|s s1 s' H1 _ IH]; [done|]. apply calls_grow in H1. lia. Qed.

Lemma client0_ok : client_ok client0.
Proof. by split. Qed.
Lemma run_ok s s' : client_ok s → rtc clientStep s s' → Z.of_nat (length (cnCalls s')) < 2 ^ 64 → client_ok s'.
Proof.
  intros Hs Hr. induction Hr as [|s s1 s' H1 Hr IH]; [done|]. intros Hb. apply run_grow in Hr as Hg.
  apply IH; [|done]. eapply clientStep_ok; [done..|lia].
Qed.

(** Demultiplexing.  Whatever calls run concurrently and whatever bytes the server
    sends, in whatever order the goroutines take their steps: a call is sent under an
    id of its own, and the response it returns was read from the connection under
    that id, or reports that the connection broke; the check for a mismatched id
    never fires. *)
Theorem responses_reach_their_calls s k c :
  rtc clientStep client0 s → Z.of_nat (length (cnCalls s)) < 2 ^ 64 → cnCalls s !! k = Some c →
  (∀ id, idOf (caPhase c) = Some id → id = callId k) ∧
  (∀ r, caPhase c = Returned (inl r) → genuine (cnRead s) (callId k) r) ∧
  caPhase c ≠ Returned (inr CMismatch).
Proof.
  intros Hr Hb Hk. destruct (ci_calls _ (run_ok _ _ client0_ok Hr Hb) k c Hk) as [H1 _ _ H4].
  split_and!; [done|intros r Hp|intros Hp]; rewrite Hp in H4; exact (H4 _ eq_refl).
Qed.

(** ** A broken connection *)

Definition returned (k : nat) (s : client) : Prop := ∃ c x, cnCalls s !! k = Some c ∧ caPhase c = Returned x.

(** The call will not wait: there is something in its channel, or it no longer looks. *)
Definition awake (p : phase) (ch : option CResponse) : Prop :=
  match p with Started _ => False | Registered _ | Waiting _ => is_Some ch | Leaving _ _ | Returned _ => True end.
Definition armed (k : nat) (s : client) : Prop := ∃ c, cnCalls s !! k = Some c ∧ awake (caPhase c) (caChan c).

(** Steps left. *)
Definition rank (p : phase) : nat :=
  match p with Started _ => 4 | Registered _ => 3 | Waiting _ => 2 | Leaving _ _ => 1 | Returned _ => 0 end.
Definition rankOf (k : nat) (s : client) : nat := from_option (rank ∘ caPhase) 0%nat (cnCalls s !! k).

(** What a step does to a call: nothing but fill its channel, unless it is its own. *)
Definition nudged (c c' : call) : Prop := caPhase c' = caPhase c ∧ (is_Some (caChan c) → is_Some (caChan c')).
Lemma offer_nudged r c : nudged c (offer r c).
Proof. unfold nudged, offer. destruct (caChan c) eqn:E; [by rewrite E|]. split; [done|]. by intros [? [=]]. Qed.
Lemma swept_nudged text l k c : nudged c (swept text l k c).
Proof.
  induction l as [|p l IH]; [done|]. simpl. case_match; [|done]. destruct (offer_nudged (failure text p.1) (swept text l k c)) as [E1 E2].
  destruct IH as [E3 E4]. split; [congruence|auto].
Qed.

Lemma other_step k s s' c : cnCalls s !! k = Some c → clientStep s s' →
  (∃ c', cnCalls s' !! k = Some c' ∧ nudged c c') ∨ callStep k s s' ∨
  (∃ id er, caPhase c = Waiting id ∧ cnCalls s' !! k = Some (set_phase c (Leaving id (inr (CCtx er))))).
Proof.
  intros Hk Hst. assert (Hsame : cnCalls s' !! k = Some c → ∃ c', cnCalls s' !! k = Some c' ∧ nudged c c') by (intros ?; by exists c).
  inversion Hst as [? t payload Hl id|? j c0 id er Hj Hp|?|?|? ? j Hc|? ? Hr]; subst.
  - left. apply Hsame. cbn [cnCalls]. by erewrite lookup_app_l_Some.
  - destruct (decide (k = j)) as [<-|Hne].
    + right. right. rewrite Hk in Hj. simplify_eq. exists id, er. split; [done|]. cbn [setPhase set_calls cnCalls].
      by rewrite list_lookup_alter_eq, Hk.
    + left. apply Hsame. cbn [setPhase set_calls cnCalls]. by rewrite list_lookup_alter_ne.
  - left. by apply Hsame.
  - left. by apply Hsame.
  - destruct (decide (k = j)) as [<-|Hne]; [by right; left|]. left. apply Hsame.
    inversion Hc; subst; cbn [setPhase set_calls cnCalls set_out set_pending]; by rewrite list_lookup_alter_ne.
  - left. inversion Hr as [|? j r Er| |? text Er|]; subst; try by apply Hsame.
    + cbn [set_reader set_calls cnCalls]. destruct (decide (k = j)) as [<-|Hne].
      * rewrite list_lookup_alter_eq, Hk. eexists. split; [done|]. apply offer_nudged.
      * rewrite list_lookup_alter_ne by done. by apply Hsame in Hk as [c' ?] || (exists c; by split).
    + cbn [set_reader set_calls cnCalls]. rewrite sweep_lookup, Hk. eexists. split; [done|]. apply swept_nudged.
Qed.

Lemma callStep_rank k s s' : callStep k s s' → (rankOf k s' < rankOf k s)%nat.
Proof.
  intros Hc. unfold rankOf. inversion Hc as [? c id Hk Hp _|? c id Hk Hp _|? c id Hk Hp|? c id er n Hk Hp|? c id r Hk Hp _|? c id r Hk Hp]; subst;
    cbn [setPhase set_calls cnCalls set_out set_pending]; rewrite list_lookup_alter_eq, Hk; cbn; rewrite Hp; cbn; lia.
Qed.
Lemma callStep_armed k s s' : armed k s → callStep k s s' → armed k s'.
Proof.
  intros (c0 & Hk0 & Ha) Hc. inversion Hc as [? c id Hk Hp _|? c id Hk Hp _|? c id Hk Hp|? c id er n Hk Hp|? c id r Hk Hp _|? c id r Hk Hp]; subst;
    rewrite Hk in Hk0; simplify_eq; rewrite Hp in Ha; unfold armed;
    cbn [setPhase set_calls cnCalls set_out set_pending]; rewrite list_lookup_alter_eq, Hk; first [done|by eexists].
Qed.

Lemma step_armed k s s' : armed k s → clientStep s s' → armed k s' ∧ (rankOf k s' ≤ rankOf k s)%nat.
Proof.
  intros Ha Hst. pose proof Ha as (c & Hk & Hw).
  destruct (other_step k s s' c Hk Hst) as [(c' & Hk' & Hp & Hch)|[Hc|(id & er & Hp & Hk')]].
  - split; [|unfold rankOf; rewrite Hk, Hk'; cbn; by rewrite Hp]. exists c'. split; [done|]. rewrite Hp.
    destruct (caPhase c); cbn in *; auto.
  - split; [by eapply callStep_armed|]. apply callStep_rank in Hc. lia.
  - split; [by eexists|]. unfold rankOf. rewrite Hk, Hk'. cbn. rewrite Hp. cbn. lia.
Qed.

(** A run, with the number of steps the call [k] takes in it. *)
Inductive runs (k : nat) : nat → client → client → Prop :=
| runs_end s : runs k 0 s s
| runs_own n s s1 s' : callStep k s s1 → runs k n s1 s' → runs k (S n) s s'
| runs_other n s s1 s' : clientStep s s1 → runs k n s1 s' → runs k n s s'.

Lemma runs_armed k n s s' : runs k n s s' → armed k s → armed k s' ∧ (n + rankOf k s' ≤ rankOf k s)%nat.
Proof.
  induction 1 as [s|n s s1 s' Hc _ IH|n s s1 s' Hs _ IH]; intros Ha; [by split|..].
  - destruct IH as [H1 H2]; [by eapply callStep_armed|]. apply callStep_rank in Hc. split; [done|lia].
  - destruct (step_armed _ _ _ Ha Hs) as [Ha1 Hr]. destruct (IH Ha1) as [H1 H2]. split; [done|lia].
Qed.

Lemma armed_moves k s : armed k s → returned k s ∨ ∃ s', callStep k s s'.
Proof.
  intros (c & Hk & Hw). destruct (caPhase c) as [id|id|id|id x|x] eqn:Hp; [done|right|right|right|left].
  - eexists. by eapply step_written.
  - destruct Hw as [r Hr]. eexists. by eapply step_receive.
  - eexists. by eapply step_leave.
  - by exists c, x.
Qed.

(** C32: A broken connection wakes every registered call.  When reading fails, each
    call registered at the moment of the sweep, whether it is still writing or
    already waiting, is from then on never blocked: in every later state, after any
    steps of all goroutines, it has returned or can take a step of its own, and it
    takes at most three; so it returns, without its context having to end. *)
Theorem broken_connection_wakes s text k c id s1 n s2 :
  rtc clientStep client0 s → Z.of_nat (length (cnCalls s)) < 2 ^ 64 →
  cnReader s = Failing text → cnCalls s !! k = Some c → regId (caPhase c) = Some id →
  readerStep s s1 → runs k n s1 s2 →
  (n ≤ 3)%nat ∧ (returned k s2 ∨ ∃ s3, callStep k s2 s3).
Proof.
  intros Hr Hb Hf Hk Hreg Hst Hrun. pose proof (run_ok _ _ client0_ok Hr Hb) as Hs.
  assert (Ha : armed k s1 ∧ (rankOf k s1 ≤ 3)%nat).
  { inversion Hst as [? ? ? ? E|? ? ? E|? ? E|? t E|? E]; subst; try congruence. unfold armed, rankOf.
    cbn [set_reader set_calls cnCalls]. rewrite sweep_lookup, Hk. cbn [fmap option_fmap option_map from_option]. unfold compose.
    rewrite swept_phase. split; [|destruct (caPhase c); cbn in *; first [lia|done]].
    eexists. split; [done|]. rewrite swept_phase.
    assert (is_Some (caChan (swept t (map_to_list (cnPending s)) k c))).
    { apply (swept_full _ _ _ _ id). by apply elem_of_map_to_list, (co_reg _ _ _ _ (ci_calls _ Hs k c Hk)). }
    by destruct (caPhase c). }
  destruct Ha as [Ha H3]. destruct (runs_armed _ _ _ _ Hrun Ha) as [Ha2 Hn]. split; [lia|by apply armed_moves].
Qed.

(** ** A call that comes too late *)

(** Waiting with an empty channel and nobody left to fill it. *)
Definition orphaned (k : nat) (s : client) : Prop :=
  cnReader s = Stopped ∧ ∃ c id, cnCalls s !! k = Some c ∧ caPhase c = Waiting id ∧ caChan c = None.

Lemma orphan_stays k s s' : orphaned k s → clientStep s s' →
  orphaned k s' ∨ ∃ c id er, cnCalls s' !! k = Some c ∧ caPhase c = Leaving id (inr (CCtx er)).
Proof.
  intros (Hst & c & id & Hk & Hp & Hc) Hs.
  assert (Hkeep : ∀ s', cnReader s' = Stopped → cnCalls s' !! k = Some c → orphaned k s') by (intros ? ? ?; split; eauto).
  inversion Hs as [? t payload Hl i|? j c0 i er Hj Hpj|?|?|? ? j Hcs|? ? Hr]; subst.
  - left. apply Hkeep; [done|]. cbn [cnCalls]. by erewrite lookup_app_l_Some.
  - destruct (decide (k = j)) as [<-|Hne].
    + right. exists (set_phase c (Leaving i (inr (CCtx er)))), i, er. cbn [setPhase set_calls cnCalls].
      by rewrite list_lookup_alter_eq, Hk.
    + left. apply Hkeep; [done|]. cbn [setPhase set_calls cnCalls]. by rewrite list_lookup_alter_ne.
  - left. by apply Hkeep.
  - left. by apply Hkeep.
  - left. destruct (decide (k = j)) as [<-|Hne].
    + inversion Hcs; subst; congruence.
    + apply Hkeep; inversion Hcs; subst; try done; cbn [setPhase set_calls cnCalls set_out set_pending]; by rewrite list_lookup_alter_ne.
  - inversion Hr; congruence.
Qed.

(** The window in [failAll]: a call that registers between the sweep and the latch is
    not swept, writes without an error, and waits for ever unless its context ends
    ([orphan_stays]), although the comment in [roundTrip] relies on [failAll] to
    answer it. *)
Example late_call_hangs : ∃ s, rtc clientStep client0 s ∧ orphaned 0 s.
Proof.
  eexists. split.
  - eapply rtc_l; [by apply (step_call client0 TypePing (lit "{}")); vm_compute|].
    eapply rtc_l; [by eapply step_ofReader, (step_readFailed _ (lit "EOF"))|].
    eapply rtc_l; [by eapply step_ofReader, step_sweep|].
    eapply rtc_l; [by eapply (step_ofCall _ _ 0%nat), step_register|].
    eapply rtc_l; [by eapply (step_ofCall _ _ 0%nat), step_written|].
    eapply rtc_l; [by eapply step_ofReader, step_poison|]. apply rtc_refl.
  - split; [done|]. eexists _, _. by split_and!.
Qed.
End Client.
