(* ===== verification/ResponseProofs.v ===== *)
(** * Responses: what the hosted server encodes, the client decodes *)

From S2P Require Import Prelude GoLib GoFacts Value Table Schema Json Request RequestProofs JsonText JsonTextProofs Image ImageProofs.
From S2P Require Import Config Remote Client.
Open Scope Z_scope.

Abbreviation pr := (printJ quoteJ).

(** ** The response as a JSON value *)

Section Tree.
Context `{JsonStd}.

Definition optMember (name : string) (s : str) : list (str * json) :=
  if bool_decide (s = []) then [] else [(lit name, JStr s)].
Definition rowsTree (rows : list (list value)) : json := JArr (map (λ r, JArr (map cellTree r)) rows).

(** The members in the order of the struct, the empty ones left out. *)
Definition responseMembers (r : Response) : list (str * json) :=
  [(lit "request_id", JNum (FormatUint (rpID r))); (lit "status", JStr (rpStatus r))]
  ++ optMember "error_code" (rpErrorCode r) ++ optMember "error_message" (rpErrorMessage r)
  ++ (if bool_decide (rpColumns r = []) then [] else [(lit "columns", JArr (map JStr (rpColumns r)))])
  ++ (if bool_decide (rpRows r = []) then [] else [(lit "rows", rowsTree (rpRows r))])
  ++ (if rpAffected r =? 0 then [] else [(lit "affected_rows", JNum (FormatInt (rpAffected r)))])
  ++ optMember "message" (rpMessage r) ++ optMember "leader_addr" (rpLeaderAddr r)
  ++ (if rpRetryable r then [(lit "retryable", JBool true)] else []).

(** The floats of a row have a text. *)
Definition rowPrints (r : list value) : Prop := Forall (λ v, ∀ f, v = VFloat f → ∃ t, json_Float f = inl t) r.

Lemma value_print (out : str) v : (∀ f, v = VFloat f → ∃ t, json_Float f = inl t) →
  appendJSONValue out v = (out ++ pr (cellTree v), None).
Proof. intros Hv. destruct v; try done. simpl. by destruct (Hv _ eq_refl) as [t ->]. Qed.

Lemma cells_print cells : ∀ first (out : str), rowPrints cells → appendCells first out cells
  = inl (out ++ match cells with [] => [] | _ => (if first : bool then [] else [44]) ++ commas (map pr (map cellTree cells)) end).
Proof.
  induction cells as [|v cells IH]; intros first out Hp; [by rewrite app_nil_r|]. apply Forall_cons in Hp as [Hv Hp].
  cbn [appendCells map]. rewrite value_print, IH by done.
  destruct cells; cbn [map commas]; destruct first; cbn [app]; rewrite <- ?app_assoc, ?app_nil_r; done.
Qed.
Lemma rows_encode rows : ∀ first (out : str), Forall rowPrints rows → appendRows first out rows
  = inl (out ++ match rows with [] => [] | _ => (if first : bool then [] else [44])
                  ++ commas (map pr (map (λ r, JArr (map cellTree r)) rows)) end).
Proof.
  induction rows as [|r rows IH]; intros first out Hp; [by rewrite app_nil_r|]. apply Forall_cons in Hp as [Hr Hp].
  cbn [appendRows map]. rewrite cells_print, IH by done. f_equal.
  destruct r as [|v r], rows; cbn [map commas printJ]; destruct first; cbn [app];
    repeat rewrite <- ?app_assoc, <- ?app_comm_cons; cbn [app]; by rewrite ?app_nil_r.
Qed.

(** An object still open: its members so far. *)
Definition opened (ms : list (str * json)) : str := 123 :: commas (map (printMember quoteJ) ms).
Lemma commas_snoc l x : l ≠ [] → commas (l ++ [x]) = commas l ++ 44 :: x.
Proof.
  induction l as [|a l IH]; [done|]. intros _. destruct l as [|b l]; [done|].
  change (commas ((a :: b :: l) ++ [x])) with (a ++ 44 :: commas ((b :: l) ++ [x])). rewrite IH by done.
  change (commas (a :: b :: l)) with (a ++ 44 :: commas (b :: l)). by rewrite <- app_assoc.
Qed.
Lemma opened_add m ms name v : quoteJ (lit name) = dq :: lit name ++ [dq] →
  member true (opened (m :: ms)) name ++ pr v = opened (m :: ms ++ [(lit name, v)]).
Proof.
  intros Hq. unfold opened, member. change (m :: ms ++ [(lit name, v)]) with ((m :: ms) ++ [(lit name, v)]).
  rewrite (map_app (printMember quoteJ) (m :: ms)). change (map (printMember quoteJ) [(lit name, v)]) with [printMember quoteJ (lit name, v)].
  rewrite commas_snoc by done. set (body := commas _). unfold printMember. cbn [fst snd]. rewrite Hq. cbn [app]. repeat rewrite <- ?app_assoc, <- ?app_comm_cons. done.
Qed.
Lemma opened_string m ms name s : quoteJ (lit name) = dq :: lit name ++ [dq] →
  optString (opened (m :: ms)) name s = opened (m :: ms ++ optMember name s).
Proof.
  intros Hq. unfold optString, optMember. case_bool_decide; [by rewrite app_nil_r|].
  rewrite <- (opened_add m ms name (JStr s)) by done. cbn [printJ]. unfold quoteJ, appendJSONString. by rewrite app_nil_l.
Qed.
(** A member that is there under a condition. *)
Lemma opened_if m ms name v (b : bool) : quoteJ (lit name) = dq :: lit name ++ [dq] →
  (if b then opened (m :: ms) else member true (opened (m :: ms)) name ++ pr v)
  = opened (m :: ms ++ if b then [] else [(lit name, v)]).
Proof. intros Hq. destruct b; [by rewrite app_nil_r|by apply opened_add]. Qed.

Lemma response_print r : Forall rowPrints (rpRows r) →
  appendResponseJSON [] r = inl (pr (JObj (responseMembers r))).
Proof.
  intros Hp. unfold appendResponseJSON, responseMembers. cbv zeta.
  assert (appendJSONString (member true (member false ([] ++ [123]) "request_id" ++ FormatUint (rpID r)) "status") (rpStatus r)
    = opened [(lit "request_id", JNum (FormatUint (rpID r))); (lit "status", JStr (rpStatus r))]) as ->.
  { unfold opened, member. cbn [map commas]. unfold printMember, quoteJ, appendJSONString. cbn [fst snd printJ]. simpl.
    repeat rewrite <- ?app_assoc, <- ?app_comm_cons. done. }
  rewrite opened_string, opened_string, stringArray_print, opened_if by done. rewrite rows_encode by done.
  assert (∀ m ms, (if bool_decide (rpRows r = []) then inl (opened (m :: ms))
    else inl ((((member true (opened (m :: ms)) "rows" ++ [91]) ++ match rpRows r with [] => [] | _ =>
                [] ++ commas (map pr (map (λ r, JArr (map cellTree r)) (rpRows r))) end)) ++ [93]))
    = @inl str err (opened (m :: ms ++ if bool_decide (rpRows r = []) then [] else [(lit "rows", rowsTree (rpRows r))]))) as Hrows.
  { intros m ms. rewrite <- opened_if by done. case_bool_decide; [done|]. f_equal. unfold rowsTree. cbn [printJ].
    destruct (rpRows r) as [|x rows]; [done|]. cbn [app]. repeat rewrite <- ?app_assoc, <- ?app_comm_cons. done. }
  rewrite Hrows. change (FormatInt (rpAffected r)) with (pr (JNum (FormatInt (rpAffected r)))).
  rewrite (opened_if _ _ "affected_rows"), !opened_string by done.
  replace (if rpRetryable r then _ else _) with (opened ((lit "request_id", JNum (FormatUint (rpID r)))
    :: (((((((([(lit "status", JStr (rpStatus r))] ++ optMember "error_code" (rpErrorCode r)) ++ optMember "error_message" (rpErrorMessage r))
     ++ (if bool_decide (rpColumns r = []) then [] else [(lit "columns", JArr (map JStr (rpColumns r)))]))
     ++ (if bool_decide (rpRows r = []) then [] else [(lit "rows", rowsTree (rpRows r))]))
     ++ (if rpAffected r =? 0 then [] else [(lit "affected_rows", JNum (FormatInt (rpAffected r)))]))
     ++ optMember "message" (rpMessage r)) ++ optMember "leader_addr" (rpLeaderAddr r))
     ++ (if rpRetryable r then [(lit "retryable", JBool true)] else [])))).
  2:{ destruct (rpRetryable r); [|by rewrite app_nil_r]. by rewrite <- opened_add. }
  f_equal. rewrite <- !app_assoc. done.
Qed.
End Tree.

(** ** Decoding *)

(** Compares the names of members with the names of fields. *)
Ltac known_fields :=
  repeat (match goal with |- context [isField ?k ?n] =>
    let b := eval vm_compute in (isField k n) in change (isField k n) with b end; cbv iota).

Lemma decItems_fmap {A B} (zero : B) (dec : B → json → option B) (g : A → json) (h : A → B) l :
  (∀ a, a ∈ l → dec zero (g a) = Some (h a)) → decItems zero dec [] (map g l) = Some (map h l).
Proof.
  induction l as [|a l IH]; intros Hd; [done|]. cbn [map decItems hd tl]. rewrite Hd by set_solver.
  cbn [mbind option_bind]. rewrite IH by set_solver. done.
Qed.
Lemma decSlice_fmap {A B} (zero : B) (dec : B → json → option B) (g : A → json) (h : A → B) l :
  (∀ a, a ∈ l → dec zero (g a) = Some (h a)) →
  decSlice zero dec nilSlice (JArr (map g l)) = Some (mkSlice (map h l) (length l)).
Proof.
  intros Hd. destruct l as [|a l]; [done|]. unfold decSlice. cbn [map slBack nilSlice].
  change (g a :: map g l) with (map g (a :: l)). rewrite (decItems_fmap _ _ _ h) by done. cbn [mbind option_bind]. by rewrite length_map.
Qed.
Lemma sliceList_full {A} (l : list A) n : n = length l → sliceList (mkSlice l n) = l.
Proof. intros ->. apply firstn_all. Qed.

Section Decode.
Context `{GoStd} `{JsonStd}.

(** A cell as the client sees it: integers arrive as the nearest float64. *)
Definition seen (v : value) : anyval :=
  match v with
  | VNil => ANil
  | VStr s => AStr s
  | VBool b => ABool b
  | VInt n | VGoInt n => ANum (f64_of_Z n)
  | VFloat f => ANum f
  end.

(** What the text conversions of numbers are relied on for, at the values of a
    response: an integer's digits parse to the nearest float, a float's JSON text is
    a JSON number that parses back to it.  Strings are UTF-8. *)
Definition cell_ok (v : value) : Prop :=
  match v with
  | VInt n | VGoInt n => strconv_ParseFloat (FormatInt n) = inl (f64_of_Z n)
  | VFloat f => ∃ t, json_Float f = inl t ∧ isNumber t = true ∧ strconv_ParseFloat t = inl f
  | VStr s => validUTF8 s = true
  | _ => True
  end.
Record response_ok (r : Response) : Prop := {
  ro_id : 0 ≤ rpID r < 2 ^ 64;
  ro_affected : is_int64 (rpAffected r);
  ro_strings : Forall (λ s, validUTF8 s = true)
    [rpStatus r; rpErrorCode r; rpErrorMessage r; rpMessage r; rpLeaderAddr r];
  ro_columns : Forall (λ s, validUTF8 s = true) (rpColumns r);
  ro_rows : Forall (Forall cell_ok) (rpRows r);
}.

Lemma cell_decodes v : cell_ok v → decAnyval ANil (cellTree v) = Some (seen v).
Proof.
  destruct v; try done; cbn [cell_ok cellTree seen decAnyval]; [by intros ->| |by intros ->]. intros (t & Et & _ & Ep). rewrite Et. cbn [decAnyval]. by rewrite Ep.
Qed.
Lemma cell_text v : cell_ok v → jsonOK (cellTree v) = true.
Proof. destruct v; try done; simpl; intros Hc; [apply isNumber_FormatInt| |apply isNumber_FormatInt]. by destruct Hc as (t & -> & ? & _). Qed.

Lemma optMember_ok name s : validUTF8 (lit name) = true → validUTF8 s = true →
  forallb (λ p, validUTF8 p.1 && jsonOK p.2) (optMember name s) = true.
Proof. intros Hn Hs. unfold optMember. case_bool_decide; [done|]. cbn [forallb fst snd jsonOK]. by rewrite Hn, Hs. Qed.

Lemma isNumber_FormatUint n : 0 ≤ n → isNumber (FormatUint n) = true.
Proof. intros Hn. pose proof (isNumber_FormatInt n) as Hf. unfold FormatInt in Hf. by destruct (Z.ltb_spec n 0); [lia|]. Qed.

Lemma strings_text l : Forall (λ s, validUTF8 s = true) l → jsonOK (JArr (map JStr l)) = true.
Proof.
  intros Hl. cbn. apply forallb_forall. intros j (s & <- & Hin)%in_map_iff. cbn. eapply Forall_forall in Hl; [exact Hl|by apply list_elem_of_In].
Qed.
Lemma rows_text rows : Forall (Forall cell_ok) rows → jsonOK (rowsTree rows) = true.
Proof.
  intros Hr. cbn. apply forallb_forall. intros j (row & <- & Hin)%in_map_iff.
  cbn. apply forallb_forall. intros j (v & <- & Hv)%in_map_iff. apply cell_text.
  apply list_elem_of_In in Hin, Hv. eapply Forall_forall in Hr; [|exact Hin]. by eapply Forall_forall in Hr.
Qed.
Lemma strings_depth l : jdepth (JArr (map JStr l)) ≤ 1.
Proof. apply (depth_arr _ 0); [lia|]. apply Forall_forall. by intros j (s & -> & _)%list_elem_of_fmap. Qed.
Lemma rows_depth rows : jdepth (rowsTree rows) ≤ 2.
Proof.
  apply (depth_arr _ 1); [lia|]. apply Forall_forall. intros j (row & -> & _)%list_elem_of_fmap. apply (depth_arr _ 0); [lia|].
  apply Forall_forall. intros j (v & -> & _)%list_elem_of_fmap. apply depth_cell.
Qed.

Lemma response_text r : response_ok r → jsonOK (JObj (responseMembers r)) = true.
Proof.
  intros [Hid Haff Hs Hc Hr]. repeat (apply Forall_cons in Hs as [? Hs]). unfold responseMembers. cbn [jsonOK].
  rewrite !forallb_app, !optMember_ok by done. cbn [forallb fst snd jsonOK]. rewrite isNumber_FormatUint by lia.
  cbn [andb]. repeat (apply andb_true_iff; split); try done.
  - case_bool_decide; [done|]. cbn [forallb fst snd]. by rewrite strings_text.
  - case_bool_decide; [done|]. cbn [forallb fst snd]. by rewrite rows_text.
  - case_match; [done|]. cbn [forallb fst snd jsonOK]. by rewrite isNumber_FormatInt.
  - by case_match.
Qed.
Lemma response_depth r : jdepth (JObj (responseMembers r)) ≤ maxNestingDepth.
Proof.
  transitivity 3; [|by unfold maxNestingDepth]. apply (depth_obj _ 2); [lia|].
  assert (∀ name s, Forall (λ p : str * json, jdepth p.2 ≤ 2) (optMember name s)) as Hopt.
  { intros. unfold optMember. case_bool_decide; [done|]. by apply Forall_singleton. }
  unfold responseMembers. rewrite !Forall_app. split_and!; try apply Hopt.
  - rewrite !Forall_cons. by split_and!.
  - case_bool_decide; [done|]. apply Forall_singleton. cbn [snd]. etransitivity; [apply strings_depth|lia].
  - case_bool_decide; [done|]. apply Forall_singleton, rows_depth.
  - case_match; [done|]. by apply Forall_singleton.
  - case_match; [|done]. by apply Forall_singleton.
Qed.

Definition rowSlice (row : list value) : slice anyval := mkSlice (map seen row) (length row).
(** The response as the client holds it. *)
Definition decodedResponse (r : Response) : CResponse :=
  mkCResponse (rpID r) (rpStatus r) (rpErrorCode r) (rpErrorMessage r) (mkSlice (rpColumns r) (length (rpColumns r)))
    (mkSlice (map rowSlice (rpRows r)) (length (rpRows r))) (rpAffected r) (rpMessage r) (rpLeaderAddr r) (rpRetryable r).

(** The members up to the next optional one lead to [acc]. *)
Ltac leads_to acc :=
  rewrite foldl_app;
  match goal with |- foldl ?f (foldl ?f ?a ?l) ?rest = _ => assert (foldl f a l = Some acc) as -> end;
  [try (unfold optMember; case_bool_decide; [by simplify_eq|]); cbn [foldl fst snd mbind option_bind]; known_fields;
   cbn [mbind option_bind decString]; try done|].

Lemma response_decodes r : response_ok r →
  decResponse cresponse0 (JObj (responseMembers r)) = Some (decodedResponse r).
Proof.
  intros Hr. unfold decodedResponse. destruct r as [id st code msg cols rows aff m lead retry]. destruct Hr as [Hid Haff _ _ Hrows].
  unfold decResponse, decStruct, responseMembers.
  cbn [rpID rpStatus rpErrorCode rpErrorMessage rpColumns rpRows rpAffected rpMessage rpLeaderAddr rpRetryable] in *.
  leads_to (mkCResponse id st [] [] nilSlice nilSlice 0 [] [] false).
  { unfold decUint, cresponse0. pose proof (FormatUint_parse id Hid) as Hp. unfold parse_uint.
    destruct (FormatUint_cons id Hid) as (c & t & E & _). rewrite E in *. by rewrite Hp. }
  leads_to (mkCResponse id st code [] nilSlice nilSlice 0 [] [] false).
  leads_to (mkCResponse id st code msg nilSlice nilSlice 0 [] [] false).
  leads_to (mkCResponse id st code msg (mkSlice cols (length cols)) nilSlice 0 [] [] false).
  { rewrite (decSlice_fmap [] decString JStr (λ s, s)) by done. by rewrite map_id. }
  leads_to (mkCResponse id st code msg (mkSlice cols (length cols)) (mkSlice (map rowSlice rows) (length rows)) 0 [] [] false).
  { unfold rowsTree. rewrite (decSlice_fmap nilSlice _ _ rowSlice); [done|]. intros row Hrow.
    apply decSlice_fmap. intros v Hv. apply cell_decodes. eapply Forall_forall in Hrows; [|exact Hrow]. by eapply Forall_forall in Hrows. }
  leads_to (mkCResponse id st code msg (mkSlice cols (length cols)) (mkSlice (map rowSlice rows) (length rows)) aff [] [] false).
  { destruct (Z.eqb_spec aff 0) as [->|]; [done|]. cbn [foldl fst snd mbind option_bind]. known_fields. unfold decInt.
    by rewrite FormatInt_parse. }
  leads_to (mkCResponse id st code msg (mkSlice cols (length cols)) (mkSlice (map rowSlice rows) (length rows)) aff m [] false).
  leads_to (mkCResponse id st code msg (mkSlice cols (length cols)) (mkSlice (map rowSlice rows) (length rows)) aff m lead false).
  by destruct retry.
Qed.

Lemma response_wire r : response_ok r →
  mustResponseJSON r = Some (pr (JObj (responseMembers r))) ∧
  unmarshalResponse (pr (JObj (responseMembers r))) = Some (decodedResponse r).
Proof.
  intros Hr. split.
  - unfold mustResponseJSON. rewrite response_print; [done|]. eapply Forall_impl; [apply Hr|]. intros row Hrow.
    eapply Forall_impl; [exact Hrow|]. intros v Hv f ->. destruct Hv as (t & Et & _). eauto.
  - unfold unmarshalResponse. rewrite (parse_printed quoteJ); [|apply unquote_quoteJ|by apply response_text|apply response_depth].
    by apply response_decodes.
Qed.
Lemma decoded_rows r : map sliceList (sliceList (crRows (decodedResponse r))) = map (map seen) (rpRows r).
Proof.
  cbn [decodedResponse crRows]. rewrite sliceList_full by by rewrite length_map. rewrite map_map. apply map_ext. intros row.
  apply sliceList_full. by rewrite length_map.
Qed.

(** Responses round trip between the hosted server's hand-written encoder and the
    client's decoder: for every response whose texts are UTF-8 and whose numbers have
    JSON texts, the client decodes the bytes to the same request id, status, error
    code and message, columns, affected rows, message, leader address and retry flag,
    and to the same rows cell by cell, integers as the nearest float64. *)
Theorem response_roundtrip r : response_ok r →
  ∃ b cr, mustResponseJSON r = Some b ∧ unmarshalResponse b = Some cr ∧
    crID cr = rpID r ∧ crStatus cr = rpStatus r ∧ crErrorCode cr = rpErrorCode r ∧ crErrorMessage cr = rpErrorMessage r ∧
    sliceList (crColumns cr) = rpColumns r ∧ map sliceList (sliceList (crRows cr)) = map (map seen) (rpRows r) ∧
    crAffected cr = rpAffected r ∧ crMessage cr = rpMessage r ∧ crLeaderAddr cr = rpLeaderAddr r ∧
    crRetryable cr = rpRetryable r.
Proof.
  intros Hr. destruct (response_wire r Hr) as [E1 E2]. exists (pr (JObj (responseMembers r))), (decodedResponse r).
  split_and!; try done; [by apply sliceList_full|apply decoded_rows].
Qed.
End Decode.
