(* ===== verification/System.v ===== *)
(** * A client and its hosted server over one connection

    The transition system of Client composed with the loop of Remote: what the client
    writes is what the server reads, and the other way round.  Client calls run
    concurrently and their writes interleave with the server's turns in any order;
    writes fail, connections break, contexts end.  Also here: the payloads the
    client's calls encode.
    At the end: every call is executed at most once and answered by its own execution. *)

From S2P Require Import Prelude GoLib GoFacts Value Table Schema Database Storage Wire Bind Json Request JsonText JsonTextProofs Image.
From S2P Require Import Session Config Remote RemoteProofs Client ClientProofs ResponseProofs.
Open Scope Z_scope.

(** ** Payloads: [json.Marshal] of wire.QueryPayload, ExecPayload, AuthPayload, HelloPayload *)

(** The arguments of [Query] and [Exec]. *)
Inductive arg := ArgNil | ArgBool (b : bool) | ArgStr (s : str) | ArgInt (n : Z) | ArgFloat (f : float64).

Section Payloads.
(** How encoding/json writes a string. *)
Context `{JsonStd} (quote : str → str).

(** A float that is not finite has no JSON text. *)
Definition argTree (a : arg) : json + err :=
  match a with
  | ArgNil => inl JNull
  | ArgBool b => inl (JBool b)
  | ArgStr s => inl (JStr s)
  | ArgInt n => inl (JNum (FormatInt n))
  | ArgFloat f => match json_Float f with inl t => inl (JNum t) | inr e => inr e end
  end.
Fixpoint argTrees (l : list arg) : list json + err :=
  match l with
  | [] => inl []
  | a :: l' => match argTree a with
               | inr e => inr e
               | inl j => match argTrees l' with inl js => inl (j :: js) | inr e => inr e end
               end
  end.

Definition queryMembers (sql : str) (params : list json) (database : str) : list (str * json) :=
  [(lit "sql", JStr sql)] ++ (if bool_decide (params = []) then [] else [(lit "params", JArr params)])
  ++ optMember "database" database.
Definition marshalQuery (sql : str) (args : list arg) (database : str) : str + err :=
  match argTrees args with
  | inr e => inr e
  | inl params => inl (printJ quote (JObj (queryMembers sql params database)))
  end.
Definition marshalAuth (mechanism user pass database : str) : str :=
  printJ quote (JObj (optMember "mechanism" mechanism ++ optMember "username" user ++ optMember "password" pass
                      ++ optMember "database" database)).
Definition marshalHello (name version : str) : str :=
  printJ quote (JObj (optMember "client_name" name ++ optMember "client_version" version)).
End Payloads.

(** ** The composed system *)

Section System.
Context `{GoStd} `{Zlib} `{JsonStd} (marshal : Database → str + err).
Context (Quote : str → str) (persistText : persistErr → str) (Sprint : json → str).
Context {C : Type} (cluster : option (RCluster C)) (cfg : Config).

(** A request the server executed: its frame, what the outside decided about it, the
    state it found, and the answer. *)
Record served := mkServed { sdFrame : frame; sdTurn : turnIO; sdBefore : Conn (C:=C); sdResp : str }.

(** The client; whether its buffered writer has failed, after which it accepts no more
    bytes; whether the server's loop still runs, and what it has still to read; the
    connection's state there, and what was executed so far. *)
Record system := mkSystem {
  syClient : client; syStuck : bool; syOpen : bool; syInput : str; syConn : Conn (C:=C); syServed : list served;
}.
Definition system0 (w : World C) (m : Metrics) : system :=
  mkSystem client0 false true [] (mkConn w (newSession cfg) m) [].
Definition set_client (y : system) (s : client) : system :=
  mkSystem s (syStuck y) (syOpen y) (syInput y) (syConn y) (syServed y).

(** A write that reports no error took the whole frame. *)
Definition honestWrite (o : writeOutcome) : Prop :=
  woErr o = None → Z.of_nat HeaderLen + MaxFrameSize ≤ Z.of_nat (woCount o).

(** The server's loop goes on after an answer that was written. *)
Definition goesOn (hdr : Header) (c : Conn (C:=C)) : bool :=
  negb (hType hdr =? TypeClose) && negb (maxAuthFailures <=? rAuthFails (cnSession c)).

(** The server after one turn of the loop of [handleConn]. *)
Definition afterTurn (y : system) (u : turnIO) (hdr : Header) (payload rest : str) : system :=
  let '(resp, c) := serveFrame marshal Quote persistText Sprint cluster cfg u hdr payload (syConn y) in
  let x := mkServed (mkFrame (hType hdr) (hRequestID hdr) payload) u (syConn y) resp in
  let '(er, out) := flushFrame (tuWrite u) [] TypeResponse (hRequestID hdr) resp in
  let s := set_in (syClient y) (cnIn (syClient y) ++ out) in
  match er with
  | Some _ => mkSystem s (syStuck y) false rest c (syServed y ++ [x])
  | None =>
      let c := counted (sent (Z.of_nat HeaderLen + Z.of_nat (length resp))) c in
      mkSystem s (syStuck y) (goesOn hdr c) rest c (syServed y ++ [x])
  end.

(** Types of messages are bytes. *)
Definition byteTypes (s : client) : Prop := ∀ k c, cnCalls s !! k = Some c → 0 ≤ caType c < 256.

Inductive systemStep : system → system → Prop :=
(** a step of the client that writes nothing and reads only what has arrived *)
| sys_client y s' : clientStep (syClient y) s' → cnOut s' = cnOut (syClient y) → cnIn s' `suffix_of` cnIn (syClient y) →
    byteTypes s' → systemStep y (set_client y s')
| sys_write y k c id : cnCalls (syClient y) !! k = Some c → caPhase c = Registered id → syStuck y = false →
    let bytes := EncodeFrame (caType c) id (caPayload c) in
    systemStep y (mkSystem (setPhase k (Waiting id) (set_out (syClient y) (cnOut (syClient y) ++ bytes)))
                    false (syOpen y) (syInput y ++ bytes) (syConn y) (syServed y))
| sys_writeFailed y k c id er n : cnCalls (syClient y) !! k = Some c → caPhase c = Registered id →
    let bytes := take (if syStuck y then 0%nat else n) (EncodeFrame (caType c) id (caPayload c)) in
    systemStep y (mkSystem (setPhase k (Leaving id (inr (CWrite er))) (set_out (syClient y) (cnOut (syClient y) ++ bytes)))
                    true (syOpen y) (syInput y ++ bytes) (syConn y) (syServed y))
| sys_serve y u hdr payload rest : syOpen y = true → ReadFrame (syInput y) = (inl (hdr, payload), rest) →
    honestWrite (tuWrite u) → systemStep y (afterTurn y u hdr payload rest)
(** the stream ends, a deadline passes, or what arrived is not a frame *)
| sys_hangup y : systemStep y (mkSystem (syClient y) (syStuck y) false (syInput y) (syConn y) (syServed y)).

(** [l] was executed one after the other from [c0], ending in [c] up to counters. *)
Inductive ran (c0 : Conn (C:=C)) : list served → Conn (C:=C) → Prop :=
| ran_nil : ran c0 [] c0
| ran_snoc l x c c' resp c'' : ran c0 l c → sdBefore x = c →
    serveFrame marshal Quote persistText Sprint cluster cfg (sdTurn x) (headerOf (sdFrame x)) (fBody (sdFrame x)) c = (resp, c') →
    sdResp x = resp → cnWorld c'' = cnWorld c' → cnSession c'' = cnSession c' → ran c0 (l ++ [x]) c''.
End System.

#[local] Opaque MaxFrameSize.

(** ** Reading what is left of a stream *)

Definition framesBytes (fs : list frame) : str := concat (map encodeOf fs).
Definition readOf (f : frame) : Header * str := (headerOf f, fBody f).

(** A frame cut short. *)
Definition cut (b : str) : Prop := b = [] ∨ ∃ f n, frame_ok f ∧ b = take n (encodeOf f) ∧ (n < length (encodeOf f))%nat.

Lemma ReadFull_short b n : (length b < n)%nat → ∃ e, ReadFull b n = (inr e, []).
Proof. intros Hl. unfold ReadFull. destruct (Nat.leb_spec n (length b)); [lia|eauto]. Qed.

Lemma cut_unreadable b : cut b → ∃ e r, ReadFrame b = (inr e, r).
Proof.
  intros [->|(f & n & Hf & -> & Hn)]; [by eexists _, _|]. unfold ReadFrame, ReadHeader.
  unfold encodeOf, EncodeFrame in *. pose proof (frameHead_length (fType f) (fID f) (fBody f)) as Hh.
  destruct (decide (n < HeaderLen)%nat) as [Hs|Hs].
  - destruct (ReadFull_short (take n (frameHead (fType f) (fID f) (fBody f) ++ fBody f)) HeaderLen) as [e ->]; [|eauto].
    rewrite length_take. lia.
  - rewrite take_app_ge, ReadFull_app, checkHeader_frame by (done || lia). cbn [headerOf hLength]. rewrite Nat2Z.id.
    destruct (ReadFull_short (take (n - length (frameHead (fType f) (fID f) (fBody f))) (fBody f)) (length (fBody f))) as [e ->]; [|eauto].
    rewrite length_take. rewrite length_app in Hn. lia.
Qed.

(** Of whole frames and a cut one, the first is read, if there is one. *)
Lemma read_next fs b x rest : Forall frame_ok fs → cut b → ReadFrame (framesBytes fs ++ b) = (inl x, rest) →
  ∃ f fs', fs = f :: fs' ∧ x = readOf f ∧ rest = framesBytes fs' ++ b.
Proof.
  intros Hf Hb Hr. destruct fs as [|f fs]; cbn [framesBytes map concat app] in Hr.
  - destruct (cut_unreadable b Hb) as (e & r & E). unfold framesBytes in Hr. cbn in Hr. congruence.
  - unfold framesBytes in Hr. cbn [map concat] in Hr. apply Forall_cons in Hf as [Hf _]. rewrite <- app_assoc, ReadFrame_encode in Hr by done.
    exists f, fs. by simplify_eq.
Qed.

(** ** What a step of the client does to its calls and streams *)

Section Steps.
Context `{GoStd}.

Definition sent_out (p : phase) : bool := match p with Started _ | Registered _ => false | _ => true end.

(** The same request, at least as far. *)
Definition advanced (c c' : call) : Prop :=
  caType c' = caType c ∧ caPayload c' = caPayload c ∧ (sent_out (caPhase c) = true → sent_out (caPhase c') = true).

Lemma advanced_refl c : advanced c c.
Proof. by split_and!. Qed.
Lemma advanced_offer r c : advanced c (offer r c).
Proof. unfold advanced, offer. by destruct (caChan c). Qed.
Lemma advanced_swept text l k c : advanced c (swept text l k c).
Proof.
  induction l as [|p l IH]; [apply advanced_refl|]. simpl. case_match; [|done]. destruct IH as (E1 & E2 & E3).
  destruct (advanced_offer (failure text p.1) (swept text l k c)) as (F1 & F2 & F3). split_and!; [congruence..|auto].
Qed.
Lemma advanced_alter f k (l : list call) j c : l !! j = Some c → (∀ x, l !! k = Some x → advanced x (f x)) →
  ∃ c', alter f k l !! j = Some c' ∧ advanced c c'.
Proof.
  intros Hj Hf. destruct (decide (j = k)) as [->|Hne].
  - exists (f c). rewrite list_lookup_alter_eq, Hj. auto.
  - exists c. rewrite list_lookup_alter_ne by done. split; [done|apply advanced_refl].
Qed.

Lemma step_advances s s' k c : clientStep s s' → cnCalls s !! k = Some c → ∃ c', cnCalls s' !! k = Some c' ∧ advanced c c'.
Proof.
  intros Hst Hk. assert (Hsame : ∃ c', cnCalls s !! k = Some c' ∧ advanced c c') by (exists c; split; [done|apply advanced_refl]).
  inversion Hst as [? t payload Hl id|? j c0 id er Hj Hp|?|?|? ? j Hc|? ? Hr]; subst; try done.
  - exists c. cbn [cnCalls]. erewrite lookup_app_l_Some by done. split; [done|apply advanced_refl].
  - apply advanced_alter; [done|]. intros x Hx. split_and!; try done.
  - inversion Hc as [? x id Hx Hp _|? x id Hx Hp _|? x id Hx Hp|? x id er n Hx Hp|? x id r Hx Hp _|? x id r Hx Hp]; subst;
      cbn [setPhase set_calls cnCalls set_out set_pending]; (apply advanced_alter; [done|]);
      intros y Hy; rewrite Hx in Hy; simplify_eq; unfold advanced; cbn [set_phase set_chan caPhase caType caPayload]; rewrite Hp; by split_and!.
  - inversion Hr as [|? j r Er| |? text Er|]; subst; try done; cbn [set_reader set_calls cnCalls].
    + apply advanced_alter; [done|]. intros. apply advanced_offer.
    + rewrite sweep_lookup, Hk. eexists. split; [done|]. apply advanced_swept.
Qed.

(** Every call fits a frame. *)
Definition fits (s : client) : Prop := ∀ k c, cnCalls s !! k = Some c → Z.of_nat (length (caPayload c)) ≤ MaxFrameSize.
Lemma step_fits s s' : clientStep s s' → fits s → fits s'.
Proof.
  intros Hst Hf k c' Hk'. destruct (cnCalls s !! k) as [c|] eqn:Hk.
  { destruct (step_advances _ _ _ _ Hst Hk) as (c1 & Hk1 & _ & Hp & _). rewrite Hk' in Hk1. simplify_eq. rewrite Hp. by eapply Hf. }
  apply lookup_ge_None in Hk. apply lookup_lt_Some in Hk' as Hlt.
  inversion Hst as [? t payload Hl id|? j c0 id er Hj Hp|?|?|? ? j Hc|? ? Hr]; subst; cbn [cnCalls] in *.
  - apply lookup_app_Some in Hk' as [Hk'|[_ Hk']]; [apply lookup_lt_Some in Hk'; lia|].
    by apply list_lookup_singleton_Some in Hk' as [_ <-].
  - cbn [setPhase set_calls cnCalls] in Hlt. rewrite length_alter in Hlt. lia.
  - cbn in Hlt. lia.
  - cbn in Hlt. lia.
  - assert (length (cnCalls s') = length (cnCalls s)); [|lia].
    inversion Hc; subst; cbn [setPhase set_calls cnCalls set_out set_pending]; by rewrite length_alter.
  - assert (length (cnCalls s') = length (cnCalls s)); [|lia].
    inversion Hr; subst; cbn [set_calls cnCalls set_reader log_read set_in set_closed]; rewrite ?length_alter; try done.
    unfold sweep. by rewrite length_imap.
Qed.

(** What it takes from the connection. *)
Lemma step_streams s s' : clientStep s s' → cnIn s' `suffix_of` cnIn s →
  (cnRead s' = cnRead s ∧ cnIn s' = cnIn s) ∨
  ∃ x, ReadFrame (cnIn s) = (inl x, cnIn s') ∧ cnRead s' = cnRead s ++ [x].
Proof.
  intros Hst Hsuf. inversion Hst as [? t payload Hl id|? j c0 id er Hj Hp|?|? bytes|? ? j Hc|? ? Hr]; subst; try by left.
  - left. cbn [set_in cnRead cnIn] in *. split; [done|]. destruct Hsuf as [p Hp]. assert (length (cnIn s) = length (p ++ cnIn s ++ bytes)) as Hl by by rewrite <- Hp.
    rewrite !length_app in Hl. destruct bytes; [by rewrite app_nil_r|simpl in Hl; lia].
  - left. by inversion Hc.
  - inversion Hr as [? hdr payload rest Er Ef|? j r Er| |? text Er|]; subst; try by left. right. by exists (hdr, payload).
Qed.
End Steps.

(** ** The invariant *)

Section Whole.
Context `{GoStd} `{Zlib} `{JsonStd} (marshal : Database → str + err).
Context (Quote : str → str) (persistText : persistErr → str) (Sprint : json → str).
Context {C : Type} (cluster : option (RCluster C)) (cfg : Config).
Abbreviation step := (systemStep marshal Quote persistText Sprint cluster cfg).
Abbreviation turned := (afterTurn marshal Quote persistText Sprint cluster cfg).
Abbreviation ranFrom := (ran marshal Quote persistText Sprint cluster cfg).

Definition answerFrame (x : served (C:=C)) : frame := mkFrame TypeResponse (fID (sdFrame x)) (sdResp x).

(** The request of call [k]. *)
Definition requestOf (k : nat) (c : call) : frame := mkFrame (caType c) (callId k) (caPayload c).
Definition owned (s : client) (f : frame) : Prop :=
  ∃ k c, cnCalls s !! k = Some c ∧ f = requestOf k c ∧ sent_out (caPhase c) = true.

(** What is under way to the server, and what came back. *)
Definition outbound (y : system (C:=C)) : Prop :=
  ∃ fs part, syInput y = framesBytes fs ++ part ∧ cut part ∧ (syStuck y = false → part = []) ∧ Forall frame_ok fs ∧
    NoDup (map fID (map sdFrame (syServed y) ++ fs)) ∧ Forall (owned (syClient y)) (map sdFrame (syServed y) ++ fs).
Definition inbound (y : system (C:=C)) : Prop :=
  ∃ rs part n, rs `prefix_of` map answerFrame (syServed y) ∧ cut part ∧ Forall frame_ok rs ∧
    (syOpen y = true → rs = map answerFrame (syServed y) ∧ part = []) ∧
    cnRead (syClient y) = map readOf (take n rs) ∧ cnIn (syClient y) = framesBytes (drop n rs) ++ part.

Record system_ok (c0 : Conn (C:=C)) (y : system (C:=C)) : Prop := {
  so_client : client_ok (syClient y);
  so_types : byteTypes (syClient y);
  so_fits : fits (syClient y);
  so_out : outbound y;
  so_back : inbound y;
  so_ran : ranFrom c0 (syServed y) (syConn y);
}.

Lemma framesBytes_app a b : framesBytes (a ++ b) = framesBytes a ++ framesBytes b.
Proof. unfold framesBytes. by rewrite map_app, concat_app. Qed.

Lemma owned_advances s s' f : clientStep s s' → owned s f → owned s' f.
Proof.
  intros Hst (k & c & Hk & -> & Ho). destruct (step_advances _ _ _ _ Hst Hk) as (c' & Hk' & Et & Ep & Hs).
  exists k, c'. split_and!; [done| |auto]. unfold requestOf. by rewrite Et, Ep.
Qed.

Lemma request_fits s k c : byteTypes s → fits s → Z.of_nat (length (cnCalls s)) < 2 ^ 64 → cnCalls s !! k = Some c →
  frame_ok (requestOf k c).
Proof.
  intros Ht Hf Hn Hk. apply lookup_lt_Some in Hk as Hl. unfold requestOf, callId. split; cbn [fType fID fBody]; [by eapply Ht|].
  split; [lia|by eapply Hf].
Qed.

(** The call that is about to write has not written. *)
Lemma fresh_request (y : system (C:=C)) k c id fs : client_ok (syClient y) → cnCalls (syClient y) !! k = Some c → caPhase c = Registered id →
  Forall (owned (syClient y)) fs → callId k ∉ map fID fs.
Proof.
  intros Hok Hk Hp Ho (f & Hf & Hin)%list_elem_of_fmap. rewrite Forall_forall in Ho. destruct (Ho f Hin) as (j & c' & Hj & -> & Hs).
  cbn [requestOf fID] in Hf. unfold callId in Hf. assert (j = k) as -> by lia. rewrite Hk in Hj. simplify_eq. by rewrite Hp in Hs.
Qed.

(** A step of the client leaves the streams as they are, or reads an answer. *)
Lemma inbound_step (y : system (C:=C)) s' : inbound y → clientStep (syClient y) s' → cnIn s' `suffix_of` cnIn (syClient y) →
  inbound (set_client y s').
Proof.
  intros (rs & part & n & Hpre & Hcut & Hok & Hopen & Hr & Hi) Hst Hsuf. unfold inbound. cbn [set_client syClient syServed syOpen].
  destruct (step_streams _ _ Hst Hsuf) as [[-> ->]|(x & Hx & ->)]; [by exists rs, part, n|].
  rewrite Hi in Hx. apply read_next in Hx as (f & fs & Hd & -> & Hrest); [|by apply Forall_drop|done].
  exists rs, part, (S n). split_and!; try done.
  - rewrite Hr. assert (rs !! n = Some f) as Hn by (pose proof (lookup_drop rs n 0) as E; rewrite Hd, Nat.add_0_r in E; by symmetry).
    erewrite take_S_r by done. by rewrite map_app.
  - rewrite Hrest. do 2 f_equal. rewrite <- Nat.add_1_r, <- drop_drop, Hd. done.
Qed.

(** The other half is kept while frames or a cut frame are written. *)
Lemma inbound_out (y y' : system (C:=C)) : inbound y → syServed y' = syServed y → (syOpen y' = true → syOpen y = true) →
  cnRead (syClient y') = cnRead (syClient y) → cnIn (syClient y') = cnIn (syClient y) → inbound y'.
Proof.
  intros (rs & part & n & Hpre & Hcut & Hok & Hopen & Hr & Hi) E1 E2 E3 E4. exists rs, part, n. rewrite E1, E3, E4. split_and!; auto.
Qed.

(** *** One step *)

Lemma cut_nil : cut [].
Proof. by left. Qed.

Lemma ok_client c0 y s' : system_ok c0 y → clientStep (syClient y) s' → Z.of_nat (length (cnCalls s')) < 2 ^ 64 →
  cnIn s' `suffix_of` cnIn (syClient y) → byteTypes s' → system_ok c0 (set_client y s').
Proof.
  intros [K1 K2 K3 K4 K5 K6] Hst Hn Hsuf Ht. split; cbn [set_client syClient syConn syServed]; try done.
  - by eapply clientStep_ok.
  - by eapply step_fits.
  - destruct K4 as (fs & part & ? & ? & ? & ? & ? & Ho). exists fs, part. split_and!; try done.
    cbn [set_client syClient syServed]. eapply Forall_impl; [exact Ho|]. intros f. by apply owned_advances.
  - by apply inbound_step.
Qed.

Lemma advanced_types s s' : clientStep s s' → length (cnCalls s') = length (cnCalls s) → byteTypes s → byteTypes s'.
Proof.
  intros Hst Hl Ht k c' Hk'. apply lookup_lt_Some in Hk' as Hlt. rewrite Hl in Hlt.
  apply lookup_lt_is_Some in Hlt as [c Hk]. destruct (step_advances _ _ _ _ Hst Hk) as (c1 & Hk1 & Et & _).
  rewrite Hk' in Hk1. simplify_eq. rewrite Et. by eapply Ht.
Qed.

(** A call in [Registered] writes all or a part of its request. *)
Lemma ok_write c0 y k c id s' n stuck :
  system_ok c0 y → cnCalls (syClient y) !! k = Some c → caPhase c = Registered id →
  clientStep (syClient y) s' → length (cnCalls s') = length (cnCalls (syClient y)) →
  cnRead s' = cnRead (syClient y) → cnIn s' = cnIn (syClient y) →
  (∃ c', cnCalls s' !! k = Some c' ∧ sent_out (caPhase c') = true) →
  Z.of_nat (length (cnCalls s')) < 2 ^ 64 →
  (syStuck y = true → n = 0%nat) → (stuck = false → syStuck y = false ∧ (length (EncodeFrame (caType c) id (caPayload c)) ≤ n)%nat) →
  system_ok c0 (mkSystem s' stuck (syOpen y) (syInput y ++ take n (EncodeFrame (caType c) id (caPayload c))) (syConn y) (syServed y)).
Proof.
  intros Hok Hk Hp Hst Hlen Hread Hin (c' & Hk' & Hs') Hn Hzero Hstuck. pose proof Hok as [K1 K2 K3 K4 K5 K6].
  assert (id = callId k) as -> by (apply (co_id _ _ _ _ (ci_calls _ K1 k c Hk)); by rewrite Hp).
  split; cbn [syClient syConn syServed]; try done.
  - by eapply clientStep_ok.
  - by eapply advanced_types.
  - by eapply step_fits.
  - destruct K4 as (fs & part & Ein & Hcut & Hwhole & Hf & Hnd & Ho).
    assert (Hoall : Forall (owned s') (map sdFrame (syServed y) ++ fs))
      by (eapply Forall_impl; [exact Ho|]; intros f; by apply owned_advances).
    pose proof (request_fits _ k c K2 K3 ltac:(lia) Hk) as Hfr.
    change (EncodeFrame (caType c) (callId k) (caPayload c)) with (encodeOf (requestOf k c)) in *.
    destruct (syStuck y) eqn:Es.
    { rewrite Hzero, take_0, app_nil_r by done. exists fs, part. split_and!; try done. cbn [syStuck]. intros ->.
      by destruct Hstuck. }
    rewrite Hwhole, app_nil_r in Ein by done. unfold outbound. cbn [syInput syStuck syServed syClient]. rewrite Ein.
    destruct (decide (length (encodeOf (requestOf k c)) ≤ n)%nat) as [Hge|Hlt].
    + exists (fs ++ [requestOf k c]), []. rewrite take_ge, framesBytes_app, app_nil_r by done. split_and!; [..|].
      * f_equal. unfold framesBytes. cbn. by rewrite app_nil_r.
      * apply cut_nil.
      * done.
      * by apply Forall_app_2; [|apply Forall_singleton].
      * rewrite app_assoc, map_app. apply NoDup_app. split; [done|]. split; [|apply NoDup_singleton].
        intros i Hi Hi2%list_elem_of_singleton. subst i. by eapply fresh_request in Hi.
      * rewrite app_assoc. apply Forall_app_2; [done|]. apply Forall_singleton. exists k, c'. split_and!; [done| |done].
        destruct (step_advances _ _ _ _ Hst Hk) as (c1 & Hk1 & Et & Epl & _). rewrite Hk' in Hk1. simplify_eq.
        unfold requestOf. by rewrite Et, Epl.
    + exists fs, (take n (encodeOf (requestOf k c))). split_and!; try done.
      * right. exists (requestOf k c), n. split_and!; [done|done|lia].
      * intros ->. destruct Hstuck; [done|lia].
  - by eapply inbound_out.
Qed.

Lemma serve_size u f (c : Conn (C:=C)) : frame_ok f →
  Z.of_nat (length (serveFrame marshal Quote persistText Sprint cluster cfg u (headerOf f) (fBody f) c).1) ≤ MaxFrameSize.
Proof. intros Hf. unfold serveFrame. cbv zeta. destruct (admitAndDispatch _ _ _ _ _ _ _ _ _ _). apply capped_size, Hf. Qed.

Lemma flush_any o out t id b : Z.of_nat (length b) ≤ MaxFrameSize →
  flushFrame o out t id b = (WIO <$> woErr o, out ++ take (woCount o) (encodeOf (mkFrame t id b))).
Proof.
  intros Hb. unfold flushFrame, WriteFrameRaw, fullWrite. cbn [woErr woCount].
  destruct (Z.ltb_spec MaxFrameSize (Z.of_nat (length b))); [lia|]. cbn [app fmap option_fmap option_map].
  rewrite rawHead_frameHead, (take_ge b) by done. by rewrite (take_ge (frameHead t id b)).
Qed.

(** What a turn adds, whether or not the answer could be written. *)
Lemma turn_shape y u f rest : frame_ok f → honestWrite (tuWrite u) →
  ∃ c' n open,
    turned y u (headerOf f) (fBody f) rest =
      mkSystem (set_in (syClient y) (cnIn (syClient y) ++ take n (encodeOf (mkFrame TypeResponse (fID f)
        (serveFrame marshal Quote persistText Sprint cluster cfg u (headerOf f) (fBody f) (syConn y)).1))))
        (syStuck y) open rest c'
        (syServed y ++ [mkServed f u (syConn y)
           (serveFrame marshal Quote persistText Sprint cluster cfg u (headerOf f) (fBody f) (syConn y)).1]) ∧
    cnWorld c' = cnWorld (serveFrame marshal Quote persistText Sprint cluster cfg u (headerOf f) (fBody f) (syConn y)).2 ∧
    cnSession c' = cnSession (serveFrame marshal Quote persistText Sprint cluster cfg u (headerOf f) (fBody f) (syConn y)).2 ∧
    (open = true → (Z.of_nat HeaderLen + MaxFrameSize ≤ Z.of_nat n)).
Proof.
  intros Hf Hw. unfold afterTurn. pose proof (serve_size u f (syConn y) Hf) as Hs.
  destruct (serveFrame _ _ _ _ _ _ _ _ _ _) as [resp c1]. cbn [fst snd] in *. cbn [headerOf hRequestID hType].
  rewrite flush_any by done. cbn [app]. destruct f as [t id b]. cbn [fType fID fBody].
  destruct (woErr (tuWrite u)) eqn:Ee; cbn [fmap option_fmap option_map].
  - by exists c1, (woCount (tuWrite u)), false.
  - eexists _, (woCount (tuWrite u)), _. split; [reflexivity|]. split_and!; [done..|]. intros _. by apply Hw.
Qed.

Lemma encode_length f : Z.of_nat (length (fBody f)) ≤ MaxFrameSize →
  Z.of_nat (length (encodeOf f)) ≤ Z.of_nat HeaderLen + MaxFrameSize.
Proof. intros Hf. unfold encodeOf, EncodeFrame. rewrite length_app, frameHead_length. lia. Qed.

Lemma ok_serve c0 y u hdr payload rest : system_ok c0 y → Z.of_nat (length (cnCalls (syClient y))) < 2 ^ 64 →
  syOpen y = true → ReadFrame (syInput y) = (inl (hdr, payload), rest) → honestWrite (tuWrite u) →
  system_ok c0 (turned y u hdr payload rest).
Proof.
  intros [K1 K2 K3 K4 K5 K6] Hn Hopen Hr Hw. destruct K4 as (fs & part & Ein & Hcut & Hwhole & Hf & Hnd & Ho).
  rewrite Ein in Hr. apply read_next in Hr as (f & fs' & -> & [= -> ->] & ->); [|done..].
  apply Forall_cons in Hf as [Hf Hfs]. destruct (turn_shape y u f (framesBytes fs' ++ part) Hf Hw) as (c' & n & open & -> & Ew & Es & Hall).
  pose proof (serve_size u f (syConn y) Hf) as Hsz. set (resp := (serveFrame _ _ _ _ _ _ _ _ _ _).1) in *.
  set (x := mkServed f u (syConn y) resp). assert (Hx : frame_ok (answerFrame x)).
  { split; [done|]. split; [apply Hf|done]. }
  split; cbn [syClient syConn syServed].
  - eapply (clientStep_ok (syClient y)); [done|apply step_receivedBytes|done].
  - exact K2.
  - exact K3.
  - exists fs', part. cbn [syInput syStuck syServed syClient]. rewrite (map_app sdFrame). cbn [map].
    rewrite <- (app_assoc (map sdFrame (syServed y)) [sdFrame x] fs'). cbn [app x sdFrame]. split_and!; try done.
  - destruct K5 as (rs & part2 & m & _ & _ & Hok & Hfull & Hread & Hin2). destruct (Hfull Hopen) as [-> ->].
    rewrite app_nil_r in Hin2. unfold inbound. cbn [syClient syServed syOpen set_in cnRead cnIn]. rewrite map_app. cbn [map].
    change (mkFrame TypeResponse (fID f) resp) with (answerFrame x). rewrite Hin2.
    destruct (decide (length (encodeOf (answerFrame x)) ≤ n)%nat) as [Hge|Hlt].
    + exists (map answerFrame (syServed y) ++ [answerFrame x]), [], (m `min` length (syServed y))%nat.
      assert (Hm : (m `min` length (syServed y) ≤ length (map answerFrame (syServed y)))%nat) by (rewrite length_map; lia).
      split_and!; [done|apply cut_nil|by apply Forall_app_2; [|apply Forall_singleton]|done|..].
      * rewrite Hread, take_app_le by done. f_equal. destruct (decide (m ≤ length (syServed y))%nat); [by rewrite Nat.min_l|].
        rewrite Nat.min_r, !take_ge by (rewrite ?length_map; lia). done.
      * rewrite take_ge, app_nil_r, drop_app_le, framesBytes_app by done. f_equal; [|unfold framesBytes; cbn; by rewrite app_nil_r].
        f_equal. destruct (decide (m ≤ length (syServed y))%nat); [by rewrite Nat.min_l|].
        rewrite Nat.min_r, !drop_ge by (rewrite ?length_map; lia). done.
    + exists (map answerFrame (syServed y)), (take n (encodeOf (answerFrame x))), m. split_and!; try done.
      * by exists [answerFrame x].
      * right. exists (answerFrame x), n. split_and!; [done|done|lia].
      * intros Ho2. specialize (Hall Ho2). pose proof (encode_length (answerFrame x) Hsz). lia.
  - eapply ran_snoc; [exact K6|done|apply surjective_pairing|done|exact Ew|exact Es].
Qed.

Lemma ok_hangup c0 y : system_ok c0 y →
  system_ok c0 (mkSystem (syClient y) (syStuck y) false (syInput y) (syConn y) (syServed y)).
Proof. intros [K1 K2 K3 K4 K5 K6]. split; try done. by eapply inbound_out. Qed.

Lemma ok_step c0 y y' : system_ok c0 y → step y y' → Z.of_nat (length (cnCalls (syClient y'))) < 2 ^ 64 → system_ok c0 y'.
Proof.
  intros Hok Hst Hn. inversion Hst as [? s' Hc Hout Hsuf Ht|? k c id Hk Hp Hs bytes|? k c id er n Hk Hp bytes|? u hdr payload rest Ho Hr Hw|?]; subst.
  - by apply ok_client.
  - cbn [syClient setPhase set_calls set_out cnCalls] in Hn. rewrite length_alter in Hn.
    pose proof (λ s', ok_write c0 y k c id s' (length bytes) false) as W. setoid_rewrite (take_ge (EncodeFrame _ _ _)) in W; [|done].
    apply W; try done.
    + by eapply step_ofCall, step_written.
    + cbn [setPhase set_calls set_out cnCalls]. by rewrite length_alter.
    + exists (set_phase c (Waiting id)). cbn [setPhase set_calls set_out cnCalls]. by rewrite list_lookup_alter_eq, Hk.
    + cbn [setPhase set_calls set_out cnCalls]. by rewrite length_alter.
    + congruence.
  - cbn [syClient setPhase set_calls set_out cnCalls] in Hn. rewrite length_alter in Hn.
    apply (ok_write c0 y k c id _ (if syStuck y then 0%nat else n) true); try done.
    + by eapply step_ofCall, step_writeFailed.
    + cbn [setPhase set_calls set_out cnCalls]. by rewrite length_alter.
    + exists (set_phase c (Leaving id (inr (CWrite er)))). cbn [setPhase set_calls set_out cnCalls]. by rewrite list_lookup_alter_eq, Hk.
    + cbn [setPhase set_calls set_out cnCalls]. by rewrite length_alter.
    + by intros ->.
  - apply ok_serve; try done. unfold afterTurn in Hn. destruct (serveFrame _ _ _ _ _ _ _ _ _ _) as [resp c1].
    by destruct (flushFrame _ _ _ _ _) as [[er|] out].
  - by apply ok_hangup.
Qed.

Lemma system_grows y y' : step y y' → (length (cnCalls (syClient y)) ≤ length (cnCalls (syClient y')))%nat.
Proof.
  intros Hst. inversion Hst as [? s' Hc Hout Hsuf Ht|? k c id Hk Hp Hs bytes|? k c id er n Hk Hp bytes|? u hdr payload rest Ho Hr Hw|?]; subst;
    cbn [syClient set_client setPhase set_calls set_out cnCalls]; rewrite ?length_alter; try done.
  - by apply calls_grow.
  - unfold afterTurn. destruct (serveFrame _ _ _ _ _ _ _ _ _ _) as [resp c1]. by destruct (flushFrame _ _ _ _ _) as [[er|] out].
Qed.

Lemma system0_ok w m : system_ok (mkConn w (newSession cfg) m) (system0 cfg w m).
Proof.
  split; [apply client0_ok|done|done|..].
  - exists [], []. split_and!; try done; [apply cut_nil|constructor].
  - exists [], [], 0%nat. split_and!; try done. apply cut_nil.
  - constructor.
Qed.

Lemma system_run_ok c0 y y' : system_ok c0 y → rtc step y y' →
  Z.of_nat (length (cnCalls (syClient y'))) < 2 ^ 64 → system_ok c0 y'.
Proof.
  intros Hok Hr. induction Hr as [|y y1 y' Hs Hr IH]; [done|]. intros Hn. apply IH; [|done]. eapply ok_step; [done..|].
  assert (length (cnCalls (syClient y1)) ≤ length (cnCalls (syClient y')))%nat; [|lia].
  clear -Hr. induction Hr as [|y y1 y' Hs Hr IH]; [done|]. apply system_grows in Hs. lia.
Qed.

(** C4: A client call is executed at most once and returns the answer to its own
    execution.  A client with any number of concurrent calls and the hosted server
    share a connection; writes of both sides may fail half-way, contexts end, the
    connection may break, in whatever order the goroutines and the server's loop
    take their turns.  What the server has executed is a serial run of requests, each
    the request of one call, unaltered, and no call's twice; and a call that returned
    a response returned the decoded answer of that run to its own request, or the
    report that the connection broke. *)
Theorem calls_end_to_end (w : World C) m y :
  rtc step (system0 cfg w m) y → Z.of_nat (length (cnCalls (syClient y))) < 2 ^ 64 →
  ranFrom (mkConn w (newSession cfg) m) (syServed y) (syConn y) ∧
  NoDup (map (λ x, fID (sdFrame x)) (syServed y)) ∧
  (∀ x, x ∈ syServed y → ∃ k c, cnCalls (syClient y) !! k = Some c ∧ sdFrame x = requestOf k c) ∧
  ∀ k c r, cnCalls (syClient y) !! k = Some c → caPhase c = Returned (inl r) →
    (∃ x r0, x ∈ syServed y ∧ sdFrame x = requestOf k c ∧
       unmarshalResponse (sdResp x) = Some r0 ∧ r = set_crID r0 (callId k)) ∨
    ∃ text, r = failure text (callId k).
Proof.
  intros Hr Hn. pose proof (system_run_ok _ _ _ (system0_ok w m) Hr Hn) as [K1 K2 K3 K4 K5 K6].
  destruct K4 as (fs & part & _ & _ & _ & _ & Hnd & Ho). apply Forall_app in Ho as [Ho _].
  assert (Hown : ∀ x, x ∈ syServed y → ∃ k c, cnCalls (syClient y) !! k = Some c ∧ sdFrame x = requestOf k c).
  { intros x Hx. rewrite Forall_forall in Ho. destruct (Ho (sdFrame x)) as (k & c & Hk & E & _); [|by exists k, c].
    apply list_elem_of_fmap. by exists x. }
  split_and!; try done.
  - rewrite map_app in Hnd. apply NoDup_app in Hnd as [Hnd _]. by rewrite map_map in Hnd.
  - intros k c r Hk Hp. destruct (co_result _ _ _ _ (ci_calls _ K1 k c Hk) (inl r)) as [(hdr & payload & r0 & Hin & _ & Hid & Hu & ->)|Hf];
      [by rewrite Hp| |by right]. left.
    destruct K5 as (rs & part2 & n & Hpre & _ & _ & _ & Hread & _). rewrite Hread in Hin.
    apply list_elem_of_fmap in Hin as (a & [= -> ->] & Ha). assert (a ∈ map answerFrame (syServed y)) as (x & -> & Hx)%list_elem_of_fmap.
    { destruct Hpre as [l ->]. apply elem_of_app. left. by eapply elem_of_take in Ha as (i & ? & _); eapply list_elem_of_lookup_2. }
    exists x, r0. split_and!; try done. destruct (Hown x Hx) as (j & c' & Hj & E). cbn [headerOf hRequestID answerFrame fID] in Hid.
    rewrite E in Hid. cbn [requestOf fID] in Hid. unfold callId in Hid. assert (j = k) as -> by lia. congruence.
Qed.
End Whole.
