(* ===== verification/CallProofs.v ===== *)
(** * What a call of the client library does: the engine's result for the bound statement *)

From S2P Require Import Prelude GoLib GoFacts Value Table Schema Database Storage Bind Json Request RequestProofs JsonText JsonTextProofs.
From S2P Require Import Image ImageProofs Wire Session Sha256 Config Remote RemoteProofs Client ResponseProofs System.
Open Scope Z_scope.

#[local] Opaque MaxFrameSize MaxQuerySize.

Section Calls.
Context `{GoStd} `{Zlib} `{JsonStd}.
(** encoding/json's strings, which the decoder reads back. *)
Context (quote : str → str) (Hquote : ∀ s rest, validUTF8 s = true → unquote (quote s ++ rest) = Some (s, rest)).
Context (marshal : Database → str + err) (Quote : str → str) (persistText : persistErr → str) (Sprint : json → str).
Context {C : Type} (cluster : option (RCluster C)) (cfg : Config).
Abbreviation limits := (hlLimits (cfLimits cfg)).
Abbreviation serve := (serveFrame marshal Quote persistText Sprint cluster cfg).
Abbreviation exec := (execOne marshal Quote persistText cluster limits (cfMode cfg)).

(** ** Payloads arrive as they were sent *)

(** An argument as the server binds it: every number is a float64. *)
Definition argParam (a : arg) : param :=
  match a with
  | ArgNil => PNil
  | ArgBool b => PBool b
  | ArgStr s => PStr s
  | ArgInt n => PFloat (f64_of_Z n)
  | ArgFloat f => PFloat f
  end.
Definition arg_ok (a : arg) : Prop :=
  match a with
  | ArgStr s => validUTF8 s = true
  | ArgInt n => strconv_ParseFloat (FormatInt n) = inl (f64_of_Z n)
  | ArgFloat f => ∃ t, json_Float f = inl t ∧ isNumber t = true ∧ strconv_ParseFloat t = inl f
  | _ => True
  end.
Definition argJson (a : arg) : json := match argTree a with inl j => j | inr _ => JNull end.

Lemma arg_wire a : arg_ok a → argTree a = inl (argJson a) ∧ jsonOK (argJson a) = true ∧ jdepth (argJson a) ≤ 0 ∧
  decParam Sprint PNil (argJson a) = Some (argParam a).
Proof.
  destruct a as [|b|s|n|f]; unfold argJson; cbn [argTree arg_ok]; try done.
  - intros E. cbn [jsonOK decParam]. by rewrite isNumber_FormatInt, E.
  - intros (t & -> & Hn & Hp). cbn [jsonOK decParam]. by rewrite Hn, Hp.
Qed.
Lemma argTrees_ok args : Forall arg_ok args → argTrees args = inl (map argJson args).
Proof.
  induction 1 as [|a l Ha _ IH]; [done|]. cbn [argTrees map]. destruct (arg_wire a Ha) as (-> & _). by rewrite IH.
Qed.

Definition queryTree (sql : str) (args : list arg) (database : str) : json :=
  JObj (queryMembers sql (map argJson args) database).

Lemma query_text sql args database : validUTF8 sql = true → validUTF8 database = true → Forall arg_ok args →
  jsonOK (queryTree sql args database) = true ∧ jdepth (queryTree sql args database) ≤ maxNestingDepth.
Proof.
  intros Hs Hd Ha. unfold queryTree, queryMembers. split.
  - cbn [jsonOK]. rewrite !forallb_app, optMember_ok by done. cbn [forallb fst snd jsonOK]. rewrite Hs, andb_true_r.
    case_bool_decide; [done|]. cbn [forallb fst snd jsonOK]. rewrite !andb_true_r. change (validUTF8 _) with true. cbn [andb].
    apply forallb_forall. intros j (a & <- & Hin)%in_map_iff. apply list_elem_of_In in Hin.
    rewrite Forall_forall in Ha. by apply arg_wire, Ha.
  - transitivity 2; [|by unfold maxNestingDepth]. apply (depth_obj _ 1); [lia|]. rewrite !Forall_app. split_and!.
    + by apply Forall_singleton.
    + case_bool_decide; [done|]. apply Forall_singleton. cbn [snd]. apply (depth_arr _ 0); [lia|].
      apply Forall_forall. intros j (a & -> & Hin)%list_elem_of_fmap. rewrite Forall_forall in Ha. by apply arg_wire, Ha.
    + unfold optMember. case_bool_decide; [done|]. by apply Forall_singleton.
Qed.

Lemma query_decodes sql args database : Forall arg_ok args →
  decQuery Sprint (mkQueryPayload [] nilSlice []) (queryTree sql args database)
  = Some (mkQueryPayload sql (mkSlice (map argParam args) (length args)) database).
Proof.
  intros Ha. unfold queryTree, queryMembers, decQuery, decStruct, optMember. rewrite !foldl_app. cbn [foldl fst snd mbind option_bind].
  known_fields. cbn [decString mbind option_bind qpSQL qpParams qpDatabase].
  assert (Hp : decSlice PNil (decParam Sprint) nilSlice (JArr (map argJson args)) = Some (mkSlice (map argParam args) (length args))).
  { apply decSlice_fmap. intros a Hin. rewrite Forall_forall in Ha. by apply arg_wire, Ha. }
  match goal with |- foldl ?step _ _ = _ => assert (Hd : ∀ l, foldl step (Some (mkQueryPayload sql l [])) (if bool_decide (database = []) then [] else [(lit "database", JStr database)])
    = Some (mkQueryPayload sql l database)) end.
  2:{ destruct args as [|a args]; cbn [map] in *.
      - rewrite bool_decide_true by done. apply Hd.
      - rewrite bool_decide_false by done. cbn [foldl fst snd mbind option_bind]. known_fields.
        cbn [mbind option_bind qpSQL qpParams qpDatabase]. rewrite Hp. apply Hd. }
  intros l. case_bool_decide; subst; [done|]. cbn [foldl fst snd mbind option_bind]. by known_fields.
Qed.

Lemma query_arrives sql args database : validUTF8 sql = true → validUTF8 database = true → Forall arg_ok args →
  ∃ payload, marshalQuery quote sql args database = inl payload ∧
    unmarshalQuery Sprint payload = Some (mkQueryPayload sql (mkSlice (map argParam args) (length args)) database).
Proof.
  intros Hs Hd Ha. exists (printJ quote (queryTree sql args database)). split.
  - unfold marshalQuery. by rewrite argTrees_ok.
  - unfold unmarshalQuery. destruct (query_text sql args database) as [Ht Hdep]; [done..|].
    rewrite (parse_printed quote Hquote) by done. by apply query_decodes.
Qed.

(** ** The answer *)

(** What the server makes of a statement with its arguments. *)
Definition callOutcome (e : Env) (io : persistIO) (sql : str) (params : list param) (w : World C) (s : RSession)
    : outcome * (World C * RSession) :=
  let invalid msg := (OError (xerr "INVALID_REQUEST" msg), (w, s)) in
  if bool_decide (sql = []) then invalid (lit "sql required")
  else if MaxQuerySize <? Z.of_nat (length sql) then invalid (lit "query too large")
  else match remoteBind sql params with
  | Err er => invalid (errText Quote er)
  | Panic => (OPanic, (w, s))
  | Ok bound => exec e io bound w s
  end.

Definition outcomeResponse (id : Z) (o : outcome) : Response :=
  match o with
  | OResult r => mkResponse id (lit "ok") [] [] (rColumns r) (rRows r) (rAffected r) (rMessage r) [] false
  | OError e => mkResponse id (lit "error") (xCode e) (xMsg e) [] [] 0 [] (xLeader e) (xRetryable e)
  | OPanic => errorOf id "INTERNAL_ERROR" (lit "internal error")
  end.

(** The answer is within the configured result size and a frame. *)
Definition withinLimits (r : Response) : Prop :=
  let n := Z.of_nat (length (default [] (mustResponseJSON r))) in
  (0 < MaxResultBytes limits → n ≤ MaxResultBytes limits) ∧ n ≤ MaxFrameSize.

Definition isCall (t : Z) : Prop := t = TypeQuery ∨ t = TypeExec.

Lemma capped_fits id resp (c : Conn (C:=C)) : (0 < MaxResultBytes limits → Z.of_nat (length resp) ≤ MaxResultBytes limits) →
  Z.of_nat (length resp) ≤ MaxFrameSize → capped cfg id resp c = (resp, c).
Proof.
  intros H1r H2r. unfold capped. cbv zeta.
  destruct (Z.ltb_spec 0 (MaxResultBytes limits)) as [Hpos|]; cbn [andb];
    [destruct (Z.ltb_spec (MaxResultBytes limits) (Z.of_nat (length resp))); [specialize (H1r Hpos); lia|]|];
    (destruct (Z.ltb_spec MaxFrameSize (Z.of_nat (length resp))); [lia|done]).
Qed.

Lemma errorResponse_outcome id code msg :
  errorResponse id code msg = mustResponseJSON (outcomeResponse id (OError (xerr code msg))).
Proof. done. Qed.

Lemma serve_call u (c : Conn (C:=C)) id t payload p :
  isCall t → 0 ≤ id < 2 ^ 64 → tuAdmit u = None → refused cfg c = false → unmarshalQuery Sprint payload = Some p →
  let '(o, st) := callOutcome (tuEnv u) (tuIO u) (qpSQL p) (sliceList (qpParams p)) (cnWorld c) (cnSession c) in
  response_ok (outcomeResponse id o) → withinLimits (outcomeResponse id o) →
  let '(resp, c') := serve u (headerOf (mkFrame t id payload)) payload c in
  mustResponseJSON (outcomeResponse id o) = Some resp ∧ (cnWorld c', cnSession c') = st.
Proof.
  intros Ht Hid Hadm Href Hp.
  destruct (callOutcome _ _ _ _ _ _) as [o st] eqn:Eo. intros Hok [Hmax Hfr].
  destruct (response_wire _ Hok) as [Ej _]. rewrite Ej in *. cbn [default from_option Datatypes.id] in *.
  set (b := printJ _ _) in *. unfold serveFrame. cbv zeta. set (c1 := counted (received _) c).
  assert (Hd : ∃ c2, admitAndDispatch marshal Quote persistText Sprint cluster cfg u (headerOf (mkFrame t id payload)) payload c1 = (b, c2) ∧
    (cnWorld c2, cnSession c2) = st).
  2:{ destruct Hd as (c2 & -> & Est). cbn [headerOf hRequestID fID]. rewrite capped_fits by done. done. }
  unfold admitAndDispatch. rewrite Hadm. assert (∀ b : bool, (if b then None else None) = @None err) as -> by by intros [].
  unfold dispatch. cbn [headerOf hRequestID hType fID].
  assert (Hh : handle marshal Quote persistText Sprint cluster cfg (tuEnv u) (tuIO u) (headerOf (mkFrame t id payload)) payload c1
    = handleQuery marshal Quote persistText Sprint cluster cfg (tuEnv u) (tuIO u) id payload c1) by (by destruct Ht as [-> | ->]).
  rewrite Hh. unfold handleQuery. cbv zeta. change (refused cfg c1) with (refused cfg c). rewrite Href, Hp.
  unfold callOutcome in Eo. cbn [cnWorld cnSession counted c1].
  destruct (bool_decide (qpSQL p = [])); [|destruct (MaxQuerySize <? _); [|destruct (remoteBind _ _) as [bound|er|]]].
  - apply pair_equal_spec in Eo as [<- <-]. rewrite errorResponse_outcome, Ej. eexists. split; [reflexivity|done].
  - apply pair_equal_spec in Eo as [<- <-]. rewrite errorResponse_outcome, Ej. eexists. split; [reflexivity|done].
  - rewrite Eo. destruct o as [r|e|]; cbn [outcomeResponse] in Ej.
    + unfold okResult. rewrite Ej. eexists. split; [reflexivity|by destruct st].
    + unfold execErrorResponse. rewrite Ej. eexists. split; [reflexivity|by destruct st].
    + unfold errorBytes, errorResponse. rewrite Ej. eexists. split; [reflexivity|by destruct st].
  - apply pair_equal_spec in Eo as [<- <-]. rewrite errorResponse_outcome, Ej. eexists. split; [reflexivity|done].
  - apply pair_equal_spec in Eo as [<- <-]. cbn [outcomeResponse] in Ej. unfold errorBytes, errorResponse. rewrite Ej. eexists. split; [reflexivity|done].
Qed.

(** What the client's [roundTrip] returns for a request executed in this state; a
    response that does not decode is passed over, and the call waits for its context. *)
Definition answerTo (u : turnIO) (id : Z) (c : Conn (C:=C)) (t : Z) (payload : str) : callResult :=
  match unmarshalResponse (serve u (headerOf (mkFrame t id payload)) payload c).1 with
  | Some r => inl (set_crID r id)
  | None => inr (CCtx DeadlineExceeded)
  end.

(** The client reports the outcome. *)
Definition refusedAs (o : outcome) (er : clientErr) : Prop :=
  match o, er with
  | OError e, Refused x => x = mkServerError (xCode e) (xMsg e) (xRetryable e) (xLeader e)
  | OPanic, Refused x => x = mkServerError (lit "INTERNAL_ERROR") (lit "internal error") false []
  | _, _ => False
  end.
Definition rowsShow (o : outcome) (x : Rows + clientErr) : Prop :=
  match o, x with
  | OResult r, inl rows => sliceList (roColumns rows) = rColumns r ∧ map sliceList (sliceList (roData rows)) = map (map seen) (rRows r)
  | _, inr er => refusedAs o er
  | _, _ => False
  end.
Definition execShows (o : outcome) (x : ExecResult + clientErr) : Prop :=
  match o, x with
  | OResult r, inl res => res = mkExecResult (rAffected r) (rMessage r)
  | _, inr er => refusedAs o er
  | _, _ => False
  end.

(** C8: Calling the server is calling the engine.  A client's [Query] or [Exec] with
    any statement and arguments, sent as JSON over a connection that is logged in:
    the server binds exactly the arguments (numbers as float64), executes the bound
    statement in the connection's session, and the client returns the engine's
    columns, rows, affected rows and message, or its error with code, text, leader
    and retry flag, a panic as an internal error; and the server's database and
    session are those after the statement.  Texts are UTF-8, numbers have JSON texts
    and the answer is within the limits. *)
Theorem client_call_transparent u (c : Conn (C:=C)) id database sql args :
  0 ≤ id < 2 ^ 64 → tuAdmit u = None → refused cfg c = false →
  validUTF8 sql = true → validUTF8 database = true → Forall arg_ok args →
  let '(o, st) := callOutcome (tuEnv u) (tuIO u) sql (map argParam args) (cnWorld c) (cnSession c) in
  response_ok (outcomeResponse id o) → withinLimits (outcomeResponse id o) →
  rowsShow o (clientQuery (answerTo u id c) (marshalQuery quote) database sql args) ∧
  execShows o (clientExec (answerTo u id c) (marshalQuery quote) database sql args) ∧
  ∀ t payload, isCall t → marshalQuery quote sql args database = inl payload →
    let c' := (serve u (headerOf (mkFrame t id payload)) payload c).2 in (cnWorld c', cnSession c') = st.
Proof.
  intros Hid Hadm Href Hs Hd Ha. destruct (query_arrives sql args database Hs Hd Ha) as (payload & Em & Eu).
  pose proof (λ t Ht, serve_call u c id t payload _ Ht Hid Hadm Href Eu) as Hserve. cbn [qpSQL qpParams] in Hserve.
  rewrite sliceList_full in Hserve by by rewrite length_map.
  destruct (callOutcome _ _ _ _ _ _) as [o st]. intros Hok Hl.
  assert (Hrt : ∀ t, isCall t → checked (answerTo u id c t payload) = checked (inl (decodedResponse (outcomeResponse id o)))).
  { intros t Ht. specialize (Hserve t Ht Hok Hl). unfold answerTo. destruct (serve _ _ _ _) as [resp c']. destruct Hserve as [Ej _].
    destruct (response_wire _ Hok) as [Ew Er]. rewrite Ew in Ej. apply (inj Some) in Ej as <-. cbn [fst]. rewrite Er. destruct o; done. }
  unfold clientQuery, clientExec. rewrite Em, !Hrt by (by left + by right). split_and!.
  - destruct o as [r| |]; cbn; try done. split; [by apply sliceList_full|apply (decoded_rows (outcomeResponse id (OResult r)))].
  - by destruct o.
  - intros t p Ht [= <-]. specialize (Hserve t Ht Hok Hl). destruct (serve _ _ _ _) as [resp c']. apply Hserve.
Qed.
End Calls.
