(* ===== verification/Serving.v ===== *)
(** * The hosted server's accept loop, shutdown and metrics: internal/remote/server.go, metrics.go, health.go

    [New], [Serve] and [Shutdown] with one goroutine per connection, as a transition
    system: the loop, each connection's goroutine and the caller of [Shutdown] take
    one operation on a shared object per step, in any order.  What a connection does
    while it is handled is [handleConn] of Remote.
    At the end: slots, counters and the wait group agree, and what a shutdown waits for. *)

From S2P Require Import Prelude GoLib Value Table Storage Json JsonText JsonTextProofs Image Session Config Remote.
Open Scope Z_scope.

(** ** Goroutines *)

(** A connection's goroutine: [trackConn]; [AcquireConn]; the frame loop; after
    [handleConn] has released its slot and closed the connection; [untrackConn]; and
    the deferred [activeConns.Add(-1)], [wg.Done] and the semaphore's release. *)
Inductive stage := Spawned | Tracked | Handling | Handled | Untracked | Uncounted | Signalled | Gone.

(** [Serve]: in Accept; with a connection; after the semaphore took it; after each of
    [totalConns.Add], [activeConns.Add] and [wg.Add]; returned. *)
Inductive loopAt := Accepting | Holding | Slotted | Totalled | Counted | Added | Exited.

(** [Shutdown]: after closing [closed]; after [ready]; waiting, with the connections it
    saw; the same after it closed them; [done] was closed. *)
Inductive shutting := NotCalled | Latched | Unready | Waiting (seen : gset nat) | Forced (seen : gset nat) | Drained.

(** Connections are numbered in the order in which their goroutines start.  [svTaken]
    counts the connections Accept returned; [svNudged] holds those whose read deadline
    was shortened, [svCut] those closed from outside. *)
Record serving := mkServing {
  svLoop : loopAt; svSem : nat; svMetrics : Metrics; svLimiter : option Limiter;
  svThreads : list stage; svConns : gset nat; svWG : nat; svTaken : nat;
  svClosed : bool; svReady : bool; svListening : bool; svWriter : bool; svCancelled : bool;
  svShut : shutting; svNudged : gset nat; svCut : gset nat;
}.

(** ** Metrics *)

(** [atomic.Int64.Add] *)
Definition addInt64 (n k : Z) : Z := (n + k + 2 ^ 63) mod 2 ^ 64 - 2 ^ 63.
Definition totalConn m := mkMetrics (mActiveConns m) (addInt64 (mTotalConns m) 1) (mRejectedConns m) (mQueries m)
  (mFailedQueries m) (mRejectedQueries m) (mAuthFailures m) (mBytesRx m) (mBytesTx m) (mLatencyNanos m).
Definition activeConn (k : Z) m := mkMetrics (addInt64 (mActiveConns m) k) (mTotalConns m) (mRejectedConns m) (mQueries m)
  (mFailedQueries m) (mRejectedQueries m) (mAuthFailures m) (mBytesRx m) (mBytesTx m) (mLatencyNanos m).
Definition rejectedConn m := mkMetrics (mActiveConns m) (mTotalConns m) (addInt64 (mRejectedConns m) 1) (mQueries m)
  (mFailedQueries m) (mRejectedQueries m) (mAuthFailures m) (mBytesRx m) (mBytesTx m) (mLatencyNanos m).
Definition zeroMetrics : Metrics := mkMetrics 0 0 0 0 0 0 0 0 0 0.

(** ** [New], and the beginning of [Serve] *)

Definition newServer (cfg : Config) : Config * option Limiter :=
  (atLeastOne cfg, Some (NewLimiter (hlLimits (cfLimits cfg)))).

Definition serving0 (l : option Limiter) (writer : bool) : serving :=
  mkServing Accepting 0 zeroMetrics l [] ∅ 0 0 false true true writer false NotCalled ∅ ∅.

(** What an error of Accept makes of the loop: [Serve] returns. *)
Definition acceptEnds (closed cancelled timeout : bool) (text : str) : bool :=
  closed || cancelled || (negb timeout && Contains text (lit "closed")).

(** ** Steps *)

Section Steps.
(** The capacity of the loop's semaphore, [cfg.MaxConnections]. *)
Context (cap : nat).

Definition set_loop s l := mkServing l (svSem s) (svMetrics s) (svLimiter s) (svThreads s) (svConns s) (svWG s) (svTaken s)
  (svClosed s) (svReady s) (svListening s) (svWriter s) (svCancelled s) (svShut s) (svNudged s) (svCut s).
Definition set_metrics s m := mkServing (svLoop s) (svSem s) m (svLimiter s) (svThreads s) (svConns s) (svWG s) (svTaken s)
  (svClosed s) (svReady s) (svListening s) (svWriter s) (svCancelled s) (svShut s) (svNudged s) (svCut s).
Definition set_sem s n := mkServing (svLoop s) n (svMetrics s) (svLimiter s) (svThreads s) (svConns s) (svWG s) (svTaken s)
  (svClosed s) (svReady s) (svListening s) (svWriter s) (svCancelled s) (svShut s) (svNudged s) (svCut s).
Definition set_limiter s l := mkServing (svLoop s) (svSem s) (svMetrics s) l (svThreads s) (svConns s) (svWG s) (svTaken s)
  (svClosed s) (svReady s) (svListening s) (svWriter s) (svCancelled s) (svShut s) (svNudged s) (svCut s).
Definition set_threads s l := mkServing (svLoop s) (svSem s) (svMetrics s) (svLimiter s) l (svConns s) (svWG s) (svTaken s)
  (svClosed s) (svReady s) (svListening s) (svWriter s) (svCancelled s) (svShut s) (svNudged s) (svCut s).
Definition set_conns s x := mkServing (svLoop s) (svSem s) (svMetrics s) (svLimiter s) (svThreads s) x (svWG s) (svTaken s)
  (svClosed s) (svReady s) (svListening s) (svWriter s) (svCancelled s) (svShut s) (svNudged s) (svCut s).
Definition set_wg s n := mkServing (svLoop s) (svSem s) (svMetrics s) (svLimiter s) (svThreads s) (svConns s) n (svTaken s)
  (svClosed s) (svReady s) (svListening s) (svWriter s) (svCancelled s) (svShut s) (svNudged s) (svCut s).
Definition take_conn s := mkServing Holding (svSem s) (svMetrics s) (svLimiter s) (svThreads s) (svConns s) (svWG s) (S (svTaken s))
  (svClosed s) (svReady s) (svListening s) (svWriter s) (svCancelled s) (svShut s) (svNudged s) (svCut s).
(** [Serve] returns; its deferred call closes the writer of the log. *)
Definition leave_serve s := mkServing Exited (svSem s) (svMetrics s) (svLimiter s) (svThreads s) (svConns s) (svWG s) (svTaken s)
  (svClosed s) (svReady s) (svListening s) false (svCancelled s) (svShut s) (svNudged s) (svCut s).
Definition stop_listening s := mkServing (svLoop s) (svSem s) (svMetrics s) (svLimiter s) (svThreads s) (svConns s) (svWG s) (svTaken s)
  (svClosed s) (svReady s) false (svWriter s) (svCancelled s) (svShut s) (svNudged s) (svCut s).
Definition cancel_ctx s := mkServing (svLoop s) (svSem s) (svMetrics s) (svLimiter s) (svThreads s) (svConns s) (svWG s) (svTaken s)
  (svClosed s) (svReady s) (svListening s) (svWriter s) true (svShut s) (svNudged s) (svCut s).
Definition set_shut s closed ready listening shut nudged cut :=
  mkServing (svLoop s) (svSem s) (svMetrics s) (svLimiter s) (svThreads s) (svConns s) (svWG s) (svTaken s)
  closed ready listening (svWriter s) (svCancelled s) shut nudged cut.
Definition goTo (k : nat) (t : stage) s := set_threads s (<[k := t]> (svThreads s)).

(** The accept loop. *)
Inductive loopStep : serving → serving → Prop :=
| lp_accept s : svLoop s = Accepting → svListening s = true → loopStep s (take_conn s)
| lp_error s timeout text : svLoop s = Accepting → acceptEnds (svClosed s) (svCancelled s) timeout text = true →
    loopStep s (leave_serve s)
| lp_slot s : svLoop s = Holding → (svSem s < cap)%nat → loopStep s (set_loop (set_sem s (S (svSem s))) Slotted)
| lp_reject s : svLoop s = Holding → ¬ (svSem s < cap)%nat →
    loopStep s (set_loop (set_metrics s (rejectedConn (svMetrics s))) Accepting)
| lp_total s : svLoop s = Slotted → loopStep s (set_loop (set_metrics s (totalConn (svMetrics s))) Totalled)
| lp_active s : svLoop s = Totalled → loopStep s (set_loop (set_metrics s (activeConn 1 (svMetrics s))) Counted)
| lp_wait s : svLoop s = Counted → loopStep s (set_loop (set_wg s (S (svWG s))) Added)
| lp_go s : svLoop s = Added → loopStep s (set_loop (set_threads s (svThreads s ++ [Spawned])) Accepting).

(** The goroutine of connection [k]. *)
Inductive connStep (k : nat) : serving → serving → Prop :=
| cn_track s : svThreads s !! k = Some Spawned → connStep k s (goTo k Tracked (set_conns s ({[k]} ∪ svConns s)))
| cn_acquire s l : svThreads s !! k = Some Tracked → AcquireConn (svLimiter s) = (true, l) →
    connStep k s (goTo k Handling (set_limiter s l))
| cn_refused s l : svThreads s !! k = Some Tracked → AcquireConn (svLimiter s) = (false, l) →
    connStep k s (goTo k Handled (set_limiter s l))
| cn_handled s l : svThreads s !! k = Some Handling → ReleaseConn (svLimiter s) = Some l →
    connStep k s (goTo k Handled (set_limiter s l))
| cn_untrack s : svThreads s !! k = Some Handled → connStep k s (goTo k Untracked (set_conns s (svConns s ∖ {[k]})))
| cn_inactive s : svThreads s !! k = Some Untracked →
    connStep k s (goTo k Uncounted (set_metrics s (activeConn (-1) (svMetrics s))))
| cn_done s n : svThreads s !! k = Some Uncounted → svWG s = S n → connStep k s (goTo k Signalled (set_wg s n))
| cn_release s n : svThreads s !! k = Some Signalled → svSem s = S n → connStep k s (goTo k Gone (set_sem s n)).

(** [Shutdown]; a second call returns at once. *)
Inductive shutStep : serving → serving → Prop :=
| sh_close s : svShut s = NotCalled → svClosed s = false →
    shutStep s (set_shut s true (svReady s) (svListening s) Latched (svNudged s) (svCut s))
| sh_unready s : svShut s = Latched →
    shutStep s (set_shut s (svClosed s) false (svListening s) Unready (svNudged s) (svCut s))
| sh_snapshot s : svShut s = Unready →
    shutStep s (set_shut s (svClosed s) (svReady s) false (Waiting (svConns s)) (svNudged s ∪ svConns s) (svCut s))
| sh_timeout s seen : svShut s = Waiting seen →
    shutStep s (set_shut s (svClosed s) (svReady s) (svListening s) (Forced seen) (svNudged s) (svCut s ∪ seen))
| sh_drained s seen : svShut s = Waiting seen ∨ svShut s = Forced seen → svWG s = 0%nat →
    shutStep s (set_shut s (svClosed s) (svReady s) (svListening s) Drained (svNudged s) (svCut s)).

(** Also the cancellation of the context, the goroutine that then closes the
    listener, and the counters of the frame loops. *)
Inductive serveStep : serving → serving → Prop :=
| sv_loop s s' : loopStep s s' → serveStep s s'
| sv_conn s s' k : connStep k s s' → serveStep s s'
| sv_shut s s' : shutStep s s' → serveStep s s'
| sv_cancel s : serveStep s (cancel_ctx s)
| sv_closeListener s : svCancelled s = true → serveStep s (stop_listening s)
| sv_frames s m : mActiveConns m = mActiveConns (svMetrics s) → mTotalConns m = mTotalConns (svMetrics s) →
    mRejectedConns m = mRejectedConns (svMetrics s) → serveStep s (set_metrics s m).
End Steps.

(** ** [Metrics.Snapshot] and the health endpoints *)

Record Snapshot := mkSnapshot { snCounters : Metrics; snAvgLatencyMs : float64; snUptimeSec : Z }.

(** [uptime]: seconds since the start, [None] when the start is not set. *)
Definition snapshotOf (uptime : option Z) (m : Metrics) : Snapshot :=
  mkSnapshot m
    (if 0 <? mQueries m then f64_div (f64_div (f64_of_Z (mLatencyNanos m)) (f64_of_Z (mQueries m))) (f64_of_Z (10 ^ 6))
     else f64_zero)
    (default 0 uptime).

Record healthReply := mkHealth { hrStatus : Z; hrType : str; hrBody : str }.
Definition jsonType : str := lit "application/json".
Definition textType : str := lit "text/plain; version=0.0.4; charset=utf-8".
(** What [json.Encoder] writes: the keys of a map in order, and a newline. *)
Definition readyBody (state status : string) : str :=
  printJ quoteEsc (JObj [(lit "checks", JObj [(lit "listener", JStr (lit state)); (lit "storage", JStr (lit state))]);
                         (lit "status", JStr (lit status))]) ++ [10].

Section Health.
(** [%v] of a float64 *)
Context (formatV : float64 → str).

Definition writeMetric (name help kind : string) (value : str) : str :=
  lit "# HELP superdb_" ++ lit name ++ lit " " ++ lit help ++ [10] ++ lit "# TYPE superdb_" ++ lit name ++ lit " " ++ lit kind
  ++ [10] ++ lit "superdb_" ++ lit name ++ lit " " ++ value ++ [10].
Definition metricsBody (x : Snapshot) : str :=
  let m := snCounters x in
  writeMetric "active_connections" "Currently active client connections." "gauge" (FormatInt (mActiveConns m))
  ++ writeMetric "connections_total" "Accepted client connections since process start." "counter" (FormatInt (mTotalConns m))
  ++ writeMetric "connections_rejected_total" "Client connections rejected by admission control." "counter" (FormatInt (mRejectedConns m))
  ++ writeMetric "queries_total" "Protocol requests processed since process start." "counter" (FormatUint (mQueries m))
  ++ writeMetric "queries_failed_total" "Requests that returned or triggered an error." "counter" (FormatUint (mFailedQueries m))
  ++ writeMetric "queries_rejected_total" "Requests rejected by query admission control." "counter" (FormatUint (mRejectedQueries m))
  ++ writeMetric "auth_failures_total" "Authentication failures since process start." "counter" (FormatUint (mAuthFailures m))
  ++ writeMetric "bytes_received_total" "Protocol bytes received since process start." "counter" (FormatUint (mBytesRx m))
  ++ writeMetric "bytes_sent_total" "Protocol bytes sent since process start." "counter" (FormatUint (mBytesTx m))
  ++ writeMetric "query_latency_average_seconds" "Average request latency since process start in seconds." "gauge"
       (formatV (f64_div (snAvgLatencyMs x) (f64_of_Z 1000)))
  ++ writeMetric "uptime_seconds" "Process uptime in seconds." "gauge" (FormatInt (snUptimeSec x)).

(** The three handlers of [newHealthServer]; another path has none. *)
Definition healthReplyTo (path method : str) (ready : bool) (x : Snapshot) : option healthReply :=
  let get r := Some (if bool_decide (method = lit "GET") then r else mkHealth 405 [] []) in
  if bool_decide (path = lit "/health") then
    get (mkHealth 200 jsonType (printJ quoteEsc (JObj [(lit "status", JStr (lit "ok"))])))
  else if bool_decide (path = lit "/ready") then
    get (if ready then mkHealth 200 jsonType (readyBody "ready" "ready")
         else mkHealth 503 jsonType (readyBody "not_ready" "not_ready"))
  else if bool_decide (path = lit "/metrics") then get (mkHealth 200 textType (metricsBody x))
  else None.
End Health.

(** ** Counting goroutines *)

Definition countIf (p : stage → bool) (l : list stage) : nat := length (filter (λ t, p t = true) l).
Definition b2n (b : bool) : nat := if b then 1 else 0.

Lemma countIf_cons p t l : countIf p (t :: l) = (b2n (p t) + countIf p l)%nat.
Proof. unfold countIf. rewrite filter_cons. destruct (p t); by case_decide. Qed.
Lemma countIf_snoc p t l : countIf p (l ++ [t]) = (countIf p l + b2n (p t))%nat.
Proof. unfold countIf. rewrite filter_app, length_app. f_equal. cbn. destruct (p t); by case_decide. Qed.
Lemma countIf_insert p l k t t' : l !! k = Some t → (countIf p (<[k := t']> l) + b2n (p t) = countIf p l + b2n (p t'))%nat.
Proof.
  revert k. induction l as [|a l IH]; intros [|k] Hk; simplify_eq/=; rewrite !countIf_cons; [lia|]. specialize (IH k Hk). lia.
Qed.
Lemma countIf_zero p l k t : countIf p l = 0%nat → l !! k = Some t → p t = false.
Proof.
  revert k. induction l as [|a l IH]; intros [|k] Hz Hk; simplify_eq/=; rewrite countIf_cons in Hz.
  - by destruct (p t).
  - eapply IH; [lia|done].
Qed.

(** ** The invariant *)

(** From where to where a goroutine is counted: by the semaphore, as active, by the
    wait group, as tracked, by the limiter. *)
Definition slotHeld (t : stage) : bool := match t with Gone => false | _ => true end.
Definition isActive (t : stage) : bool := match t with Uncounted | Signalled | Gone => false | _ => true end.
Definition awaited (t : stage) : bool := match t with Signalled | Gone => false | _ => true end.
Definition isTracked (t : stage) : bool := match t with Tracked | Handling | Handled => true | _ => false end.
Definition isHandling (t : stage) : bool := match t with Handling => true | _ => false end.

(** What the loop has already done for the connection in its hands. *)
Definition loopSlot (l : loopAt) : nat := match l with Slotted | Totalled | Counted | Added => 1 | _ => 0 end.
Definition loopTotal (l : loopAt) : nat := match l with Totalled | Counted | Added => 1 | _ => 0 end.
Definition loopActive (l : loopAt) : nat := match l with Counted | Added => 1 | _ => 0 end.
Definition loopWait (l : loopAt) : nat := match l with Added => 1 | _ => 0 end.
Definition inHand (l : loopAt) : nat := match l with Holding | Slotted => 1 | _ => 0 end.

(** The slots of the limiter. *)
Definition limiterUse (l : option Limiter) : option (nat * nat) :=
  m ← l; c ← connSem m; Some (c, connUsed m).

(** Reads off the fields of the next state. *)
Ltac fields :=
  cbn [set_loop set_metrics set_sem set_wg set_threads set_conns set_limiter take_conn leave_serve stop_listening cancel_ctx set_shut goTo
       svLoop svSem svMetrics svLimiter svThreads svConns svWG svTaken svClosed svReady svListening svWriter svCancelled svShut svNudged svCut
       loopSlot loopTotal loopActive loopWait inHand activeConn totalConn rejectedConn mActiveConns mTotalConns mRejectedConns] in *.

Section Accounts.
Context (cap : nat).

Record accounts (s : serving) : Prop := {
  ac_cap : (svSem s ≤ cap)%nat;
  ac_sem : svSem s = (countIf slotHeld (svThreads s) + loopSlot (svLoop s))%nat;
  ac_active : mActiveConns (svMetrics s) = Z.of_nat (countIf isActive (svThreads s) + loopActive (svLoop s));
  ac_total : mTotalConns (svMetrics s) = Z.of_nat (length (svThreads s) + loopTotal (svLoop s));
  ac_rejected : mRejectedConns (svMetrics s) + mTotalConns (svMetrics s) + Z.of_nat (inHand (svLoop s)) = Z.of_nat (svTaken s);
  ac_rejected_pos : 0 ≤ mRejectedConns (svMetrics s);
  ac_wg : svWG s = (countIf awaited (svThreads s) + loopWait (svLoop s))%nat;
  ac_conns : ∀ k, k ∈ svConns s ↔ ∃ t, svThreads s !! k = Some t ∧ isTracked t = true;
  ac_limiter : match limiterUse (svLimiter s) with
               | Some (c, used) => used = countIf isHandling (svThreads s) ∧ (used ≤ c)%nat
               | None => True
               end;
}.

Lemma addInt64_small n k : - 2 ^ 63 ≤ n + k < 2 ^ 63 → addInt64 n k = n + k.
Proof. intros Hn. unfold addInt64. rewrite Z.mod_small; lia. Qed.

Lemma countIf_le p l : (countIf p l ≤ length l)%nat.
Proof. unfold countIf. apply length_filter. Qed.

Lemma acquire_use l ok l' : AcquireConn l = (ok, l') →
  match limiterUse l with
  | Some (c, used) => limiterUse l' = Some (c, if ok : bool then S used else used) ∧ (ok = true → (used < c)%nat)
  | None => limiterUse l' = None ∧ ok = true
  end.
Proof.
  unfold AcquireConn, limiterUse. destruct l as [m|]; [|by intros [= <- <-]]. cbn [mbind option_bind].
  destruct (connSem m) as [c|] eqn:Ec; cbn [mbind option_bind]; [|by intros [= <- <-]; cbn; rewrite Ec].
  destruct (Nat.ltb_spec (connUsed m) c); intros [= <- <-]; cbn; by rewrite ?Ec.
Qed.
Lemma release_use l l' : ReleaseConn l = Some l' →
  match limiterUse l with
  | Some (c, used) => ∃ n, used = S n ∧ limiterUse l' = Some (c, n)
  | None => limiterUse l' = None
  end.
Proof.
  unfold ReleaseConn, limiterUse. destruct l as [m|]; [|by intros [= <-]]. cbn [mbind option_bind].
  destruct (connSem m) as [c|] eqn:Ec; cbn [mbind option_bind]; [|by intros [= <-]; cbn; rewrite Ec].
  destruct (connUsed m) as [|n]; [done|]. intros [= <-]. cbn. rewrite ?Ec. eauto.
Qed.

(** Goroutine [k] goes from [t] to [t']: the tracked set follows. *)
Lemma conns_move (conns : gset nat) (l : list stage) k t t' : l !! k = Some t →
  (∀ j, j ∈ conns ↔ ∃ x, l !! j = Some x ∧ isTracked x = true) →
  ∀ j, j ∈ (if isTracked t' then {[k]} ∪ conns else conns ∖ {[k]}) ↔ ∃ x, <[k := t']> l !! j = Some x ∧ isTracked x = true.
Proof.
  intros Hk Hc j. assert (Hlt : (k < length l)%nat) by by eapply lookup_lt_Some. destruct (decide (j = k)) as [->|Hne].
  - rewrite list_lookup_insert_eq by done. destruct (isTracked t') eqn:E; split.
    + intros _. by exists t'.
    + set_solver.
    + set_solver.
    + intros (x & [= <-] & ?). congruence.
  - rewrite list_lookup_insert_ne, <- Hc by done. destruct (isTracked t'); set_solver.
Qed.
(** The set needs no change when [t] and [t'] are tracked alike. *)
Lemma conns_stay (conns : gset nat) (l : list stage) k t t' : l !! k = Some t → isTracked t = isTracked t' →
  (∀ j, j ∈ conns ↔ ∃ x, l !! j = Some x ∧ isTracked x = true) →
  ∀ j, j ∈ conns ↔ ∃ x, <[k := t']> l !! j = Some x ∧ isTracked x = true.
Proof.
  intros Hk Ht Hc j. pose proof (conns_move conns l k t t' Hk Hc j) as Hm. rewrite <- Hm. rewrite <- Ht.
  destruct (decide (j = k)) as [->|]; [|destruct (isTracked t); set_solver].
  specialize (Hc k). rewrite Hk in Hc. destruct (isTracked t) eqn:E; split; try set_solver.
  intros Hin. apply Hc in Hin as (x & [= <-] & ?). congruence.
Qed.

Ltac count_move Hk t' :=
  pose proof (countIf_insert slotHeld _ _ _ t' Hk); pose proof (countIf_insert isActive _ _ _ t' Hk);
  pose proof (countIf_insert awaited _ _ _ t' Hk); pose proof (countIf_insert isHandling _ _ _ t' Hk); cbn [b2n slotHeld isActive awaited isHandling] in *.

Ltac settle := fields; rewrite ?addInt64_small, ?length_insert by lia; first [assumption|lia|done].

Lemma loopStep_ok s s' : accounts s → loopStep cap s s' → Z.of_nat (svTaken s') < 2 ^ 63 → accounts s'.
Proof.
  intros [A1 A2 A3 A4 A5 A6 A7 A8 A9] Hst Hb. pose proof (countIf_le isActive (svThreads s)) as Hle.
  inversion Hst as [? El Hl|? timeout text El He|? El Hc|? El Hc|? El|? El|? El|? El]; subst; rewrite El in *; fields;
    try (split; settle).
  split; fields; rewrite ?countIf_snoc, ?length_app; cbn; try lia; [|destruct (limiterUse _) as [[c u]|]; [lia|done]].
  intros k. rewrite A8. split; intros (t & Hk & Ht).
  - exists t. split; [|done]. by apply lookup_app_l_Some.
  - apply lookup_app_Some in Hk as [Hk|[_ Hk]]; [by exists t|]. by apply list_lookup_singleton_Some in Hk as [_ <-].
Qed.

Lemma connStep_ok k s s' : accounts s → connStep k s s' → Z.of_nat (svTaken s) < 2 ^ 63 → accounts s'.
Proof.
  intros [A1 A2 A3 A4 A5 A6 A7 A8 A9] Hst Hb. pose proof (countIf_le isActive (svThreads s)) as Hle.
  assert (Hla : (loopActive (svLoop s) ≤ loopTotal (svLoop s))%nat) by (destruct (svLoop s); simpl; lia).
  inversion Hst as [? Hk|? l Hk Ha|? l Hk Ha|? l Hk Ha|? Hk|? Hk|? n Hk Hw|? n Hk Hw]; subst; fields.
  - count_move Hk Tracked. split; try settle; fields; [by apply (conns_move _ _ _ _ Tracked Hk)|destruct (limiterUse _) as [[c u]|]; [lia|done]].
  - count_move Hk Handling. apply acquire_use in Ha. split; try settle; fields; [by apply (conns_stay _ _ _ _ Handling Hk)|].
    destruct (limiterUse (svLimiter s)) as [[c u]|]; [|by destruct Ha as [-> _]]. destruct Ha as [-> Ha]. specialize (Ha eq_refl). lia.
  - count_move Hk Handled. apply acquire_use in Ha. split; try settle; fields; [by apply (conns_stay _ _ _ _ Handled Hk)|].
    destruct (limiterUse (svLimiter s)) as [[c u]|]; [|by destruct Ha as [-> _]]. destruct Ha as [-> Ha]. lia.
  - count_move Hk Handled. apply release_use in Ha. split; try settle; fields; [by apply (conns_stay _ _ _ _ Handled Hk)|].
    destruct (limiterUse (svLimiter s)) as [[c u]|]; [|by rewrite Ha]. destruct Ha as (n & -> & ->). lia.
  - count_move Hk Untracked. split; try settle; fields; [by apply (conns_move _ _ _ _ Untracked Hk)|destruct (limiterUse _) as [[c u]|]; [lia|done]].
  - count_move Hk Uncounted. split; try settle; fields; [by apply (conns_stay _ _ _ _ Uncounted Hk)|destruct (limiterUse _) as [[c u]|]; [lia|done]].
  - count_move Hk Signalled. split; try settle; fields; [by apply (conns_stay _ _ _ _ Signalled Hk)|destruct (limiterUse _) as [[c u]|]; [lia|done]].
  - count_move Hk Gone. split; try settle; fields; [by apply (conns_stay _ _ _ _ Gone Hk)|destruct (limiterUse _) as [[c u]|]; [lia|done]].
Qed.

Lemma serveStep_ok s s' : accounts s → serveStep cap s s' → Z.of_nat (svTaken s') < 2 ^ 63 → accounts s'.
Proof.
  intros Hok Hst Hb. inversion Hst as [? ? Hl|? ? k Hc|? ? Hs|?|? Hc|? m E1 E2 E3]; subst.
  - by eapply loopStep_ok.
  - eapply connStep_ok; [done..|]. by inversion Hc; subst.
  - destruct Hok as [A1 A2 A3 A4 A5 A6 A7 A8 A9]. by inversion Hs; subst.
  - by destruct Hok.
  - by destruct Hok.
  - destruct Hok as [A1 A2 A3 A4 A5 A6 A7 A8 A9]. split; fields; rewrite ?E1, ?E2, ?E3; done.
Qed.
Lemma taken_grows s s' : serveStep cap s s' → (svTaken s ≤ svTaken s')%nat.
Proof.
  intros Hst. inversion Hst as [? ? Hl|? ? k Hc|? ? Hs|?|? Hc|? m E1 E2 E3]; subst; try done;
    [inversion Hl|inversion Hc|inversion Hs]; subst; fields; lia.
Qed.
Lemma serving_run_ok s s' : accounts s → rtc (serveStep cap) s s' → Z.of_nat (svTaken s') < 2 ^ 63 → accounts s'.
Proof.
  intros Hok Hr Hb. assert (Hm : ∀ a b, rtc (serveStep cap) a b → (svTaken a ≤ svTaken b)%nat).
  { induction 1 as [|a a1 b Ha _ IH]; [done|]. apply taken_grows in Ha. lia. }
  induction Hr as [|s s1 s' Hs Hr IH]; [done|]. apply IH; [|done]. eapply serveStep_ok; [done..|]. apply Hm in Hr. lia.
Qed.
Lemma serving0_ok l writer : match limiterUse l with Some (_, used) => used = 0%nat | None => True end → accounts (serving0 l writer).
Proof.
  intros Hl. split; try done; unfold serving0; fields; [lia|intros k; split; [set_solver|by intros (t & Hk & _)]|].
  destruct (limiterUse l) as [[c u]|]; [by subst u; split; [|lia]|done].
Qed.
Lemma newLimiter_use l : match limiterUse (Some (NewLimiter l)) with Some (_, used) => used = 0%nat | None => True end.
Proof. unfold limiterUse, NewLimiter. cbn [mbind option_bind connSem connUsed]. by destruct (0 <? MaxConnections l). Qed.

Definition capacity (cfg : Config) : nat := Z.to_nat (cfMaxConnections (newServer cfg).1).
Definition server0 (cfg : Config) (writer : bool) : serving := serving0 (newServer cfg).2 writer.
End Accounts.

(** C30: The accept loop keeps its accounts.  Whatever order the loop, the goroutines of
    the connections, a shutdown and the end of the context take their steps in: never
    more goroutines than the configured maximum hold a slot, and never more
    connections are handled than the limiter allows; the metrics show exactly the
    connections under way, those started, and those turned away; and when all
    goroutines have ended, every slot is free again, the wait group is at zero, the
    limiter and the set of tracked connections are empty, and no connection is
    shown as active: none of the early returns leaks one. *)
Theorem serving_accounts cfg writer s :
  rtc (serveStep (capacity cfg)) (server0 cfg writer) s → Z.of_nat (svTaken s) < 2 ^ 63 →
  (countIf slotHeld (svThreads s) ≤ capacity cfg)%nat ∧
  (∀ c used, limiterUse (svLimiter s) = Some (c, used) → (countIf isHandling (svThreads s) ≤ c)%nat) ∧
  mActiveConns (svMetrics s) = Z.of_nat (countIf isActive (svThreads s) + loopActive (svLoop s)) ∧
  mTotalConns (svMetrics s) = Z.of_nat (length (svThreads s) + loopTotal (svLoop s)) ∧
  mRejectedConns (svMetrics s) + mTotalConns (svMetrics s) + Z.of_nat (inHand (svLoop s)) = Z.of_nat (svTaken s) ∧
  (Forall (λ t, t = Gone) (svThreads s) → svLoop s = Accepting ∨ svLoop s = Exited →
   svSem s = 0%nat ∧ svWG s = 0%nat ∧ svConns s = ∅ ∧ mActiveConns (svMetrics s) = 0 ∧
   ∀ c used, limiterUse (svLimiter s) = Some (c, used) → used = 0%nat).
Proof.
  intros Hr Hb. destruct (serving_run_ok (capacity cfg) _ _ (serving0_ok (capacity cfg) _ writer (newLimiter_use (hlLimits (cfLimits cfg)))) Hr Hb)
    as [A1 A2 A3 A4 A5 A6 A7 A8 A9].
  split; [lia|]. split; [intros c used E; rewrite E in A9; lia|]. do 3 (split; [done|]). intros Hg Hl.
  assert (Hz : ∀ p, p Gone = false → countIf p (svThreads s) = 0%nat).
  { intros p Hp. clear -Hg Hp. induction Hg as [|t l -> _ IH]; [done|]. by rewrite countIf_cons, Hp. }
  rewrite !Hz in A2, A3, A7, A9 by done. assert (loopSlot (svLoop s) = 0%nat ∧ loopActive (svLoop s) = 0%nat ∧ loopWait (svLoop s) = 0%nat) as (L1 & L2 & L3).
  { by destruct Hl as [-> | ->]. }
  split_and!; [lia|lia| |lia|intros c used E; rewrite E in A9; lia].
  apply set_eq. intros k. rewrite A8. split; [|set_solver]. intros (t & Hk & Ht). rewrite Forall_lookup in Hg. by rewrite (Hg k t Hk) in Ht.
Qed.

(** ** Shutdown *)

Record shut_ok (s : serving) : Prop := {
  so_latched : svShut s ≠ NotCalled → svClosed s = true;
  so_unready : svShut s ≠ NotCalled → svShut s ≠ Latched → svReady s = false;
  so_closed : svShut s ≠ NotCalled → svShut s ≠ Latched → svShut s ≠ Unready → svListening s = false;
}.
Lemma shut_step cap s s' : shut_ok s → serveStep cap s s' → shut_ok s'.
Proof.
  intros [K1 K2 K3] Hst.
  inversion Hst as [? ? Hl|? ? k Hc|? ? Hs|?|? Hc|? m E1 E2 E3]; subst; [inversion Hl|inversion Hc|inversion Hs|..]; subst;
    split; fields; intros; try done; auto.
  all: match goal with E : svShut _ = _ ∨ _ |- _ => destruct E as [E|E] | _ => idtac end; try apply K1; try apply K2; try apply K3; congruence.
Qed.

(** Nobody is awaited and nobody can come. *)
Record quiet (n : nat) (s : serving) : Prop := {
  qt_listening : svListening s = false;
  qt_ready : svReady s = false;
  qt_loop : svLoop s = Accepting ∨ svLoop s = Exited;
  qt_threads : countIf awaited (svThreads s) = 0%nat;
  qt_shut : svShut s = Drained;
  qt_taken : svTaken s = n;
}.
Lemma quiet_step cap n s s' : quiet n s → serveStep cap s s' → quiet n s'.
Proof.
  intros [K1 K2 K3 K4 K5 K6] Hst.
  inversion Hst as [? ? Hl|? ? k Hc|? ? Hs|?|? Hc|? m E1 E2 E3]; subst; try by split.
  - inversion Hl as [? El Hls|? timeout text El He|? El Hc|? El Hc|? El|? El|? El|? El]; subst; try (destruct K3; congruence).
    split; fields; auto.
  - assert (Hz : ∀ t, svThreads s !! k = Some t → awaited t = false) by (intros t Hk; by eapply countIf_zero).
    inversion Hc as [? Hk|? l Hk Ha|? l Hk Ha|? l Hk Ha|? Hk|? Hk|? m Hk Hw|? m Hk Hw]; subst; specialize (Hz _ Hk); try done.
    pose proof (countIf_insert awaited _ _ _ Gone Hk) as Hm. cbn [b2n awaited] in Hm. split; fields; try done. lia.
  - inversion Hs as [? E|? E|? E|? seen E|? seen E Hw]; subst; try congruence. split; fields; done.
Qed.

(** C31: Shutdown waits for the connections it should.  If, when the wait group is found
    empty, the accept loop has no connection in its hands, then from that moment on,
    whatever steps follow: no connection is accepted any more, none is shown as active
    or has a goroutine that still serves it, and the server reports that it is not
    ready.  (The condition cannot be dropped: [shutdown_misses_connection].) *)
Theorem shutdown_drains cfg writer s s1 s2 :
  rtc (serveStep (capacity cfg)) (server0 cfg writer) s → Z.of_nat (svTaken s) < 2 ^ 63 →
  shutStep s s1 → svShut s1 = Drained → svLoop s = Accepting ∨ svLoop s = Exited →
  rtc (serveStep (capacity cfg)) s1 s2 →
  Forall (λ t, t = Signalled ∨ t = Gone) (svThreads s2) ∧ mActiveConns (svMetrics s2) = 0 ∧
  svTaken s2 = svTaken s ∧ svReady s2 = false ∧ svListening s2 = false.
Proof.
  intros Hr Hb Hst Hd Hl Hr2.
  pose proof (serving_run_ok (capacity cfg) _ _ (serving0_ok (capacity cfg) _ writer (newLimiter_use (hlLimits (cfLimits cfg)))) Hr Hb) as Hok.
  assert (Hs : shut_ok s).
  { assert (H0 : shut_ok (server0 cfg writer)) by (by split). clear -Hr H0. induction Hr; [done|]. apply IHHr. by eapply shut_step. }
  assert (Hq : quiet (svTaken s) s1).
  { destruct Hok as [_ _ _ _ _ _ A7 _ _]. destruct Hs as [K1 K2 K3].
    inversion Hst as [? E|? E|? E|? seen E|? seen E Hw]; subst; try by (cbn in Hd).
    split; fields; try done; [apply K3|apply K2|lia]; destruct E; congruence. }
  assert (Hq2 : quiet (svTaken s) s2).
  { clear -Hr2 Hq. induction Hr2; [done|]. apply IHHr2. by eapply quiet_step. }
  assert (Hb2 : Z.of_nat (svTaken s2) < 2 ^ 63) by by rewrite (qt_taken _ _ Hq2).
  pose proof (serving_run_ok (capacity cfg) s s2 Hok) as Hok2. destruct Hok2 as [_ _ A3 _ _ _ _ _ _]; [|done|].
  { eapply rtc_l; [by apply sv_shut|done]. }
  destruct Hq2 as [Q1 Q2 Q3 Q4 Q5 Q6]. split_and!; try done.
  - apply Forall_lookup. intros k t Hk. apply (countIf_zero _ _ _ _ Q4) in Hk. destruct t; try done; auto.
  - rewrite A3. assert (loopActive (svLoop s2) = 0%nat) as -> by (by destruct Q3 as [-> | ->]).
    assert (countIf isActive (svThreads s2) = 0%nat) as ->; [|done]. clear -Q4. induction (svThreads s2) as [|t l IH]; [done|].
    rewrite countIf_cons in *. destruct t; cbn in *; lia.
Qed.

(** *** Two races *)

Ltac run_step S := eapply rtc_l; [eapply S; cbn; try reflexivity; try lia|].

(** A connection that Accept returned just before [Shutdown] is not in the wait group
    yet: [Shutdown] returns, and afterwards the connection is handled. *)
Example shutdown_misses_connection : ∃ s,
  rtc (serveStep 128) (serving0 None true) s ∧ svShut s = Drained ∧ svThreads s = [Handling].
Proof.
  eexists. split.
  - run_step sv_loop. { by apply lp_accept. }
    run_step sv_shut. { by apply sh_close. }
    run_step sv_shut. { by apply sh_unready. }
    run_step sv_shut. { by apply sh_snapshot. }
    run_step sv_shut. { by eapply sh_drained; [left|]. }
    run_step sv_loop. { apply lp_slot; [done|cbn; lia]. }
    run_step sv_loop. { by apply lp_total. }
    run_step sv_loop. { by apply lp_active. }
    run_step sv_loop. { by apply lp_wait. }
    run_step sv_loop. { by apply lp_go. }
    run_step sv_conn. { by apply (cn_track 0). }
    run_step sv_conn. { by apply (cn_acquire 0). }
    apply rtc_refl.
  - done.
Qed.

(** When the context ends, [Serve] returns and closes the writer of the log at once, while
    the connections it started are still handled and [Shutdown] has not begun. *)
Example writer_closed_under_connections : ∃ s,
  rtc (serveStep 128) (serving0 None true) s ∧ svThreads s = [Handling] ∧ svWriter s = false ∧ svShut s = NotCalled.
Proof.
  eexists. split.
  - run_step sv_loop. { by apply lp_accept. }
    run_step sv_loop. { apply lp_slot; [done|cbn; lia]. }
    run_step sv_loop. { by apply lp_total. }
    run_step sv_loop. { by apply lp_active. }
    run_step sv_loop. { by apply lp_wait. }
    run_step sv_loop. { by apply lp_go. }
    run_step sv_conn. { by apply (cn_track 0). }
    run_step sv_conn. { by apply (cn_acquire 0). }
    run_step sv_cancel.
    run_step sv_closeListener.
    run_step sv_loop. { by eapply (lp_error _ _ false []). }
    apply rtc_refl.
  - done.
Qed.
