(* ===== verification/Cli.v ===== *)
(** * The command line client: cmd/superdb-cli

    Statement splitting, the rendering of results, and the interactive shell.  The
    server's answer to a statement is a parameter, the terminal a list of lines read
    and a list of outputs. *)

From S2P Require Import Prelude GoLib Fold Value Json Request JsonText Image Bytes Wire.
Open Scope Z_scope.

(** ** Statements: format.go *)

(** The loop of [splitStatements]: [cur] is the text since the last separator. *)
Fixpoint split_loop (inQuote : bool) (cur s : str) : list str * str :=
  match s with
  | [] => ([], cur)
  | c :: s' =>
      if c =? quote then
        match s' with
        | d :: s'' => if inQuote && (d =? quote) then split_loop inQuote (cur ++ [c; d]) s''
                      else split_loop (negb inQuote) (cur ++ [c]) s'
        | [] => split_loop (negb inQuote) (cur ++ [c]) s'
        end
      else if (c =? 59) && negb inQuote then
        let '(stmts, rest) := split_loop inQuote [] s' in
        (match TrimSpace cur with [] => stmts | t => t :: stmts end, rest)
      else split_loop inQuote (cur ++ [c]) s'
  end.

Definition splitStatements (text : str) (final : bool) : list str * str :=
  let '(stmts, rest) := split_loop false [] text in
  if final then (match TrimSpace rest with [] => stmts | t => stmts ++ [t] end, [])
  else (stmts, rest).

(** [collectQueries]: a file, the arguments, or the lines of standard input. *)
Definition joinSpaces (args : list str) : str :=
  match args with [] => [] | a :: args' => a ++ flat_map (λ x, 32 :: x) args' end.
Definition collectQueries (file : option str) (args lines : list str) : list str :=
  match file with
  | Some text => (splitStatements text true).1
  | None =>
      match args with
      | _ :: _ => (splitStatements (joinSpaces args) true).1
      | [] => flat_map (λ l, (splitStatements l true).1) lines
      end
  end.

(** ** Framing: client.go *)

Definition sendBytes (payload : str) : str := putUint 4 (Z.of_nat (length payload)) ++ payload.

Inductive recvErr := RShort | RTooLarge (n : Z).
Definition recv (r : str) : (str + recvErr) * str :=
  match ReadFull r 4 with
  | (inr _, r1) => (inr RShort, r1)
  | (inl header, r1) =>
      let size := getUint header in
      if Z.shiftl 64 20 <? size then (inr (RTooLarge size), r1)
      else match ReadFull r1 (Z.to_nat size) with
      | (inr _, r2) => (inr RShort, r2)
      | (inl resp, r2) => (inl resp, r2)
      end
  end.

(** ** Results: format.go *)

(** A decoded cell; numbers keep their text.  [Sprint] prints arrays and objects. *)
Inductive ccell := CNull | CNum (t : str) | CStr (s : str) | CBool (b : bool) | CNested (j : json).

Section Format.
Context (Sprint : json → str).

Definition formatValue (v : ccell) : str :=
  match v with
  | CNull => lit "NULL"
  | CNum t => t
  | CStr s => s
  | CBool b => if b then lit "true" else lit "false"
  | CNested j => Sprint j
  end.
Definition isNumericCell (row : list ccell) (j : nat) : bool :=
  match row !! j with None | Some CNull | Some (CNum _) => true | Some _ => false end.

(** The texts of one row, a missing cell as NULL. *)
Definition cellTexts (n : nat) (row : list ccell) : list str :=
  map (λ j, match row !! j with Some v => formatValue v | None => lit "NULL" end) (seq 0 n).

Definition widths (columns : list str) (cells : list (list str)) : list nat :=
  foldl (λ ws row, zip_with (λ w v, if (w <? length v)%nat then length v else w) ws row) (map length columns) cells.
Definition numerics (n : nat) (rows : list (list ccell)) : list bool :=
  map (λ j, forallb (λ row, isNumericCell row j) rows) (seq 0 n).

Definition blanks (n : nat) : str := repeat 32 n.
(** One line; a negative padding would make [strings.Repeat] panic ([None]). *)
Fixpoint writeCells (first header : bool) (ws : list nat) (numeric : list bool) (vals : list str) : option str :=
  match vals, ws, numeric with
  | [], _, _ => Some []
  | v :: vals', w :: ws', b :: numeric' =>
      if (w <? length v)%nat then None
      else
        let pad := blanks (w - length v) in
        rest ← writeCells false header ws' numeric' vals';
        Some ((if first then [] else if header then lit "-+-" else lit " | ")
              ++ (if negb header && b then pad ++ v else v ++ pad) ++ rest)
  | _, _, _ => None
  end.

(** The lines of a table. *)
Definition printTable (columns : list str) (rows : list (list ccell)) : option (list str) :=
  let n := length columns in
  let cells := map (cellTexts n) rows in
  let ws := widths columns cells in
  let numeric := numerics n rows in
  header ← writeCells true true ws numeric columns;
  body ← mapM (writeCells true false ws numeric) cells;
  Some (header :: body ++ [lit "(" ++ FormatInt (Z.of_nat (length rows)) ++ lit " row(s))"]).

Record cliResult := mkCliResult {
  clColumns : list str; clRows : list (list ccell); clAffected : Z; clMessage : str; clError : str; clStatus : str;
}.

(** What [printResult] prints on standard output and standard error, line by line;
    [decode] is [decodeResult]. *)
Definition printResult (decode : str → option cliResult) (raw format timing : str) : option (list str * list str) :=
  let time := if bool_decide (timing = []) then [] else [lit "Time: " ++ timing] in
  if bool_decide (format = lit "json") then Some ([raw], time)
  else match decode raw with
  | None => Some ([raw], [])
  | Some r =>
      if negb (bool_decide (clError r = [])) then Some ([], (lit "error: " ++ clError r) :: time)
      else if negb (bool_decide (clColumns r = [])) then
        match printTable (clColumns r) (clRows r) with Some lines => Some (lines, time) | None => None end
      else if negb (bool_decide (clMessage r = [])) then Some ([clMessage r], time)
      else if negb (clAffected r =? 0) then Some ([FormatInt (clAffected r) ++ lit " row(s) affected"], time)
      else Some ([lit "OK"], time)
  end.
End Format.

(** ** The shell: shell.go *)

Record shell := mkShell { shPending : str; shFormat : str; shTiming : bool }.

(** What the shell does: prompt (for a new statement or a continuation), run a
    statement in a format, print a line of its own. *)
Inductive shellOut :=
| Prompt (more : bool)
| Run (sql format : str) (timing : bool)
| Say (text : str)
| Complain (text : str).

Definition shellHelp : str := lit "Commands:
  .help              show this help
  .exit, .quit       leave the shell (exit and quit also work)
  .format table|json change output format
  .timing            toggle per-statement timing
Statements run when a line ends with ';' — multi-line input continues
with a '...>' prompt until the terminator arrives.
".

Section Shell.
Context `{GoStd} (Quote : str → str).

(** [runShellCommand]: whether to leave, what is printed, the settings after it. *)
Definition runShellCommand (cmd : str) (s : shell) : bool * list shellOut * shell :=
  let fields := Fields cmd in
  let head := default [] (fields !! 0%nat) in
  let arg := default [] (fields !! 1%nat) in
  if bool_decide (head = lit ".exit") || bool_decide (head = lit ".quit") then (true, [], s)
  else if bool_decide (head = lit ".help") then (false, [Say shellHelp], s)
  else if bool_decide (head = lit ".format") then
    if (length fields =? 2)%nat && (bool_decide (arg = lit "table") || bool_decide (arg = lit "json"))
    then (false, [Say (lit "format: " ++ arg)], mkShell (shPending s) arg (shTiming s))
    else (false, [Say (lit "format is " ++ shFormat s ++ lit " (usage: .format table|json)")], s)
  else if bool_decide (head = lit ".timing") then
    (false, [Say (lit "timing: " ++ fmtBool (negb (shTiming s)))], mkShell (shPending s) (shFormat s) (negb (shTiming s)))
  else (false, [Complain (lit "unknown command " ++ Quote head ++ lit " — try .help")], s).

(** One line of input; [alive sql] says whether the server answers the statement.
    [None] as the next state: the shell returns. *)
Fixpoint runAll (alive : str → bool) (s : shell) (stmts : list str) : bool * list shellOut :=
  match stmts with
  | [] => (true, [])
  | sql :: stmts' =>
      if alive sql then let '(ok, out) := runAll alive s stmts' in (ok, Run sql (shFormat s) (shTiming s) :: out)
      else (false, [Complain (lit "connection lost")])
  end.

Definition hasPrefixDot (s : str) : bool := match s with c :: _ => c =? 46 | [] => false end.

Definition shellLine (alive : str → bool) (s : shell) (text : str) : option shell * list shellOut :=
  let line := TrimSpace text in
  let fresh := bool_decide (shPending s = []) in
  if bool_decide (line = []) && fresh then (Some s, [])
  else
    let lower := ToLower (TrimSuffixByte line 59) in
    if fresh && hasPrefixDot lower then
      let '(leave, out, s') := runShellCommand lower s in (if leave then None else Some s', out)
    else if fresh && (bool_decide (lower = lit "exit") || bool_decide (lower = lit "quit")) then (None, [])
    else
      let pending := shPending s ++ line ++ [32] in
      match splitStatements pending false with
      | ([], _) => (Some (mkShell pending (shFormat s) (shTiming s)), [])
      | (stmts, rest) =>
          let s' := mkShell rest (shFormat s) (shTiming s) in
          let '(ok, out) := runAll alive s' stmts in (if ok then Some s' else None, out)
      end.

Fixpoint runShell (alive : str → bool) (s : shell) (lines : list str) : list shellOut * option shell :=
  let prompt := Prompt (negb (bool_decide (shPending s = []))) in
  match lines with
  | [] => ([prompt; Say []], Some s)
  | text :: lines' =>
      match shellLine alive s text with
      | (None, out) => (prompt :: out, None)
      | (Some s', out) => let '(outs, last) := runShell alive s' lines' in (prompt :: out ++ outs, last)
      end
  end.
End Shell.
