(* ===== verification/CliProofs.v ===== *)
(** * The command line client: splitting, alignment, framing *)

From S2P Require Import Prelude GoLib GoFacts GoConc Fold Value Json Request JsonText Image Bytes Wire Cli.
Open Scope Z_scope.

(** ** Splitting *)

(** Reading a statement from inside or outside a quoted literal: whether it ends
    inside one; [None] when a semicolon outside a literal would end it early. *)
Fixpoint scanStmt (inQuote : bool) (s : str) : option bool :=
  match s with
  | [] => Some inQuote
  | c :: s' =>
      if c =? quote then
        match s' with
        | d :: s'' => if inQuote && (d =? quote) then scanStmt inQuote s'' else scanStmt (negb inQuote) s'
        | [] => Some (negb inQuote)
        end
      else if (c =? 59) && negb inQuote then None
      else scanStmt inQuote s'
  end.
(** A statement as a user means it: one statement, no blanks around it. *)
Definition statement (s : str) : Prop := scanStmt false s = Some false ∧ TrimSpace s = s ∧ s ≠ [].

Lemma split_stmt n : ∀ s q cur rest, (length s ≤ n)%nat → scanStmt q s = Some false → hd 0 rest ≠ quote →
  split_loop q cur (s ++ rest) = split_loop false (cur ++ s) rest.
Proof.
  induction n as [|n IH]; intros s q cur rest Hn Hs Hr; (destruct s as [|c s]; [injection Hs as ->; by rewrite app_nil_r|]);
    cbn [length] in Hn; [lia|].
  cbn [scanStmt] in Hs. cbn [app split_loop]. destruct (Z.eqb_spec c quote) as [->|Hc].
  - destruct s as [|d s].
    + injection Hs as Hq. destruct q; [|done]. cbn [app]. destruct rest as [|e rest]; [done|]. cbn [hd] in Hr.
      apply Z.eqb_neq in Hr. by rewrite Hr.
    + cbn [app]. destruct (q && (d =? quote)) eqn:E.
      * rewrite IH; [|cbn [length] in Hn; lia|done|done]. by rewrite <- app_assoc.
      * change (d :: s ++ rest) with ((d :: s) ++ rest). rewrite IH; [|lia|done|done]. by rewrite <- app_assoc.
  - destruct ((c =? 59) && negb q); [done|]. rewrite IH; [|lia|done|done]. by rewrite <- app_assoc.
Qed.

(** The client splits what is joined.  Statements written one after the other,
    each ended by a semicolon, are recovered exactly and in order, whatever quoted
    literals (with semicolons and doubled quotes) they contain; a last one without
    its semicolon is kept for more input, or counts when the input is final. *)
Theorem split_join stmts rest :
  Forall statement stmts → scanStmt false rest = Some false →
  splitStatements (concat (map (λ s, s ++ [59]) stmts) ++ rest) false = (stmts, rest) ∧
  splitStatements (concat (map (λ s, s ++ [59]) stmts) ++ rest) true
  = (stmts ++ match TrimSpace rest with [] => [] | t => [t] end, []).
Proof.
  intros Hst Hr. assert (split_loop false [] (concat (map (λ s, s ++ [59]) stmts) ++ rest) = (stmts, rest)) as E.
  { induction Hst as [|s stmts (Hs & Ht & Hne) _ IH]; cbn [map concat app].
    - pose proof (split_stmt (length rest) rest false [] [] ltac:(lia) Hr) as E. rewrite app_nil_r in E. by apply E.
    - rewrite <- !app_assoc. cbn [app]. rewrite (split_stmt (length s)) by done. cbn [app split_loop].
      change (59 =? quote) with false. change ((59 =? 59) && negb false) with true. cbv iota. rewrite IH, Ht. by destruct s. }
  unfold splitStatements. rewrite E. split; [done|]. destruct (TrimSpace rest); [by rewrite app_nil_r|done].
Qed.

(** ** Framing *)

#[local] Opaque putUint getUint.
Lemma recv_send payload rest : Z.of_nat (length payload) ≤ Z.shiftl 64 20 → recv (sendBytes payload ++ rest) = (inl payload, rest).
Proof.
  intros Hl. unfold recv, sendBytes. rewrite <- app_assoc, ReadFull_app by apply putUint_length.
  change (Z.shiftl 64 20) with 67108864 in *. rewrite getUint_putUint by (simpl; lia). cbv zeta.
  destruct (Z.ltb_spec 67108864 (Z.of_nat (length payload))); [lia|]. by rewrite Nat2Z.id, ReadFull_app.
Qed.

(** ** Tables *)

Section Table.
Context (Sprint : json → str).

Definition fits (ws : list nat) (vals : list str) : Prop := Forall2 (λ w v, (length v ≤ w)%nat) ws vals.

Lemma widen_fits ws row : length row = length ws →
  let ws' := zip_with (λ w v, if (w <? length v)%nat then length v else w) ws row in
  fits ws' row ∧ Forall2 le ws ws'.
Proof.
  revert row. induction ws as [|w ws IH]; intros [|v row] Hl; try done; [by split; constructor|].
  cbn [zip_with]. injection Hl as Hl. destruct (IH row Hl) as [H1 H2].
  split; (constructor; [|done]); destruct (Nat.ltb_spec w (length v)); lia.
Qed.
Lemma fits_mono ws ws' vals : Forall2 le ws ws' → fits ws vals → fits ws' vals.
Proof.
  intros H. revert vals. induction H as [|w w' ws ws' Hw _ IH]; intros vals Hf; inversion Hf; subst; constructor; [lia|by apply IH].
Qed.
Lemma le_trans ws ws' ws'' : Forall2 le ws ws' → Forall2 le ws' ws'' → Forall2 le ws ws''.
Proof.
  intros H. revert ws''. induction H as [|w w' ws ws' Hw _ IH]; intros l Hl; inversion Hl; subst; constructor; [lia|by apply IH].
Qed.

Lemma widths_fit cells : ∀ ws, Forall (λ row, length row = length ws) cells →
  let ws' := foldl (λ ws row, zip_with (λ w v, if (w <? length v)%nat then length v else w) ws row) ws cells in
  Forall2 le ws ws' ∧ Forall (fits ws') cells.
Proof.
  induction cells as [|row cells IH]; intros ws Hl; cbn [foldl].
  { split; [|done]. induction ws; by constructor. }
  apply Forall_cons in Hl as [Hr Hl]. destruct (widen_fits ws row Hr) as [H1 H2].
  set (ws1 := zip_with _ ws row) in *. assert (Hlen : length ws1 = length ws) by (symmetry; by eapply Forall2_length).
  destruct (IH ws1) as [H3 H4]; [eapply Forall_impl; [exact Hl|]; intros x ->; done|].
  split; [by eapply le_trans|]. apply Forall_cons. split; [by eapply fits_mono|done].
Qed.

Lemma blanks_length n : length (blanks n) = n.
Proof. apply repeat_length. Qed.

(** A line is as wide as its columns and separators. *)
Definition lineWidth (first : bool) (ws : list nat) : nat :=
  (sum_list ws + 3 * (length ws - if first then 1 else 0))%nat.
Lemma writeCells_width header ws : ∀ first numeric vals, fits ws vals → length numeric = length ws →
  ∃ line, writeCells first header ws numeric vals = Some line ∧ length line = lineWidth first ws.
Proof.
  induction ws as [|w ws IH]; intros first numeric vals Hf Hn; inversion Hf as [|? v ? vals' Hv Hvs]; subst.
  { exists []. split; [by destruct numeric|]. by destruct first. }
  destruct numeric as [|b numeric]; [done|]. injection Hn as Hn. destruct (IH false numeric vals' Hvs Hn) as (line & E & Hl).
  cbn [writeCells]. destruct (Nat.ltb_spec w (length v)); [lia|]. rewrite E. cbn [mbind option_bind]. eexists. split; [done|].
  rewrite !length_app, Hl. unfold lineWidth. cbn [sum_list length].
  assert (length (if negb header && b then blanks (w - length v) ++ v else v ++ blanks (w - length v)) = w) as ->
    by (destruct (negb header && b); rewrite length_app, blanks_length; lia).
  destruct first; [simpl; lia|]. destruct header; simpl; lia.
Qed.

(** Results are printed as aligned tables.  For any columns and rows, short rows
    and NULLs included, rendering does not panic on a negative padding; the header
    and every row come out in order, all of the same width, each column as wide as
    its longest text. *)
Theorem table_aligned columns rows :
  ∃ header body, printTable Sprint columns rows
    = Some (header :: body ++ [lit "(" ++ FormatInt (Z.of_nat (length rows)) ++ lit " row(s))"]) ∧
    length body = length rows ∧
    Forall (λ line, length line = lineWidth true (widths columns (map (cellTexts Sprint (length columns)) rows))) (header :: body) ∧
    Forall (fits (widths columns (map (cellTexts Sprint (length columns)) rows)))
      (columns :: map (cellTexts Sprint (length columns)) rows).
Proof.
  unfold printTable. cbv zeta. set (n := length columns). set (cells := map (cellTexts Sprint n) rows).
  assert (Hcells : Forall (λ row, length row = length (map length columns)) cells).
  { apply Forall_forall. intros row (r & -> & _)%list_elem_of_fmap. unfold cellTexts. by rewrite !length_map, length_seq. }
  destruct (widths_fit cells (map length columns) Hcells) as [Hle Hfit]. fold (widths columns cells) in Hle, Hfit.
  set (ws := widths columns cells) in *. set (numeric := numerics n rows).
  assert (Hn : length numeric = length ws).
  { unfold numeric, numerics. rewrite length_map, length_seq. rewrite <- (Forall2_length _ _ _ Hle). by rewrite length_map. }
  assert (Hcol : fits ws columns).
  { eapply fits_mono; [exact Hle|]. clear. induction columns; constructor; [lia|done]. }
  destruct (writeCells_width true ws true numeric columns Hcol Hn) as (header & Eh & Hh). rewrite Eh. cbn [mbind option_bind].
  assert (∃ body, mapM (writeCells true false ws numeric) cells = Some body ∧ length body = length cells ∧
    Forall (λ line, length line = lineWidth true ws) body) as (body & Eb & Hbl & Hb).
  { clear Hcells Hle Eh Hcol Hh. clearbody ws. induction Hfit as [|row l Hrow _ IH]; [by exists []|].
    destruct (writeCells_width false ws true numeric row Hrow Hn) as (line & E & Hl). destruct IH as (body & Eb & Hbl & Hb).
    exists (line :: body). cbn [mapM]. rewrite E. cbn [mbind option_bind]. rewrite Eb. cbn. split_and!; [done|by f_equal|by constructor]. }
  rewrite Eb. cbn [mbind option_bind]. exists header, body. split_and!; [done|by rewrite Hbl; unfold cells; rewrite length_map| |].
  - by constructor.
  - by constructor.
Qed.
End Table.

(** ** The shell *)

(** After a statement the blank appended to its line stays pending: the shell asks for
    a continuation, and takes [.exit] as the start of a statement. *)
Example shell_loses_exit :
  runShell (λ s, s) (λ _, true) (mkShell [] (lit "table") false) [lit "SELECT 1;"; lit ".exit"]
  = ([Prompt false; Run (lit "SELECT 1") (lit "table") false; Prompt true; Prompt true; Say []],
     Some (mkShell (lit " .exit ") (lit "table") false)).
Proof. by vm_compute. Qed.
