(* ===== verification/LocalServer.v ===== *)
(** * The local server's connections: internal/server/server.go, protocol.go, probe.go, tls.go

    The loop of [HandleWithOptions] over a connection's bytes: requests read, answered
    by [serveRequest] of Session, encoded and written; the admission of connections;
    the probe and the command-line client's exchanges with it; the TLS settings. *)

From S2P Require Import Prelude GoLib Fold Value Table Schema Database.
From S2P Require Import Bytes Storage Bind Json Request JsonText JsonTextProofs Image Wire Session Config Remote Cli.
Open Scope Z_scope.

(** ** Answers as bytes: [appendResponseValue] *)

Section Local.
Context `{GoStd} `{Zlib} `{JsonStd} (marshal : Database → str + err).
Context (Quote : str → str) (persistText : persistErr → str).
(** How encoding/json writes a string; how it decodes a request. *)
Context (quote : str → str) (unmarshal : str → request + err).

Definition causeText (c : cause) : str :=
  match c with CText => [] | CErr e => errText Quote e | CPersist e => persistText e end.
(** A map with one entry. *)
Definition objectText (name : string) (text : str) : str := printJ quote (JObj [(lit name, JStr text)]).

(** [None]: there is no answer, the handler panicked. *)
Definition replyBytes (r : reply) : option (str + err) :=
  match r with
  | RError text c => Some (inl (objectText "error" (text ++ causeText c)))
  | RMessage text => Some (inl (objectText "message" text))
  | RStatus text => Some (inl (objectText "status" text))
  | RResult r => Some (AppendResultJSON [] r)
  | RCrash => None
  end.
Fixpoint repliesBytes (l : list reply) : option (list str + err) :=
  match l with
  | [] => Some (inl [])
  | r :: l' =>
      match replyBytes r with
      | None => None
      | Some (inr e) => Some (inr e)
      | Some (inl b) => match repliesBytes l' with
                        | Some (inl bs) => Some (inl (b :: bs))
                        | other => other
                        end
      end
  end.
Definition answerBytes (a : answer) : option (str + err) :=
  match a with
  | AOne r => replyBytes r
  | AList l => match repliesBytes l with
               | Some (inl bs) => Some (inl (91 :: commas bs ++ [93]))
               | Some (inr e) => Some (inr e)
               | None => None
               end
  end.

(** ** The loop *)

(** What the outside decides about one request. *)
Record localTurn := mkLocalTurn { ltEnv : nat → Env; ltIO : nat → persistIO; ltAdmit : option err; ltWrite : writeOutcome }.

(** Why it returned.  A panic ends the process. *)
Inductive localEnd := LRead (e : reqErr) | LEncode (e : err) | LWrite (e : err) | LCrash | LNoFuel.

Section Loop.
Context {C : Type} (cluster : option (ClusterExec C)) (limits : Limits) (mode authKey : str).

(** The byte limit of an answer: pings and refusals are written without one. *)
Definition answerLimit (q : request) : Z :=
  if qPing q || negb (checkAuth (qAuth q) authKey) then 0 else MaxResultBytes limits.
Definition tooLargeBytes : str := objectText "error" (lit "response exceeds maximum result size").

(** Header and payload into the buffered writer, and its flush: everything, or with an
    error the first [woCount] bytes. *)
Definition flushAnswer (o : writeOutcome) (out payload : str) (max : Z) : option err * str :=
  let frame := writeResponseLimit payload tooLargeBytes max in
  (woErr o, out ++ match woErr o with None => frame | Some _ => take (woCount o) frame end).

Definition localTurnOf (u : localTurn) (q : request) (w : World C) (s : Session) : answer * World C * Session :=
  serveRequest marshal cluster limits mode (ltEnv u) (ltIO u) authKey (ltAdmit u) q w s.

Fixpoint localLoop (turn : nat → localTurn) (fuel i : nat) (input out : str) (w : World C) (s : Session)
    : localEnd * str * World C * Session :=
  match fuel with
  | O => (LNoFuel, out, w, s)
  | S f =>
      match readRequest unmarshal input (MaxRequestBytes limits) with
      | (inr er, _) => (LRead er, out, w, s)
      | (inl q, input') =>
          let '(a, w1, s1) := localTurnOf (turn i) q w s in
          match answerBytes a with
          | None => (LCrash, out, w1, s1)
          | Some (inr er) => (LEncode er, out, w1, s1)
          | Some (inl payload) =>
              match flushAnswer (ltWrite (turn i)) out payload (answerLimit q) with
              | (Some er, out') => (LWrite er, out', w1, s1)
              | (None, out') => localLoop turn f (S i) input' out' w1 s1
              end
          end
      end
  end.

(** [HandleWithOptions]: a connection the limiter refuses is told so, any other one gives
    its slot back on return ([None]: that would block).  [l]: the limiter when it was
    asked; what other connections do to it meanwhile is in Serving.  Every turn reads
    a header, so the input bounds the turns. *)
Definition HandleWithOptions (l : option Limiter) (refusal : writeOutcome) (turn : nat → localTurn) (input : str) (w : World C)
    : option localEnd * str * World C * option (option Limiter) :=
  match AcquireConn l with
  | (false, l1) =>
      (None, (flushAnswer refusal [] (objectText "error" (lit "connection refused: server at connection limit")) 0).2, w, Some l1)
  | (true, l1) =>
      let '(e, out, w1, _) := localLoop turn (S (length input)) 0 input [] w session0 in (Some e, out, w1, ReleaseConn l1)
  end.
End Loop.

(** ** Clients: probe.go, cmd/superdb-cli/client.go *)

(** A map's members in the order of their keys. *)
Definition authMember (authKey : str) : list (str * json) :=
  if bool_decide (authKey = []) then [] else [(lit "auth", JStr authKey)].
Definition queryPayload (authKey sql : str) (params : list json) : str :=
  printJ quote (JObj (authMember authKey ++ (if bool_decide (params = []) then [] else [(lit "params", JArr params)])
                      ++ [(lit "sql", JStr sql)])).
Definition batchPayload (authKey : str) (sqls : list str) : str :=
  printJ quote (JObj (authMember authKey ++ [(lit "sqls", JArr (map JStr sqls))])).
(** Of [probeServer], a map, and of [server.Ping], the request struct: the same text. *)
Definition pingPayload (authKey : str) : str :=
  printJ quote (JObj (authMember authKey ++ [(lit "ping", JBool true)])).

(** [conn.query] and [conn.batch]: what is read back, or the error.  [reply]: the bytes the
    server sends for the request; [splitRaw]: json.Unmarshal into raw messages. *)
Definition cliQuery (reply : str → str) (authKey sql : str) (params : list json) : str + recvErr :=
  (recv (reply (sendBytes (queryPayload authKey sql params)))).1.
Definition cliBatch (splitRaw : str → option (list str)) (reply : str → str) (authKey : str) (sqls : list str) : list str + recvErr :=
  match (recv (reply (sendBytes (batchPayload authKey sqls)))).1 with
  | inr er => inr er
  | inl resp => inl (default [resp] (splitRaw resp))
  end.

(** What a probe makes of the answer. *)
Inductive probeErr := ProbeRecv (e : recvErr) | ProbeSize (n : Z) | NotSuperDB | ProbeRefused (text : str) | ProbeUnexpected.
(** The "error" and "status" members of the decoded answer. *)
Definition judgeProbe (decoded : option (str * str)) : option probeErr :=
  match decoded with
  | None => Some NotSuperDB
  | Some (error, status) =>
      if negb (bool_decide (error = [])) then Some (ProbeRefused error)
      else if negb (bool_decide (status = lit "ok")) then Some ProbeUnexpected else None
  end.
(** [json.Unmarshal] into a struct of the two strings. *)
Definition decodeProbe (b : str) : option (str * str) :=
  j ← parseJSON b;
  decStruct (λ p key v,
    if isField key "status" then x ← decString p.2 v; Some (p.1, x)
    else if isField key "error" then x ← decString p.1 v; Some (x, p.2)
    else Some p) ([], []) j.

(** [probeServer] of the client. *)
Definition probeServer (reply : str → str) (authKey : str) : option probeErr :=
  match (recv (reply (sendBytes (pingPayload authKey)))).1 with
  | inr er => Some (ProbeRecv er)
  | inl resp => judgeProbe (decodeProbe resp)
  end.
(** [server.Ping]: at most one mebibyte. *)
Definition Ping (reply : str → str) (authKey : str) : option probeErr :=
  let r := reply (sendBytes (pingPayload authKey)) in
  match ReadFull r 4 with
  | (inr _, _) => Some (ProbeRecv RShort)
  | (inl header, r1) =>
      let size := getUint header in
      if Z.shiftl 1 20 <? size then Some (ProbeSize size)
      else match ReadFull r1 (Z.to_nat size) with
      | (inr _, _) => Some (ProbeRecv RShort)
      | (inl resp, _) => judgeProbe (decodeProbe resp)
      end
  end.
End Local.

(** ** TLS settings: tls.go *)

(** A certificate is what the library loads from the two files. *)
Record tlsServer (cert : Type) := mkTlsServer { tsCert : cert; tsMinVersion : Z }.
Arguments mkTlsServer {cert} _ _.
Definition VersionTLS12 : Z := 771.
Inductive tlsErr := TlsHalf | TlsLoad (e : err) | TlsRead (e : err) | TlsNoPEM (file : str) | TlsAddr (e : err).

Definition ServerTLSConfig {cert} (load : str → str → cert + err) (certFile keyFile : str) : option (tlsServer cert) + tlsErr :=
  if negb (eqb (bool_decide (certFile = [])) (bool_decide (keyFile = []))) then inr TlsHalf
  else if bool_decide (certFile = []) then inl None
  else match load certFile keyFile with
  | inr e => inr (TlsLoad e)
  | inl c => inl (Some (mkTlsServer c VersionTLS12))
  end.

Record tlsClient (pool : Type) := mkTlsClient { tcMinVersion : Z; tcInsecure : bool; tcRoots : option pool; tcServerName : str }.
Arguments mkTlsClient {pool} _ _ _ _.
Arguments tcMinVersion {pool} _.
Arguments tcInsecure {pool} _.
Arguments tcRoots {pool} _.
Arguments tcServerName {pool} _.

(** [certs]: the certificates of a PEM bundle, [None] when it has none. *)
Definition ClientTLSConfig {pool} (readFile : str → str + err) (certs : str → option pool) (caFile : str) (insecure : bool)
    : tlsClient pool + tlsErr :=
  if bool_decide (caFile = []) then inl (mkTlsClient VersionTLS12 insecure None [])
  else match readFile caFile with
  | inr e => inr (TlsRead e)
  | inl pem => match certs pem with
               | None => inr (TlsNoPEM caFile)
               | Some p => inl (mkTlsClient VersionTLS12 insecure (Some p) [])
               end
  end.

(** Whether a client asks for TLS at all: [runStatus] and the command-line client. *)
Definition clientTLS {pool} readFile certs (on : bool) (caFile : str) (skip : bool) : option (tlsClient pool) + tlsErr :=
  if on || negb (bool_decide (caFile = [])) || skip then
    match ClientTLSConfig readFile certs caFile skip with inl c => inl (Some c) | inr e => inr e end
  else inl None.

(** How [Dial] connects: plain, or TLS under a server name. *)
Inductive dialing (pool : Type) := DialPlain (timeout : Z) | DialTLS (timeout : Z) (cfg : tlsClient pool).
Arguments DialPlain {pool} _.
Arguments DialTLS {pool} _ _.
Definition Dial {pool} (splitHost : str → str + err) (addr : str) (timeout : Z) (cfg : option (tlsClient pool)) : dialing pool + tlsErr :=
  let timeout := if timeout <=? 0 then 10 * second else timeout in
  match cfg with
  | None => inl (DialPlain timeout)
  | Some c =>
      if bool_decide (tcServerName c = []) then
        match splitHost addr with
        | inr e => inr (TlsAddr e)
        | inl host => inl (DialTLS timeout (mkTlsClient (tcMinVersion c) (tcInsecure c) (tcRoots c) host))
        end
      else inl (DialTLS timeout c)
  end.
