(* ===== verification/LocalProofs.v ===== *)
(** * The local server's connections: the loop serves a script of requests; probes and queries over it *)

From S2P Require Import Prelude GoLib GoFacts Fold Value Table Schema Database Bytes Storage Bind Json Request RequestProofs JsonText JsonTextProofs.
From S2P Require Import Image ImageProofs Wire Session Config Remote ResponseProofs Cli CliProofs LocalServer.
Open Scope Z_scope.

Section Local.
Context `{GoStd} `{Zlib} `{JsonStd} (marshal : Database → str + err).
Context (Quote : str → str) (persistText : persistErr → str).
(** encoding/json's strings on UTF-8 text. *)
Context (quote : str → str) (Hquote : ∀ s, validUTF8 s = true → quote s = quoteEsc s).
Context (unmarshal : str → request + err).
Context {C : Type} (cluster : option (ClusterExec C)) (limits : Limits) (mode authKey : str).
Abbreviation turnOf := (localTurnOf marshal cluster limits mode authKey).
Abbreviation loop := (localLoop marshal Quote persistText quote unmarshal cluster limits mode authKey).
Abbreviation bytesOf := (answerBytes Quote persistText quote).

(** ** Reading *)

(** A payload as a request. *)
Definition requestOf (p : str) : request + reqErr :=
  match (match parseRequestFast p with Parsed q => inl q | _ => unmarshal p end) with
  | inr e => inr (QJson e)
  | inl q =>
      let q := if bool_decide (qAuth q = []) && negb (bool_decide (qAuthKey q = [])) then set_auth q (qAuthKey q) else q in
      let q := set_authKey q [] in
      if bool_decide (qSQL q = []) && bool_decide (qSQLs q = []) && negb (qPing q) then inr QEmpty else inl q
  end.
Definition requestLimit : Z := if MaxRequestBytes limits <=? 0 then maxRequestSize else MaxRequestBytes limits.
Definition sendable (p : str) : Prop := Z.of_nat (length p) ≤ requestLimit ∧ Z.of_nat (length p) < 2 ^ 32.

Lemma readRequest_send p rest : sendable p →
  readRequest unmarshal (sendBytes p ++ rest) (MaxRequestBytes limits) = (requestOf p, rest).
Proof.
  intros [Hl H32]. unfold readRequest, sendBytes. fold requestLimit. cbv zeta.
  assert (Hh : length (putUint 4 (Z.of_nat (length p))) = 4%nat) by apply putUint_length.
  rewrite <- app_assoc. rewrite length_app, Hh.
  destruct (Nat.ltb_spec (4 + length (p ++ rest)) 4); [lia|].
  rewrite take_app_length', drop_app_length' by (by rewrite Hh). rewrite getUint_putUint by (simpl; lia).
  destruct (Z.ltb_spec requestLimit (Z.of_nat (length p))); [lia|]. rewrite Nat2Z.id, length_app.
  destruct (Nat.ltb_spec (length p + length rest) (length p)); [lia|].
  rewrite take_app_length', drop_app_length' by done. unfold requestOf.
  destruct (match parseRequestFast p with Parsed q => inl q | _ => unmarshal p end); [|done]. cbv zeta.
  by destruct (_ && _ && _).
Qed.

(** ** The loop *)

(** An answer within the byte limit. *)
Definition limited (q : request) (b : str) : str :=
  let max := answerLimit limits authKey q in
  if (0 <? max) && (max <? Z.of_nat (length b)) then tooLargeBytes quote else b.

(** The requests of a connection one after the other: the answers, and why it ends. *)
Fixpoint servedAll (turn : nat → localTurn) (i : nat) (ps : list str) (w : World C) (s : Session)
    : localEnd * list str * World C * Session :=
  match ps with
  | [] => (LRead QEOF, [], w, s)
  | p :: ps' =>
      match requestOf p with
      | inr er => (LRead er, [], w, s)
      | inl q =>
          let '(a, w1, s1) := turnOf (turn i) q w s in
          match bytesOf a with
          | None => (LCrash, [], w1, s1)
          | Some (inr er) => (LEncode er, [], w1, s1)
          | Some (inl b) => let '(e, l, w2, s2) := servedAll turn (S i) ps' w1 s1 in (e, limited q b :: l, w2, s2)
          end
      end
  end.

Lemma flush_whole o out b q : woErr o = None →
  flushAnswer quote o out b (answerLimit limits authKey q) = (None, out ++ sendBytes (limited q b)).
Proof. intros Ho. unfold flushAnswer. rewrite Ho. done. Qed.

Lemma loop_serves turn ps : (∀ i, woErr (ltWrite (turn i)) = None) → Forall sendable ps →
  ∀ fuel i out w s, (length ps < fuel)%nat →
  loop turn fuel i (concat (map sendBytes ps)) out w s =
  let '(e, l, w', s') := servedAll turn i ps w s in (e, out ++ concat (map sendBytes l), w', s').
Proof.
  intros Hw Hps. induction Hps as [|p ps Hp Hps IH]; intros fuel i out w s Hf; (destruct fuel as [|fuel]; [simpl in Hf; lia|]).
  { cbn [map concat localLoop servedAll]. change (readRequest unmarshal [] (MaxRequestBytes limits)) with (@inr request reqErr QEOF, @nil Z).
    cbv iota beta. cbn [map concat]. by rewrite app_nil_r. }
  cbn [map concat localLoop servedAll]. rewrite readRequest_send by done. destruct (requestOf p) as [q|er]; [|cbn [map concat]; by rewrite app_nil_r].
  destruct (turnOf (turn i) q w s) as [[a w1] s1]. destruct (bytesOf a) as [[b|er]|]; [|cbn [map concat]; by rewrite app_nil_r..].
  rewrite flush_whole by done. rewrite IH by (simpl in Hf; lia).
  destruct (servedAll turn (S i) ps w1 s1) as [[[e l] w2] s2]. cbn [map concat]. by rewrite <- app_assoc.
Qed.

(** A slot that was taken is given back without waiting, to the limiter as it was. *)
Lemma acquire_release l l1 : AcquireConn l = (true, l1) → ReleaseConn l1 = Some l.
Proof.
  unfold AcquireConn. destruct l as [[[cap|] n qs m rc rq]|]; cbn [connSem connUsed]; try case_match; intros Ha; by inversion Ha.
Qed.

(** C29: A connection of the local server is its requests one after the other.  For any
    requests a client sends on one connection (each within the size limit; readable or
    not, pings, unauthorised ones, single statements and batches), the server's output
    is one framed answer per request served, in their order, each the encoding of what
    the session makes of that request in the state the earlier ones left, cut to the
    configured size; and the database, files and session are those after them.  The
    loop ends at the end of the input, at a request that cannot be read, at an answer
    that has no JSON text, or with the process, when the engine panics; the slot that
    was taken for the connection has then been given back. *)
Theorem local_connection_serves turn ps (w : World C) l l1 refusal :
  (∀ i, woErr (ltWrite (turn i)) = None) → Forall sendable ps → AcquireConn l = (true, l1) →
  let '(e, answers, w', _) := servedAll turn 0 ps w session0 in
  HandleWithOptions marshal Quote persistText quote unmarshal cluster limits mode authKey l refusal turn (concat (map sendBytes ps)) w
  = (Some e, concat (map sendBytes answers), w', Some l).
Proof.
  intros Hw Hps Hl. unfold HandleWithOptions. rewrite Hl, (acquire_release _ _ Hl), loop_serves; [|done|done|].
  - by destruct (servedAll turn 0 ps w session0) as [[[e answers] w'] s'].
  - apply Nat.lt_succ_r. clear. induction ps as [|p ps IH]; [done|]. cbn [map concat length]. rewrite length_app.
    unfold sendBytes at 1. rewrite length_app, putUint_length. lia.
Qed.

(** ** Requests of the clients *)

Definition textMembers (l : list (str * json)) : list (str * str) := map (λ p, (p.1, printJ quote p.2)) l.
(** Names that need no escape. *)
Definition plainName (k : str) : Prop := validUTF8 k = true ∧ quoteEsc k = appendJSONString [] k.

Lemma print_object l : Forall (λ p, plainName p.1) l → printJ quote (JObj l) = 123 :: joinMembers (textMembers l) ++ [125].
Proof.
  intros Hl. cbn [printJ]. f_equal. f_equal. induction Hl as [|[k j] l [Hv Hk] _ IH]; [done|].
  cbn [map textMembers joinMembers commas fst snd] in *. rewrite Hquote, Hk by done.
  destruct l as [|[k2 j2] l]; [cbn; by rewrite ?app_nil_r|]. cbn [map] in *. rewrite IH. by rewrite <- app_assoc, <- app_comm_cons.
Qed.

Lemma jstring_quoted s rest : validUTF8 s = true → jstring (quote s ++ rest) = Some (s, rest).
Proof.
  intros Hv. rewrite Hquote by done. unfold jstring, quoteEsc. cbn [app consume]. rewrite Z.eqb_refl, <- app_assoc. cbn [app].
  by rewrite (unquote_body (length s)).
Qed.
Lemma quoted_reads name set s : validUTF8 (lit name) = true → validUTF8 s = true →
  (∀ q p, requestField (lit name) q p = okOr (strField set q p)) → reads (lit name, quote s) (λ q, set q s).
Proof.
  intros Hk Hs Hf. split; [done|rewrite Hquote by done; by do 2 eexists|].
  intros q X _. cbn [fst snd]. rewrite Hf. unfold strField. by rewrite jstring_quoted.
Qed.
Lemma ping_reads : reads (lit "ping", lit "true") (λ q, set_ping q true).
Proof. by destruct (Forall_inv (boolMember_reads "ping" set_ping true eq_refl (λ _ _, eq_refl))). Qed.

Definition auths (key : str) : list (request → request) := if bool_decide (key = []) then [] else [λ q, set_auth q key].
Lemma auth_reads key : validUTF8 key = true → Forall2 reads (textMembers (authMember key)) (auths key).
Proof.
  intros Hk. unfold authMember, auths. case_bool_decide; constructor; [|constructor].
  by apply (quoted_reads "auth" set_auth).
Qed.

Lemma joinMembers_length ms : (length ms ≤ length (joinMembers ms ++ [125%Z]))%nat.
Proof.
  induction ms as [|x l IH]; [simpl; lia|]. cbn [joinMembers length].
  rewrite length_app in *. destruct l; rewrite ?length_app in *; cbn [length] in *; rewrite ?length_app in *; cbn [length] in *; lia.
Qed.

(** A request of one member after the credentials. *)
Lemma request_reads key name j f : validUTF8 key = true → plainName (lit name) → reads (lit name, printJ quote j) f →
  parseRequestFast (printJ quote (JObj (authMember key ++ [(lit name, j)]))) = Parsed (f (fold_left (λ q g, g q) (auths key) request0)).
Proof.
  intros Hk Hn Hr. rewrite print_object.
  2:{ apply Forall_app. split; [|by apply Forall_singleton]. unfold authMember. case_bool_decide; [done|]. by apply Forall_singleton. }
  unfold parseRequestFast. cbn [skipSpace]. change (isJsonSpace 123) with false. cbv iota.
  cbn [consume]. change (123 =? 123) with true. cbv iota.
  assert (Hms : Forall2 reads (textMembers (authMember key ++ [(lit name, j)])) (auths key ++ [f])).
  { unfold textMembers. rewrite map_app. apply Forall2_app; [by apply auth_reads|]. constructor; [exact Hr|constructor]. }
  destruct (textMembers (authMember key ++ [(lit name, j)])) as [|m ms] eqn:Em.
  { unfold textMembers, authMember in Em. by case_bool_decide. }
  assert (peek (joinMembers (m :: ms) ++ [125]) = dq) as -> by (cbn [joinMembers]; by destruct ms).
  change (dq =? 125) with false. cbv iota. rewrite (request_loop_reads _ _ Hms); [|done|apply Nat.le_le_succ_r, joinMembers_length].
  by rewrite fold_left_app.
Qed.

(** ** Exchanges *)

(** What the server sends for the bytes of a client, and the state after it. *)
Definition replyTo (u : localTurn) (w : World C) (s : Session) (input : str) : str :=
  (loop (λ _, u) (S (length input)) 0 input [] w s).1.1.2.
Definition stateAfter (u : localTurn) (w : World C) (s : Session) (input : str) : World C * Session :=
  let '(_, _, w', s') := loop (λ _, u) (S (length input)) 0 input [] w s in (w', s').

Lemma one_exchange u w s p q a w1 s1 b : woErr (ltWrite u) = None → sendable p → requestOf p = inl q →
  turnOf u q w s = (a, w1, s1) → bytesOf a = Some (inl b) →
  replyTo u w s (sendBytes p) = sendBytes (limited q b) ∧ stateAfter u w s (sendBytes p) = (w1, s1).
Proof.
  intros Hw Hp Hq Ht Hb. unfold replyTo, stateAfter. rewrite <- (app_nil_r (sendBytes p)). change (sendBytes p ++ []) with (concat (map sendBytes [p])).
  rewrite loop_serves; [|done|by apply Forall_singleton|].
  - cbn [servedAll]. rewrite Hq, Ht, Hb. cbn [map concat fst snd app]. by rewrite app_nil_r.
  - cbn [map concat length]. rewrite app_nil_r. unfold sendBytes. rewrite length_app, putUint_length. lia.
Qed.

Lemma ping_request key : validUTF8 key = true → requestOf (pingPayload quote key) = inl (mkRequest [] [] [] key [] false true).
Proof.
  intros Hk. unfold requestOf, pingPayload. rewrite (request_reads key "ping" (JBool true) (λ q, set_ping q true)); [|done|done|apply ping_reads].
  by destruct key.
Qed.
Lemma query_request key sql : validUTF8 key = true → validUTF8 sql = true → sql ≠ [] →
  requestOf (queryPayload quote key sql []) = inl (mkRequest sql [] [] key [] false false).
Proof.
  intros Hk Hs Hne. unfold requestOf, queryPayload. rewrite bool_decide_true by done. cbn [app].
  rewrite (request_reads key "sql" (JStr sql) (λ q, set_sql q sql)); [|done|done|by apply (quoted_reads "sql" set_sql)].
  by destruct sql, key.
Qed.

Lemma statusBytes : objectText quote "status" (lit "ok") = lit "{" ++ quoteEsc (lit "status") ++ lit ":" ++ quoteEsc (lit "ok") ++ lit "}".
Proof. unfold objectText. cbn [printJ map commas fst snd]. by rewrite (Hquote (lit "status")), (Hquote (lit "ok")). Qed.
Lemma statusBytes_small : Z.of_nat (length (objectText quote "status" (lit "ok"))) = 15.
Proof. by rewrite statusBytes. Qed.

(** A probe of the local server succeeds whatever key it carries and whatever key the server
    requires, in any state, also while queries are turned away, and changes nothing. *)
Theorem probe_reports_alive u key (w : World C) s :
  validUTF8 key = true → sendable (pingPayload quote key) → woErr (ltWrite u) = None →
  Ping quote (replyTo u w s) key = None ∧ probeServer quote (replyTo u w s) key = None ∧
  stateAfter u w s (sendBytes (pingPayload quote key)) = (w, s).
Proof.
  intros Hk Hp Hw. destruct (one_exchange u w s _ _ (AOne (RStatus (lit "ok"))) w s (objectText quote "status" (lit "ok")) Hw Hp (ping_request key Hk))
    as [Er Es]; [done..|].
  assert (El : limited (mkRequest [] [] [] key [] false true) (objectText quote "status" (lit "ok")) = objectText quote "status" (lit "ok")) by done.
  rewrite El in Er. assert (Hd : judgeProbe (decodeProbe (objectText quote "status" (lit "ok"))) = None).
  { rewrite statusBytes. by vm_compute. }
  pose proof statusBytes_small as Hl. split_and!; [| |done].
  - unfold Ping. rewrite Er, <- (app_nil_r (sendBytes _)). unfold sendBytes. rewrite <- app_assoc, ReadFull_app by apply putUint_length.
    cbv zeta. rewrite Hl, getUint_putUint by (simpl; lia). change (Z.shiftl 1 20 <? 15) with false. cbv iota.
    rewrite ReadFull_app by lia. done.
  - unfold probeServer. rewrite Er, <- (app_nil_r (sendBytes _)), recv_send; [done|]. rewrite Hl. by vm_compute.
Qed.

(** A statement that the command-line client sends with an accepted key is executed once in
    the connection's session, and the client reads the encoded answer; with another
    key it reads the refusal, and nothing has changed. *)
Theorem cli_query_transparent u key sql (w : World C) s :
  validUTF8 key = true → validUTF8 sql = true → sql ≠ [] → sendable (queryPayload quote key sql []) → woErr (ltWrite u) = None →
  let q := mkRequest sql [] [] key [] false false in
  let '(a, w', s') := if checkAuth key authKey then executeRequest marshal cluster limits mode (ltEnv u) (ltIO u) (ltAdmit u) q w s
                      else (AOne (rerror "unauthorized: invalid or missing auth key"), w, s) in
  ∀ b, bytesOf a = Some (inl b) → Z.of_nat (length (limited q b)) ≤ Z.shiftl 64 20 →
    cliQuery quote (replyTo u w s) key sql [] = inl (limited q b) ∧
    stateAfter u w s (sendBytes (queryPayload quote key sql [])) = (w', s').
Proof.
  intros Hk Hs Hne Hp Hw. cbv zeta. set (q := mkRequest sql [] [] key [] false false).
  destruct (if checkAuth key authKey then _ else _) as [[a w'] s'] eqn:Ea. intros b Hb Hl.
  destruct (one_exchange u w s _ q a w' s' b Hw Hp (query_request key sql Hk Hs Hne)) as [Er Es]; [|done|].
  - unfold localTurnOf, serveRequest. cbn [qPing qAuth q]. by destruct (checkAuth key authKey).
  - split; [|done]. unfold cliQuery. by rewrite Er, <- (app_nil_r (sendBytes (limited q b))), recv_send.
Qed.
End Local.
