(* ===== verification/Updater.v ===== *)
(** * The updater: internal/updater/updater.go

    What happens to the install directory after an archive and its checksum list were
    downloaded: verification, extraction, replacement.  [unpack] stands for
    compress/gzip with archive/tar, or archive/zip: the entries of an archive in
    order, or the error that ends reading.
    At the end what an installation writes. *)

From S2P Require Import Prelude GoLib Json Sha256.
Open Scope Z_scope.

(** [strings.TrimPrefix] for a one-byte prefix *)
Definition TrimPrefixByte (s : str) (c : byte) : str :=
  match s with d :: s' => if d =? c then s' else s | [] => [] end.

Definition Version (tag : str) : str := TrimPrefixByte (TrimSpace tag) 118.

(** [target]: operating system, architecture and extension of the release. *)
Definition target (goos goarch : str) : option (str * str * str) :=
  ext ← (if bool_decide (goos = lit "linux") || bool_decide (goos = lit "darwin") then Some (lit ".tar.gz")
         else if bool_decide (goos = lit "windows") then Some (lit ".zip") else None);
  if bool_decide (goarch = lit "amd64") || bool_decide (goarch = lit "arm64") then Some (goos, goarch, ext) else None.

Definition archiveName (version osName arch ext : str) : str :=
  lit "superdb_" ++ version ++ lit "_" ++ osName ++ lit "_" ++ arch ++ ext.

(** ** Verification *)

Inductive updateErr :=
| UMissing | UChecksum                 (* no line for the archive; digest differs *)
| UArchive (e : err)                   (* reading the archive *)
| UEntryType (name : str)
| UFile (e : err).                     (* a file-system call *)

(** The digest of the first line whose last field names the archive. *)
Definition lineDigest (archive line : str) : option str :=
  let fields := Fields line in
  if (2 <=? length fields)%nat && bool_decide (TrimPrefixByte (default [] (last fields)) 42 = archive)
  then fields !! 0%nat else None.
Fixpoint expectedDigest (archive : str) (lines : list str) : str :=
  match lines with
  | [] => []
  | line :: lines' => match lineDigest archive line with Some d => d | None => expectedDigest archive lines' end
  end.

Section Updater.
Context `{GoStd}.

Definition verifyChecksum (data checksums archive : str) : option updateErr :=
  let expected := expectedDigest archive (SplitByte checksums 10) in
  if bool_decide (expected = []) then Some UMissing
  else if EqualFold (hexEncode (Sum256 data)) expected then None else Some UChecksum.

(** ** Extraction *)

(** [path.Base] *)
Fixpoint afterSlash (cur s : str) : str :=
  match s with [] => cur | c :: s' => if c =? 47 then afterSlash [] s' else afterSlash (cur ++ [c]) s' end.
Definition dropSlashes (s : str) : str := reverse (drop_byte 47 (reverse s)).
Definition Base (path : str) : str :=
  if bool_decide (path = []) then lit "."
  else match afterSlash [] (dropSlashes path) with [] => lit "/" | b => b end.

Record entry := mkEntry { eName : str; eRegular : bool; eData : str }.

(** What writing one extracted file answers: how much of it was written, and an error. *)
Record copyIO := mkCopy { cpOpen : option err; cpCount : nat; cpErr : option err }.

Definition writeExtracted (io : copyIO) (name data : str) (stage : gmap str str) : option updateErr * gmap str str :=
  match cpOpen io with
  | Some er => (Some (UFile er), stage)
  | None =>
      match cpErr io with
      | Some er => (Some (UFile er), <[name := take (cpCount io) data]> stage)
      | None => (None, <[name := data]> stage)
      end
  end.

(** The stage directory after the entries of an archive, of which [names] are kept. *)
Fixpoint extractAll (names : list str) (ios : nat → copyIO) (i : nat) (entries : list entry) (stop : option err)
    (stage : gmap str str) : option updateErr * gmap str str :=
  match entries with
  | [] => (UArchive <$> stop, stage)
  | e :: entries' =>
      let name := Base (eName e) in
      if negb (bool_decide (name ∈ names)) then extractAll names ios (S i) entries' stop stage
      else if negb (eRegular e) then (Some (UEntryType name), stage)
      else match writeExtracted (ios i) name (eData e) stage with
      | (Some er, stage') => (Some er, stage')
      | (None, stage') => extractAll names ios (S i) entries' stop stage'
      end
  end.

(** ** Installation *)

(** The calls of [replaceFile] until the rename, and the rename. *)
Record replaceIO := mkReplace { rpPrepare : option err; rpRename : option err }.

(** The temporary file is removed on every path. *)
Definition replaceFile (io : replaceIO) (name : str) (stage inst : gmap str str) : option updateErr * gmap str str :=
  match stage !! name with
  | None => (Some (UFile (EMsg (lit "open"))), inst)
  | Some data =>
      match rpPrepare io, rpRename io with
      | Some er, _ => (Some (UFile er), inst)
      | None, Some er => (Some (UFile er), inst)
      | None, None => (None, <[name := data]> inst)
      end
  end.

Fixpoint installUnix (ios : nat → replaceIO) (i : nat) (names : list str) (stage inst : gmap str str)
    : option updateErr * gmap str str :=
  match names with
  | [] => (None, inst)
  | name :: names' =>
      match replaceFile (ios i) name stage inst with
      | (Some er, inst') => (Some er, inst')
      | (None, inst') => installUnix ios (S i) names' stage inst'
      end
  end.

Definition unixNames : list str := [lit "superdb"; lit "superdb-cli"].

(** [Update] on a Unix system from the downloaded files on; [unpack] reads the archive. *)
Definition updateUnix (unpack : str → list entry * option err) (cios : nat → copyIO) (rios : nat → replaceIO)
    (archive checksums name : str) (inst : gmap str str) : option updateErr * gmap str str :=
  match verifyChecksum archive checksums name with
  | Some er => (Some er, inst)
  | None =>
      let '(entries, stop) := unpack archive in
      match extractAll unixNames cios 0 entries stop ∅ with
      | (Some er, _) => (Some er, inst)
      | (None, stage) => installUnix rios 0 unixNames stage inst
      end
  end.
End Updater.

Section Updater.
Context `{GoStd}.

(** What the archive holds under a name: the last regular entry with that base name. *)
Definition packed (entries : list entry) (name : str) : option str :=
  foldl (λ acc e, if bool_decide (Base (eName e) = name) then Some (eData e) else acc) None entries.

Lemma extractAll_packed names ios stop entries : ∀ i stage stage',
  extractAll names ios i entries stop stage = (None, stage') →
  ∀ name, name ∈ names → stage' !! name
    = foldl (λ acc e, if bool_decide (Base (eName e) = name) then Some (eData e) else acc) (stage !! name) entries.
Proof.
  induction entries as [|e entries IH]; intros i stage stage' Hx name Hn; cbn [extractAll foldl] in *.
  { destruct stop; [done|]. by injection Hx as <-. }
  destruct (bool_decide_reflect (Base (eName e) ∈ names)) as [Hin|Hout]; cbn [negb] in Hx.
  - destruct (eRegular e); [|done]. cbn [negb] in Hx. unfold writeExtracted in Hx. destruct (cpOpen (ios i)); [done|].
    destruct (cpErr (ios i)); [done|]. rewrite (IH _ _ _ Hx name Hn). f_equal. rewrite lookup_insert.
    case_decide; case_bool_decide; done.
  - rewrite (IH _ _ _ Hx name Hn). rewrite bool_decide_false; [done|]. by intros <-.
Qed.

Lemma installUnix_files ios stage names : ∀ i inst er inst',
  NoDup names → installUnix ios i names stage inst = (er, inst') →
  (∀ name, name ∉ names → inst' !! name = inst !! name) ∧
  (∀ name, name ∈ names → inst' !! name = inst !! name ∨ is_Some (stage !! name) ∧ inst' !! name = stage !! name) ∧
  (er = None → ∀ name, name ∈ names → is_Some (stage !! name) ∧ inst' !! name = stage !! name).
Proof.
  induction names as [|n names IH]; intros i inst er inst' Hnd Hx; cbn [installUnix] in Hx.
  { injection Hx as <- <-. split_and!; [done|set_solver|set_solver]. }
  apply NoDup_cons in Hnd as [Hn Hnd].
  assert (Hkeep : ∀ e, (Some e, inst) = (er, inst') →
    (∀ name, name ∉ n :: names → inst' !! name = inst !! name) ∧
    (∀ name, name ∈ n :: names → inst' !! name = inst !! name ∨ is_Some (stage !! name) ∧ inst' !! name = stage !! name) ∧
    (er = None → ∀ name, name ∈ n :: names → is_Some (stage !! name) ∧ inst' !! name = stage !! name)).
  { intros e [= <- <-]. split_and!; [done|by left|done]. }
  unfold replaceFile in Hx. destruct (stage !! n) as [data|] eqn:Es; [|by eapply Hkeep].
  destruct (rpPrepare (ios i)); [by eapply Hkeep|]. destruct (rpRename (ios i)); [by eapply Hkeep|].
  destruct (IH (S i) (<[n := data]> inst) er inst' Hnd Hx) as (A1 & A2 & A3).
  assert (Hnew : inst' !! n = Some data) by (rewrite A1 by done; apply lookup_insert_eq).
  split_and!.
  - intros name Hne. rewrite A1 by set_solver. apply lookup_insert_ne. set_solver.
  - intros name [->|Hin]%elem_of_cons; [right; by rewrite Es|]. destruct (A2 name Hin) as [E|?]; [|by right].
    left. rewrite E. apply lookup_insert_ne. by intros ->.
  - intros Her name [->|Hin]%elem_of_cons; [by rewrite Es|]. by apply A3.
Qed.

(** An update installs the verified archive or leaves each program as it was.
    When it succeeds, the checksum list has a line for the archive whose digest is
    the SHA-256 of the downloaded bytes, and both programs are those the archive
    holds.  Whatever fails, every program is either untouched or replaced as a whole
    by the archive's, no other file of the install directory changes, and nothing
    changes at all unless the digest matched. *)
Theorem update_installs_verified unpack cios rios archive checksums name inst er inst' entries stop :
  unpack archive = (entries, stop) →
  updateUnix unpack cios rios archive checksums name inst = (er, inst') →
  (∀ f, f ∉ unixNames → inst' !! f = inst !! f) ∧
  (∀ f, f ∈ unixNames → inst' !! f = inst !! f ∨ is_Some (packed entries f) ∧ inst' !! f = packed entries f) ∧
  (inst' ≠ inst ∨ er = None →
     EqualFold (hexEncode (Sum256 archive)) (expectedDigest name (SplitByte checksums 10)) = true ∧
     expectedDigest name (SplitByte checksums 10) ≠ []) ∧
  (er = None → ∀ f, f ∈ unixNames → is_Some (packed entries f) ∧ inst' !! f = packed entries f).
Proof.
  intros Hu Hx. unfold updateUnix in Hx. unfold verifyChecksum in Hx. cbv zeta in Hx.
  assert (Hkeep : ∀ e, (Some e, inst) = (er, inst') →
    (∀ f, f ∉ unixNames → inst' !! f = inst !! f) ∧
    (∀ f, f ∈ unixNames → inst' !! f = inst !! f ∨ is_Some (packed entries f) ∧ inst' !! f = packed entries f) ∧
    (inst' ≠ inst ∨ er = None → False) ∧
    (er = None → ∀ f, f ∈ unixNames → is_Some (packed entries f) ∧ inst' !! f = packed entries f)).
  { intros e [= <- <-]. split_and!; [done|by left|by intros [?|?]|done]. }
  set (d := expectedDigest name (SplitByte checksums 10)) in *. case_bool_decide as Hd.
  { destruct (Hkeep _ Hx) as (? & ? & Hf & ?). split_and!; try done; intros Hc; by destruct Hf. }
  destruct (EqualFold _ _) eqn:Ee; [|by destruct (Hkeep _ Hx) as (? & ? & Hf & ?); split_and!; try done; intros Hc; destruct Hf].
  rewrite Hu in Hx. destruct (extractAll unixNames cios 0 entries stop ∅) as [[e|] stage] eqn:Ex.
  { by destruct (Hkeep _ Hx) as (? & ? & Hf & ?). }
  assert (Hst : ∀ f, f ∈ unixNames → stage !! f = packed entries f).
  { intros f Hf. rewrite (extractAll_packed _ _ _ _ _ _ _ Ex f Hf). by rewrite lookup_empty. }
  destruct (installUnix_files rios stage unixNames 0 inst er inst') as (A1 & A2 & A3); [|done|].
  { repeat constructor; set_solver. }
  split_and!; [done| |done|].
  - intros f Hf. rewrite <- Hst by done. by apply A2.
  - intros Her f Hf. rewrite <- Hst by done. by apply A3.
Qed.
End Updater.
