(* ===== verification/Release.v ===== *)
(** * An update from the network to the install directory: internal/updater/updater.go

    [Latest], [download], the two extractions and [Update] as a whole.  [get] stands for an
    HTTP request: the reply, or why there was none.
    At the end: what is installed was published under its version, verified, and whole. *)

From S2P Require Import Prelude GoLib Json Request JsonText Image Sha256 Updater.
Open Scope Z_scope.

(** The status, the bytes of the body that arrived, and the error that ended it. *)
Record httpReply := mkHttp { htStatus : Z; htBody : str; htErr : option err }.

Inductive releaseErr :=
| RHttp (e : err) | RStatus (n : Z) | RDecode | RNoTag   (* no reply; not 200; no release in it; no tag *)
| RSystem                                                (* unsupported system or architecture *)
| RFile (e : err)                                        (* a file-system call *)
| RUpdate (e : updateErr)                                (* checksum, archive, installation *)
| RScheduled.                                            (* ErrUpdateScheduled *)

Definition DefaultRepository : str := lit "ByteTheDev/SuperDB".
Definition repositoryOr (repository : str) : str := if bool_decide (repository = []) then DefaultRepository else repository.
Definition latestURL (repository : str) : str := lit "https://api.github.com/repos/" ++ repository ++ lit "/releases/latest".
Definition releaseURL (repository version : str) : str :=
  lit "https://github.com/" ++ repository ++ lit "/releases/download/v" ++ version.

Definition windowsNames : list str := [lit "superdb.exe"; lit "superdb-cli.exe"].

(** The "tag_name" of the first JSON value of a text. *)
Definition decodeRelease (b : str) : option str :=
  let p := skipSpace b in
  '(j, _) ← scanValue (scanFuel p) 0 p;
  decStruct (λ tag key v, if isField key "tag_name" then decString tag v else Some tag) [] j.

(** The file-system calls of an update in their order; [None] is success. *)
Record updateIO := mkUpdateIO {
  uiTemp : option err; uiCreate : option err; uiCreateSums : option err; uiOpen : option err; uiStage : option err;
  uiExtract : nat → copyIO; uiSelf : option err; uiInstall : option err; uiReplace : nat → replaceIO;
  uiScript : option err; uiSpawn : option err;
}.

Section Release.
Context `{GoStd} (get : str → httpReply + err).

Definition Latest (repository : str) : str + releaseErr :=
  match get (latestURL (repositoryOr repository)) with
  | inr e => inr (RHttp e)
  | inl r =>
      if negb (htStatus r =? 200) then inr (RStatus (htStatus r))
      else match decodeRelease (htBody r) with
      | None => inr RDecode
      | Some [] => inr RNoTag
      | Some tag => inl tag
      end
  end.

(** The file that was written, or the error. *)
Definition download (url : str) (create : option err) : str + releaseErr :=
  match get url with
  | inr e => inr (RHttp e)
  | inl r =>
      if negb (htStatus r =? 200) then inr (RStatus (htStatus r))
      else match create, htErr r with
      | Some er, _ | None, Some er => inr (RFile er)
      | None, None => inl (htBody r)
      end
  end.

(** The version to install. *)
Definition updateVersion (repository version : str) : str + releaseErr :=
  match Version version with
  | [] => match Latest repository with inl tag => inl (Version tag) | inr e => inr e end
  | v => inl v
  end.

(** [unpack], [unzip]: the entries of an archive, see Updater; of a zip file an entry is
    regular when it is not a directory.  [isWindows] is the system the program runs on. *)
Definition installFrom (unpack unzip : str → list entry * option err) (ext : str) (isWindows noDir : bool) (io : updateIO)
    (archive : str) (inst : gmap str str) : option releaseErr * gmap str str :=
  match uiStage io with
  | Some er => (Some (RFile er), inst)
  | None =>
      let zip := bool_decide (ext = lit ".zip") in
      let '(entries, stop) := (if zip then unzip else unpack) archive in
      match extractAll (if zip then windowsNames else unixNames) (uiExtract io) 0 entries stop ∅ with
      | (Some er, _) => (Some (RUpdate er), inst)
      | (None, stage) =>
          match (if noDir : bool then uiSelf io else None) with
          | Some er => (Some (RFile er), inst)
          | None =>
              if isWindows : bool then
                match uiScript io, uiSpawn io with
                | Some er, _ | None, Some er => (Some (RFile er), inst)
                | None, None => (Some RScheduled, inst)
                end
              else match uiInstall io with
              | Some er => (Some (RFile er), inst)
              | None => let '(er, inst') := installUnix (uiReplace io) 0 unixNames stage inst in (RUpdate <$> er, inst')
              end
          end
      end
  end.

(** [Update]; [noDir]: no install directory was named. *)
Definition Update (goos goarch : str) (unpack unzip : str → list entry * option err) (noDir : bool) (io : updateIO)
    (repository version : str) (inst : gmap str str) : option releaseErr * gmap str str :=
  let repository := repositoryOr repository in
  match updateVersion repository version with
  | inr e => (Some e, inst)
  | inl version =>
      match target goos goarch with
      | None => (Some RSystem, inst)
      | Some (osName, arch, ext) =>
          let name := archiveName version osName arch ext in
          let base := releaseURL repository version in
          match uiTemp io with
          | Some er => (Some (RFile er), inst)
          | None =>
              match download (base ++ lit "/" ++ name) (uiCreate io) with
              | inr e => (Some e, inst)
              | inl archive =>
                  match download (base ++ lit "/SHA256SUMS") (uiCreateSums io) with
                  | inr e => (Some e, inst)
                  | inl sums =>
                      match uiOpen io, verifyChecksum archive sums name with
                      | Some er, _ => (Some (RFile er), inst)
                      | None, Some er => (Some (RUpdate er), inst)
                      | None, None => installFrom unpack unzip ext (bool_decide (goos = lit "windows")) noDir io archive inst
                      end
                  end
              end
          end
      end
  end.
End Release.

Section Release.
Context `{GoStd} (get : str → httpReply + err).

(** A URL that answers 200 with a body that arrives in full. *)
Definition publishes (url b : str) : Prop := ∃ r, get url = inl r ∧ htStatus r = 200 ∧ htErr r = None ∧ htBody r = b.

Lemma download_ok url create b : download get url create = inl b → publishes url b.
Proof.
  unfold download. destruct (get url) as [r|] eqn:E; [|done]. destruct (Z.eqb_spec (htStatus r) 200); [|done]. cbn [negb].
  destruct create; [done|]. destruct (htErr r) eqn:Ee; [done|]. intros [= <-]. by exists r.
Qed.

(** The digest listed for a name is that of the bytes. *)
Definition digestListed (archive sums name : str) : Prop :=
  let d := expectedDigest name (SplitByte sums 10) in d ≠ [] ∧ EqualFold (hexEncode (Sum256 archive)) d = true.
Lemma verifyChecksum_ok archive sums name : verifyChecksum archive sums name = None → digestListed archive sums name.
Proof. unfold verifyChecksum, digestListed. cbv zeta. case_bool_decide; [done|]. by destruct (EqualFold _ _). Qed.

(** Each program is as before or the one of the archive; a success leaves both new. *)
Definition programsFrom (entries : list entry) (er : option releaseErr) (inst inst' : gmap str str) : Prop :=
  (∀ f, f ∉ unixNames → inst' !! f = inst !! f) ∧
  (∀ f, f ∈ unixNames → inst' !! f = inst !! f ∨ is_Some (packed entries f) ∧ inst' !! f = packed entries f) ∧
  (er = None → ∀ f, f ∈ unixNames → is_Some (packed entries f) ∧ inst' !! f = packed entries f).

Lemma programs_kept entries e inst : programsFrom entries (Some e) inst inst.
Proof. split_and!; [done|by left|done]. Qed.

Lemma installFrom_unix unpack unzip noDir io archive inst er inst' :
  installFrom unpack unzip (lit ".tar.gz") false noDir io archive inst = (er, inst') →
  programsFrom (unpack archive).1 er inst inst'.
Proof.
  unfold installFrom. change (bool_decide (lit ".tar.gz" = lit ".zip")) with false. cbv iota zeta.
  destruct (uiStage io); [intros [= <- <-]; apply programs_kept|].
  destruct (unpack archive) as [entries stop]. destruct (extractAll _ _ _ _ _ _) as [[e|] stage] eqn:Ex; [intros [= <- <-]; apply programs_kept|].
  destruct (if noDir then _ else _); [intros [= <- <-]; apply programs_kept|]. destruct (uiInstall io); [intros [= <- <-]; apply programs_kept|].
  destruct (installUnix _ _ _ _ _) as [e inst1] eqn:Ei. intros [= <- <-].
  assert (Hst : ∀ f, f ∈ unixNames → stage !! f = packed entries f).
  { intros f Hf. rewrite (extractAll_packed _ _ _ _ _ _ _ Ex f Hf). by rewrite lookup_empty. }
  destruct (installUnix_files (uiReplace io) stage unixNames 0 inst e inst1) as (A1 & A2 & A3); [|done|].
  { repeat constructor; set_solver. }
  split_and!; [done| |].
  - intros f Hf. cbn [fst]. rewrite <- Hst by done. by apply A2.
  - intros He f Hf. cbn [fst]. rewrite <- Hst by done. apply A3; [by destruct e|done].
Qed.
Lemma installFrom_windows unpack unzip ext noDir io archive inst er inst' :
  installFrom unpack unzip ext true noDir io archive inst = (er, inst') → inst' = inst ∧ er ≠ None.
Proof.
  unfold installFrom. cbv zeta. intros Hx. repeat (case_match; try (by simplify_eq)); by simplify_eq.
Qed.

(** The system decides the kind of archive. *)
Lemma target_ext goos goarch osName arch ext : target goos goarch = Some (osName, arch, ext) →
  osName = goos ∧ arch = goarch ∧ (goos = lit "windows" ∧ ext = lit ".zip" ∨ goos ≠ lit "windows" ∧ ext = lit ".tar.gz").
Proof.
  unfold target. destruct (bool_decide_reflect (goos = lit "linux")) as [->|]; [|destruct (bool_decide_reflect (goos = lit "darwin")) as [->|]];
    [..|destruct (bool_decide_reflect (goos = lit "windows")) as [->|]]; cbn [orb mbind option_bind]; try done;
    (destruct (_ || _); [|done]); intros [= <- <- <-]; split_and!; try done; (left; done) || (right; by split).
Qed.

(** C40: An update installs what was published under its version, verified and whole.
    Whatever the network and the file system do: files other than the two programs
    are never touched; and if a program changed, or success was reported (or, on
    Windows, the replacement was scheduled), then the archive of exactly that version
    for this system was served in full beside a checksum list that names it with
    the SHA-256 of the bytes that arrived.  Every program is then the one it was or,
    complete, the archive's, and after a success both are the archive's. *)
Theorem update_from_release goos goarch unpack unzip noDir io repository version inst er inst' :
  Update get goos goarch unpack unzip noDir io repository version inst = (er, inst') →
  (∀ f, f ∉ unixNames → inst' !! f = inst !! f) ∧
  (inst' ≠ inst ∨ er = None ∨ er = Some RScheduled →
   ∃ v ext archive sums, let base := releaseURL (repositoryOr repository) v in let name := archiveName v goos goarch ext in
     updateVersion get (repositoryOr repository) version = inl v ∧ target goos goarch = Some (goos, goarch, ext) ∧
     publishes (base ++ lit "/" ++ name) archive ∧ publishes (base ++ lit "/SHA256SUMS") sums ∧
     digestListed archive sums name ∧
     (goos = lit "windows" → inst' = inst) ∧
     (goos ≠ lit "windows" → programsFrom (unpack archive).1 er inst inst')).
Proof.
  unfold Update. cbv zeta. assert (Hkeep : ∀ e, e ≠ RScheduled → (Some e, inst) = (er, inst') →
    (∀ f, f ∉ unixNames → inst' !! f = inst !! f) ∧ (inst' ≠ inst ∨ er = None ∨ er = Some RScheduled → False)).
  { intros e He [= <- <-]. split; [done|]. intros [?|[?|[= ?]]]; done. }
  assert (Hdl : ∀ url c e, download get url c = inr e → e ≠ RScheduled).
  { intros url c e. unfold download. repeat (case_match; try done); by intros [= <-]. }
  assert (Hfail : ∀ e (P : Prop), e ≠ RScheduled → (Some e, inst) = (er, inst') →
    (∀ f, f ∉ unixNames → inst' !! f = inst !! f) ∧ (inst' ≠ inst ∨ er = None ∨ er = Some RScheduled → P)).
  { intros e P He Hx. destruct (Hkeep e He Hx) as [? Hf]. split; [done|]. intros Hc. by destruct Hf. }
  destruct (updateVersion get _ version) as [v|e] eqn:Ev.
  2:{ apply Hfail. unfold updateVersion in Ev. destruct (Version version); [|done]. destruct (Latest get _) as [|e'] eqn:El; [done|].
      injection Ev as <-. revert El. unfold Latest. destruct (get _) as [r|]; [|by intros [= <-]].
      destruct (negb _); [by intros [= <-]|]. destruct (decodeRelease _) as [[|]|]; try done; by intros [= <-]. }
  destruct (target goos goarch) as [[[osName arch] ext]|] eqn:Et; [|by apply Hfail].
  destruct (target_ext _ _ _ _ _ Et) as (-> & -> & Hext). destruct (uiTemp io); [by apply Hfail|].
  destruct (download get _ (uiCreate io)) as [archive|e] eqn:Ea; [|by eapply Hfail, Hdl].
  destruct (download get _ (uiCreateSums io)) as [sums|e] eqn:Es; [|by eapply Hfail, Hdl].
  destruct (uiOpen io); [by apply Hfail|]. destruct (verifyChecksum _ _ _) eqn:Ec; [by apply Hfail|].
  intros Hx. apply download_ok in Ea, Es. apply verifyChecksum_ok in Ec.
  destruct Hext as [[Hw ->]|[Hw ->]].
  - rewrite bool_decide_true in Hx by done. apply installFrom_windows in Hx as [-> _]. split; [done|]. intros _.
    exists v, (lit ".zip"), archive, sums. by split_and!.
  - rewrite bool_decide_false in Hx by done. apply installFrom_unix in Hx. split; [apply Hx|]. intros _.
    exists v, (lit ".tar.gz"), archive, sums. by split_and!.
Qed.
End Release.
