(* ===== verification/ConnString.v ===== *)
(** * Connection strings: connstring.go

    The reading of a superdb:// URL into a connection configuration.  url.Parse,
    net.ParseIP and time.ParseDuration are parameters. *)

From S2P Require Import Prelude GoLib GoFacts.
Open Scope Z_scope.

(** What the code uses of a parsed URL: user name and password when given, the
    percent-decoded path, and the first value of a query key. *)
Record URL := mkURL { uScheme : str; uHost : str; uUser : option (str * option str); uPath : str; uQuery : string → str }.

Record ConnConfig := mkConnConfig {
  ccHost : str; ccPort : Z; ccUsername : str; ccPassword : str; ccDatabase : str;
  ccTLS : bool; ccTLSInsecure : bool; ccTimeout : Z;
}.
Definition seconds (n : Z) : Z := n * 10 ^ 9.
(** [time.Duration(n) * time.Second] wraps. *)
Definition wrap64 (n : Z) : Z := (n + 2 ^ 63) mod 2 ^ 64 - 2 ^ 63.
Definition conn0 : ConnConfig := mkConnConfig [] 7432 [] [] (lit "main") false false (seconds 10).

Inductive connErr :=
| ConnEmpty | ConnParse (e : err) | ConnScheme | ConnHost | ConnIPv6 | ConnPort | ConnTLS | ConnSkipVerify | ConnTimeout.

(** ** net.SplitHostPort and net.JoinHostPort *)

Definition IndexByte (s : str) (c : byte) : Z := Index s [c].

Definition SplitHostPort (hostport : str) : option (str * str) :=
  let i := LastIndexByte hostport 58 in
  if i <? 0 then None
  else
    let split host j k :=
      if ContainsByte (drop j hostport) 91 || ContainsByte (drop k hostport) 93 then None
      else Some (host, drop (Z.to_nat i + 1) hostport) in
    if match hostport with c :: _ => c =? 91 | [] => false end then
      let close := IndexByte hostport 93 in
      if close <? 0 then None
      else if close + 1 =? i then split (take (Z.to_nat close - 1) (drop 1 hostport)) 1%nat (Z.to_nat close + 1)%nat
      else None
    else
      let host := take (Z.to_nat i) hostport in
      if ContainsByte host 58 then None else split host 0%nat 0%nat.

Definition JoinHostPort (host port : str) : str :=
  if ContainsByte host 58 then lit "[" ++ host ++ lit "]:" ++ port
  else host ++ lit ":" ++ port.

(** ** ParseURL *)

Definition TrimPrefixOf (s : str) (c : byte) : str := match s with d :: s' => if d =? c then s' else s | [] => [] end.
Definition unbracket (host : str) : str := TrimSuffixByte (TrimPrefixOf host 91) 93.

Definition firstNonEmpty (a b : str) : str := if bool_decide (a = []) then b else a.

Section Parse.
Context `{GoStd} (parse : str → URL + err) (isIPLiteral : str → bool) (ParseDuration : str → Z + err).

Definition parseDuration (s : str) : option Z :=
  match ParseDuration s with
  | inl d => Some d
  | inr _ => match Atoi s with inl n => Some (wrap64 (seconds n)) | inr _ => None end
  end.

(** Host and port of the authority. *)
Definition hostPort (u : URL) : (str * Z) + connErr :=
  match SplitHostPort (uHost u) with
  | None =>
      let host := unbracket (uHost u) in
      if ContainsByte host 58 && negb (isIPLiteral host) then inr ConnIPv6 else inl (host, ccPort conn0)
  | Some (h, portStr) =>
      let host := unbracket h in
      if bool_decide (portStr = []) then inl (host, ccPort conn0)
      else match Atoi portStr with
      | inl p => if (p <=? 0) || (65535 <? p) then inr ConnPort else inl (host, p)
      | inr _ => inr ConnPort
      end
  end.

(** The first segment of the path. *)
Definition databaseOf (path : str) : str :=
  if bool_decide (TrimByte path 47 = []) then ccDatabase conn0
  else firstNonEmpty (default [] (SplitByte (TrimPrefixOf path 47) 47 !! 0%nat)) (ccDatabase conn0).

(** The tls parameter: on, and without verification. *)
Definition tlsMode (v : str) : option (bool * bool) :=
  let s := ToLower v in
  let one l := existsb (λ x, bool_decide (s = lit x)) l in
  if one [""; "false"; "0"; "disable"; "disabled"; "off"]%string then Some (false, false)
  else if one ["true"; "1"; "require"; "required"; "on"]%string then Some (true, false)
  else if one ["insecure"; "skip-verify"; "skip_verify"]%string then Some (true, true)
  else None.

Definition ParseURL (raw : str) : ConnConfig + connErr :=
  if bool_decide (raw = []) then inr ConnEmpty
  else match parse raw with
  | inr er => inr (ConnParse er)
  | inl u =>
      if negb (bool_decide (uScheme u = lit "superdb")) then inr ConnScheme
      else if bool_decide (uHost u = []) then inr ConnHost
      else match hostPort u with
      | inr er => inr er
      | inl (host, port) =>
          if bool_decide (host = []) then inr ConnHost
          else
            let '(user, pass) := match uUser u with Some (n, p) => (n, default [] p) | None => ([], []) end in
            match tlsMode (uQuery u "tls") with
            | None => inr ConnTLS
            | Some (tls, insecure) =>
                match (match uQuery u "tls_skip_verify" with
                       | [] => Some false
                       | v => ParseBool v
                       end) with
                | None => inr ConnSkipVerify
                | Some skip =>
                    match (match firstNonEmpty (uQuery u "timeout") (uQuery u "connect_timeout") with
                           | [] => Some (ccTimeout conn0)
                           | v => parseDuration v
                           end) with
                    | None => inr ConnTimeout
                    | Some d => inl (mkConnConfig host port user pass (databaseOf (uPath u)) (tls || skip) (insecure || skip) d)
                    end
                end
            end
      end
  end.

(** [Address] *)
Definition Address (c : ConnConfig) : str := JoinHostPort (ccHost c) (FormatInt (ccPort c)).
End Parse.

(** ** Addresses round trip *)

Lemma last_index_app s t c : ∀ i b, ContainsByte t c = false →
  last_index_byte_aux i b (s ++ c :: t) c = i + Z.of_nat (length s).
Proof.
  assert (Hno : ∀ i b, ContainsByte t c = false → last_index_byte_aux i b t c = b).
  { induction t as [|d t IH]; intros i b Ht; [done|]. cbn [last_index_byte_aux ContainsByte existsb] in *.
    apply orb_false_iff in Ht as [Hd Ht]. rewrite Z.eqb_sym, Hd. by apply IH. }
  induction s as [|d s IH]; intros i b Ht; cbn [app last_index_byte_aux length].
  - rewrite Z.eqb_refl, Hno by done. lia.
  - rewrite IH by done. lia.
Qed.
Lemma index_byte_app s t c : ContainsByte s c = false → IndexByte (s ++ c :: t) c = Z.of_nat (length s).
Proof.
  unfold IndexByte, Index. assert (∀ i, ContainsByte s c = false → index_aux i (s ++ c :: t) [c] = i + Z.of_nat (length s)) as Hg.
  { induction s as [|d s IH]; intros i Hs; cbn [app index_aux has_prefix length].
    - rewrite Z.eqb_refl. destruct t; cbn [andb has_prefix]; lia.
    - cbn [ContainsByte existsb] in Hs. apply orb_false_iff in Hs as [Hd Hs]. rewrite Hd. cbn [andb]. rewrite IH by done. lia. }
  intros Hs. by rewrite Hg.
Qed.
Lemma contains_cons d s c : ContainsByte (d :: s) c = (c =? d) || ContainsByte s c.
Proof. done. Qed.
Lemma contains_app s t c : ContainsByte (s ++ t) c = ContainsByte s c || ContainsByte t c.
Proof. apply existsb_app. Qed.

(** A port's digits. *)
Lemma port_digits p c : 0 ≤ p → is_digit c = false → ContainsByte (FormatInt p) c = false.
Proof.
  intros Hp Hc. unfold FormatInt. destruct (Z.ltb_spec p 0); [lia|]. pose proof (FormatUint_digits p Hp) as Hd.
  induction (FormatUint p) as [|d l IH]; [done|]. cbn [forallb] in Hd. apply andb_true_iff in Hd as [Hd Hl].
  rewrite contains_cons, (IH Hl). destruct (Z.eqb_spec c d); [congruence|done].
Qed.

(** A host without brackets. *)
Definition plainHost (h : str) : Prop := h ≠ [] ∧ ContainsByte h 91 = false ∧ ContainsByte h 93 = false.

Lemma SplitHostPort_join h p : plainHost h → 0 ≤ p → SplitHostPort (JoinHostPort h (FormatInt p)) = Some (h, FormatInt p).
Proof.
  intros (Hne & H1 & H2) Hp. set (t := FormatInt p).
  assert (Ht : ∀ c, is_digit c = false → ContainsByte t c = false) by (intros; by apply port_digits).
  unfold JoinHostPort. destruct (ContainsByte h 58) eqn:E1.
  - change (lit "[" ++ h ++ lit "]:" ++ t) with (91 :: h ++ 93 :: 58 :: t).
    assert (E : LastIndexByte (91 :: h ++ 93 :: 58 :: t) 58 = Z.of_nat (length h) + 2).
    { unfold LastIndexByte. replace (91 :: h ++ 93 :: 58 :: t) with ((91 :: h ++ [93]) ++ 58 :: t) by (cbn; by rewrite <- app_assoc).
      rewrite last_index_app by by apply Ht. cbn [length]. rewrite length_app. cbn [length]. lia. }
    assert (Ei : IndexByte (91 :: h ++ 93 :: 58 :: t) 93 = Z.of_nat (length h) + 1).
    { change (91 :: h ++ 93 :: 58 :: t) with ((91 :: h) ++ 93 :: 58 :: t).
      rewrite index_byte_app; [cbn [length]; lia|]. rewrite ?contains_cons. by rewrite H2. }
    unfold SplitHostPort. rewrite E, Ei. cbv zeta. destruct (Z.ltb_spec (Z.of_nat (length h) + 2) 0); [lia|].
    change (91 =? 91) with true. cbv iota. destruct (Z.ltb_spec (Z.of_nat (length h) + 1) 0); [lia|].
    destruct (Z.eqb_spec (Z.of_nat (length h) + 1 + 1) (Z.of_nat (length h) + 2)); [|lia]. cbn [drop].
    replace (Z.to_nat (Z.of_nat (length h) + 1) - 1)%nat with (length h) by lia.
    replace (Z.to_nat (Z.of_nat (length h) + 1) + 1)%nat with (S (length h + 1)) by lia.
    replace (Z.to_nat (Z.of_nat (length h) + 2) + 1)%nat with (S (length h + 2)) by lia.
    rewrite drop_0, take_app_length. cbn [drop]. rewrite !drop_app_add, contains_app. cbn [drop]. rewrite ?contains_cons.
    rewrite H1, (Ht 91), (Ht 93) by done. done.
  - change (h ++ lit ":" ++ t) with (h ++ 58 :: t).
    unfold SplitHostPort, LastIndexByte. rewrite last_index_app by by apply Ht. rewrite Z.add_0_l. cbv zeta.
    destruct (Z.ltb_spec (Z.of_nat (length h)) 0); [lia|]. destruct h as [|c h]; [done|]. cbn [app].
    assert ((c =? 91) = false) as ->.
    { rewrite contains_cons in H1. apply orb_false_iff in H1 as [H1 _]. by rewrite Z.eqb_sym. }
    change (c :: h ++ 58 :: t) with ((c :: h) ++ 58 :: t). rewrite Nat2Z.id, take_app_length, E1. cbn [drop].
    rewrite ?drop_0, !contains_app. rewrite H1, H2. rewrite ?contains_cons. rewrite (Ht 91), (Ht 93) by done. cbn [orb].
    by rewrite drop_app_add.
Qed.

Lemma unbracket_plain h : plainHost h → unbracket h = h.
Proof.
  intros (Hne & H1 & H2). unfold unbracket, TrimPrefixOf. destruct h as [|c h]; [done|].
  assert ((c =? 91) = false) as ->.
  { rewrite contains_cons in H1. apply orb_false_iff in H1 as [H1 _]. by rewrite Z.eqb_sym. }
  unfold TrimSuffixByte. destruct (last (c :: h)) as [d|] eqn:El; [|done]. apply last_Some_elem_of in El.
  destruct (Z.eqb_spec d 93) as [->|]; [|done]. exfalso. unfold ContainsByte in H2. rewrite <- not_true_iff_false in H2. apply H2.
  apply existsb_exists. exists 93. split; [by apply list_elem_of_In|done].
Qed.

(** A connection string names the address that is dialled.  For any host (a name,
    an IPv4 or an IPv6 address) and any valid port, the authority written by joining
    them is parsed to exactly that host and port, and dialling uses the same
    authority again. *)
Theorem address_roundtrip `{GoStd} parse isIP pd raw u h p c :
  raw ≠ [] → parse raw = inl u → uHost u = JoinHostPort h (FormatInt p) → plainHost h → 1 ≤ p ≤ 65535 →
  ParseURL parse isIP pd raw = inl c → ccHost c = h ∧ ccPort c = p ∧ Address c = uHost u.
Proof.
  intros Hraw Hu Hh Hplain Hp. unfold ParseURL. rewrite bool_decide_false by done. rewrite Hu.
  destruct (negb (bool_decide (uScheme u = lit "superdb"))); [done|]. case_bool_decide; [done|].
  unfold hostPort. rewrite Hh, SplitHostPort_join by (done || lia). rewrite unbracket_plain by done.
  assert (Hi : Atoi (FormatInt p) = inl p) by (apply FormatInt_parse; unfold is_int64, int64_min, int64_max; lia).
  case_bool_decide as Hnil; [by rewrite Hnil in Hi|]. rewrite Hi.
  destruct (Z.leb_spec p 0); [lia|]. destruct (Z.ltb_spec 65535 p); [lia|]. cbn [orb].
  case_bool_decide; [done|]. destruct (match uUser u with Some _ => _ | None => _ end) as [user pass].
  destruct (tlsMode _) as [[tls ins]|]; [|done]. destruct (match uQuery u "tls_skip_verify" with [] => _ | _ => _ end) as [skip|]; [|done].
  destruct (match firstNonEmpty _ _ with [] => _ | _ => _ end); [|done]. intros [= <-]. unfold Address. cbn [ccHost ccPort]. done.
Qed.
