(* ===== verification/Main.v ===== *)
(** * The server program: cmd/superdb/main.go and the start of internal/remote/server.go

    The choice of the command, the settings derived from flags and environment, the
    recovery a server runs before it accepts connections, and the file commands.
    Flag parsing is package flag's; its results are arguments. *)

From S2P Require Import Prelude GoLib Fold Value Parser Table Schema Database.
From S2P Require Import Bytes Storage Bind Json Request JsonText Image Session Sha256 Recovery Backup Config Updater.
Open Scope Z_scope.

(** ** Commands *)

Definition isFlag (s : str) : bool := match s with c :: _ => c =? 45 | [] => false end.
Definition menuChoice (line : str) : str :=
  let s := TrimSpace line in
  if bool_decide (s = lit "1") then lit "server"
  else if bool_decide (s = lit "2") then lit "status"
  else if bool_decide (s = lit "3") then lit "backup"
  else if bool_decide (s = lit "4") then lit "restore"
  else if bool_decide (s = lit "5") then lit "compact"
  else [].

Definition commands : list str :=
  map lit ["server"; "serve"; "status"; "backup"; "restore"; "recover"; "verify-backup"; "compact"; "update"]%string.

(** What [main] does with its arguments: print the version, leave the menu, run a
    command with the rest and the global production flag, or complain. *)
Inductive dispatched := ShowVersion | LeaveMenu | RunCommand (command : str) (args : list str) (production : bool) | UnknownCommand (command : str).

Definition wantsVersion (args : list str) : bool :=
  match args with [v] => bool_decide (v = lit "--version") || bool_decide (v = lit "-version") | _ => false end.
Definition productionFirst (args : list str) : bool :=
  match args with a :: _ => bool_decide (a = lit "-production") || bool_decide (a = lit "--production") | [] => false end.

(** [line]: what is typed at the menu. *)
Definition dispatchArgs (args : list str) (line : str) : dispatched :=
  if wantsVersion args then ShowVersion
  else
    let production := productionFirst args in
    let rest := if production then tl args else args in
    let '(command, rest) := match rest with
                            | a :: rest' => if isFlag a then (lit (if production then "server" else "menu"), rest) else (a, rest')
                            | [] => (lit (if production then "server" else "menu"), [])
                            end in
    let chosen := if bool_decide (command = lit "menu") then menuChoice line else command in
    if bool_decide (command = lit "menu") && bool_decide (chosen = []) then LeaveMenu
    else if bool_decide (chosen ∈ commands) then RunCommand chosen rest production
    else UnknownCommand chosen.

(** ** Settings of the local server *)

(** The -join flag. *)
Definition seedsOf (join : str) : list str :=
  if bool_decide (join = []) then [] else filter (λ s, s ≠ []) (map TrimSpace (SplitByte join 44)).

(** Durability mode and production profile; [None]: the process ends with an error. *)
Definition serverSettings (production : bool) (profile mode backupDir : str) (backupInterval : Z) : option (bool * str) :=
  if negb (bool_decide (profile = lit "standard")) && negb (bool_decide (profile = lit "production")) then None
  else
    let production := production || bool_decide (profile = lit "production") in
    let mode := if production && bool_decide (mode = lit "memory") then lit "wal" else mode in
    if negb (bool_decide (backupDir = [])) && (backupInterval <=? 0) then None else Some (production, mode).

(** ** Recovery at start *)

Section Main.
Context `{GoStd} `{Zlib} `{JsonStd} (order : list str → list str) (nilOrder nilNames : Table → bool) (e : Env).

(** What [runServer] and [Serve] do to the database before they listen. *)
Definition recoverMode (mode : str) (io : readIO) (k : DataDir) (d : Database) : Database * option startErr :=
  let persistent := bool_decide (mode = lit "wal") || bool_decide (mode = lit "snapshot") in
  match (if persistent then LoadSnapshot order io k d else (d, None)) with
  | (d1, Some er) => (d1, Some er)
  | (d1, None) => if bool_decide (mode = lit "wal") then ReplayDir e io k d1 else (d1, None)
  end.

Inductive serveErr := BadMode | HalfTLS | NotRecovered (e : startErr).
(** [Serve] up to the listener. *)
Definition serveStart (cfg : Config) (io : readIO) (k : DataDir) (d : Database) : Database * option serveErr :=
  let mode := cfMode cfg in
  if negb (bool_decide (mode = lit "memory")) && negb (bool_decide (mode = lit "wal")) && negb (bool_decide (mode = lit "snapshot"))
  then (d, Some BadMode)
  else if negb (eqb (bool_decide (cfTLSCert cfg = [])) (bool_decide (cfTLSKey cfg = []))) then (d, Some HalfTLS)
  else let '(d', er) := recoverMode mode io k d in (d', NotRecovered <$> er).

(** ** File commands *)

(** How reading a source and writing its copy went, and how much of it was written. *)
Record copyFileIO := mkCopyFile { cfRead : option err; cfWrite : option err; cfCount : nat }.
Inductive copied := CopyOK | CopyMissing | CopyFailed (e : err).
Definition copyFile (io : copyFileIO) (source dest : option str) : copied * option str :=
  match source, cfRead io with
  | None, _ => (CopyMissing, dest)
  | Some _, Some er => (CopyFailed er, dest)
  | Some b, None => match cfWrite io with
                    | Some er => (CopyFailed er, Some (take (cfCount io) b))
                    | None => (CopyOK, Some b)
                    end
  end.

(** The snapshot and then the log are copied from one directory to another; a missing
    file is passed over. *)
Definition copyBoth (mkdir : option err) (io1 io2 : copyFileIO) (src dst : DataDir) : option err * DataDir :=
  match mkdir with
  | Some er => (Some er, dst)
  | None =>
      let '(c1, snap) := copyFile io1 (ddSnap src) (ddSnap dst) in
      let dst1 := set_ddSnap dst snap in
      match c1 with
      | CopyFailed er => (Some er, dst1)
      | _ =>
          let '(c2, wal) := copyFile io2 (ddWal src) (ddWal dst1) in
          let dst2 := mkDir (ddSnap dst1) (ddLegacySnap dst1) wal (ddLegacyWal dst1) in
          (match c2 with CopyFailed er => Some er | _ => None end, dst2)
      end
  end.
Definition runBackup (mkdir : option err) (io1 io2 : copyFileIO) (data dest : DataDir) : option err * DataDir :=
  copyBoth mkdir io1 io2 data dest.
Definition runRestore (mkdir : option err) (io1 io2 : copyFileIO) (source data : DataDir) : option err * DataDir :=
  copyBoth mkdir io1 io2 source data.

Definition runCompact (io : readIO) (fs : fsOutcome) (rm1 rm2 : option err) (k : DataDir) : option startErr * DataDir :=
  let '(_, er, k') := Compact order nilOrder nilNames e io fs rm1 rm2 k newDB in (er, k').

(** [verify-backup] of a file, or of the newest backup of a directory. *)
Definition runVerifyBackup (v : verifyIO) (b : gmap str str) (path : option str) : BackupVerification + backupErr :=
  match (match path with Some p => inl p | None => LatestBackup b end) with
  | inr er => inr er
  | inl p => VerifyBackup order v b p
  end.

(** [update]: with [-check], whether a newer release exists; otherwise which version to
    install, if any. *)
Inductive updatePlan := UpToDate | Available (v : str) | AlreadyInstalled | Install (v : str).
Definition runUpdate (version latestTag releaseVersion : str) (check : bool) : updatePlan :=
  let released := negb (bool_decide (version = lit "dev")) in
  let latest := Version latestTag in
  if check then if released && bool_decide (Version version = latest) then UpToDate else Available latest
  else
    let target := if bool_decide (releaseVersion = []) then latest else releaseVersion in
    if released && bool_decide (Version version = Version target) then AlreadyInstalled else Install target.

(** ** Properties of the file commands *)

Definition copyFine : copyFileIO := mkCopyFile None None 0.

(** A backup restored into an empty directory starts the same database. *)
Lemma backup_restore io k d :
  ddLegacySnap k = None → ddLegacyWal k = None →
  let empty := mkDir None None None None in
  let backup := (runBackup None copyFine copyFine k empty).2 in
  let back := (runRestore None copyFine copyFine backup empty).2 in
  back = k ∧ startUp order e io back d = startUp order e io k d.
Proof.
  intros Hs Hw. cbv zeta.
  assert ((runRestore None copyFine copyFine (runBackup None copyFine copyFine k (mkDir None None None None)).2 (mkDir None None None None)).2 = k) as ->.
  { destruct k as [[s|] ls [w|] lw]; cbn in *; by subst. }
  done.
Qed.

(** A recovery in mode wal is the start-up of the local server. *)
Lemma recoverMode_wal io k d : recoverMode (lit "wal") io k d = startUp order e io k d.
Proof. unfold recoverMode, startUp. rewrite bool_decide_true by done. cbn [orb]. by destruct (LoadSnapshot order io k d) as [d1 [er|]]. Qed.
End Main.

(** A restored backup that holds no log leaves the log of the directory in place, and
    the next start replays it over the restored snapshot. *)
Example restore_keeps_old_log snap oldWal :
  (runRestore None copyFine copyFine (mkDir (Some snap) None None None) (mkDir None None (Some oldWal) None)).2
  = mkDir (Some snap) None (Some oldWal) None.
Proof. done. Qed.
(** A directory that still has its legacy names is backed up as nothing. *)
Example backup_skips_legacy snap wal :
  runBackup None copyFine copyFine (mkDir None (Some snap) None (Some wal)) (mkDir None None None None)
  = (None, mkDir None None None None).
Proof. done. Qed.
