(* ===== verification/Ranges.v ===== *)
(** * The range directory: internal/cluster/ranges.go, routing.go and the range
    management of node.go

    The replicated directory that partitions the keyspace, the fenced operations
    committed on it, the proposals the node computes, and routing. *)

From S2P Require Import Prelude GoLib Fold.
Open Scope Z_scope.

Record Range := mkRange {
  rgID : Z;               (* uint64 *)
  rgStart : str; rgEnd : str;
  rgReplicas : list str; rgLeader : str;
  rgGen : Z;              (* uint64 *)
}.
#[global] Instance Range_eq_dec : EqDecision Range.
Proof. solve_decision. Defined.
Definition range0 : Range := mkRange 0 [] [] [] [] 0.
Definition set_id r x := mkRange x (rgStart r) (rgEnd r) (rgReplicas r) (rgLeader r) (rgGen r).
Definition set_leader r x := mkRange (rgID r) (rgStart r) (rgEnd r) (rgReplicas r) x (rgGen r).

Definition succ64 (n : Z) : Z := (n + 1) mod 2 ^ 64.

Definition Contains (r : Range) (key : str) : bool :=
  if str_ltb key (rgStart r) then false
  else if negb (bool_decide (rgEnd r = [])) && negb (str_ltb key (rgEnd r)) then false
  else true.
Definition HasReplica (r : Range) (nodeID : str) : bool := existsb (λ n, bool_decide (n = nodeID)) (rgReplicas r).

Record RangeStore := mkStore { rsRanges : gmap Z Range; rsAssign : gmap str Z; rsNext : Z }.
Definition NewRangeStore : RangeStore := mkStore ∅ ∅ 1.

(** [Error()] of a cluster error. *)
Definition clusterError (code msg : str) : str := lit "cluster " ++ code ++ lit ": " ++ msg.
Definition rangeMissing (id : Z) : str :=
  clusterError (lit "range_not_found") (lit "range " ++ FormatUint id ++ lit " not found").

(** [order ks]: the order in which a loop over a map with keys [ks] visits it. *)
Section Order.
Context (order : list Z → list Z).
Definition keysOf {A} (m : gmap Z A) : list Z := order (map_to_list m).*1.

Definition EnsureSingleRange (s : RangeStore) (nodeID : str) : Range * RangeStore :=
  match keysOf (rsRanges s) with
  | id :: _ => (default range0 (rsRanges s !! id), s)
  | [] =>
      let r := mkRange (rsNext s) [] [] [nodeID] nodeID 1 in
      (r, mkStore (<[rgID r := r]> (rsRanges s)) (rsAssign s) (succ64 (rsNext s)))
  end.

(** Insertion sort by ID stands for [sort.Slice]: the IDs are distinct keys. *)
Definition id_le (a b : Range) : Prop := rgID a ≤ rgID b.
#[global] Instance id_le_dec a b : Decision (id_le a b).
Proof. unfold id_le. apply _. Defined.
Definition All (s : RangeStore) : list Range :=
  merge_sort id_le (omap (λ id, rsRanges s !! id) (keysOf (rsRanges s))).

Definition Lookup (s : RangeStore) (key : str) : option Range :=
  head (filter (λ r, Contains r key = true) (omap (λ id, rsRanges s !! id) (keysOf (rsRanges s)))).

Definition ByID (s : RangeStore) (id : Z) : Range + str :=
  match rsRanges s !! id with Some r => inl r | None => inr (rangeMissing id) end.

(** The lowest ID among the ranges visited. *)
Definition lowest (best : option Range) (r : Range) : option Range :=
  match best with
  | None => Some r
  | Some b => if rgID r <? rgID b then Some r else best
  end.
Definition TableRange (s : RangeStore) (table : str) : Range :=
  let fallback := default range0 (foldl lowest None (omap (λ id, rsRanges s !! id) (keysOf (rsRanges s)))) in
  match rsAssign s !! table with
  | Some id => match rsRanges s !! id with Some r => r | None => fallback end
  | None => fallback
  end.

Definition maxID (ranges : list Range) : Z := foldl (λ m r, if m <? rgID r then rgID r else m) 0 ranges.
Definition byIDs (ranges : list Range) : gmap Z Range := foldl (λ m r, <[rgID r := r]> m) ∅ ranges.

Definition ReplaceBulk (s : RangeStore) (ranges : list Range) : RangeStore :=
  let next := succ64 (maxID ranges) in
  mkStore (byIDs ranges) (rsAssign s) (if next =? 0 then 1 else next).

Definition restoreRanges (ranges : list Range) (assign : gmap str Z) (nextID : Z) : RangeStore :=
  let next := if nextID <=? maxID ranges then succ64 (maxID ranges) else nextID in
  mkStore (byIDs ranges) assign (if next =? 0 then 1 else next).

Definition UpdateLeader (s : RangeStore) (rangeID : Z) (leader : str) : option str * RangeStore :=
  match rsRanges s !! rangeID with
  | None => (Some (clusterError (lit "range_not_found") (lit "range not found")), s)
  | Some r =>
      let r' := mkRange (rgID r) (rgStart r) (rgEnd r) (rgReplicas r) leader (succ64 (rgGen r)) in
      (None, mkStore (<[rangeID := r']> (rsRanges s)) (rsAssign s) (rsNext s))
  end.

Definition SetRangeLeader (s : RangeStore) (rangeID : Z) (leader : str) : RangeStore :=
  match rsRanges s !! rangeID with
  | None => s
  | Some r => mkStore (<[rangeID := set_leader r leader]> (rsRanges s)) (rsAssign s) (rsNext s)
  end.

(** ** Committed operations *)

Record RangeOp := mkOp {
  opRanges : list Range; opRemove : list Z;
  opAssign : gmap str Z; opUnassign : list str;
  opBase : gmap Z Z;
}.
Definition op0 : RangeOp := mkOp [] [] ∅ [] ∅.

Definition staleText (id have want : Z) : str :=
  lit "stale range generation for " ++ FormatUint id ++ lit ": have " ++ FormatUint have
  ++ lit " want " ++ FormatUint want.

(** The fence: the first base generation, in visiting order, that does not hold. *)
Fixpoint checkBase (s : RangeStore) (base : gmap Z Z) (ids : list Z) : option str :=
  match ids with
  | [] => None
  | id :: ids' =>
      match base !! id, rsRanges s !! id with
      | None, _ => checkBase s base ids'
      | Some _, None => Some (rangeMissing id)
      | Some gen, Some r => if rgGen r =? gen then checkBase s base ids' else Some (staleText id (rgGen r) gen)
      end
  end.

Definition putRange (s : RangeStore) (r : Range) : RangeStore :=
  let '(r, next) :=
    if rgID r =? 0 then (set_id r (rsNext s), succ64 (rsNext s))
    else if rsNext s <=? rgID r then (r, succ64 (rgID r))
    else (r, rsNext s) in
  mkStore (<[rgID r := r]> (rsRanges s)) (rsAssign s) next.

Definition applyOp (s : RangeStore) (op : RangeOp) : option str * RangeStore :=
  match checkBase s (opBase op) (keysOf (opBase op)) with
  | Some er => (Some er, s)
  | None =>
      let s1 := mkStore (foldl (λ m id, delete id m) (rsRanges s) (opRemove op)) (rsAssign s) (rsNext s) in
      let s2 := foldl putRange s1 (opRanges op) in
      (None, mkStore (rsRanges s2)
               (foldl (λ m t, delete t m) (opAssign op ∪ rsAssign s2) (opUnassign op)) (rsNext s2))
  end.

(** ** Proposals of the node *)

Definition genesisOp (nodeID : str) : RangeOp := mkOp [mkRange 1 [] [] [nodeID] nodeID 1] [] ∅ [] ∅.

Definition splitOp (rng : Range) (rangeID : Z) (splitKey : str) : RangeOp :=
  let g := succ64 (rgGen rng) in
  mkOp [mkRange 0 (rgStart rng) splitKey (rgReplicas rng) (rgLeader rng) g;
        mkRange 0 splitKey (rgEnd rng) (rgReplicas rng) (rgLeader rng) g]
       [rangeID] ∅ [] {[rangeID := rgGen rng]}.

Definition childrenOf (s : RangeStore) (splitKey : str) : list Range :=
  filter (λ r, bool_decide (rgEnd r = splitKey) || bool_decide (rgStart r = splitKey) = true) (All s).

Definition moveOp (rng : Range) (rangeID : Z) (replicas : list str) : RangeOp :=
  let leader := if existsb (λ r, bool_decide (r = rgLeader rng)) replicas then rgLeader rng
                else match replicas with r :: _ => r | [] => rgLeader rng end in
  mkOp [mkRange (rgID rng) (rgStart rng) (rgEnd rng) replicas leader (succ64 (rgGen rng))]
       [] ∅ [] {[rangeID := rgGen rng]}.

Definition assignOp (assign : gmap str Z) (base : gmap Z Z) : RangeOp := mkOp [] [] assign [] base.

(** The two loops of [sameStrings]: count [a], then count [b] down. *)
Definition countUp (seen : gmap str Z) (x : str) : gmap str Z := <[x := default 0 (seen !! x) + 1]> seen.
Fixpoint countDown (seen : gmap str Z) (b : list str) : bool :=
  match b with
  | [] => true
  | x :: b' =>
      let n := default 0 (seen !! x) - 1 in
      if n <? 0 then false else countDown (<[x := n]> seen) b'
  end.
Definition sameStrings (a b : list str) : bool :=
  (length a =? length b)%nat && countDown (foldl countUp ∅ a) b.

Definition rebalanceOp (s : RangeStore) (voters : list str) (leader : str) : RangeOp :=
  let moved := filter (λ r, sameStrings (rgReplicas r) voters && bool_decide (rgLeader r = leader) = false) (All s) in
  mkOp (map (λ r, mkRange (rgID r) (rgStart r) (rgEnd r) voters leader (succ64 (rgGen r))) moved) [] ∅ []
       (list_to_map (map (λ r, (rgID r, rgGen r)) moved)).

(** [propose s op]: the directory after the operation went through the log. *)
Section Propose.
Context (lower : str → str) (propose : RangeStore → RangeOp → option str * RangeStore).

(** Tables listed go left; those the parent had, right unless listed. *)
Definition splitAssign (s : RangeStore) (rangeID : Z) (leftTables : list str) (left right : Z) : gmap str Z :=
  let m := foldl (λ m t, <[lower t := left]> m) ∅ leftTables in
  foldl (λ m t, match m !! lower t with Some _ => m | None => <[lower t := right]> m end) m
        (filter (λ t, rsAssign s !! t = Some rangeID) (map_to_list (rsAssign s)).*1).

Definition SplitRange (s : RangeStore) (rangeID : Z) (splitKey : str) (leftTables : list str)
    : ((Range * Range) + str) * RangeStore :=
  match ByID s rangeID with
  | inr er => (inr er, s)
  | inl rng =>
      match propose s (splitOp rng rangeID splitKey) with
      | (Some er, s1) => (inr er, s1)
      | (None, s1) =>
          match childrenOf s1 splitKey with
          | [l; r] =>
              let op2 := assignOp (splitAssign s1 rangeID leftTables (rgID l) (rgID r))
                           {[rgID l := rgGen l; rgID r := rgGen r]} in
              match propose s1 op2 with
              | (Some er, s2) => (inr er, s2)
              | (None, s2) => (inl (default range0 (rsRanges s2 !! rgID l), default range0 (rsRanges s2 !! rgID r)), s2)
              end
          | _ => (inr (clusterError (lit "transport") (lit "split did not yield two ranges")), s1)
          end
      end
  end.

Definition MoveRange (s : RangeStore) (rangeID : Z) (replicas : list str) : (Range + str) * RangeStore :=
  match ByID s rangeID with
  | inr er => (inr er, s)
  | inl rng =>
      match propose s (moveOp rng rangeID replicas) with
      | (Some er, s1) => (inr er, s1)
      | (None, s1) => (ByID s1 rangeID, s1)
      end
  end.

Definition AssignTable (s : RangeStore) (table : str) (rangeID : Z) : option str * RangeStore :=
  match ByID s rangeID with
  | inr er => (Some er, s)
  | inl rng => propose s (assignOp {[lower table := rangeID]} {[rangeID := rgGen rng]})
  end.

Definition Rebalance (s : RangeStore) (voters : list str) (leader : str) : option str * RangeStore :=
  if bool_decide (leader = []) then (Some (clusterError (lit "no_leader") (lit "no leader to rebalance toward")), s)
  else
    let op := rebalanceOp s voters leader in
    if bool_decide (opRanges op = []) then (None, s) else propose s op.
End Propose.

Definition syncLeaderRanges (s : RangeStore) (leader : str) : RangeStore :=
  if bool_decide (leader = []) then s
  else foldl (λ s r, SetRangeLeader s (rgID r) leader) s (All s).

(** ** Routing *)

Record Route := mkRoute { rtRange : Range; rtAddr : str; rtLocal : bool; rtLeader : str }.

Section Router.
Context (lower : str → str) (addrOf : str → option str) (self : str).

Definition routeToRange (rng : Range) : Route :=
  let target := match rgLeader rng with
                | [] => match rgReplicas rng with r :: _ => r | [] => [] end
                | l => l
                end in
  mkRoute rng (default [] (addrOf target))
          (bool_decide (target = self) || (bool_decide (target = []) && HasReplica rng self)) target.

Definition RouteKey (s : RangeStore) (table key : str) : Route + str :=
  match Lookup s (table ++ 47 :: key) with
  | Some rng => inl (routeToRange rng)
  | None => inr (clusterError (lit "range_not_found") (lit "no range owns key"))
  end.

Definition RouteTable (s : RangeStore) (table : str) : Route + str :=
  let lowered := lower table in
  let assigned := TableRange s lowered in
  if negb (rgID assigned =? 0) then inl (routeToRange assigned) else RouteKey s lowered [].
End Router.
End Order.

Definition indexFoldASCII (s sub : str) : Z := indexFold_loop 0 s sub.

(** The separators of [ExtractTable]. *)
Definition tableSep (c : byte) : bool :=
  (c =? 32) || (c =? 9) || (c =? 10) || (c =? 40) || (c =? 59) || (c =? 44).
Fixpoint firstWord (cur s : str) : str :=
  match s with
  | [] => reverse cur
  | c :: s' => if tableSep c then match cur with [] => firstWord [] s' | _ => reverse cur end
               else firstWord (c :: cur) s'
  end.

Definition ExtractTable (lower : str → str) (sql : str) : str :=
  let try kw :=
    let i := indexFoldASCII sql (lit kw) in
    if 0 <=? i then
      match firstWord [] (drop (Z.to_nat i + length (lit kw)) sql) with [] => None | w => Some (lower w) end
    else None in
  match try "INTO "%string, try "FROM "%string, try "TABLE "%string, try "UPDATE "%string with
  | Some t, _, _, _ | None, Some t, _, _ | None, None, Some t, _ | None, None, None, Some t => t
  | None, None, None, None => []
  end.
