(* ===== verification/RangesProofs.v ===== *)
(** * The range directory: partition of the keyspace and fencing *)

From S2P Require Import Prelude GoLib Fold OrderByProofs Ranges.
Open Scope Z_scope.

(** ** The directory invariant *)

Record dir_wf (s : RangeStore) : Prop := {
  dw_ids : ∀ id r, rsRanges s !! id = Some r → rgID r = id ∧ 0 < id < rsNext s;
  dw_next : 1 ≤ rsNext s < 2 ^ 64;
}.

Definition owner (s : RangeStore) (key : str) (id : Z) : Prop :=
  ∃ r, rsRanges s !! id = Some r ∧ Contains r key = true.
(** Every key has an owner; no key has two. *)
Definition covered (s : RangeStore) : Prop := ∀ key, ∃ id, owner s key id.
Definition unique_owners (s : RangeStore) : Prop := ∀ key id1 id2, owner s key id1 → owner s key id2 → id1 = id2.

(** A split key strictly inside a range. *)
Definition inside (r : Range) (k : str) : Prop :=
  str_ltb (rgStart r) k = true ∧ (rgEnd r = [] ∨ str_ltb k (rgEnd r) = true).

Lemma Contains_spec r key :
  Contains r key = true ↔ str_ltb key (rgStart r) = false ∧ (rgEnd r = [] ∨ str_ltb key (rgEnd r) = true).
Proof.
  unfold Contains. destruct (str_ltb key (rgStart r)); [naive_solver|].
  case_bool_decide as E; cbn [negb andb]; [naive_solver|].
  destruct (str_ltb key (rgEnd r)); cbn [negb]; naive_solver.
Qed.

Lemma str_le_lt_trans a b c : str_ltb b a = false → str_ltb b c = true → str_ltb a c = true.
Proof.
  intros H1 H2. destruct (str_ltb_total a b) as [->|[H|H]]; [done| |congruence].
  by eapply str_ltb_trans.
Qed.

(** The two halves of a range share its keys. *)
Lemma split_contains r k g key : inside r k →
  Contains r key = true ↔
  Contains (mkRange 0 (rgStart r) k (rgReplicas r) (rgLeader r) g) key = true ∨
  Contains (mkRange 0 k (rgEnd r) (rgReplicas r) (rgLeader r) g) key = true.
Proof.
  intros [H1 H2]. rewrite !Contains_spec. cbn [rgStart rgEnd].
  assert (k ≠ []) as Hk by (intros ->; by destruct (rgStart r)).
  split.
  - intros [H3 H4]. destruct (str_ltb key k) eqn:E; [left; auto|right; auto].
  - intros [[H3 [->|H4]]|[H3 H4]]; [done| |].
    + split; [done|]. destruct H2 as [->|H2]; [auto|right; by eapply str_ltb_trans].
    + split; [|done]. destruct (str_ltb key (rgStart r)) eqn:E; [|done].
      assert (str_ltb key k = true) by (by eapply str_ltb_trans). congruence.
Qed.
(** Wherever the key lies, no key of the range is lost. *)
Lemma split_covers r k g key : Contains r key = true →
  Contains (mkRange 0 (rgStart r) k (rgReplicas r) (rgLeader r) g) key = true ∨
  Contains (mkRange 0 k (rgEnd r) (rgReplicas r) (rgLeader r) g) key = true.
Proof.
  rewrite !Contains_spec. cbn [rgStart rgEnd]. intros [H1 H2]. destruct (str_ltb key k) eqn:E; [left|right]; auto.
Qed.
Lemma split_disjoint r k g key : inside r k →
  Contains (mkRange 0 (rgStart r) k (rgReplicas r) (rgLeader r) g) key = true →
  Contains (mkRange 0 k (rgEnd r) (rgReplicas r) (rgLeader r) g) key = true → False.
Proof.
  intros [H1 _]. rewrite !Contains_spec. cbn [rgStart rgEnd]. intros [_ [->|H3]] [H4 _]; [by destruct (rgStart r)|congruence].
Qed.

Lemma succ64_small n : 0 ≤ n → n + 1 < 2 ^ 64 → succ64 n = n + 1.
Proof. intros. unfold succ64. by rewrite Z.mod_small by lia. Qed.
Lemma succ64_neq n : succ64 n ≠ n.
Proof.
  unfold succ64. intros E. assert (0 ≤ n < 2 ^ 64) as Hn by (rewrite <- E; apply Z.mod_pos_bound; lia).
  destruct (decide (n + 1 = 2 ^ 64)) as [Ex|]; [rewrite Ex, Z.mod_same in E by lia; lia|].
  rewrite Z.mod_small in E by lia. lia.
Qed.

Section Dir.
Context (order : list Z → list Z) (Horder : ∀ l, order l ≡ₚ l).

Lemma keysOf_elem {A} (m : gmap Z A) id : id ∈ keysOf order m ↔ is_Some (m !! id).
Proof.
  unfold keysOf. rewrite (Horder _), list_elem_of_fmap. split.
  - intros ([k v] & -> & Hin). apply elem_of_map_to_list in Hin. simpl. eauto.
  - intros [v Hv]. exists (id, v). split; [done|]. by apply elem_of_map_to_list.
Qed.

(** The fence passes exactly when every base generation holds. *)
Lemma checkBase_none s base ids :
  checkBase s base ids = None ↔
  ∀ id gen, id ∈ ids → base !! id = Some gen → ∃ r, rsRanges s !! id = Some r ∧ rgGen r = gen.
Proof.
  induction ids as [|id ids IH]; cbn [checkBase].
  { split; [|done]. intros _ id gen Hin. by apply elem_of_nil in Hin. }
  destruct (base !! id) as [gen|] eqn:Eb.
  - destruct (rsRanges s !! id) as [r|] eqn:Er.
    + destruct (Z.eqb_spec (rgGen r) gen) as [Eg|Eg].
      * rewrite IH. split; intros Ha id' gen' Hin Hb.
        { apply elem_of_cons in Hin as [->|Hin]; [simplify_eq; eauto|eauto]. }
        { eapply Ha; [by right|done]. }
      * split; [done|]. intros Ha. destruct (Ha id gen) as (r' & Hr' & Eg'); [by left|done|]. simplify_eq.
    + split; [done|]. intros Ha. destruct (Ha id gen) as (r' & Hr' & _); [by left|done|]. simplify_eq.
  - rewrite IH. split; intros Ha id' gen' Hin Hb; [|eapply Ha; [by right|done]].
    apply elem_of_cons in Hin as [->|Hin]; [congruence|eauto].
Qed.
Lemma applyOp_fence s op : (∃ er, applyOp order s op = (Some er, s)) ∨
  (∀ id gen, opBase op !! id = Some gen → ∃ r, rsRanges s !! id = Some r ∧ rgGen r = gen) ∧ (applyOp order s op).1 = None.
Proof.
  unfold applyOp. destruct (checkBase _ _ _) as [er|] eqn:E; [left; eauto|right]. split; [|done].
  intros id gen Hb. eapply checkBase_none; [done| |done]. apply keysOf_elem. eauto.
Qed.

(** ** Splitting *)

Definition leftOf (r : Range) (k : str) (id : Z) : Range :=
  mkRange id (rgStart r) k (rgReplicas r) (rgLeader r) (succ64 (rgGen r)).
Definition rightOf (r : Range) (k : str) (id : Z) : Range :=
  mkRange id k (rgEnd r) (rgReplicas r) (rgLeader r) (succ64 (rgGen r)).

Lemma split_applies s id r k :
  dir_wf s → rsRanges s !! id = Some r → rsNext s + 2 < 2 ^ 64 →
  applyOp order s (splitOp r id k) =
  (None, mkStore (<[rsNext s + 1 := rightOf r k (rsNext s + 1)]> (<[rsNext s := leftOf r k (rsNext s)]> (delete id (rsRanges s))))
                 (rsAssign s) (rsNext s + 2)).
Proof.
  intros Hw Hr Hn. destruct (dw_next s Hw) as [Hn0 Hn1]. unfold applyOp, splitOp. cbv zeta. cbn [opBase opRemove opRanges opAssign opUnassign].
  assert (checkBase s {[id := rgGen r]} (keysOf order {[id := rgGen r]}) = None) as ->.
  { apply checkBase_none. intros id' gen _ Hb. apply lookup_singleton_Some in Hb as [<- <-]. eauto. }
  cbn [foldl]. unfold putRange at 2. cbn [rgID rsNext rsRanges rsAssign]. change (0 =? 0) with true. cbv iota.
  rewrite (succ64_small (rsNext s)) by lia. unfold putRange. cbn [rgID rsNext rsRanges rsAssign set_id rgStart rgEnd rgReplicas rgLeader rgGen].
  change (0 =? 0) with true. cbv iota. rewrite (succ64_small (rsNext s + 1)) by lia. cbn [rsRanges rsAssign rsNext].
  rewrite map_empty_union, ?(succ64_small (rsNext s)), ?(succ64_small (rsNext s + 1)) by lia.
  replace (rsNext s + 1 + 1) with (rsNext s + 2) by lia. reflexivity.
Qed.

Section Split.
Context (s : RangeStore) (id : Z) (r : Range) (k : str).
Context (Hw : dir_wf s) (Hr : rsRanges s !! id = Some r) (Hn : rsNext s + 2 < 2 ^ 64).
Let s' := (applyOp order s (splitOp r id k)).2.

Lemma split_lookup id' r' : rsRanges s' !! id' = Some r' ↔
  (id' = rsNext s + 1 ∧ r' = rightOf r k (rsNext s + 1)) ∨ (id' = rsNext s ∧ r' = leftOf r k (rsNext s)) ∨
  (id' ≠ id ∧ rsRanges s !! id' = Some r').
Proof.
  subst s'. rewrite split_applies by done. cbn [snd rsRanges]. rewrite lookup_insert_Some, lookup_insert_Some, lookup_delete_Some.
  split; [naive_solver|]. intros [[-> ->]|[[-> ->]|[H1 H2]]]; [by left|right; split; [lia|by left]|].
  destruct (dw_ids s Hw _ _ H2). right. split; [lia|]. right. split; [lia|]. done.
Qed.
Lemma split_wf : dir_wf s'.
Proof.
  destruct (dw_next s Hw) as [Hn0 Hn1].
  assert (rsNext s' = rsNext s + 2) as E by (subst s'; by rewrite split_applies).
  split; rewrite E; [|lia]. intros id' r' [[-> ->]|[[-> ->]|[_ H2]]]%split_lookup; [cbn; lia..|].
  destruct (dw_ids s Hw _ _ H2). lia.
Qed.
Lemma split_owner key id' : owner s' key id' ↔
  (id' = rsNext s + 1 ∧ Contains (rightOf r k 0) key = true) ∨ (id' = rsNext s ∧ Contains (leftOf r k 0) key = true) ∨
  (id' ≠ id ∧ owner s key id').
Proof.
  unfold owner. setoid_rewrite split_lookup. split.
  - intros (r' & [[-> ->]|[[-> ->]|[H1 H2]]] & Hc); [by left|right; by left|right; right; eauto].
  - intros [[-> H]|[[-> H]|[H1 (r' & H2 & H3)]]];
      [exists (rightOf r k (rsNext s + 1))|exists (leftOf r k (rsNext s))|exists r']; naive_solver.
Qed.

Lemma split_covered : covered s → covered s'.
Proof.
  intros Hp key. destruct (Hp key) as (id0 & r0 & Hr0 & Hc0). destruct (decide (id0 = id)) as [->|Hne].
  - assert (r0 = r) as -> by congruence. apply (split_covers r k (succ64 (rgGen r)) key) in Hc0 as [Hc|Hc].
    + exists (rsNext s). apply split_owner. right. by left.
    + exists (rsNext s + 1). apply split_owner. by left.
  - exists id0. apply split_owner. right; right. split; [done|by exists r0].
Qed.
Lemma split_unique : inside r k → unique_owners s → unique_owners s'.
Proof.
  intros Hin Hu key id1 id2.
  assert (Hold : ∀ id', id' ≠ id → owner s key id' → Contains (leftOf r k 0) key = true ∨ Contains (rightOf r k 0) key = true → False).
  { intros id' Hne Ho Hc. apply Hne, (Hu key); [done|]. exists r. split; [done|].
    apply (split_contains r k (succ64 (rgGen r)) key Hin). exact Hc. }
  assert (Hboth : Contains (leftOf r k 0) key = true → Contains (rightOf r k 0) key = true → False)
    by exact (split_disjoint r k (succ64 (rgGen r)) key Hin).
  intros [[-> H1]|[[-> H1]|[N1 H1]]]%split_owner [[-> H2]|[[-> H2]|[N2 H2]]]%split_owner; try done;
    try (exfalso; by eauto); by eapply Hu.
Qed.
End Split.

(** ** Changes that keep the bounds *)

Definition sameBounds (r r' : Range) : Prop := rgID r' = rgID r ∧ rgStart r' = rgStart r ∧ rgEnd r' = rgEnd r.

Lemma sameBounds_contains r r' key : sameBounds r r' → Contains r' key = Contains r key.
Proof. intros (_ & H1 & H2). unfold Contains. by rewrite H1, H2. Qed.

(** Two directories with the same IDs and bounds. *)
Definition sameShape (s s' : RangeStore) : Prop :=
  rsNext s' = rsNext s ∧
  ∀ id, match rsRanges s !! id, rsRanges s' !! id with
        | Some r, Some r' => sameBounds r r' | None, None => True | _, _ => False end.

Lemma sameShape_refl s : sameShape s s.
Proof. split; [done|]. intros id. destruct (rsRanges s !! id); done. Qed.
Lemma sameShape_trans s1 s2 s3 : sameShape s1 s2 → sameShape s2 s3 → sameShape s1 s3.
Proof.
  intros [N1 H1] [N2 H2]. split; [congruence|]. intros id. specialize (H1 id). specialize (H2 id).
  unfold sameBounds in *. repeat case_match; try done. naive_solver congruence.
Qed.

Lemma sameShape_wf s s' : sameShape s s' → dir_wf s → dir_wf s'.
Proof.
  intros [Hn Hs] Hw. split; [|rewrite Hn; apply Hw]. intros id r Hr. specialize (Hs id). rewrite Hr in Hs.
  destruct (rsRanges s !! id) as [r0|] eqn:E; [|done]. destruct (dw_ids s Hw _ _ E). destruct Hs as (-> & _). by rewrite Hn.
Qed.
Lemma sameShape_owner s s' key id : sameShape s s' → owner s' key id ↔ owner s key id.
Proof.
  intros [_ Hs]. specialize (Hs id). unfold owner.
  destruct (rsRanges s !! id) as [r|], (rsRanges s' !! id) as [r'|]; try done.
  pose proof (sameBounds_contains _ _ key Hs). split; intros (x & [= <-] & Hx); eexists; (split; [done|congruence]).
Qed.
Lemma sameShape_covered s s' : sameShape s s' → covered s → covered s'.
Proof. intros Hs Hc key. destruct (Hc key) as [id Ho]. exists id. by apply (sameShape_owner s). Qed.
Lemma sameShape_unique s s' : sameShape s s' → unique_owners s → unique_owners s'.
Proof. intros Hs Hu key id1 id2. rewrite !(sameShape_owner s s') by done. apply Hu. Qed.

Lemma putRange_shape s r r0 : dir_wf s → rsRanges s !! rgID r0 = Some r0 → sameBounds r0 r → sameShape s (putRange s r).
Proof.
  intros Hw Hr Hb. destruct (dw_ids s Hw _ _ Hr) as [_ Hid]. pose proof Hb as (Eid & _). unfold putRange. rewrite Eid.
  destruct (Z.eqb_spec (rgID r0) 0); [lia|]. destruct (Z.leb_spec (rsNext s) (rgID r0)); [lia|].
  split; [done|]. intros id. cbn [rsRanges]. rewrite Eid. destruct (decide (id = rgID r0)) as [->|].
  - rewrite lookup_insert_eq, Hr. done.
  - rewrite lookup_insert_ne by done. destruct (rsRanges s !! id); done.
Qed.

(** Operations that only replace ranges by ranges of the same bounds. *)
Lemma replace_shape s0 s rs : sameShape s0 s → dir_wf s0 →
  (∀ r, r ∈ rs → ∃ r0, rsRanges s0 !! rgID r0 = Some r0 ∧ sameBounds r0 r) → sameShape s0 (foldl putRange s rs).
Proof.
  revert s. induction rs as [|r rs IH]; intros s Hs Hw Hrs; [done|]. cbn [foldl].
  apply IH; try done; [|intros r' Hr'; apply Hrs; by right].
  destruct (Hrs r) as (r0 & Hr0 & Hb); [by left|]. pose proof Hs as [_ Hs'].
  specialize (Hs' (rgID r0)). rewrite Hr0 in Hs'. destruct (rsRanges s !! rgID r0) as [r1|] eqn:E; [|done].
  eapply sameShape_trans; [done|]. pose proof (sameShape_wf _ _ Hs Hw) as Hw'.
  destruct Hs' as (E1 & E2 & E3), Hb as (B1 & B2 & B3).
  apply (putRange_shape s r r1); [done|by rewrite E1|by split_and!; congruence].
Qed.

Lemma applyOp_shape s op : dir_wf s → opRemove op = [] →
  (∀ r, r ∈ opRanges op → ∃ r0, rsRanges s !! rgID r0 = Some r0 ∧ sameBounds r0 r) →
  sameShape s (applyOp order s op).2.
Proof.
  intros Hw Hrm Hrs. unfold applyOp. destruct (checkBase _ _ _); [apply sameShape_refl|]. rewrite Hrm. cbn [foldl snd].
  assert (Hs : sameShape s (foldl putRange (mkStore (rsRanges s) (rsAssign s) (rsNext s)) (opRanges op))).
  { apply replace_shape; try done. destruct s. apply sameShape_refl. }
  destruct Hs as [H1 H2]. split; done.
Qed.

Lemma SetRangeLeader_shape s id leader : dir_wf s → sameShape s (SetRangeLeader s id leader).
Proof.
  intros Hw. unfold SetRangeLeader. destruct (rsRanges s !! id) as [r|] eqn:E; [|apply sameShape_refl].
  split; [done|]. intros id'. cbn [rsRanges]. destruct (decide (id' = id)) as [->|].
  - rewrite lookup_insert_eq, E. done.
  - rewrite lookup_insert_ne by done. destruct (rsRanges s !! id'); done.
Qed.
Lemma UpdateLeader_shape s id leader : dir_wf s → sameShape s (UpdateLeader s id leader).2.
Proof.
  intros Hw. unfold UpdateLeader. destruct (rsRanges s !! id) as [r|] eqn:E; [|apply sameShape_refl].
  split; [done|]. intros id'. cbn [snd rsRanges]. destruct (decide (id' = id)) as [->|].
  - rewrite lookup_insert_eq, E. done.
  - rewrite lookup_insert_ne by done. destruct (rsRanges s !! id'); done.
Qed.

Lemma All_elem s r : dir_wf s → r ∈ All order s → rsRanges s !! rgID r = Some r.
Proof.
  intros Hw. unfold All. rewrite merge_sort_Permutation. intros (id & _ & Hr)%list_elem_of_omap.
  destruct (dw_ids s Hw _ _ Hr) as [-> _]. done.
Qed.

Lemma sync_shape s leader : dir_wf s → sameShape s (syncLeaderRanges order s leader).
Proof.
  intros Hw. unfold syncLeaderRanges. case_bool_decide; [apply sameShape_refl|].
  assert (Hg : ∀ rs s1, sameShape s s1 → sameShape s (foldl (λ s r, SetRangeLeader s (rgID r) leader) s1 rs)).
  { induction rs as [|r rs IH]; intros s1 Hs1; [done|]. cbn [foldl]. apply IH.
    eapply sameShape_trans; [done|]. apply SetRangeLeader_shape. by eapply sameShape_wf. }
  apply Hg, sameShape_refl.
Qed.

(** ** Reachable directories *)

(** What a node does to its directory: the proposals of its range management as they
    commit, late ones that no longer fit included, and leader bookkeeping.  [asked] says
    at which keys ranges are split: [SplitRange] takes any. *)
Inductive dirStep (asked : Range → str → Prop) : RangeStore → RangeStore → Prop :=
| step_split s id r k : rsRanges s !! id = Some r → asked r k → rsNext s + 2 < 2 ^ 64 →
    dirStep asked s (applyOp order s (splitOp r id k)).2
| step_move s id r replicas : rsRanges s !! id = Some r → dirStep asked s (applyOp order s (moveOp r id replicas)).2
| step_assign s assign base : dirStep asked s (applyOp order s (assignOp assign base)).2
| step_rebalance s voters leader : dirStep asked s (applyOp order s (rebalanceOp order s voters leader)).2
| step_stale s op er : (applyOp order s op).1 = Some er → dirStep asked s (applyOp order s op).2
| step_leader s leader : dirStep asked s (syncLeaderRanges order s leader)
| step_update s id leader : dirStep asked s (UpdateLeader s id leader).2.
Definition anyKey (r : Range) (k : str) : Prop := True.

(** A step is a split or keeps the bounds. *)
Lemma dirStep_cases asked s s' : dirStep asked s s' → dir_wf s →
  (∃ id r k, rsRanges s !! id = Some r ∧ asked r k ∧ rsNext s + 2 < 2 ^ 64 ∧ s' = (applyOp order s (splitOp r id k)).2) ∨ sameShape s s'.
Proof.
  intros [s1 id r k Hr Hin Hn|s1 id r reps Hr|s1 assign base|s1 voters leader|s1 op er He|s1 leader|s1 id leader] Hw.
  - left. by exists id, r, k.
  - right. apply applyOp_shape; try done.
    intros x Hx. cbn [moveOp opRanges] in Hx. apply list_elem_of_singleton in Hx as ->.
    destruct (dw_ids _ Hw _ _ Hr) as [E _]. exists r. rewrite E. done.
  - right. apply applyOp_shape; try done. intros x Hx. by apply elem_of_nil in Hx.
  - right. apply applyOp_shape; try done.
    intros x Hx. cbn [rebalanceOp opRanges] in Hx. apply list_elem_of_fmap in Hx as (r & -> & [_ Hr]%list_elem_of_filter).
    exists r. split; [by apply All_elem|done].
  - right. destruct (applyOp_fence s1 op) as [[er' E]|[_ E]]; [rewrite E; apply sameShape_refl|congruence].
  - right. by apply sync_shape.
  - right. by apply UpdateLeader_shape.
Qed.

Lemma dirStep_keeps asked s s' : dirStep asked s s' → dir_wf s → covered s → dir_wf s' ∧ covered s'.
Proof.
  intros Hst Hw Hp. destruct (dirStep_cases _ _ _ Hst Hw) as [(id & r & k & Hr & _ & Hn & ->)|Hs].
  - split; [by apply split_wf|by apply split_covered].
  - split; [by eapply sameShape_wf|by eapply sameShape_covered].
Qed.

Definition genesisStore (nodeID : str) : RangeStore := (applyOp order NewRangeStore (genesisOp nodeID)).2.
Lemma genesis_applies nodeID :
  genesisStore nodeID = mkStore {[1 := mkRange 1 [] [] [nodeID] nodeID 1]} ∅ 2.
Proof.
  unfold genesisStore, applyOp, genesisOp. cbn [opBase opRemove opRanges opAssign opUnassign].
  assert (keysOf order (∅ : gmap Z Z) = []) as ->.
  { unfold keysOf. rewrite map_to_list_empty. cbn [fmap list_fmap]. by apply Permutation_nil_r, Horder. }
  cbn [checkBase foldl snd]. unfold putRange. cbn [rgID NewRangeStore rsNext rsRanges rsAssign].
  change (1 =? 0) with false. change (1 <=? 1) with true. cbv iota. by rewrite map_empty_union.
Qed.

Lemma genesis_owner nodeID key id : owner (genesisStore nodeID) key id ↔ id = 1.
Proof.
  rewrite genesis_applies. unfold owner. cbn [rsRanges]. split; [by intros (r & [<- _]%lookup_singleton_Some & _)|].
  intros ->. eexists. split; [apply lookup_singleton_eq|]. apply Contains_spec. cbn [rgStart rgEnd]. split; [by destruct key|by left].
Qed.
Lemma reachable_keeps asked nodeID s : rtc (dirStep asked) (genesisStore nodeID) s → dir_wf s ∧ covered s.
Proof.
  intros Hr. revert s Hr. apply (rtc_ind_r (λ s, dir_wf s ∧ covered s)).
  - split; [|intros key; exists 1; by apply genesis_owner]. rewrite genesis_applies.
    split; cbn [rsRanges rsNext]; [|lia]. intros id r [<- <-]%lookup_singleton_Some. cbn. lia.
  - intros s s' _ Hst [Hw Hp]. by eapply dirStep_keeps.
Qed.
Lemma reachable_unique nodeID s : rtc (dirStep inside) (genesisStore nodeID) s → unique_owners s.
Proof.
  intros Hr. enough (dir_wf s ∧ unique_owners s) by naive_solver. revert s Hr. apply (rtc_ind_r (λ s, dir_wf s ∧ unique_owners s)).
  - split; [by apply (reachable_keeps inside nodeID)|]. intros key id1 id2. rewrite !genesis_owner. congruence.
  - intros s s' _ Hst [Hw Hu]. destruct (dirStep_cases _ _ _ Hst Hw) as [(id & r & k & Hr & Hin & Hn & ->)|Hs].
    + split; [by apply split_wf|by apply split_unique].
    + split; [by eapply sameShape_wf|by eapply sameShape_unique].
Qed.

Lemma Lookup_owner s key r : dir_wf s → Lookup order s key = Some r → Contains r key = true ∧ rsRanges s !! rgID r = Some r.
Proof.
  intros Hw. unfold Lookup. intros Hl. apply head_Some_elem_of in Hl. apply list_elem_of_filter in Hl as [Hc (id & _ & Hr)%list_elem_of_omap].
  destruct (dw_ids s Hw _ _ Hr) as [-> _]. done.
Qed.
Lemma Lookup_finds s key : covered s → is_Some (Lookup order s key).
Proof.
  intros Hp. destruct (Hp key) as (id & r & Hr & Hc). unfold Lookup. set (l := filter _ _).
  assert (r ∈ l) as Hin.
  { apply list_elem_of_filter. split; [done|]. apply list_elem_of_omap. exists id. split; [|done]. apply keysOf_elem. eauto. }
  destruct l as [|x l']; [by apply elem_of_nil in Hin|by eexists].
Qed.

(** C22: The directory covers the keyspace, and partitions it as long as ranges are split
    inside.  From the genesis range, under any sequence of committed splits (at any key,
    below [2^64] range ids), moves, assignments, rebalances, rejected operations and
    leader changes, looking a key up finds a range that contains it, in whatever order
    the map is visited.  If every split key lay strictly inside its range, which the
    code does not check, that range is the only one that contains the key. *)
Theorem directory_partitions nodeID s key :
  rtc (dirStep anyKey) (genesisStore nodeID) s →
  ∃ r, Lookup order s key = Some r ∧ Contains r key = true ∧ rsRanges s !! rgID r = Some r ∧
       (rtc (dirStep inside) (genesisStore nodeID) s →
        ∀ id' r', rsRanges s !! id' = Some r' → Contains r' key = true → r' = r).
Proof.
  intros [Hw Hp]%reachable_keeps. destruct (Lookup_finds s key Hp) as [r Hl]. exists r.
  destruct (Lookup_owner s key r Hw Hl) as [Hc Hr]. split_and!; [done..|].
  intros Hu%reachable_unique id' r' Hr' Hc'. assert (id' = rgID r) as ->; [|congruence].
  apply (Hu key); [by exists r'|by exists r].
Qed.

(** ** Fencing *)

(** A proposal computed from [r], the range [id] as the proposer saw it. *)
Inductive proposalFor (r : Range) (id : Z) : RangeOp → Prop :=
| prop_split k : proposalFor r id (splitOp r id k)
| prop_move replicas : proposalFor r id (moveOp r id replicas).

Lemma proposal_base r id op : proposalFor r id op → opBase op = {[id := rgGen r]}.
Proof. by intros []. Qed.

Lemma proposal_outdates s r id op :
  dir_wf s → rsRanges s !! id = Some r → rsNext s + 2 < 2 ^ 64 → proposalFor r id op →
  ∃ s1, applyOp order s op = (None, s1) ∧ ∀ r1, rsRanges s1 !! id = Some r1 → rgGen r1 ≠ rgGen r.
Proof.
  intros Hw Hr Hn Hop. destruct (dw_ids s Hw _ _ Hr) as [Eid Hid]. destruct Hop as [k|reps].
  - rewrite split_applies by done. eexists. split; [done|]. cbn [rsRanges]. intros r1 Hr1.
    rewrite !lookup_insert_ne, lookup_delete_eq in Hr1 by lia. done.
  - unfold applyOp, moveOp. cbv zeta. cbn [opBase opRemove opRanges opAssign opUnassign foldl].
    assert (checkBase s {[id := rgGen r]} (keysOf order {[id := rgGen r]}) = None) as ->.
    { apply checkBase_none. intros id' gen _ Hb. apply lookup_singleton_Some in Hb as [<- <-]. eauto. }
    eexists. split; [done|]. cbn [rsRanges]. intros r1 Hr1.
    unfold putRange in Hr1. cbn [rgID rsNext rsRanges rsAssign] in Hr1. rewrite Eid in Hr1.
    destruct (Z.eqb_spec id 0); [lia|]. destruct (Z.leb_spec (rsNext s) id); [lia|]. cbn [rsRanges rgID] in Hr1.
    rewrite lookup_insert_eq in Hr1. injection Hr1 as <-. cbn [rgGen]. apply succ64_neq.
Qed.

(** Generations fence concurrent range operations.  Of two splits or moves
    computed from the same range, whichever commits first invalidates the other:
    the second is refused and changes nothing, so no update of the directory is
    lost or applied to a range that has since moved. *)
Theorem range_ops_fenced nodeID s r id op1 op2 :
  rtc (dirStep anyKey) (genesisStore nodeID) s → rsRanges s !! id = Some r → rsNext s + 2 < 2 ^ 64 →
  proposalFor r id op1 → proposalFor r id op2 →
  let '(er1, s1) := applyOp order s op1 in
  er1 = None ∧ ∃ er2, applyOp order s1 op2 = (Some er2, s1).
Proof.
  intros [Hw _]%reachable_keeps Hr Hn H1 H2.
  destruct (proposal_outdates s r id op1 Hw Hr Hn H1) as (s1 & -> & Hg). split; [done|].
  destruct (applyOp_fence s1 op2) as [He|[Hb _]]; [done|].
  destruct (Hb id (rgGen r)) as (r1 & Hr1 & Eg); [rewrite (proposal_base _ _ _ H2); apply lookup_singleton_eq|].
  by destruct (Hg _ Hr1).
Qed.
End Dir.
