(* ===== verification/Members.v ===== *)
(** * Membership: internal/cluster/membership.go

    The registry of known nodes, updated by joins, gossip and health checks. Times
    are given by the caller ([now]).
    At the end the monotonicity of the registry, and its limits. *)

From S2P Require Import Prelude GoLib.
Open Scope Z_scope.

Inductive MState := Alive | Suspect | Leaving | Removed | OtherState (s : str).
#[global] Instance MState_eq_dec : EqDecision MState.
Proof. solve_decision. Defined.

Record Member := mkMember {
  mbID : str; mbAddr : str; mbState : MState; mbLastSeen : Z;
  mbVersion : Z;          (* uint64 *)
  mbRegion : str;
}.

Record Membership := mkMembership { msMembers : gmap str Member; msSelf : str; msVersion : Z }.
Definition set_members m x := mkMembership x (msSelf m) (msVersion m).
Definition bumped (m : Membership) (x : gmap str Member) : Membership :=
  mkMembership x (msSelf m) ((msVersion m + 1) mod 2 ^ 64).

Definition NewMembership (now : Z) (selfID selfAddr : str) : Membership :=
  mkMembership {[selfID := mkMember selfID selfAddr Alive now 1 []]} selfID 0.

Definition withState (b : Member) (s : MState) : Member :=
  mkMember (mbID b) (mbAddr b) s (mbLastSeen b) (mbVersion b) (mbRegion b).
Definition withRegion (b : Member) (r : str) : Member :=
  mkMember (mbID b) (mbAddr b) (mbState b) (mbLastSeen b) (mbVersion b) r.

Definition Upsert (now : Z) (m : Membership) (id addr : str) (state : MState) (version : Z) : Membership :=
  if bool_decide (id = []) || bool_decide (addr = []) then m
  else match msMembers m !! id with
  | None => bumped m (<[id := mkMember id addr state now version []]> (msMembers m))
  | Some b =>
      if bool_decide (mbState b = Removed) && negb (bool_decide (state = Alive)) then m
      else if mbVersion b <=? version
      then bumped m (<[id := mkMember (mbID b) addr state now version (mbRegion b)]> (msMembers m))
      else set_members m (<[id := mkMember (mbID b) (mbAddr b) (mbState b) now (mbVersion b) (mbRegion b)]> (msMembers m))
  end.

Definition UpsertMember (now : Z) (m : Membership) (r : Member) : Membership :=
  if bool_decide (mbID r = []) || bool_decide (mbAddr r = []) then m
  else match msMembers m !! mbID r with
  | None => bumped m (<[mbID r := mkMember (mbID r) (mbAddr r) (mbState r) now (mbVersion r) (mbRegion r)]> (msMembers m))
  | Some b =>
      if bool_decide (mbState b = Removed) && negb (bool_decide (mbState r = Alive)) then m
      else
        let region := if bool_decide (mbRegion r = []) then mbRegion b else mbRegion r in
        if mbVersion b <=? mbVersion r
        then bumped m (<[mbID r := mkMember (mbID b) (mbAddr r) (mbState r) now (mbVersion r) region]> (msMembers m))
        else set_members m (<[mbID r := mkMember (mbID b) (mbAddr b) (mbState b) now (mbVersion b) region]> (msMembers m))
  end.

Definition MergeBulk (now : Z) (m : Membership) (remote : list Member) : Membership :=
  foldl (λ m r, if bool_decide (mbID r = msSelf m) then m
                else if bool_decide (mbID r = []) || bool_decide (mbAddr r = []) then m
                else UpsertMember now m r) m remote.

Definition onMember (m : Membership) (id : str) (f : Member → Member) : Membership :=
  match msMembers m !! id with
  | Some b => set_members m (<[id := f b]> (msMembers m))
  | None => m
  end.

Definition SetRegion (m : Membership) (id region : str) : Membership :=
  if bool_decide (region = []) then m else onMember m id (λ b, withRegion b region).
Definition MarkAlive (now : Z) (m : Membership) (id : str) : Membership :=
  onMember m id (λ b, mkMember (mbID b) (mbAddr b) Alive now (mbVersion b) (mbRegion b)).
Definition MarkSuspect (m : Membership) (id : str) : Membership :=
  onMember m id (λ b, if bool_decide (mbState b = Alive) then withState b Suspect else b).
Definition Remove (m : Membership) (id : str) : Membership :=
  match msMembers m !! id with
  | Some b => bumped m (<[id := withState b Removed]> (msMembers m))
  | None => m
  end.

Definition Get (m : Membership) (id : str) : option Member := msMembers m !! id.
Definition AddrOf (m : Membership) (id : str) : option str :=
  match msMembers m !! id with
  | Some b => if bool_decide (mbState b = Removed) then None else Some (mbAddr b)
  | None => None
  end.

(** [order]: the order in which the map is visited. *)
Definition List (order : list str → list str) (m : Membership) : list Member :=
  filter (λ b, mbState b ≠ Removed) (omap (λ id, msMembers m !! id) (order (map_to_list (msMembers m)).*1)).
Definition Count (m : Membership) : nat :=
  size (filter (λ p, mbState p.2 ≠ Removed) (msMembers m)).

Definition SweepSuspects (m : Membership) (after now : Z) : Membership :=
  set_members m (map_imap (λ id b,
    Some (if bool_decide (id = msSelf m) || negb (bool_decide (mbState b = Alive)) then b
          else if after <? now - mbLastSeen b then withState b Suspect else b)) (msMembers m)).

(** One answer of a peer's health check in the heartbeat loop: [reply] is its node,
    cluster and region with the members it knows, [None] when the call failed. *)
Definition heartbeat (now : Z) (clusterID : str) (m : Membership) (peer : Member)
    (reply : option (str * str * str * list Member)) : Membership :=
  match reply with
  | None => MarkSuspect m (mbID peer)
  | Some (nodeID, cluster, region, members) =>
      if negb (bool_decide (cluster = [])) && negb (bool_decide (cluster = clusterID)) then m
      else
        let m1 := MergeBulk now m members in
        let m2 := MarkAlive now m1 (mbID peer) in
        UpsertMember now m2 (mkMember nodeID (mbAddr peer) Alive 0 (mbVersion peer) region)
  end.

(** Everything that happens to a registry. *)
Inductive memberStep : Membership → Membership → Prop :=
| ms_upsert m now id addr state version : memberStep m (Upsert now m id addr state version)
| ms_member m now r : memberStep m (UpsertMember now m r)
| ms_gossip m now remote : memberStep m (MergeBulk now m remote)
| ms_region m id region : memberStep m (SetRegion m id region)
| ms_alive m now id : memberStep m (MarkAlive now m id)
| ms_suspect m id : memberStep m (MarkSuspect m id)
| ms_remove m id : memberStep m (Remove m id)
| ms_sweep m after now : memberStep m (SweepSuspects m after now)
| ms_heartbeat m now cluster peer reply : memberStep m (heartbeat now cluster m peer reply).

(** Entries are filed under their ID with an address; the node itself is there. *)
Record members_wf (m : Membership) : Prop := {
  mw_filed : ∀ id b, msMembers m !! id = Some b → mbID b = id ∧ id ≠ [] ∧ mbAddr b ≠ [];
  mw_self : is_Some (msMembers m !! msSelf m);
}.

(** What is known stays known, with a version that does not go back. *)
Definition grows (m m' : Membership) : Prop :=
  msSelf m' = msSelf m ∧
  ∀ id b, msMembers m !! id = Some b → ∃ b', msMembers m' !! id = Some b' ∧ mbVersion b ≤ mbVersion b'.

Lemma grows_refl m : grows m m.
Proof. split; [done|]. intros id b Hb. exists b. split; [done|lia]. Qed.
Lemma grows_trans m1 m2 m3 : grows m1 m2 → grows m2 m3 → grows m1 m3.
Proof.
  intros [S1 G1] [S2 G2]. split; [congruence|]. intros id b Hb. destruct (G1 _ _ Hb) as (b' & Hb' & ?).
  destruct (G2 _ _ Hb') as (b2 & Hb2 & ?). exists b2. split; [done|lia].
Qed.

(** Filing an entry under its own ID, no older than what was there. *)
Lemma insert_keeps m m' id b' :
  members_wf m → msSelf m' = msSelf m → msMembers m' = <[id := b']> (msMembers m) →
  mbID b' = id → id ≠ [] → mbAddr b' ≠ [] → (∀ b, msMembers m !! id = Some b → mbVersion b ≤ mbVersion b') →
  members_wf m' ∧ grows m m'.
Proof.
  intros [Hf Hs] Es Em Hid Hne Ha Hv. split.
  - split; rewrite Em.
    + intros id2 b2. rewrite lookup_insert_Some. intros [[<- <-]|[_ Hb]]; [done|by apply Hf].
    + rewrite Es. destruct (decide (id = msSelf m)) as [->|]; [by rewrite lookup_insert_eq|by rewrite lookup_insert_ne].
  - split; [done|]. intros id2 b Hb. rewrite Em. destruct (decide (id2 = id)) as [->|].
    + exists b'. rewrite lookup_insert_eq. split; [done|]. by apply Hv.
    + exists b. rewrite lookup_insert_ne by done. split; [done|lia].
Qed.
Lemma still_keeps m : members_wf m → members_wf m ∧ grows m m.
Proof. split; [done|apply grows_refl]. Qed.

Lemma onMember_keeps m id f :
  members_wf m → (∀ b, mbID (f b) = mbID b ∧ mbAddr (f b) = mbAddr b ∧ mbVersion (f b) = mbVersion b) →
  members_wf (onMember m id f) ∧ grows m (onMember m id f).
Proof.
  intros Hw Hf. unfold onMember. destruct (msMembers m !! id) as [b|] eqn:E; [|by apply still_keeps].
  destruct (mw_filed m Hw _ _ E) as (H1 & H2 & H3). destruct (Hf b) as (F1 & F2 & F3).
  apply (insert_keeps m _ id (f b)); try done; [congruence..|]. intros b0 Hb0. simplify_eq. lia.
Qed.

Lemma UpsertMember_keeps now m r : members_wf m → members_wf (UpsertMember now m r) ∧ grows m (UpsertMember now m r).
Proof.
  intros Hw. unfold UpsertMember. case_bool_decide as E1; [by apply still_keeps|].
  case_bool_decide as E2; [by apply still_keeps|]. cbn [orb].
  destruct (msMembers m !! mbID r) as [b|] eqn:E.
  - destruct (mw_filed m Hw _ _ E) as (H1 & H2 & H3). case_match; [by apply still_keeps|]. cbv zeta.
    destruct (Z.leb_spec (mbVersion b) (mbVersion r)); (eapply insert_keeps; [done|done|reflexivity|..]; cbn; try done; try congruence);
      intros b0 Hb0; simplify_eq; lia.
  - eapply insert_keeps; [done|done|reflexivity|..]; cbn; try done. intros b0 Hb0. congruence.
Qed.

Lemma Upsert_keeps now m id addr state version :
  members_wf m → members_wf (Upsert now m id addr state version) ∧ grows m (Upsert now m id addr state version).
Proof.
  intros Hw. unfold Upsert. case_bool_decide as E1; [by apply still_keeps|].
  case_bool_decide as E2; [by apply still_keeps|]. cbn [orb].
  destruct (msMembers m !! id) as [b|] eqn:E.
  - destruct (mw_filed m Hw _ _ E) as (H1 & H2 & H3). case_match; [by apply still_keeps|].
    destruct (Z.leb_spec (mbVersion b) version); (eapply insert_keeps; [done|done|reflexivity|..]; cbn; try done; try congruence);
      intros b0 Hb0; simplify_eq; lia.
  - eapply insert_keeps; [done|done|reflexivity|..]; cbn; try done. intros b0 Hb0. congruence.
Qed.

Lemma MergeBulk_keeps now remote : ∀ m, members_wf m → members_wf (MergeBulk now m remote) ∧ grows m (MergeBulk now m remote).
Proof.
  unfold MergeBulk. induction remote as [|r remote IH]; intros m Hw; cbn [foldl]; [by apply still_keeps|].
  assert (∃ m1, (if bool_decide (mbID r = msSelf m) then m
     else if bool_decide (mbID r = []) || bool_decide (mbAddr r = []) then m else UpsertMember now m r) = m1
     ∧ members_wf m1 ∧ grows m m1) as (m1 & -> & Hw1 & G1).
  { case_bool_decide; [exists m; split; [done|by apply still_keeps]|].
    case_match; [exists m; split; [done|by apply still_keeps]|]. eexists. split; [done|]. by apply UpsertMember_keeps. }
  destruct (IH m1 Hw1) as [Hw2 G2]. split; [done|by eapply grows_trans].
Qed.

Lemma memberStep_keeps m m' : memberStep m m' → members_wf m → members_wf m' ∧ grows m m'.
Proof.
  intros [] Hw.
  - by apply Upsert_keeps.
  - by apply UpsertMember_keeps.
  - by apply MergeBulk_keeps.
  - unfold SetRegion. case_bool_decide; [by apply still_keeps|]. by apply onMember_keeps.
  - by apply onMember_keeps.
  - apply onMember_keeps; [done|]. intros b. by case_bool_decide.
  - unfold Remove. destruct (msMembers m0 !! id) as [b|] eqn:E; [|by apply still_keeps].
    destruct (mw_filed m0 Hw _ _ E) as (H1 & H2 & H3).
    eapply insert_keeps; [done|done|reflexivity|done..|]. intros b0 Hb0. simplify_eq. cbn. lia.
  - unfold SweepSuspects. set (f := λ id b, _). split.
    + split; cbn [set_members msMembers msSelf].
      * intros id b. rewrite map_lookup_imap. destruct (msMembers m0 !! id) as [b0|] eqn:E; [|done].
        destruct (mw_filed m0 Hw _ _ E). cbn. subst f. cbn. repeat case_match; intros [= <-]; done.
      * rewrite map_lookup_imap. destruct (mw_self m0 Hw) as [b0 ->]. cbn. subst f. cbn. eauto.
    + split; [done|]. intros id b Hb. cbn [set_members msMembers]. rewrite map_lookup_imap, Hb. cbn. subst f. cbn.
      eexists. split; [done|]. repeat case_match; cbn; lia.
  - unfold heartbeat. destruct reply as [[[[nodeID cl] region] members]|].
    + case_match; [by apply still_keeps|]. cbv zeta.
      destruct (MergeBulk_keeps now members m0 Hw) as [W1 G1].
      destruct (onMember_keeps (MergeBulk now m0 members) (mbID peer)
        (λ b, mkMember (mbID b) (mbAddr b) Alive now (mbVersion b) (mbRegion b)) W1) as [W2 G2]; [done|].
      edestruct (UpsertMember_keeps now) as [W3 G3]; [exact W2|]. split; [exact W3|].
      eapply grows_trans; [exact G1|]. eapply grows_trans; [exact G2|exact G3].
    + apply onMember_keeps; [done|]. intros b. by case_bool_decide.
Qed.

(** The membership registry never forgets and never goes back.  Starting from a
    node that knows itself, under any joins, gossip, health checks, sweeps and
    removals: every entry stays filed under its own ID with an address, the node
    itself stays registered, whoever was known at some point is still known later
    with a version at least as high, and short of an explicit removal its address
    still resolves: suspicion alone never cuts a member off. *)
Theorem membership_monotone now self addr m m' id b :
  self ≠ [] → addr ≠ [] →
  rtc memberStep (NewMembership now self addr) m → rtc memberStep m m' → msMembers m !! id = Some b →
  members_wf m' ∧ is_Some (msMembers m' !! self) ∧
  ∃ b', msMembers m' !! id = Some b' ∧ mbID b' = id ∧ mbVersion b ≤ mbVersion b' ∧
        (mbState b' ≠ Removed → AddrOf m' id = Some (mbAddr b')).
Proof.
  intros Hs Ha H1 H2 Hb.
  assert (Hstar : ∀ x y, rtc memberStep x y → members_wf x → members_wf y ∧ grows x y).
  { induction 1 as [x|x y z Hxy _ IH]; intros Hw; [by apply still_keeps|].
    destruct (memberStep_keeps _ _ Hxy Hw) as [Hw' G]. destruct (IH Hw') as [Hw2 G2]. split; [done|by eapply grows_trans]. }
  assert (members_wf (NewMembership now self addr)) as Hw0.
  { split; cbn; [|by rewrite lookup_singleton_eq]. by intros id0 b0 [<- <-]%lookup_singleton_Some. }
  destruct (Hstar _ _ H1 Hw0) as [Hw1 [S1 _]]. destruct (Hstar _ _ H2 Hw1) as [Hw2 [S2 G2]].
  split; [done|]. split; [pose proof (mw_self _ Hw2) as Hx; by rewrite S2, S1 in Hx|].
  destruct (G2 _ _ Hb) as (b' & Hb' & Hv). exists b'. split_and!; try done; [by apply (mw_filed _ Hw2) in Hb' as [? _]|].
  intros Hr. unfold AddrOf. rewrite Hb'. by rewrite bool_decide_false.
Qed.

(** A member removed in an orderly way is revived by gossip from a peer that has not
    heard of it: its version was not raised. *)
Example removed_member_revived :
  let m := NewMembership 0 (lit "a") (lit "h:1") in
  let peer := mkMember (lit "b") (lit "h:2") Alive 0 1 [] in
  let m1 := Remove (UpsertMember 1 m peer) (lit "b") in
  AddrOf m1 (lit "b") = None ∧ AddrOf (MergeBulk 2 m1 [peer]) (lit "b") = Some (lit "h:2").
Proof. by vm_compute. Qed.
