(* ===== verification/Replica.v ===== *)
(** * The replicated state machine: internal/cluster/state.go, fsm.go and the write
    path of node.go

    The Raft library is a parameter: what reaches a member is the committed entries
    in log order, each with its index.  [env i] is the environment of the [i]-th
    statement of an entry, [order] the visiting order of the maps of the range
    directory; [None] stands for a panic of the process. *)

From S2P Require Import Prelude GoLib Fold Value Table Schema Database.
From S2P Require Import Storage Session Ranges.
Open Scope Z_scope.

Record Entry := mkEntry {
  enKind : str; enSQLs : list str; enAtomic : bool;
  enRange : Z; enGen : Z;         (* uint64 *)
  enOp : option RangeOp;
}.
Definition EntryExec : str := lit "exec".
Definition EntryRange : str := lit "range".

(** The outcome of an entry: a failure with its text and cause, or the affected rows. *)
Inductive EntryResult := EntryFailed (text : str) (cause : option err) | EntryOK (affected : Z).

Record ReplicatedState := mkState {
  psDB : Database; psRanges : RangeStore;
  psWal : option str;             (* the log side-copy, when it exists *)
  psIndex : Z;
}.
Definition set_psDB st x := mkState x (psRanges st) (psWal st) (psIndex st).
Definition set_psWal st x := mkState (psDB st) (psRanges st) x (psIndex st).
Definition set_psRanges st x := mkState (psDB st) x (psWal st) (psIndex st).

Definition int_add (a b : Z) : Z := (a + b + 2 ^ 63) mod 2 ^ 64 - 2 ^ 63.

Section Replica.
Context `{GoStd} `{Zlib} (order : list Z → list Z) (env : nat → Env).

Definition statementText (i : nat) : str := lit "statement " ++ FormatInt (Z.of_nat i + 1) ++ lit ": ".

(** The statements of an entry in order: the database after them and the affected
    rows, or the first failure; [None] when one panics. *)
Fixpoint runEntry (i : nat) (sqls : list str) (affected : Z) (d : Database) : option (EntryResult * Database) :=
  match sqls with
  | [] => Some (EntryOK affected, d)
  | sql :: sqls' =>
      match ExecWithOptions (env i) d sql 0 with
      | (Ok r, d') => runEntry (S i) sqls' (int_add affected (rAffected r)) d'
      | (Err er, d') => Some (EntryFailed (statementText i) (Some er), d')
      | (Panic, _) => None
      end
  end.

(** The side-copy is advisory: its errors are dropped. *)
Definition appendWAL (walPath : bool) (opened : option err) (io : ioOutcome) (sqls : list str) (st : ReplicatedState)
    : ReplicatedState :=
  if negb walPath || bool_decide (sqls = []) then st
  else set_psWal st (AppendWALBatch opened io (psWal st) sqls).2.

Definition staleWrite (have want : Z) : str :=
  lit "stale range generation: have " ++ FormatUint have ++ lit " want " ++ FormatUint want.

(** The fence of an exec entry. *)
Definition fenceExec (st : ReplicatedState) (e : Entry) : option str :=
  if enRange e =? 0 then None
  else match ByID (psRanges st) (enRange e) with
  | inr er => Some er
  | inl r => if negb (enGen e =? 0) && negb (enGen e =? rgGen r) then Some (staleWrite (rgGen r) (enGen e)) else None
  end.

Section Apply.
Context (walPath : bool) (opened : option err) (io : ioOutcome).

Definition execLocked (e : Entry) (st : ReplicatedState) : option (EntryResult * ReplicatedState) :=
  match fenceExec st e with
  | Some text => Some (EntryFailed text None, st)
  | None =>
      if enAtomic e then
        match runEntry 0 (enSQLs e) 0 (Clone (psDB st)) with
        | None => None
        | Some (EntryFailed t c, _) => Some (EntryFailed t c, st)
        | Some (EntryOK n, clone) =>
            match ReplaceFrom (psDB st) clone with
            | (Some er, _) => Some (EntryFailed (lit "commit: ") (Some er), st)
            | (None, d) => Some (EntryOK n, appendWAL walPath opened io (enSQLs e) (set_psDB st d))
            end
        end
      else
        match runEntry 0 (enSQLs e) 0 (psDB st) with
        | None => None
        | Some (EntryFailed t c, d) => Some (EntryFailed t c, set_psDB st d)
        | Some (EntryOK n, d) => Some (EntryOK n, appendWAL walPath opened io (enSQLs e) (set_psDB st d))
        end
  end.

Definition rangeLocked (e : Entry) (st : ReplicatedState) : EntryResult * ReplicatedState :=
  match enOp e with
  | None => (EntryFailed (lit "range entry without op") None, st)
  | Some op =>
      match applyOp order (psRanges st) op with
      | (Some er, s) => (EntryFailed er None, set_psRanges st s)
      | (None, s) => (EntryOK 0, set_psRanges st s)
      end
  end.

Definition setIndex (idx : Z) (p : EntryResult * ReplicatedState) : EntryResult * ReplicatedState :=
  (p.1, mkState (psDB p.2) (psRanges p.2) (psWal p.2) idx).

Definition applyCommitted (idx : Z) (e : Entry) (st : ReplicatedState) : option (EntryResult * ReplicatedState) :=
  if bool_decide (enKind e = EntryExec) then setIndex idx <$> execLocked e st
  else if bool_decide (enKind e = EntryRange) then Some (setIndex idx (rangeLocked e st))
  else Some (EntryFailed (lit "unknown entry kind") None, st).

(** [fsm.Apply] on a log record; [decode] is json.Unmarshal into an entry. *)
Definition fsmApply (decode : str → Entry + err) (idx : Z) (data : str) (st : ReplicatedState)
    : option (EntryResult * ReplicatedState) :=
  match decode data with
  | inr er => Some (EntryFailed (lit "decode entry: ") (Some er), st)
  | inl e => applyCommitted idx e st
  end.
End Apply.

(** ** The write path of a node *)

Inductive nodeErr := NodeErr (code : string) (text : str) (cause : option err).

Definition sqlKeywordIs (sql : str) (keyword : string) : bool := hasPrefixFold (TrimSpace sql) (lit keyword).

Definition resultFor (affected : Z) (sqls : list str) : Result :=
  match sqls with
  | [sql] =>
      if negb (IsReadOnly sql) then
        if sqlKeywordIs sql "INSERT" || sqlKeywordIs sql "UPDATE" || sqlKeywordIs sql "DELETE"
        then resultAffected affected else resultMessage "ok"
      else resultAffected affected
  | _ => resultAffected affected
  end.

(** What consensus answers: the voters of the configuration, whether this node
    leads, whom it believes to lead (at the first and second look), the calls to
    those, and the outcome of proposing an entry. *)
Record Raft := mkRaft {
  rfVoters : nat + nodeErr; rfLeads : bool;
  rfLeader1 : str; rfLeader2 : str;
  rfCall1 : Result + nodeErr; rfCall2 : Result + nodeErr;
  rfApply : Entry → Z + nodeErr;
}.

Definition noLeaderCode (e : nodeErr) : bool := match e with NodeErr c _ _ => bool_decide (c = "no_leader"%string) end.
Definition noLeader : nodeErr := NodeErr "no_leader" (lit "no leader available for write") None.

Definition writeCommitted (rf : Raft) (s : RangeStore) (sqls : list str) (atomic : bool) (rangeID : Z) (acks : Z)
    : Result + nodeErr :=
  match (if 0 <? acks then
           match rfVoters rf with
           | inr er => Some er
           | inl v => if Z.of_nat v <? acks then Some (NodeErr "no_quorum" (lit "write concern exceeds voter count") None) else None
           end
         else None) with
  | Some er => inr er
  | None =>
      if negb (rfLeads rf) then
        if bool_decide (rfLeader1 rf = []) then inr noLeader
        else match rfCall1 rf with
        | inl r => inl r
        | inr er =>
            if noLeaderCode er then
              if bool_decide (rfLeader2 rf = []) || bool_decide (rfLeader2 rf = rfLeader1 rf) then inr noLeader
              else rfCall2 rf
            else inr er
        end
      else match ByID s rangeID with
      | inr er => inr (NodeErr "range_not_found" er None)
      | inl rng =>
          match rfApply rf (mkEntry EntryExec sqls atomic rangeID (rgGen rng) None) with
          | inr er => inr er
          | inl affected => inl (resultFor affected sqls)
          end
      end
  end.

Definition nodeExec (rf : Raft) (st : ReplicatedState) (sql : str) : option (Result + nodeErr) :=
  if IsReadOnly sql then
    match (ExecWithOptions (env 0) (psDB st) sql 0).1 with
    | Ok r => Some (inl r)
    | Err er => Some (inr (NodeErr "transport" [] (Some er)))
    | Panic => None
    end
  else
    let rng := TableRange order (psRanges st) (ToLower (ExtractTable ToLower sql)) in
    Some (writeCommitted rf (psRanges st) [sql] false (rgID rng) 0).

Definition nodeExecAtomic (rf : Raft) (st : ReplicatedState) (sqls : list str) : list Result + nodeErr :=
  match sqls with
  | [] => inr (NodeErr "invalid_argument" (lit "empty batch") None)
  | sql0 :: _ =>
      if existsb IsReadOnly sqls then inr (NodeErr "invalid_argument" (lit "atomic batches accept writes only") None)
      else
        let rng := TableRange order (psRanges st) (ToLower (ExtractTable ToLower sql0)) in
        match writeCommitted rf (psRanges st) sqls true (rgID rng) 0 with
        | inr er => inr er
        | inl r => inl [r]
        end
  end.

(** The log of a member: committed entries applied in order. *)
Fixpoint applyLog (walPath : bool) (opened : option err) (io : Z → ioOutcome) (idx : Z) (log : list Entry)
    (st : ReplicatedState) : option (list EntryResult * ReplicatedState) :=
  match log with
  | [] => Some ([], st)
  | e :: log' =>
      match applyCommitted walPath opened (io idx) idx e st with
      | None => None
      | Some (r, st') =>
          match applyLog walPath opened io (idx + 1) log' st' with
          | None => None
          | Some (rs, st2) => Some (r :: rs, st2)
          end
      end
  end.
End Replica.
