(* ===== verification/ReplicaProofs.v ===== *)
(** * The replicated state machine: atomic entries and fenced writes *)

From S2P Require Import Prelude GoLib Fold Value Table Schema Database.
From S2P Require Import Storage Session Ranges RangesProofs Replica.
Open Scope Z_scope.

Section ReplicaProofs.
Context `{GoStd} `{Zlib} (order : list Z → list Z) (Horder : ∀ l, order l ≡ₚ l) (env : nat → Env).

(** The statements of a batch run one after the other, all succeeding. *)
Inductive runsAll : nat → list str → Database → Database → Prop :=
| runs_nil i d : runsAll i [] d d
| runs_cons i sql sqls d d1 d2 r :
    ExecWithOptions (env i) d sql 0 = (Ok r, d1) → runsAll (S i) sqls d1 d2 → runsAll i (sql :: sqls) d d2.

Lemma runEntry_ok sqls : ∀ i n d m d', runEntry env i sqls n d = Some (EntryOK m, d') → runsAll i sqls d d'.
Proof.
  induction sqls as [|sql sqls IH]; intros i n d m d' Hr; cbn [runEntry] in Hr; [injection Hr as <- <-; constructor|].
  destruct (ExecWithOptions (env i) d sql 0) as [[r|er|] d1] eqn:E; try done.
  econstructor; [done|]. by eapply IH.
Qed.
Lemma appendWAL_db wp op io sqls st : psDB (appendWAL wp op io sqls st) = psDB st ∧ psRanges (appendWAL wp op io sqls st) = psRanges st.
Proof. unfold appendWAL. by case_match. Qed.

(** C23: An atomic entry of the Raft log is applied as a whole or not at all.  If it
    is refused or any of its statements fails, the member's data, range directory
    and log copy are as before; otherwise its fence held, all of its statements
    succeeded in order on a private copy, and exactly that copy is published.  The
    index advances either way, so a replay never applies it twice. *)
Theorem atomic_entry_all_or_nothing walPath opened io idx e st res st' :
  enKind e = EntryExec → enAtomic e = true →
  applyCommitted order env walPath opened io idx e st = Some (res, st') →
  psIndex st' = idx ∧ psRanges st' = psRanges st ∧
  match res with
  | EntryFailed _ _ => psDB st' = psDB st ∧ psWal st' = psWal st
  | EntryOK _ => fenceExec st e = None ∧
      ∃ d, runsAll 0 (enSQLs e) (Clone (psDB st)) d ∧ dTables (psDB st') = dTables (cloneImage d)
  end.
Proof.
  intros Hk Ha Hx. unfold applyCommitted in Hx. rewrite bool_decide_true in Hx by done. unfold execLocked in Hx.
  destruct (fenceExec st e) as [text|] eqn:Ef; [by injection Hx as <- <-|]. rewrite Ha in Hx.
  destruct (runEntry env 0 (enSQLs e) 0 (Clone (psDB st))) as [[[t c|n] d]|] eqn:Er; [by injection Hx as <- <-| |done].
  cbn [ReplaceFrom replace andb] in Hx. unfold ReplaceFrom, replace in Hx. cbn [andb fmap option_fmap option_map] in Hx.
  injection Hx as <- <-. unfold setIndex. cbn [fst snd psIndex psRanges psDB].
  match goal with |- context [appendWAL ?a ?b ?c ?l ?s] => destruct (appendWAL_db a b c l s) as [-> ->] end.
  split_and!; try done. exists d. split; [by eapply runEntry_ok|done].
Qed.

(** C24: A write proposed under a range that has since been split or moved is
    refused.  The leader stamps an entry with the generation of its range; when a
    split or move of that range is committed just before it, the entry fails on
    every member and changes neither data, directory nor log copy. *)
Theorem stale_write_refused nodeID walPath opened io idx st r id op sqls atomic :
  rtc (dirStep order anyKey) (genesisStore order nodeID) (psRanges st) →
  rsRanges (psRanges st) !! id = Some r → rsNext (psRanges st) + 2 < 2 ^ 64 → rgGen r ≠ 0 → proposalFor r id op →
  let write := mkEntry EntryExec sqls atomic id (rgGen r) None in
  ∃ st1, applyCommitted order env walPath opened io idx (mkEntry EntryRange [] false 0 0 (Some op)) st = Some (EntryOK 0, st1) ∧
    ∃ text st2, applyCommitted order env walPath opened io (idx + 1) write st1 = Some (EntryFailed text None, st2) ∧
      psDB st2 = psDB st ∧ psRanges st2 = psRanges st1 ∧ psWal st2 = psWal st.
Proof.
  intros [Hw _]%reachable_keeps Hr Hn Hg Hop write; [|done]. subst write.
  assert (∃ s1, applyOp order (psRanges st) op = (None, s1) ∧ ∀ r1, rsRanges s1 !! id = Some r1 → rgGen r1 ≠ rgGen r) as (s1 & E1 & Hgen).
  { by apply proposal_outdates. }
  exists (mkState (psDB st) s1 (psWal st) idx). unfold applyCommitted. cbn [enKind].
  split. { unfold rangeLocked. cbn [enOp]. by rewrite E1. }
  destruct (dw_ids _ Hw _ _ Hr) as [_ Hid].
  assert (∃ text, fenceExec (mkState (psDB st) s1 (psWal st) idx) (mkEntry EntryExec sqls atomic id (rgGen r) None) = Some text) as [text Ef].
  { unfold fenceExec. cbn [enRange enGen psRanges]. destruct (Z.eqb_spec id 0); [lia|]. unfold ByID.
    destruct (rsRanges s1 !! id) as [r1|] eqn:Er1; [|by eexists]. specialize (Hgen _ eq_refl).
    destruct (Z.eqb_spec (rgGen r) 0); [done|]. destruct (Z.eqb_spec (rgGen r) (rgGen r1)); [congruence|]. by eexists. }
  exists text, (mkState (psDB st) s1 (psWal st) (idx + 1)). unfold execLocked. rewrite Ef. done.
Qed.
End ReplicaProofs.

(** ** A joining node *)

(** The directory after a log of range operations. *)
Definition applyOps (s : RangeStore) (ops : list RangeOp) : RangeStore := foldl (λ s op, (applyOp id s op).2) s ops.

(** A member that joins copies the leader's directory and then replays the same log
    on top of it: the split allocates its children again, under other IDs. *)
Example joiner_diverges :
  let n := lit "a" in
  let r1 := mkRange 1 [] [] [n] n 1 in
  let log := [genesisOp n; splitOp r1 1 (lit "m")] in
  let leader := applyOps NewRangeStore log in
  let joiner := applyOps (ReplaceBulk NewRangeStore (All id leader)) log in
  map rgID (All id leader) = [2; 3] ∧ map rgID (All id joiner) = [2; 3; 4; 5].
Proof. by vm_compute. Qed.

(** A split key that is not inside the range leaves keys with two owners. *)
Example split_outside_overlaps : ∃ s,
  rtc (dirStep id anyKey) (genesisStore id (lit "a")) s ∧ map (λ r, Contains r (lit "k")) (All id s) = [true; true].
Proof.
  eexists. split; [apply rtc_once, (step_split id anyKey _ 1 (mkRange 1 [] [] [lit "a"] (lit "a") 1) [])|]; by vm_compute.
Qed.
