(* ===== verification/Fsm.v ===== *)
(** * State transfer: snapshot and restore of internal/cluster/state.go and fsm.go

    The image a member hands to the Raft library and the installation of one.
    [encode] and [decode] are json.Marshal and json.Unmarshal of the image record;
    the engine's part inside it is encoded and decoded by the definitions of Json
    and Image.
    At the end: what a member that installs a snapshot holds. *)

From S2P Require Import Prelude GoLib Fold Value Parser Table TableInv Schema Database OrderByProofs DatabaseProofs Bytes Storage Bind Json.
From S2P Require Import Request JsonText JsonTextProofs Image ImageProofs Sha256 Session SessionProofs Recovery Ranges RangesProofs Replica.
From S2P Require Import ReplicaProofs.
Open Scope Z_scope.

(** [replicatedSnapshot]; the engine's state is raw JSON. *)
Record replicatedSnapshot := mkSnapshot {
  siIndex : Z; siDB : str; siRanges : list Range; siAssign : gmap str Z; siNext : Z;
}.
Definition set_siDB (i : replicatedSnapshot) (x : str) : replicatedSnapshot :=
  mkSnapshot (siIndex i) x (siRanges i) (siAssign i) (siNext i).

(** Why an installation failed; [InstallForeign]: see [Image.Foreign]. *)
Inductive installErr := InstallRead (e : err) | InstallDecode (e : err) | InstallEngine (e : err) | InstallReplace (e : err) | InstallForeign.

(** What a Raft snapshot sink does: its error when written to, and when closed. *)
Record sink := mkSink { skWrite : option err; skClose : option err }.

Section Fsm.
Context `{GoStd} `{JsonStd} (order : list Z → list Z) (visit : list str → list str) (nilOrder nilNames : Table → bool).
Context (encode : replicatedSnapshot → str + err) (decode : str → replicatedSnapshot + err).

Definition snapshotOf (st : ReplicatedState) : replicatedSnapshot :=
  mkSnapshot (psIndex st) (MarshalJSON nilOrder nilNames (psDB st)) (All order (psRanges st))
    (rsAssign (psRanges st)) (rsNext (psRanges st)).
(** [snapshot]: the engine's encoder does not fail. *)
Definition fsmSnapshot (st : ReplicatedState) : str + err := encode (snapshotOf st).

(** [Persist]: the bytes the sink keeps (none when cancelled) and the error. *)
Definition Persist (s : sink) (data : str) : option str * option err :=
  match skWrite s with
  | Some er => (None, Some er)
  | None => (Some data, skClose s)
  end.

(** [restore] of what was read. *)
Definition fsmRestore (rd : str + err) (st : ReplicatedState) : option installErr * ReplicatedState :=
  match rd with
  | inr er => (Some (InstallRead er), st)
  | inl b =>
      match decode b with
      | inr er => (Some (InstallDecode er), st)
      | inl img =>
          match (if bool_decide (siDB img = []) then inl (Some newDB) else loadImage visit newDB (siDB img)) with
          | inr er => (Some (InstallEngine er), st)
          | inl None => (Some InstallForeign, st)
          | inl (Some fresh) =>
              match ReplaceFrom (psDB st) fresh with
              | (Some er, _) => (Some (InstallReplace er), st)
              | (None, d) =>
                  (None, mkState d (restoreRanges (siRanges img) (siAssign img) (siNext img)) (psWal st) (siIndex img))
              end
          end
      end
  end.
End Fsm.

(** ** The directory *)

Lemma maxID_bound l : ∀ m, (∀ r, r ∈ l → rgID r ≤ m) → 0 ≤ m → maxID l ≤ m.
Proof.
  unfold maxID. assert (∀ a m, a ≤ m → (∀ r, r ∈ l → rgID r ≤ m) → foldl (λ m r, if m <? rgID r then rgID r else m) a l ≤ m) as Hg.
  { induction l as [|r l IH]; intros a m Ha Hl; [done|]. cbn [foldl]. apply IH; [|set_solver].
    destruct (a <? rgID r); [apply Hl; set_solver|done]. }
  intros m Hl Hm. by apply Hg.
Qed.
Lemma byIDs_all (m : gmap Z Range) l : (∀ r, r ∈ l → m !! rgID r = Some r) → (∀ id r, m !! id = Some r → r ∈ l ∧ rgID r = id) →
  byIDs l = m.
Proof.
  intros Hl Hm. unfold byIDs.
  assert (Hg : ∀ l (acc : gmap Z Range), (∀ r, r ∈ l → m !! rgID r = Some r) → acc ⊆ m →
    foldl (λ m r, <[rgID r := r]> m) acc l ⊆ m ∧ acc ⊆ foldl (λ m r, <[rgID r := r]> m) acc l ∧
    ∀ r, r ∈ l → foldl (λ m r, <[rgID r := r]> m) acc l !! rgID r = Some r).
  { clear Hl Hm l. intros l. induction l as [|r l IH]; intros acc Hl Ha; [split; [done|]; split; [done|by intros ? ?%elem_of_nil]|]. cbn [foldl].
    pose proof (Hl r (list_elem_of_here r l)) as Hr.
    assert (Hi : acc ⊆ <[rgID r := r]> acc).
    { apply map_subseteq_spec. intros id x Hx. rewrite lookup_insert. case_decide as E; [|done]. subst.
      eapply lookup_weaken in Ha; [|exact Hx]. congruence. }
    destruct (IH (<[rgID r := r]> acc)) as (H1 & H2 & H3); [set_solver|by apply insert_subseteq_l|].
    split; [done|]; split; [by etransitivity|]. intros x [->|Hx]%elem_of_cons; [|by apply H3].
    eapply lookup_weaken; [|exact H2]. by rewrite lookup_insert_eq. }
  destruct (Hg l ∅ Hl (map_empty_subseteq m)) as (H1 & _ & H3). apply (anti_symm (⊆)); [done|].
  apply map_subseteq_spec. intros id r Hr. destruct (Hm id r Hr) as [Hin <-]. by apply H3.
Qed.

Section Dir.
Context (order : list Z → list Z) (Horder : ∀ l, order l ≡ₚ l).

Lemma All_complete s id r : rsRanges s !! id = Some r → r ∈ All order s.
Proof.
  intros Hr. unfold All. rewrite merge_sort_Permutation. apply list_elem_of_omap. exists id. split; [|done].
  unfold keysOf. rewrite Horder. apply list_elem_of_fmap. exists (id, r). by rewrite elem_of_map_to_list.
Qed.

(** The directory that [restore] rebuilds from [All] is the directory. *)
Lemma restoreRanges_All s : dir_wf s → restoreRanges (All order s) (rsAssign s) (rsNext s) = s.
Proof.
  intros Hw. unfold restoreRanges. rewrite (byIDs_all (rsRanges s)).
  - assert (maxID (All order s) ≤ rsNext s - 1) as Hm.
    { apply maxID_bound; [|destruct (dw_next s Hw); lia]. intros r Hr%All_elem; [|done]. apply (dw_ids s Hw) in Hr. lia. }
    cbv zeta. destruct (Z.leb_spec (rsNext s) (maxID (All order s))); [lia|].
    destruct (Z.eqb_spec (rsNext s) 0); [destruct (dw_next s Hw); lia|]. by destruct s.
  - intros r Hr. by apply (All_elem order).
  - intros id r Hr. split; [by eapply All_complete|]. by apply (dw_ids s Hw).
Qed.
End Dir.

(** ** The log after an installation *)

Section Fsm.
Context `{GoStd} `{Zlib} `{JsonStd} (order : list Z → list Z) (Horder : ∀ l, order l ≡ₚ l).
Context (visit : list str → list str) (Hvisit : ∀ l, visit l ≡ₚ l) (nilOrder nilNames : Table → bool) (env : nat → Env).

(** Members that agree on everything replicated; revisions and log copies may differ. *)
Definition agree (s1 s2 : ReplicatedState) : Prop :=
  dTables (psDB s1) = dTables (psDB s2) ∧ psRanges s1 = psRanges s2 ∧ psIndex s1 = psIndex s2.

Lemma runEntry_same sqls : ∀ i n d d', dTables d = dTables d' →
  match runEntry env i sqls n d, runEntry env i sqls n d' with
  | Some (r, d1), Some (r', d1') => r = r' ∧ dTables d1 = dTables d1'
  | None, None => True
  | _, _ => False
  end.
Proof.
  induction sqls as [|sql sqls IH]; intros i n d d' Hd; cbn [runEntry]; [done|].
  destruct (ExecWithOptions_same (env i) d d' sql 0 Hd) as [Er Ed].
  destruct (ExecWithOptions (env i) d sql 0) as [r d1], (ExecWithOptions (env i) d' sql 0) as [r' d1']. cbn [fst snd] in *. subst r'.
  destruct r; [by apply IH|done..].
Qed.

Lemma applyCommitted_same wp1 wp2 op1 op2 io1 io2 idx e s1 s2 : agree s1 s2 →
  match applyCommitted order env wp1 op1 io1 idx e s1, applyCommitted order env wp2 op2 io2 idx e s2 with
  | Some (r1, s1'), Some (r2, s2') => r1 = r2 ∧ agree s1' s2'
  | None, None => True
  | _, _ => False
  end.
Proof.
  intros (Hd & Hr & Hi). unfold applyCommitted. case_bool_decide.
  - unfold execLocked, fenceExec. rewrite <- Hr.
    destruct (if enRange e =? 0 then None else _) as [text|]; [done|]. destruct (enAtomic e).
    + pose proof (runEntry_same (enSQLs e) 0 0 (Clone (psDB s1)) (Clone (psDB s2)) (Clone_same _ _ Hd)) as Hs.
      destruct (runEntry env 0 (enSQLs e) 0 (Clone (psDB s1))) as [[[t c|n] d1]|],
        (runEntry env 0 (enSQLs e) 0 (Clone (psDB s2))) as [[[t2 c2|n2] d2]|]; try done; destruct Hs as [[= ] Hs]; subst; [done|].
      unfold ReplaceFrom, replace. cbn [andb fmap option_fmap option_map fst snd setIndex].
      split; [done|]. destruct (appendWAL_db wp1 op1 io1 (enSQLs e) (set_psDB s1 (bumpRevision (set_tables (psDB s1) (dTables (cloneImage d1)))))) as [E1 E2].
      destruct (appendWAL_db wp2 op2 io2 (enSQLs e) (set_psDB s2 (bumpRevision (set_tables (psDB s2) (dTables (cloneImage d2)))))) as [E3 E4].
      split; cbn [psDB psRanges psIndex]; [rewrite E1, E3; cbn; by rewrite Hs|]. by rewrite E2, E4.
    + pose proof (runEntry_same (enSQLs e) 0 0 (psDB s1) (psDB s2) Hd) as Hs.
      destruct (runEntry env 0 (enSQLs e) 0 (psDB s1)) as [[[t c|n] d1]|],
        (runEntry env 0 (enSQLs e) 0 (psDB s2)) as [[[t2 c2|n2] d2]|]; try done; destruct Hs as [[= ] Hs]; subst; [done|].
      cbn [fmap option_fmap option_map fst snd setIndex]. split; [done|].
      destruct (appendWAL_db wp1 op1 io1 (enSQLs e) (set_psDB s1 d1)) as [E1 E2].
      destruct (appendWAL_db wp2 op2 io2 (enSQLs e) (set_psDB s2 d2)) as [E3 E4].
      split; cbn [psDB psRanges psIndex]; [by rewrite E1, E3|]. by rewrite E2, E4.
  - case_bool_decide; [|done]. unfold rangeLocked. destruct (enOp e) as [op|]; [|done]. rewrite <- Hr.
    by destruct (applyOp order (psRanges s1) op) as [[er|] s].
Qed.

Lemma applyLog_same wp1 wp2 op1 op2 io1 io2 log : ∀ idx s1 s2, agree s1 s2 →
  match applyLog order env wp1 op1 io1 idx log s1, applyLog order env wp2 op2 io2 idx log s2 with
  | Some (r1, s1'), Some (r2, s2') => r1 = r2 ∧ agree s1' s2'
  | None, None => True
  | _, _ => False
  end.
Proof.
  induction log as [|e log IH]; intros idx s1 s2 Ha; cbn [applyLog]; [done|].
  pose proof (applyCommitted_same wp1 wp2 op1 op2 (io1 idx) (io2 idx) idx e s1 s2 Ha) as Hs.
  destruct (applyCommitted _ _ wp1 _ _ _ _ _) as [[r1 t1]|], (applyCommitted _ _ wp2 _ _ _ _ _) as [[r2 t2]|]; try done.
  destruct Hs as [-> Hs]. specialize (IH (idx + 1) t1 t2 Hs).
  destruct (applyLog _ _ wp1 _ _ _ _ _) as [[rs1 u1]|], (applyLog _ _ wp2 _ _ _ _ _) as [[rs2 u2]|]; try done.
  by destruct IH as [-> ?].
Qed.

(** encoding/json on an image record: what is marshalled is unmarshalled, the raw
    part compacted. *)
Context (encode : replicatedSnapshot → str + err) (decode : str → replicatedSnapshot + err).
Definition codec (i : replicatedSnapshot) : Prop :=
  ∀ raw, marshalText (siDB i) = inl raw → ∃ b, encode i = inl b ∧ decode b = inl (set_siDB i raw).

(** C21: State transfer between members.  A snapshot taken by a member and installed
    by another, whatever that one held before, gives it the member's log index, the
    same range directory with its table assignment and next id, and the member's
    tables as restored from an image (same schema, rows, order and indexes); and
    any two members that installed it, and visit maps in the same order, produce the same
    results and the same tables, directory and index on every continuation of the log.
    The database is fit for an image, the directory well-formed, and the JSON of the image
    record read back as written ([codec]).  Of members that visit maps in different
    orders it would be false: [replicas_diverge]. *)
Theorem snapshot_installs st : image_ok nilOrder nilNames (psDB st) → dir_wf (psRanges st) →
  codec (snapshotOf order nilOrder nilNames st) →
  ∃ b, fsmSnapshot order nilOrder nilNames encode st = inl b ∧
    (∀ st1, ∃ st1', fsmRestore visit decode (inl b) st1 = (None, st1') ∧
       psIndex st1' = psIndex st ∧ psRanges st1' = psRanges st ∧
       dTables (psDB st1') = cloneLocked <$> (restoredTable <$> dTables (psDB st))) ∧
    (∀ st1 st2 st1' st2' wp1 wp2 op1 op2 io1 io2 idx log,
       fsmRestore visit decode (inl b) st1 = (None, st1') → fsmRestore visit decode (inl b) st2 = (None, st2') →
       match applyLog order env wp1 op1 io1 idx log st1', applyLog order env wp2 op2 io2 idx log st2' with
       | Some (r1, s1), Some (r2, s2) => r1 = r2 ∧ agree s1 s2
       | None, None => True
       | _, _ => False
       end).
Proof.
  intros Hok Hw Hc. destruct (marshal_restores visit Hvisit nilOrder nilNames (psDB st) newDB Hok) as (raw & Hm & Hu).
  destruct (Hc raw Hm) as (b & He & Hd). exists b.
  assert (Hone : ∀ st1, ∃ st1', fsmRestore visit decode (inl b) st1 = (None, st1') ∧
       psIndex st1' = psIndex st ∧ psRanges st1' = psRanges st ∧
       dTables (psDB st1') = cloneLocked <$> (restoredTable <$> dTables (psDB st))).
  { intros st1. unfold fsmRestore. rewrite Hd. cbn [siDB set_siDB]. rewrite bool_decide_false.
    - unfold loadImage. rewrite Hu. unfold ReplaceFrom, replace. cbn [andb]. eexists. split; [reflexivity|].
      cbn [psIndex psRanges psDB siIndex siRanges siAssign siNext snapshotOf set_siDB]. split_and!; [done|by apply restoreRanges_All|done].
    - intros ->. by cbn in Hu. }
  split_and!; [done|done|]. intros st1 st2 st1' st2' wp1 wp2 op1 op2 io1 io2 idx log H1' H2'.
  destruct (Hone st1) as (x & E1 & I1 & R1 & T1), (Hone st2) as (y & E2 & I2 & R2 & T2).
  rewrite E1 in H1'. rewrite E2 in H2'. simplify_eq. apply applyLog_same. split_and!; congruence.
Qed.
End Fsm.
