(* ===== verification/Transport.v ===== *)
(** * Node-to-node transport: internal/cluster/transport.go, consensus/mux.go

    Frames, the serving loop, the outcome of one call, and the pools of idle
    connections as a transition system over callers.  [V] stands for a decoded
    payload; json.Marshal and json.Unmarshal of the two envelopes are parameters. *)

From S2P Require Import Prelude GoLib Bytes Wire.
Open Scope Z_scope.

Definition ProtocolVersion : Z := 1.
Definition maxFrameSize : Z := Z.shiftl 16 20.
Definition maxPoolPerPeer : nat := 8.
Definition riverMagic : Z := 83.

Record envelope := mkEnvelope { evV : Z; evKind : str; evPayload : str }.
Record rpcResponse := mkRpc { rrV : Z; rrOK : bool; rrPayload : str; rrError : str; rrCode : str }.

(** ** Frames *)

Inductive frameErr := FEOF | FShort | FMagic | FSize | FDecode (e : err).

(** The body of a frame and the rest of the stream. *)
Definition readBody (r : str) : (str + frameErr) * str :=
  match r with
  | [] => (inr FEOF, [])
  | magic :: r1 =>
      if negb (magic =? riverMagic) then (inr FMagic, r1)
      else match ReadFull r1 4 with
      | (inr _, r2) => (inr FShort, r2)
      | (inl header, r2) =>
          let size := getUint header in
          if (size =? 0) || (maxFrameSize <? size) then (inr FSize, r2)
          else match ReadFull r2 (Z.to_nat size) with
          | (inr _, r3) => (inr FShort, r3)
          | (inl payload, r3) => (inl payload, r3)
          end
      end
  end.

(** [readEnvelope] and [readResponse] *)
Definition readValue {V} (decode : str → V + err) (r : str) : (V + frameErr) * str :=
  match readBody r with
  | (inr er, rest) => (inr er, rest)
  | (inl payload, rest) => (match decode payload with inl v => inl v | inr er => inr (FDecode er) end, rest)
  end.

(** The bytes [writeFrame] hands to the connection; the length is cut to 32 bits. *)
Definition frameBytes (payload : str) : str := riverMagic :: putUint 4 (Z.of_nat (length payload)) ++ payload.
Definition writeValue {V} (encode : V → str + err) (v : V) : str + err :=
  match encode v with inl payload => inl (frameBytes payload) | inr er => inr er end.

(** ** Serving *)

(** What a handler returns: a payload to marshal, or an error with its code (the code
    [transport] for errors that carry none). *)
Inductive handled := HPayload (p : str + err) | HError (text : str) (code : option str).

Section Serve.
Context (handlers : str → option (str → handled)) (errText : err → str).

Definition answerRpc (req : envelope) : rpcResponse :=
  let fail text code := mkRpc ProtocolVersion false [] text code in
  if negb (evV req =? ProtocolVersion) then fail (lit "unsupported cluster protocol version") (lit "version_mismatch")
  else match handlers (evKind req) with
  | None => fail (lit "unknown rpc kind " ++ evKind req) (lit "not_found")
  | Some h =>
      match h (evPayload req) with
      | HError text code => fail text (default (lit "transport") code)
      | HPayload (inr er) => fail (errText er) (lit "transport")
      | HPayload (inl raw) => mkRpc ProtocolVersion true raw [] []
      end
  end.

(** The loop of [serveConn]: requests until one cannot be read or answered. *)
Context (decodeEnv : str → envelope + err) (encodeResp : rpcResponse → str + err).
Fixpoint serveLoop (fuel : nat) (input out : str) : str :=
  match fuel with
  | O => out
  | S f =>
      match readValue decodeEnv input with
      | (inr _, _) => out
      | (inl req, rest) =>
          match writeValue encodeResp (answerRpc req) with
          | inr _ => out
          | inl b => serveLoop f rest (out ++ b)
          end
      end
  end.
End Serve.

(** ** One call *)

(** [*Error] with its code, message and retry flag. *)
Record callError := mkCallError { ceCode : str; ceMsg : str; ceRetry : bool }.

(** What [Call] makes of the answer: its payload, or an error.  [cancelled] is the
    text of [ctx.Err()] after the answer was read. *)
Definition callAnswer (kind : str) (cancelled : option str) (r : rpcResponse) : str + callError :=
  match cancelled with
  | Some text => inr (mkCallError (lit "timeout") (lit "rpc " ++ kind ++ lit " cancelled: " ++ text) false)
  | None =>
      if negb (rrV r =? ProtocolVersion)
      then inr (mkCallError (lit "version_mismatch") (lit "peer uses unsupported protocol version") false)
      else if negb (rrOK r) then
        let code := if bool_decide (rrCode r = []) then lit "transport" else rrCode r in
        inr (mkCallError code (rrError r) (bool_decide (code = lit "timeout") || bool_decide (code = lit "unavailable")))
      else inl (rrPayload r)
  end.

(** ** The shared port: consensus/mux.go *)

(** Where a connection goes by its first byte; [None] when none could be read. *)
Inductive side := ToRiver | ToRaft | Hangup.
Definition classify (first : option Z) : side :=
  match first with None => Hangup | Some b => if b =? riverMagic then ToRiver else ToRaft end.

(** [prefixedConn]: the peeked byte, whether it was replayed, and the socket's bytes.
    A read has a buffer of [n] bytes and the socket delivers [k] of them. *)
Record prefixedConn := mkPrefixed { pfFirst : Z; pfDone : bool; pfConn : str }.
Definition prefixedRead (n k : nat) (c : prefixedConn) : str * prefixedConn :=
  if pfDone c then (take (k `min` n) (pfConn c), mkPrefixed (pfFirst c) true (drop (k `min` n) (pfConn c)))
  else ((if (n =? 0)%nat then [] else [pfFirst c]), mkPrefixed (pfFirst c) true (pfConn c)).
Fixpoint prefixedReads (reads : list (nat * nat)) (c : prefixedConn) : str * prefixedConn :=
  match reads with
  | [] => ([], c)
  | (n, k) :: reads' =>
      let '(b, c1) := prefixedRead n k c in
      let '(bs, c2) := prefixedReads reads' c1 in (b ++ bs, c2)
  end.

(** ** Connection pools *)

(** A channel of idle connections, closed or not; connections are numbers. *)
Record chan := mkChan { chConns : list nat; chClosed : bool }.

(** Where a call is: between looking up the pool and receiving from it; dialing;
    using a connection; returned; or panicked on a nil connection. *)
Inductive caller :=
| Looking (addr : str) (ch : nat)
| Dialing (addr : str)
| Using (addr : str) (c : nat)
| Finished
| Panicked.

Record transport := mkTransport {
  tpPools : gmap str nat; tpChans : list chan; tpClosed : bool;
  tpCallers : list caller; tpNext : nat; tpOpen : gset nat;
}.
Definition transport0 : transport := mkTransport ∅ [] false [] 0 ∅.

Definition set_chans t x := mkTransport (tpPools t) x (tpClosed t) (tpCallers t) (tpNext t) (tpOpen t).
Definition set_caller t k x := mkTransport (tpPools t) (tpChans t) (tpClosed t) (<[k := x]> (tpCallers t)) (tpNext t) (tpOpen t).
Definition add_caller t x := mkTransport (tpPools t) (tpChans t) (tpClosed t) (tpCallers t ++ [x]) (tpNext t) (tpOpen t).
Definition close_conn t c := mkTransport (tpPools t) (tpChans t) (tpClosed t) (tpCallers t) (tpNext t) (tpOpen t ∖ {[c]}).

(** The pool of a peer, made when there is none. *)
Definition poolOf (t : transport) (addr : str) : nat * transport :=
  match tpPools t !! addr with
  | Some ch => (ch, t)
  | None => (length (tpChans t), mkTransport (<[addr := length (tpChans t)]> (tpPools t)) (tpChans t ++ [mkChan [] false])
                                   (tpClosed t) (tpCallers t) (tpNext t) (tpOpen t))
  end.

(** [release] *)
Definition release (t : transport) (addr : str) (c : nat) (failed : bool) : transport :=
  if failed || tpClosed t then close_conn t c
  else
    let '(ch, t) := poolOf t addr in
    match tpChans t !! ch with
    | Some q => if (length (chConns q) <? maxPoolPerPeer)%nat
                then set_chans t (<[ch := mkChan (chConns q ++ [c]) (chClosed q)]> (tpChans t))
                else close_conn t c
    | None => t
    end.

(** [Close]: the pools' channels are closed and drained. *)
Definition closeAll (t : transport) : transport :=
  let chs := (map_to_list (tpPools t)).*2 in
  let idle := concat (map chConns (omap (λ ch, tpChans t !! ch) chs)) in
  mkTransport ∅ (imap (λ ch q, if bool_decide (ch ∈ chs) then mkChan [] true else q) (tpChans t)) true
    (tpCallers t) (tpNext t) (tpOpen t ∖ list_to_set idle).

Inductive transportStep : transport → transport → Prop :=
| tstep_refuse t : tpClosed t = true → transportStep t (add_caller t Finished)
| tstep_lookup t addr ch t' : tpClosed t = false → poolOf t addr = (ch, t') →
    transportStep t (add_caller t' (Looking addr ch))
| tstep_reuse t k addr ch c rest b : tpCallers t !! k = Some (Looking addr ch) → tpChans t !! ch = Some (mkChan (c :: rest) b) →
    transportStep t (set_caller (set_chans t (<[ch := mkChan rest b]> (tpChans t))) k (Using addr c))
| tstep_stale t k addr ch c rest b : tpCallers t !! k = Some (Looking addr ch) → tpChans t !! ch = Some (mkChan (c :: rest) b) →
    transportStep t (set_caller (close_conn (set_chans t (<[ch := mkChan rest b]> (tpChans t))) c) k (Dialing addr))
| tstep_none t k addr ch : tpCallers t !! k = Some (Looking addr ch) → tpChans t !! ch = Some (mkChan [] false) →
    transportStep t (set_caller t k (Dialing addr))
| tstep_nil t k addr ch : tpCallers t !! k = Some (Looking addr ch) → tpChans t !! ch = Some (mkChan [] true) →
    transportStep t (set_caller t k Panicked)
| tstep_dialed t k addr : tpCallers t !! k = Some (Dialing addr) →
    transportStep t (set_caller (mkTransport (tpPools t) (tpChans t) (tpClosed t) (tpCallers t) (S (tpNext t))
                                   (tpOpen t ∪ {[tpNext t]})) k (Using addr (tpNext t)))
| tstep_undialed t k addr : tpCallers t !! k = Some (Dialing addr) → transportStep t (set_caller t k Finished)
| tstep_release t k addr c failed : tpCallers t !! k = Some (Using addr c) →
    transportStep t (set_caller (release t addr c failed) k Finished)
| tstep_close t : transportStep t (closeAll t).
