(* ===== verification/TransportProofs.v ===== *)
(** * Transport: frames round trip, connections have one owner *)

From S2P Require Import Prelude GoLib Bytes Wire Transport.
Open Scope Z_scope.

(** ** The shared port *)

(** What a connection still holds for its reader. *)
Definition unread (c : prefixedConn) : str := (if pfDone c then [] else [pfFirst c]) ++ pfConn c.

(** Peeking loses nothing as long as no read comes with an empty buffer. *)
Lemma prefixed_transparent reads : ∀ c, Forall (λ p, p.1 ≠ 0%nat) reads →
  (prefixedReads reads c).1 ++ unread (prefixedReads reads c).2 = unread c.
Proof.
  induction reads as [|[n k] reads IH]; intros c Hr; [done|]. apply Forall_cons in Hr as [Hn Hr]. cbn [prefixedReads].
  destruct (prefixedRead n k c) as [b c1] eqn:E. specialize (IH c1 Hr). destruct (prefixedReads reads c1) as [bs c2]. cbn [fst snd] in *.
  rewrite <- app_assoc, IH. revert E. unfold prefixedRead, unread. destruct c as [f [] s]; cbn.
  - intros [= <- <-]. cbn. apply take_drop.
  - destruct (Nat.eqb_spec n 0); [done|]. by intros [= <- <-].
Qed.
(** A first read into an empty buffer drops the peeked byte. *)
Example empty_read_drops_byte : prefixedReads [(0, 0); (9, 9)]%nat (mkPrefixed riverMagic false (lit "DB")) = (lit "DB", mkPrefixed riverMagic true []).
Proof. by vm_compute. Qed.

(** ** Frames *)

#[local] Opaque putUint getUint.

Lemma readBody_frame payload rest : payload ≠ [] → Z.of_nat (length payload) ≤ maxFrameSize →
  readBody (frameBytes payload ++ rest) = (inl payload, rest).
Proof.
  intros Hne Hl. unfold frameBytes, readBody. cbn [app]. change (riverMagic =? riverMagic) with true. cbn [negb].
  rewrite <- app_assoc, ReadFull_app by apply putUint_length.
  rewrite getUint_putUint by (change maxFrameSize with 16777216 in Hl; simpl; lia). cbv zeta.
  destruct (Z.eqb_spec (Z.of_nat (length payload)) 0) as [E|]; [destruct payload; [done|simpl in E; lia]|].
  destruct (Z.ltb_spec maxFrameSize (Z.of_nat (length payload))); [lia|]. cbn [orb].
  by rewrite Nat2Z.id, ReadFull_app.
Qed.

(** What one side writes the other reads. *)
Lemma readValue_frame {V} (encode : V → str + err) (decode : str → V + err) v b payload rest :
  encode v = inl payload → decode payload = inl v → payload ≠ [] → Z.of_nat (length payload) ≤ maxFrameSize →
  writeValue encode v = inl b → readValue decode (b ++ rest) = (inl v, rest).
Proof.
  intros He Hd Hne Hl. unfold writeValue, readValue. rewrite He. intros [= <-]. rewrite readBody_frame by done. by rewrite Hd.
Qed.

(** A stream of requests is answered one by one, in order. *)
Lemma serveLoop_answers handlers errText (encodeEnv : envelope → str + err) decodeEnv encodeResp reqs : ∀ fuel out,
  (length reqs < fuel)%nat →
  Forall (λ q, ∃ p, encodeEnv q = inl p ∧ decodeEnv p = inl q ∧ p ≠ [] ∧ Z.of_nat (length p) ≤ maxFrameSize) reqs →
  Forall (λ q, ∃ p, encodeResp (answerRpc handlers errText q) = inl p) reqs →
  serveLoop handlers errText decodeEnv encodeResp fuel
    (concat (map (λ q, match writeValue encodeEnv q with inl b => b | inr _ => [] end) reqs)) out
  = out ++ concat (map (λ q, match writeValue encodeResp (answerRpc handlers errText q) with inl b => b | inr _ => [] end) reqs).
Proof.
  induction reqs as [|q reqs IH]; intros fuel out Hf Hq Hr; (destruct fuel as [|fuel]; [simpl in Hf; lia|]).
  { cbn [map concat serveLoop]. by rewrite app_nil_r. }
  apply Forall_cons in Hq as [(p & He & Hd & Hne & Hl) Hq]. apply Forall_cons in Hr as [(p' & Hr') Hr].
  cbn [map concat serveLoop]. assert (Hw : writeValue encodeEnv q = inl (frameBytes p)) by (unfold writeValue; by rewrite He).
  rewrite Hw, (readValue_frame encodeEnv decodeEnv q _ p) by done.
  assert (Hw' : writeValue encodeResp (answerRpc handlers errText q) = inl (frameBytes p')) by (unfold writeValue; by rewrite Hr').
  rewrite Hw', IH; [by rewrite app_assoc|simpl in Hf; lia|done..].
Qed.

(** ** Pools *)

Definition connsOf (k : caller) : list nat := match k with Using _ c => [c] | _ => [] end.
Definition idle (t : transport) : list nat := tpChans t ≫= chConns.
Definition inUse (t : transport) : list nat := tpCallers t ≫= connsOf.
Definition owned (t : transport) : list nat := idle t ++ inUse t.

(** The open connections are those with an owner, each with one. *)
Record owners_ok (t : transport) : Prop := {
  ow_once : NoDup (owned t);
  ow_open : tpOpen t = list_to_set (owned t);
  ow_old : ∀ c, c ∈ owned t → (c < tpNext t)%nat;
}.
(** The channels of the pools are open; the others are closed and drained. *)
Record shape_ok (t : transport) : Prop := {
  sh_pools : ∀ addr ch, tpPools t !! addr = Some ch → ∃ q, tpChans t !! ch = Some q ∧ chClosed q = false;
  sh_chans : ∀ ch q, tpChans t !! ch = Some q →
    (length (chConns q) ≤ maxPoolPerPeer)%nat ∧ (chClosed q = true → chConns q = []) ∧
    (chClosed q = true ∨ ∃ addr, tpPools t !! addr = Some ch);
  sh_closed : tpClosed t = true → tpPools t = ∅;
}.

Lemma owners_perm t t' : owners_ok t → owned t' ≡ₚ owned t → tpOpen t' = tpOpen t → tpNext t' = tpNext t → owners_ok t'.
Proof.
  intros [H1 H2 H3] Hp Ho Hn. split; [by rewrite Hp|rewrite Ho, H2; by apply list_to_set_perm_L|].
  intros c. rewrite Hp, Hn. apply H3.
Qed.
Lemma owners_drop t t' c : owners_ok t → owned t ≡ₚ c :: owned t' → tpOpen t' = tpOpen t ∖ {[c]} → tpNext t' = tpNext t →
  owners_ok t'.
Proof.
  intros [H1 H2 H3] Hp Ho Hn. rewrite Hp in H1. apply NoDup_cons in H1 as [Hc H1]. split; [done|..].
  - rewrite Ho, H2, (list_to_set_perm_L _ _ Hp). set_solver.
  - intros x Hx. rewrite Hn. apply H3. rewrite Hp. by right.
Qed.
Lemma owners_new t t' : owners_ok t → owned t' ≡ₚ tpNext t :: owned t → tpOpen t' = tpOpen t ∪ {[tpNext t]} →
  tpNext t' = S (tpNext t) → owners_ok t'.
Proof.
  intros [H1 H2 H3] Hp Ho Hn. split.
  - rewrite Hp. apply NoDup_cons. split; [|done]. intros Hc%H3. lia.
  - rewrite Ho, H2, (list_to_set_perm_L _ _ Hp). set_solver.
  - intros x. rewrite Hp, Hn. intros [->|Hx%H3]%elem_of_cons; lia.
Qed.

Lemma delete_insert_here {A} (y : A) (l : list A) : ∀ i : nat, delete i (<[i := y]> l) = delete i l.
Proof. induction l as [|x l IH]; intros [|i]; [done..|]. cbn. by rewrite IH. Qed.
Lemma bind_insert {A B} (f : A → list B) (l : list A) (i : nat) x y : l !! i = Some x →
  l ≫= f ≡ₚ f x ++ (delete i l ≫= f) ∧ (<[i := y]> l) ≫= f ≡ₚ f y ++ (delete i l ≫= f).
Proof.
  intros Hi. split.
  - rewrite (delete_Permutation l i x Hi) at 1. done.
  - assert (<[i := y]> l !! i = Some y) as Hy by (apply list_lookup_insert_eq; by eapply lookup_lt_Some).
    rewrite (delete_Permutation _ i y Hy). by rewrite delete_insert_here.
Qed.

(** Moving a caller, with the connections it owns before and after. *)
Lemma set_caller_owned t k x y : tpCallers t !! k = Some x →
  ∃ rest, owned t ≡ₚ connsOf x ++ rest ∧ owned (set_caller t k y) ≡ₚ connsOf y ++ rest.
Proof.
  intros Hk. destruct (bind_insert connsOf (tpCallers t) k x y Hk) as [E1 E2].
  exists (idle t ++ (delete k (tpCallers t) ≫= connsOf)). unfold owned, idle, inUse. cbn [set_caller tpChans tpCallers].
  rewrite E1, E2. split; apply Permutation_app_swap_app.
Qed.
Lemma set_chans_owned t ch q q' : tpChans t !! ch = Some q →
  ∃ rest, owned t ≡ₚ chConns q ++ rest ∧ owned (set_chans t (<[ch := q']> (tpChans t))) ≡ₚ chConns q' ++ rest.
Proof.
  intros Hk. destruct (bind_insert chConns (tpChans t) ch q q' Hk) as [E1 E2].
  exists ((delete ch (tpChans t) ≫= chConns) ++ inUse t). unfold owned, idle, inUse. cbn [set_chans tpChans tpCallers].
  rewrite E1, E2. by rewrite <- !app_assoc.
Qed.

Lemma poolOf_ok t addr ch t' : shape_ok t → tpClosed t = false → poolOf t addr = (ch, t') →
  shape_ok t' ∧ tpPools t' !! addr = Some ch ∧ tpCallers t' = tpCallers t ∧ tpClosed t' = false ∧ owned t' = owned t ∧
  tpOpen t' = tpOpen t ∧ tpNext t' = tpNext t.
Proof.
  intros [H4 H5 H6] Hc. unfold poolOf. destruct (tpPools t !! addr) as [c|] eqn:E; intros [= <- <-]; [done|].
  split; [|split_and!; cbn [tpPools tpCallers tpClosed tpOpen tpNext]; try done; [by rewrite lookup_insert_eq|]].
  2:{ unfold owned, idle, inUse. cbn [tpChans tpCallers]. by rewrite bind_app, app_nil_r. }
  split; cbn [tpPools tpChans tpClosed].
  - intros a c. rewrite lookup_insert. case_decide.
    + intros [= <-]. exists (mkChan [] false). by rewrite lookup_app_r, Nat.sub_diag.
    + intros (q & Hq & Hcl)%H4. exists q. by erewrite lookup_app_l_Some.
  - intros c q [Hq|[Hlen Hq]]%lookup_app_Some.
    + destruct (H5 c q Hq) as (A1 & A2 & A3). split_and!; try done. destruct A3 as [?|[a Ha]]; [by left|right].
      exists a. rewrite lookup_insert_ne; [done|congruence].
    + apply list_lookup_singleton_Some in Hq as [Hq <-]. split_and!; [simpl; lia|done|]. right. exists addr.
      rewrite lookup_insert_eq. f_equal. lia.
  - congruence.
Qed.

(** Replacing the content of one channel, within its bounds. *)
Lemma shape_insert t ch q conns : shape_ok t → tpChans t !! ch = Some q → (length conns ≤ maxPoolPerPeer)%nat →
  (chClosed q = true → conns = []) → shape_ok (set_chans t (<[ch := mkChan conns (chClosed q)]> (tpChans t))).
Proof.
  intros [H4 H5 H6] Hq Hl Hn. split; cbn [set_chans tpPools tpChans tpClosed]; [|..|done].
  - intros a c (q' & Hq' & Hcl)%H4. destruct (decide (c = ch)) as [->|].
    + exists (mkChan conns (chClosed q)). rewrite list_lookup_insert_eq by (by eapply lookup_lt_Some). split; [done|]. simpl. congruence.
    + exists q'. by rewrite list_lookup_insert_ne.
  - intros c q'. destruct (decide (c = ch)) as [->|].
    + rewrite list_lookup_insert_eq by (by eapply lookup_lt_Some). intros [= <-]. split_and!; [done|done|]. apply (H5 ch q Hq).
    + rewrite list_lookup_insert_ne by done. apply H5.
Qed.

(** After [Close] nothing is idle, and what was idle is closed. *)
Lemma closeAll_chan t ch q : shape_ok t → tpChans (closeAll t) !! ch = Some q → q = mkChan [] true.
Proof.
  intros [H4 H5 H6]. unfold closeAll. cbn [tpChans]. rewrite list_lookup_imap. destruct (tpChans t !! ch) as [q0|] eqn:E; [|done].
  intros [= <-]. case_bool_decide as Hin; [done|]. destruct (H5 ch q0 E) as (_ & A2 & [A3|[addr Ha]]).
  - destruct q0. cbn in *. subst. by rewrite A2.
  - destruct Hin. apply list_elem_of_fmap. exists (addr, ch). by rewrite elem_of_map_to_list.
Qed.
Lemma closeAll_idle t : shape_ok t → idle (closeAll t) = [].
Proof.
  intros Hs. apply elem_of_nil_inv. intros c (q & Hc & Hq)%list_elem_of_bind. apply list_elem_of_lookup in Hq as [ch Hq].
  apply closeAll_chan in Hq; [|done]. subst q. by apply elem_of_nil in Hc.
Qed.
Lemma closeAll_shape t : shape_ok t → shape_ok (closeAll t).
Proof.
  intros Hs. split; [done| |done]. intros ch q Hq. apply closeAll_chan in Hq; [|done]. subst q.
  split_and!; [simpl; lia|done|by left].
Qed.
Lemma closeAll_drains t c : shape_ok t →
  c ∈ concat (map chConns (omap (λ ch, tpChans t !! ch) (map_to_list (tpPools t)).*2)) ↔ c ∈ idle t.
Proof.
  intros [H4 H5 H6]. unfold idle. rewrite list_elem_of_bind, <- flat_map_concat_map. split.
  - intros Hc. apply list_elem_of_In, in_flat_map in Hc as (q & Hq & Hc). apply list_elem_of_In in Hq, Hc.
    apply list_elem_of_omap in Hq as (ch & _ & Hq). exists q. split; [done|]. by eapply list_elem_of_lookup_2.
  - intros (q & Hc & [ch Hq]%list_elem_of_lookup). apply list_elem_of_In, in_flat_map. exists q. rewrite <- !list_elem_of_In.
    split; [|done]. apply list_elem_of_omap. exists ch. split; [|done].
    destruct (H5 ch q Hq) as (_ & A2 & [A3|[addr Ha]]); [rewrite A2 in Hc by done; by apply elem_of_nil in Hc|].
    apply list_elem_of_fmap. exists (addr, ch). by rewrite elem_of_map_to_list.
Qed.
Lemma closeAll_owners t : shape_ok t → owners_ok t → owners_ok (closeAll t).
Proof.
  intros Hs [H1 H2 H3]. assert (Ho : owned (closeAll t) = inUse t) by (unfold owned; by rewrite closeAll_idle).
  unfold owned in H1, H3. apply NoDup_app in H1 as (Hi & Hd & Hu). split; rewrite ?Ho; [done|..].
  - unfold closeAll at 1. cbn [tpOpen]. rewrite H2. apply set_eq. intros c. rewrite elem_of_difference, !elem_of_list_to_set, closeAll_drains by done.
    unfold owned. rewrite elem_of_app. split; [intros [[?|?] ?]; done|]. intros Hc. split; [by right|]. intros Hi'. by eapply Hd.
  - intros c Hc. apply H3, elem_of_app. by right.
Qed.

Lemma set_caller_shape t k x : shape_ok t → shape_ok (set_caller t k x).
Proof. by intros []. Qed.
Lemma close_conn_shape t c : shape_ok t → shape_ok (close_conn t c).
Proof. by intros []. Qed.

Lemma release_ok t k addr c failed : shape_ok t → owners_ok t → tpCallers t !! k = Some (Using addr c) →
  shape_ok (set_caller (release t addr c failed) k Finished) ∧ owners_ok (set_caller (release t addr c failed) k Finished).
Proof.
  intros Hs Ho Hk.
  assert (Hdrop : ∀ t1, shape_ok t1 → owners_ok t1 → tpCallers t1 !! k = Some (Using addr c) →
    shape_ok (set_caller (close_conn t1 c) k Finished) ∧ owners_ok (set_caller (close_conn t1 c) k Finished)).
  { intros t1 Hs1 Ho1 Hk1. split; [by apply set_caller_shape, close_conn_shape|].
    destruct (set_caller_owned t1 k _ Finished Hk1) as (rest & E1 & E2). apply (owners_drop t1 _ c); [done|..|done|done].
    rewrite E1. cbn [connsOf app]. constructor. by rewrite <- E2. }
  unfold release. destruct (failed || tpClosed t) eqn:Ef; [by apply Hdrop|]. apply orb_false_iff in Ef as [_ Hc].
  destruct (poolOf t addr) as [ch t1] eqn:Ep. destruct (poolOf_ok t addr ch t1 Hs Hc Ep) as (Hs1 & Ha & Ec & Hc1 & Eo & Eop & En).
  assert (Ho1 : owners_ok t1) by (eapply owners_perm; [exact Ho|by rewrite Eo|done|done]).
  destruct (sh_pools t1 Hs1 addr ch Ha) as (q & Hq & Hqc). rewrite Hq. rewrite <- Ec in Hk.
  destruct (Nat.ltb_spec (length (chConns q)) maxPoolPerPeer) as [Hl|]; [|by apply Hdrop].
  split; [apply set_caller_shape, shape_insert; try done; [rewrite length_app; simpl; lia|congruence]|].
  set (q' := mkChan (chConns q ++ [c]) (chClosed q)). destruct (set_chans_owned t1 ch q q' Hq) as (r1 & E1 & E2).
  destruct (set_caller_owned (set_chans t1 (<[ch := q']> (tpChans t1))) k _ Finished Hk) as (r2 & E3 & E4).
  apply (owners_perm t1); [done| |done|done]. rewrite E4. cbn [connsOf app]. rewrite E2 in E3. cbn [connsOf app q' chConns] in E3.
  rewrite E1. apply (Permutation_cons_inv (a := c)). rewrite <- E3. rewrite <- app_assoc. cbn [app]. symmetry. apply Permutation_middle.
Qed.

Lemma step_pool_ok t t' : shape_ok t → owners_ok t → transportStep t t' → shape_ok t' ∧ owners_ok t'.
Proof.
  intros Hs Ho Hst. inversion Hst as [? Hc|? addr ch t1 Hc Hp|? k addr ch c rest b Hk Hq|? k addr ch c rest b Hk Hq|
    ? k addr ch Hk Hq|? k addr ch Hk Hq|? k addr Hk|? k addr Hk|? k addr c failed Hk|]; subst.
  - split; [by destruct Hs|]. apply (owners_perm t); try done. unfold owned, inUse, idle. cbn [add_caller tpCallers tpChans].
    by rewrite bind_app, app_nil_r.
  - destruct (poolOf_ok t addr ch t1 Hs Hc Hp) as (Hs1 & Ha & Ec & Hc1 & Eo & Eop & En).
    split; [by destruct Hs1|]. apply (owners_perm t); try done. rewrite <- Eo. unfold owned, inUse, idle. cbn [add_caller tpCallers tpChans].
    by rewrite bind_app, app_nil_r.
  - destruct (sh_chans t Hs ch _ Hq) as (A1 & A2 & A3). split.
    { apply set_caller_shape, (shape_insert t ch (mkChan (c :: rest) b)); try done; [simpl in A1; lia|]. intros Hb. by specialize (A2 Hb). }
    destruct (set_chans_owned t ch _ (mkChan rest b) Hq) as (r1 & E1 & E2).
    destruct (set_caller_owned (set_chans t (<[ch := mkChan rest b]> (tpChans t))) k _ (Using addr c) Hk) as (r2 & E3 & E4).
    apply (owners_perm t); try done. rewrite E4, E1. cbn [connsOf app chConns] in *. constructor. by rewrite <- E3, E2.
  - destruct (sh_chans t Hs ch _ Hq) as (A1 & A2 & A3). split.
    { apply set_caller_shape, close_conn_shape, (shape_insert t ch (mkChan (c :: rest) b)); try done; [simpl in A1; lia|].
      intros Hb. by specialize (A2 Hb). }
    destruct (set_chans_owned t ch _ (mkChan rest b) Hq) as (r1 & E1 & E2).
    destruct (set_caller_owned (set_chans t (<[ch := mkChan rest b]> (tpChans t))) k _ (Dialing addr) Hk) as (r2 & E3 & E4).
    apply (owners_drop t _ c); try done. rewrite E1. cbn [connsOf app chConns] in *. constructor. rewrite <- E2, E3. by rewrite <- E4.
  - split; [by apply set_caller_shape|]. destruct (set_caller_owned t k _ (Dialing addr) Hk) as (r & E1 & E2).
    apply (owners_perm t); try done. by rewrite E2, E1.
  - split; [by apply set_caller_shape|]. destruct (set_caller_owned t k _ Panicked Hk) as (r & E1 & E2).
    apply (owners_perm t); try done. by rewrite E2, E1.
  - split; [by apply set_caller_shape; destruct Hs|].
    destruct (set_caller_owned (mkTransport (tpPools t) (tpChans t) (tpClosed t) (tpCallers t) (S (tpNext t)) (tpOpen t ∪ {[tpNext t]}))
      k _ (Using addr (tpNext t)) Hk) as (r & E1 & E2).
    apply (owners_new t); try done. rewrite E2. cbn [connsOf app] in *. constructor. by rewrite <- E1.
  - split; [by apply set_caller_shape|]. destruct (set_caller_owned t k _ Finished Hk) as (r & E1 & E2).
    apply (owners_perm t); try done. by rewrite E2, E1.
  - by eapply release_ok.
  - split; [by apply closeAll_shape|by apply closeAll_owners].
Qed.

(** C37: Connections between nodes have one owner.  However calls, releases and
    [Close] interleave: a connection is used by at most one call at a time and never
    handed out while it is pooled, the open connections are exactly those in use or
    pooled (none leaks), a pool never holds more than eight, and once the transport
    is closed none is pooled and no pool is made again. *)
Theorem connections_have_one_owner t :
  rtc transportStep transport0 t →
  NoDup (idle t ++ inUse t) ∧ tpOpen t = list_to_set (idle t ++ inUse t) ∧
  (∀ ch q, tpChans t !! ch = Some q → (length (chConns q) ≤ maxPoolPerPeer)%nat) ∧
  (tpClosed t = true → idle t = [] ∧ tpPools t = ∅).
Proof.
  intros Hr. assert (shape_ok t ∧ owners_ok t) as [Hs Ho].
  { revert Hr. apply (rtc_ind_r (λ t, shape_ok t ∧ owners_ok t)).
    - split; [by split|]. split; [constructor|done|by intros ? ?%elem_of_nil].
    - intros t1 t2 _ Hst [Hs Ho]. by eapply step_pool_ok. }
  split_and!; [apply Ho|apply Ho|intros ch q Hq; by apply (sh_chans t Hs ch q)|].
  intros Hc. pose proof (sh_closed t Hs Hc) as Hp. split; [|done]. apply elem_of_nil_inv.
  intros c (q & Hin & [ch Hq]%list_elem_of_lookup)%list_elem_of_bind. destruct (sh_chans t Hs ch q Hq) as (_ & A2 & [A3|[addr Ha]]).
  - rewrite A2 in Hin by done. by apply elem_of_nil in Hin.
  - by rewrite Hp, lookup_empty in Ha.
Qed.

(** A call that looked up its pool before [Close] and receives from it afterwards gets
    a nil connection from the closed channel, and panics on it. *)
Example closed_pool_panics : ∃ t, rtc transportStep transport0 t ∧ tpCallers t = [Panicked].
Proof.
  eexists. split.
  - eapply rtc_l; [by eapply (tstep_lookup _ (lit "n2:7000"))|].
    eapply rtc_l; [apply tstep_close|].
    eapply rtc_l; [by eapply (tstep_nil _ 0%nat)|]. apply rtc_refl.
  - done.
Qed.
