(* ===== verification/Mux.v ===== *)
(** * The shared port of a node: internal/cluster/consensus/mux.go, and Transport.Serve

    One listener for two protocols.  [Mux.loop] accepts connections, a goroutine each
    peeks at the first byte ([classify] of Transport) and hands the connection to the
    RPC side or to Raft, through a channel of 64; [chanListener.Accept] and
    [RaftStreamLayer.Accept] take from the channels.  A transition system: the loop,
    the classifying goroutines, the two consumers and [Close].
    At the end: every connection reaches one side, the side of its first byte, once and in order. *)

From S2P Require Import Prelude GoLib Transport.
Open Scope Z_scope.

Definition chanCap : nat := 64.

(** Where an accepted connection is: before its first byte is read; read, and about to
    be sent; in a channel; taken by a consumer; closed by the mux. *)
Inductive place := Peeking | Sending (b : Z) | Queued (b : Z) | Taken (b : Z) | Dropped.

Record mux := mkMux {
  muConns : list place;      (* in the order they were accepted *)
  muRiver : list nat;        (* the channels, oldest first *)
  muRaft : list nat;
  muClosed : bool;
  muListening : bool;
  muRiverOut : list nat;     (* what the consumers got, in order *)
  muRaftOut : list nat;
  muRiverDone : bool;        (* Transport.Serve has returned *)
}.
Definition mux0 : mux := mkMux [] [] [] false true [] [] false.

Definition set_conns m k p := mkMux (<[k := p]> (muConns m)) (muRiver m) (muRaft m) (muClosed m) (muListening m)
  (muRiverOut m) (muRaftOut m) (muRiverDone m).
Definition set_river m l := mkMux (muConns m) l (muRaft m) (muClosed m) (muListening m) (muRiverOut m) (muRaftOut m) (muRiverDone m).
Definition set_raft m l := mkMux (muConns m) (muRiver m) l (muClosed m) (muListening m) (muRiverOut m) (muRaftOut m) (muRiverDone m).

(** The goroutine of connection [k]. *)
Inductive classifyStep (k : nat) : mux → mux → Prop :=
| cl_read m b : muConns m !! k = Some Peeking → classifyStep k m (set_conns m k (Sending b))
(** the deadline of five seconds passed, or the peer hung up *)
| cl_failed m : muConns m !! k = Some Peeking → classifyStep k m (set_conns m k Dropped)
| cl_river m b : muConns m !! k = Some (Sending b) → classify (Some b) = ToRiver → (length (muRiver m) < chanCap)%nat →
    classifyStep k m (set_river (set_conns m k (Queued b)) (muRiver m ++ [k]))
| cl_raft m b : muConns m !! k = Some (Sending b) → classify (Some b) = ToRaft → (length (muRaft m) < chanCap)%nat →
    classifyStep k m (set_raft (set_conns m k (Queued b)) (muRaft m ++ [k]))
| cl_closed m b : muConns m !! k = Some (Sending b) → muClosed m = true → classifyStep k m (set_conns m k Dropped).

(** [chanListener.Accept] as [Transport.Serve] calls it, which ends with net.ErrClosed,
    and [RaftStreamLayer.Accept]; its channel is never closed. *)
Inductive consumeStep : mux → mux → Prop :=
| co_river m k rest b : muRiverDone m = false → muRiver m = k :: rest → muConns m !! k = Some (Queued b) →
    consumeStep m (mkMux (<[k := Taken b]> (muConns m)) rest (muRaft m) (muClosed m) (muListening m)
                     (muRiverOut m ++ [k]) (muRaftOut m) (muRiverDone m))
| co_riverClosed m : muRiverDone m = false → muClosed m = true →
    consumeStep m (mkMux (muConns m) (muRiver m) (muRaft m) (muClosed m) (muListening m) (muRiverOut m) (muRaftOut m) true)
| co_raft m k rest b : muRaft m = k :: rest → muConns m !! k = Some (Queued b) →
    consumeStep m (mkMux (<[k := Taken b]> (muConns m)) (muRiver m) rest (muClosed m) (muListening m)
                     (muRiverOut m) (muRaftOut m ++ [k]) (muRiverDone m)).

Inductive muxStep : mux → mux → Prop :=
| mu_accept m : muListening m = true →
    muxStep m (mkMux (muConns m ++ [Peeking]) (muRiver m) (muRaft m) (muClosed m) (muListening m) (muRiverOut m) (muRaftOut m) (muRiverDone m))
| mu_classify m m' k : classifyStep k m m' → muxStep m m'
| mu_consume m m' : consumeStep m m' → muxStep m m'
(** the two halves of [Close] *)
| mu_close m : muClosed m = false →
    muxStep m (mkMux (muConns m) (muRiver m) (muRaft m) true (muListening m) (muRiverOut m) (muRaftOut m) (muRiverDone m))
| mu_closeListener m : muClosed m = true →
    muxStep m (mkMux (muConns m) (muRiver m) (muRaft m) true false (muRiverOut m) (muRaftOut m) (muRiverDone m)).

(** What [Transport.Serve] does with an error of Accept: return, or accept again. *)
Definition serveEnds (ctxDone netClosed : bool) : bool := ctxDone || netClosed.

(** ** Lists of the connections at a kind of place *)

Definition at_place (p : place → bool) (l : list place) (k : nat) : Prop := ∃ x, l !! k = Some x ∧ p x = true.
Definition lists (p : place → bool) (l : list place) (q : list nat) : Prop := NoDup q ∧ ∀ k, k ∈ q ↔ at_place p l k.

Lemma at_insert p l k j y : (k < length l)%nat →
  at_place p (<[k := y]> l) j ↔ if decide (j = k) then p y = true else at_place p l j.
Proof.
  intros Hk. unfold at_place. destruct (decide (j = k)) as [->|Hne].
  - rewrite list_lookup_insert_eq by done. split; [by intros (x & [= <-] & ?)|by exists y].
  - by rewrite list_lookup_insert_ne.
Qed.

Lemma lists_stay p l q k x y : l !! k = Some x → p x = p y → lists p l q → lists p (<[k := y]> l) q.
Proof.
  intros Hk Hp [Hn Hq]. split; [done|]. intros j. rewrite at_insert, Hq by by eapply lookup_lt_Some.
  destruct (decide (j = k)) as [->|]; [|done]. unfold at_place. rewrite Hk, <- Hp. split; [by intros (z & [= <-] & ?)|by exists x].
Qed.
Lemma lists_push p l q k x y : l !! k = Some x → p x = false → p y = true → lists p l q → lists p (<[k := y]> l) (q ++ [k]).
Proof.
  intros Hk Hx Hy [Hn Hq]. assert (Hnin : k ∉ q). { rewrite Hq. unfold at_place. rewrite Hk. intros (z & [= <-] & ?). congruence. }
  split.
  - apply NoDup_app. split_and!; [done|set_solver|apply NoDup_singleton].
  - intros j. rewrite at_insert, elem_of_app, list_elem_of_singleton, Hq by by eapply lookup_lt_Some.
    destruct (decide (j = k)); naive_solver.
Qed.
Lemma lists_pop p l q k y : p y = false → lists p l (k :: q) → lists p (<[k := y]> l) q.
Proof.
  intros Hy [Hn Hq]. apply NoDup_cons in Hn as [Hk Hn]. split; [done|]. intros j.
  assert (Hlt : (k < length l)%nat). { destruct (proj1 (Hq k)) as (x & Hx & _); [set_solver|]. by eapply lookup_lt_Some. }
  rewrite at_insert by done. specialize (Hq j). rewrite elem_of_cons in Hq. destruct (decide (j = k)) as [->|]; [|naive_solver].
  rewrite Hy. split; [done|]. by intros.
Qed.
Lemma lists_snoc p l q z : p z = false → lists p l q → lists p (l ++ [z]) q.
Proof.
  intros Hz [Hn Hq]. split; [done|]. intros j. rewrite Hq. unfold at_place. split; intros (x & Hx & Hp).
  - exists x. split; [by apply lookup_app_l_Some|done].
  - apply lookup_app_Some in Hx as [Hx|[_ Hx]]; [by exists x|]. apply list_lookup_singleton_Some in Hx as [_ <-]. congruence.
Qed.

(** ** The invariant *)

Definition queuedFor (s : side) (x : place) : bool :=
  match x with Queued b => match classify (Some b), s with ToRiver, ToRiver => true | ToRaft, ToRaft => true | _, _ => false end | _ => false end.
Definition takenBy (s : side) (x : place) : bool :=
  match x with Taken b => match classify (Some b), s with ToRiver, ToRiver => true | ToRaft, ToRaft => true | _, _ => false end | _ => false end.

Record mux_ok (m : mux) : Prop := {
  mo_river : lists (queuedFor ToRiver) (muConns m) (muRiver m);
  mo_raft : lists (queuedFor ToRaft) (muConns m) (muRaft m);
  mo_riverOut : lists (takenBy ToRiver) (muConns m) (muRiverOut m);
  mo_raftOut : lists (takenBy ToRaft) (muConns m) (muRaftOut m);
  mo_cap : (length (muRiver m) ≤ chanCap)%nat ∧ (length (muRaft m) ≤ chanCap)%nat;
}.

Ltac stay Hk := by eapply lists_stay; [exact Hk| |].

Lemma classifyStep_ok k m m' : mux_ok m → classifyStep k m m' → mux_ok m'.
Proof.
  intros [H1 H2 H3 H4 [H5 H6]] Hst.
  inversion Hst as [? b Hk|? Hk|? b Hk Hc Hl|? b Hk Hc Hl|? b Hk Hc]; subst;
    split; cbn [set_conns set_river set_raft muConns muRiver muRaft muRiverOut muRaftOut]; try (by stay Hk); try done.
  - eapply lists_push; [exact Hk|done| |done]. unfold queuedFor. by rewrite Hc.
  - eapply lists_stay; [exact Hk| |done]. unfold queuedFor. by rewrite Hc.
  - rewrite length_app. cbn. lia.
  - eapply lists_stay; [exact Hk| |done]. unfold queuedFor. by rewrite Hc.
  - eapply lists_push; [exact Hk|done| |done]. unfold queuedFor. by rewrite Hc.
  - rewrite length_app. cbn. lia.
Qed.

Lemma queued_side s m q k b : lists (queuedFor s) (muConns m) (k :: q) → muConns m !! k = Some (Queued b) →
  queuedFor s (Queued b) = true.
Proof. intros [_ Hq] Hk. destruct (proj1 (Hq k)) as (x & Hx & Hp); [set_solver|]. by rewrite Hk in Hx; simplify_eq. Qed.

Lemma consumeStep_ok m m' : mux_ok m → consumeStep m m' → mux_ok m'.
Proof.
  intros [H1 H2 H3 H4 [H5 H6]] Hst. inversion Hst as [? k rest b Hd Hq Hk|? Hd Hc|? k rest b Hq Hk]; subst; [|by split|];
    rewrite Hq in *; (match goal with H : lists (queuedFor ?s) _ (k :: rest) |- _ => pose proof (queued_side s m rest k b H Hk) as Hs end);
    unfold queuedFor in Hs; destruct (classify (Some b)) eqn:Ec; try done;
    split; cbn [muConns muRiver muRaft muRiverOut muRaftOut length] in *; try lia.
  - by apply lists_pop.
  - eapply lists_stay; [exact Hk| |done]. unfold queuedFor. by rewrite Ec.
  - eapply lists_push; [exact Hk|done| |done]. unfold takenBy. by rewrite Ec.
  - eapply lists_stay; [exact Hk| |done]. unfold takenBy. by rewrite Ec.
  - eapply lists_stay; [exact Hk| |done]. unfold queuedFor. by rewrite Ec.
  - by apply lists_pop.
  - eapply lists_stay; [exact Hk| |done]. unfold takenBy. by rewrite Ec.
  - eapply lists_push; [exact Hk|done| |done]. unfold takenBy. by rewrite Ec.
Qed.

Lemma muxStep_ok m m' : mux_ok m → muxStep m m' → mux_ok m'.
Proof.
  intros Hok Hst. inversion Hst as [? Hl|? ? k Hc|? ? Hc|? Hc|? Hc]; subst; [|by eapply classifyStep_ok|by eapply consumeStep_ok|..];
    destruct Hok as [H1 H2 H3 H4 H5]; split; try done; by apply lists_snoc.
Qed.
Lemma mux_run_ok m : rtc muxStep mux0 m → mux_ok m.
Proof.
  intros Hr. assert (H0 : mux_ok mux0).
  { split; try (split; [constructor|intros k; split; [set_solver|by intros (x & ? & _)]]). unfold chanCap. cbn. lia. }
  revert H0. induction Hr as [|m m1 m' Hs _ IH]; [done|]. intros H0. by eapply IH, muxStep_ok.
Qed.

(** The shared port routes every connection to one protocol, once.  Whatever order
    the accept loop, the classifying goroutines, the two consumers and Close take
    their steps in: what a side has received are different connections, each with a
    first byte of that side, no connection reaches both, and a connection that was
    handed to a channel and not taken is still in it, so that nothing is lost or
    delivered twice; neither channel holds more than its capacity. *)
Theorem mux_routes m : rtc muxStep mux0 m →
  NoDup (muRiverOut m) ∧ NoDup (muRaftOut m) ∧
  (∀ k, k ∈ muRiverOut m → ∃ b, muConns m !! k = Some (Taken b) ∧ b = riverMagic) ∧
  (∀ k, k ∈ muRaftOut m → ∃ b, muConns m !! k = Some (Taken b) ∧ b ≠ riverMagic) ∧
  (∀ k b, muConns m !! k = Some (Queued b) → (k ∈ muRiver m ∧ b = riverMagic) ∨ (k ∈ muRaft m ∧ b ≠ riverMagic)) ∧
  (∀ k b, muConns m !! k = Some (Taken b) → (k ∈ muRiverOut m ∧ b = riverMagic) ∨ (k ∈ muRaftOut m ∧ b ≠ riverMagic)) ∧
  (length (muRiver m) ≤ chanCap)%nat ∧ (length (muRaft m) ≤ chanCap)%nat.
Proof.
  intros Hr. destruct (mux_run_ok m Hr) as [[H1 H1'] [H2 H2'] [H3 H3'] [H4 H4'] [H5 H6]].
  split_and!; try done.
  - intros k (x & Hx & Hp)%H3'. destruct x as [| | |b|]; try done. exists b. unfold takenBy, classify in Hp. by destruct (Z.eqb_spec b riverMagic).
  - intros k (x & Hx & Hp)%H4'. destruct x as [| | |b|]; try done. exists b. unfold takenBy, classify in Hp. by destruct (Z.eqb_spec b riverMagic).
  - intros k b Hk. destruct (Z.eqb_spec b riverMagic) as [E|E]; [left|right]; split; try done.
    + apply H1'. exists (Queued b). split; [done|]. unfold queuedFor, classify. by apply Z.eqb_eq in E as ->.
    + apply H2'. exists (Queued b). split; [done|]. unfold queuedFor, classify. by apply Z.eqb_neq in E as ->.
  - intros k b Hk. destruct (Z.eqb_spec b riverMagic) as [E|E]; [left|right]; split; try done.
    + apply H3'. exists (Taken b). split; [done|]. unfold takenBy, classify. by apply Z.eqb_eq in E as ->.
    + apply H4'. exists (Taken b). split; [done|]. unfold takenBy, classify. by apply Z.eqb_neq in E as ->.
Qed.

(** Close leaves the connections in the channels open: nothing takes or closes one that
    was classified for the RPC side when its consumer has returned. *)
Definition stranded (k : nat) (m : mux) : Prop :=
  muRiverDone m = true ∧ k ∈ muRiver m ∧ ∃ b, muConns m !! k = Some (Queued b).
Lemma stranded_stays k m m' : mux_ok m → stranded k m → muxStep m m' → stranded k m'.
Proof.
  intros Hok (Hd & Hin & b & Hk) Hst.
  assert (Hother : ∀ j x y, muConns m !! j = Some x → (∀ c, x ≠ Queued c) → <[j := y]> (muConns m) !! k = Some (Queued b)).
  { intros j x y Hj Hx. rewrite list_lookup_insert_ne; [done|]. intros ->. rewrite Hk in Hj. simplify_eq. by eapply Hx. }
  inversion Hst as [? Hl|? ? j Hc|? ? Hc|? Hc|? Hc]; subst; try (split_and!; [done..|by exists b]).
  - split_and!; [done..|]. exists b. cbn [muConns]. by apply lookup_app_l_Some.
  - inversion Hc as [? c Hj|? Hj|? c Hj Hcl Hl|? c Hj Hcl Hl|? c Hj Hcl]; subst; (split_and!; [done| |]); try done;
      try (exists b; cbn [set_conns set_river set_raft muConns]; by eapply Hother).
    cbn [set_river muRiver]. apply elem_of_app. by left.
  - inversion Hc as [? j rest c Hd' Hq Hj|? Hd' Hcl|? j rest c Hq Hj]; subst; [congruence|congruence|].
    split_and!; [done..|]. cbn [muConns]. destruct (decide (j = k)) as [->|Hne]; [|exists b; by rewrite list_lookup_insert_ne].
    exfalso. destruct (mo_river _ Hok) as [_ H1]. apply H1 in Hin as (x & Hx & Hp). rewrite Hk in Hx. simplify_eq.
    destruct (mo_raft _ Hok) as [_ H2]. destruct (proj1 (H2 k)) as (x & Hx & Hp2); [rewrite Hq; set_solver|]. rewrite Hk in Hx. simplify_eq.
    unfold queuedFor in Hp, Hp2. by destruct (classify _).
Qed.

Example close_strands_connection : ∃ m, rtc muxStep mux0 m ∧ stranded 0 m.
Proof.
  eexists. split.
  - eapply rtc_l; [by apply mu_accept|].
    eapply rtc_l; [eapply mu_classify; by apply (cl_read 0 _ riverMagic)|].
    eapply rtc_l; [eapply mu_classify; apply (cl_river 0 _ riverMagic); [done|done|cbn; unfold chanCap; lia]|].
    eapply rtc_l; [by apply mu_close|].
    eapply rtc_l; [by apply mu_consume, co_riverClosed|]. apply rtc_refl.
  - split_and!; [done|cbn; set_solver|by exists riverMagic].
Qed.
