(* ===== verification/Node.v ===== *)
(** * The cluster node: internal/cluster/node.go, raft.go, stats.go, identity.go

    The handlers of the node-to-node calls, joining, leaving, the initial range,
    linearizable reads and health checks.  The Raft library is a parameter, a
    [Consensus] of its answers: in particular the log records this member applies
    before a proposal or a barrier returns.  Times and call outcomes are inputs, and
    [None] stands for a panic of the process. *)

From S2P Require Import Prelude GoLib Fold Value Table Schema Database.
From S2P Require Import Storage Session Ranges Replica Members.
Open Scope Z_scope.

(** ** Errors *)

(** [*Error] with its retry flag. *)
Record rpcErr := mkRpcErr { reErr : nodeErr; reRetry : bool }.
Definition NewError (code : string) (msg : str) : rpcErr := mkRpcErr (NodeErr code msg None) false.
Definition codeOf (e : rpcErr) : string := match reErr e with NodeErr c _ _ => c end.

(** Errors of the Raft library. *)
Inductive raftErr := ErrNotLeader | ErrLeadershipLost | RaftErr (text : str).
Definition raftApplyError (e : raftErr) : rpcErr :=
  match e with
  | ErrNotLeader => mkRpcErr (NodeErr "no_leader" (lit "not the leader") None) true
  | ErrLeadershipLost => mkRpcErr (NodeErr "no_leader" (lit "leadership lost during commit") None) true
  | RaftErr text => NewError "unavailable" text
  end.

(** ** Counters (uint64) *)

Record Stats := mkStats {
  stRequests : Z; stReads : Z; stWrites : Z; stForwards : Z; stErrors : Z; stLatency : Z; stPings : Z; stFailures : Z;
}.
Definition stats0 : Stats := mkStats 0 0 0 0 0 0 0 0.
Definition incIf (b : bool) (n : Z) : Z := if b then succ64 n else n.
Definition Observe (s : Stats) (sql : str) (took : Z) (forwarded failed : bool) : Stats :=
  let read := IsReadOnly sql in
  mkStats (succ64 (stRequests s)) (incIf read (stReads s)) (incIf (negb read) (stWrites s)) (incIf forwarded (stForwards s))
          (incIf failed (stErrors s)) ((stLatency s + took) mod 2 ^ 64) (stPings s) (stFailures s).
Definition ObservePing (s : Stats) (failed : bool) : Stats :=
  mkStats (stRequests s) (stReads s) (stWrites s) (stForwards s) (stErrors s) (stLatency s) (succ64 (stPings s))
          (incIf failed (stFailures s)).

(** ** Consensus *)

Record Server := mkServer { svID : str; svAddr : str; svVoter : bool }.

(** Log records with their index. *)
Definition records : Type := list (Z * str).

Record Consensus := mkConsensus {
  csLeads : bool; csLeaderID : str; csLeaderAddr : str;
  csConfig : list Server + raftErr;
  csAddVoter : str → str → option raftErr;
  csRemoveServer : str → option raftErr;
  csTransfer : option raftErr;
  (* what this member applies before the barrier returns *)
  csBarrier : records * option raftErr;
  (* what it applies before the proposed record, and the record's index *)
  csApply : str → records * (Z + raftErr);
}.

(** ** State *)

Inductive Health := Healthy | Degraded | Shutdown.
Record Node := mkNode {
  nID : str; nCluster : str; nAddr : str; nRegion : str; nHealth : Health;
  nMembers : Membership; nState : ReplicatedState; nStats : Stats;
}.
Definition set_nCluster n x := mkNode (nID n) x (nAddr n) (nRegion n) (nHealth n) (nMembers n) (nState n) (nStats n).
Definition set_nMembers n x := mkNode (nID n) (nCluster n) (nAddr n) (nRegion n) (nHealth n) x (nState n) (nStats n).
Definition set_nState n x := mkNode (nID n) (nCluster n) (nAddr n) (nRegion n) (nHealth n) (nMembers n) x (nStats n).
Definition set_nStats n x := mkNode (nID n) (nCluster n) (nAddr n) (nRegion n) (nHealth n) (nMembers n) (nState n) x.
Definition markShutdown (n : Node) : bool * Node :=
  match nHealth n with
  | Shutdown => (false, n)
  | _ => (true, mkNode (nID n) (nCluster n) (nAddr n) (nRegion n) Shutdown (nMembers n) (nState n) (nStats n))
  end.
Definition observed (n : Node) (sql : str) (took : Z) (forwarded failed : bool) : Node :=
  set_nStats n (Observe (nStats n) sql took forwarded failed).

(** ** Payloads *)

Record joinPayload := mkJoin { jpMember : Member; jpCluster : str }.
Record metadataPayload := mkMetadata {
  mdCluster : str; mdMembers : list Member; mdRanges : list Range; mdLeaderAddr : str; mdLeaderID : str;
}.
Record lookupPayload := mkLookup { lpTable : str; lpKey : str }.
Record forwardPayload := mkForward { fpSQL : str; fpSQLs : list str; fpAtomic : bool; fpRange : Z; fpConsistent : bool }.
Record PingReply := mkPing {
  prNode : str; prCluster : str; prRegion : str; prState : Health; prUptime : Z; prMembers : list Member;
}.

(** A call with its payload decoded; [None] when json.Unmarshal refused it. *)
Inductive rpcRequest :=
| RPing | RJoin (p : option joinPayload) | RLeave (id : option str) | RRemove (id : option str) | RMetadata
| RLookup (p : option lookupPayload) | RForward (p : option forwardPayload) | RRangeOp (op : option RangeOp) | RMoveLeader.
Inductive rpcReply :=
| PPing (r : PingReply) | PStatus (s : string) | PMetadata (m : metadataPayload) | PLookup (r : Route)
| PResult (r : Result) | PRangeOp (affected : Z).

Section Node.
Context `{GoStd} (order : list Z → list Z) (visit : list str → list str) (env : Z → nat → Env).
Context (walPath : bool) (opened : option err) (io : Z → ioOutcome).
Context (encode : Entry → str + err) (decode : str → Entry + err).

(** ** Proposals and barriers: raft.go *)

Definition applyRecord (idx : Z) (b : str) (st : ReplicatedState) : option (EntryResult * ReplicatedState) :=
  fsmApply order (env idx) walPath opened (io idx) decode idx b st.
Fixpoint applyRecords (rs : records) (st : ReplicatedState) : option ReplicatedState :=
  match rs with
  | [] => Some st
  | (idx, b) :: rs' => match applyRecord idx b st with Some (_, st') => applyRecords rs' st' | None => None end
  end.

Definition raftApply (cs : Consensus) (e : Entry) (st : ReplicatedState) : option ((Z + rpcErr) * ReplicatedState) :=
  match encode e with
  | inr er => Some (inr (mkRpcErr (NodeErr "transport" (lit "encode entry: ") (Some er)) false), st)
  | inl b =>
      match applyRecords (csApply cs b).1 st with
      | None => None
      | Some st1 =>
          match (csApply cs b).2 with
          | inr er => Some (inr (raftApplyError er), st1)
          | inl idx =>
              match applyRecord idx b st1 with
              | None => None
              | Some (EntryFailed text cause, st2) => Some (inr (mkRpcErr (NodeErr "transport" text cause) false), st2)
              | Some (EntryOK n, st2) => Some (inl n, st2)
              end
          end
      end
  end.

Definition barrier (cs : Consensus) (st : ReplicatedState) : option (option rpcErr * ReplicatedState) :=
  st1 ← applyRecords (csBarrier cs).1 st; Some (raftApplyError <$> (csBarrier cs).2, st1).

(** ** The handlers: [registerHandlers] *)

Section Handlers.
Context (now up took : Z) (cs : Consensus).

Definition badPayload (what : string) : rpcErr := NewError "invalid_argument" (lit what).

Definition handlePing (n : Node) : rpcReply :=
  PPing (mkPing (nID n) (nCluster n) (nRegion n) (nHealth n) up (Members.List visit (nMembers n))).

Definition joinRedirect : rpcErr :=
  mkRpcErr (NodeErr "no_leader" (if bool_decide (csLeaderAddr cs = []) then lit "no leader to admit join"
                                 else lit "join via leader " ++ csLeaderAddr cs) None) true.
Definition handleJoin (p : option joinPayload) (n : Node) : (rpcReply + rpcErr) * Node :=
  match p with
  | None => (inr (badPayload "bad join payload"), n)
  | Some p =>
      let m := jpMember p in
      if negb (bool_decide (jpCluster p = [])) && negb (bool_decide (jpCluster p = nCluster n))
      then (inr (NewError "cluster_mismatch" (lit "joining node belongs to a different cluster")), n)
      else if bool_decide (mbID m = []) || bool_decide (mbAddr m = [])
      then (inr (NewError "invalid_argument" (lit "join requires id and addr")), n)
      else if negb (csLeads cs) then (inr joinRedirect, n)
      else match csAddVoter cs (mbID m) (mbAddr m) with
      | Some er => (inr (raftApplyError er), n)
      | None =>
          let m' := mkMember (mbID m) (mbAddr m) Alive now (mbVersion m) (mbRegion m) in
          (inl (PStatus "joined"), set_nMembers n (UpsertMember now (nMembers n) m'))
      end
  end.

Definition handleLeave (id : option str) (n : Node) : (rpcReply + rpcErr) * Node :=
  match id with
  | None => (inr (badPayload "bad leave payload"), n)
  | Some id => (inl (PStatus "removed"), set_nMembers n (Remove (nMembers n) id))
  end.

Definition handleRemove (id : option str) (n : Node) : (rpcReply + rpcErr) * Node :=
  match id with
  | None => (inr (badPayload "bad remove payload"), n)
  | Some id =>
      if negb (csLeads cs) then (inr (NewError "no_leader" (lit "only the leader removes voters")), n)
      else match csRemoveServer cs id with
      | Some er => (inr (raftApplyError er), n)
      | None => (inl (PStatus "removed"), set_nMembers n (Remove (nMembers n) id))
      end
  end.

Definition metadataOf (n : Node) : metadataPayload :=
  mkMetadata (nCluster n) (Members.List visit (nMembers n)) (All order (psRanges (nState n))) (csLeaderAddr cs) (csLeaderID cs).

Definition handleLookup (p : option lookupPayload) (n : Node) : rpcReply + rpcErr :=
  match p with
  | None => inr (badPayload "bad lookup payload")
  | Some p =>
      match RouteKey order (AddrOf (nMembers n)) (nID n) (psRanges (nState n)) (lpTable p) (lpKey p) with
      | inl r => inl (PLookup r)
      | inr er => inr (NewError "range_not_found" er)
      end
  end.

(** A read on the local engine. *)
Definition localRead (sql : str) (n : Node) : option ((Result + rpcErr) * Node) :=
  let st := nState n in
  match ExecWithOptions (env (psIndex st) 0) (psDB st) sql 0 with
  | (Ok r, d) => Some (inl r, observed (set_nState n (set_psDB st d)) sql took false false)
  | (Err er, d) => Some (inr (mkRpcErr (NodeErr "transport" [] (Some er)) false),
                         observed (set_nState n (set_psDB st d)) sql took false true)
  | (Panic, _) => None
  end.

Definition asReply {A} (f : A → rpcReply) (x : option ((A + rpcErr) * Node)) : option ((rpcReply + rpcErr) * Node) :=
  '(r, n) ← x; Some (match r with inl a => inl (f a) | inr er => inr er end, n).

Definition forwardSQLs (p : forwardPayload) : list str :=
  match fpSQLs p with [] => if bool_decide (fpSQL p = []) then [] else [fpSQL p] | l => l end.
Definition forwardRedirect : rpcErr :=
  mkRpcErr (NodeErr "no_leader" (lit "forward to leader " ++ csLeaderAddr cs) None) true.

Definition handleForward (p : option forwardPayload) (n : Node) : option ((rpcReply + rpcErr) * Node) :=
  match p with
  | None => Some (inr (badPayload "bad forward payload"), n)
  | Some p =>
      match forwardSQLs p with
      | [] => Some (inr (NewError "invalid_argument" (lit "forward requires sql")), n)
      | (sql0 :: rest) as sqls =>
          if fpConsistent p && bool_decide (rest = []) && IsReadOnly sql0 then
            if negb (csLeads cs) then Some (inr (NewError "no_leader" (lit "consistent read requires leader")), n)
            else '(er, st1) ← barrier cs (nState n);
                 match er with
                 | Some er => Some (inr er, set_nState n st1)
                 | None => asReply PResult (localRead sql0 (set_nState n st1))
                 end
          else match List.find IsReadOnly sqls with
          | Some sql => asReply PResult (localRead sql n)
          | None =>
              if negb (csLeads cs) then Some (inr forwardRedirect, n)
              else match ByID (psRanges (nState n)) (fpRange p), bool_decide (fpRange p = 0) with
              | inr er, false => Some (inr (NewError "range_not_found" er), n)
              | got, _ =>
                  let gen := match got with inl r => rgGen r | inr _ => 0 end in
                  '(r, st1) ← raftApply cs (mkEntry EntryExec sqls (fpAtomic p) (fpRange p) gen None) (nState n);
                  Some (match r with inl k => inl (PResult (resultFor k sqls)) | inr er => inr er end, set_nState n st1)
              end
          end
      end
  end.

Definition handleRangeOp (op : option RangeOp) (n : Node) : option ((rpcReply + rpcErr) * Node) :=
  match op with
  | None => Some (inr (badPayload "bad range op"), n)
  | Some op =>
      if negb (csLeads cs) then Some (inr (NewError "no_leader" (lit "only the leader applies range ops")), n)
      else '(r, st1) ← raftApply cs (mkEntry EntryRange [] false 0 0 (Some op)) (nState n);
           Some (match r with inl k => inl (PRangeOp k) | inr er => inr er end, set_nState n st1)
  end.

Definition handleMoveLeader : rpcReply + rpcErr :=
  if negb (csLeads cs) then inr (NewError "no_leader" (lit "only the leader transfers leadership"))
  else match csTransfer cs with
  | Some er => inr (raftApplyError er)
  | None => inl (PStatus "transferring")
  end.

Definition handleRpc (q : rpcRequest) (n : Node) : option ((rpcReply + rpcErr) * Node) :=
  match q with
  | RPing => Some (inl (handlePing n), n)
  | RJoin p => Some (handleJoin p n)
  | RLeave id => Some (handleLeave id n)
  | RRemove id => Some (handleRemove id n)
  | RMetadata => Some (inl (PMetadata (metadataOf n)), n)
  | RLookup p => Some (handleLookup p n, n)
  | RForward p => handleForward p n
  | RRangeOp op => handleRangeOp op n
  | RMoveLeader => Some (handleMoveLeader, n)
  end.
End Handlers.

(** ** Linearizable reads: [ExecConsistent] *)

(** [call]: the forwarded read, when another leader is known. *)
Definition ExecConsistent (took : Z) (cs : Consensus) (rf : Raft) (call : str → forwardPayload → Result + rpcErr)
    (sql : str) (n : Node) : option ((Result + rpcErr) * Node) :=
  if negb (IsReadOnly sql) then
    r ← nodeExec order (env (psIndex (nState n))) rf (nState n) sql;
    let r' := match r with inl x => inl x | inr er => inr (mkRpcErr er false) end in
    Some (r', observed n sql took false (match r with inl _ => false | inr _ => true end))
  else
    let remote :=
      if negb (csLeads cs) && negb (bool_decide (csLeaderAddr cs = [])) && negb (bool_decide (csLeaderAddr cs = nAddr n))
      then match call (csLeaderAddr cs) (mkForward sql [] false 0 true) with inl r => Some r | inr _ => None end
      else None in
    match remote with
    | Some r => Some (inl r, observed n sql took true false)
    | None =>
        '(er, st1) ← barrier cs (nState n);
        match er with
        | Some er => Some (inr er, observed (set_nState n st1) sql took false true)
        | None => localRead took sql (set_nState n st1)
        end
    end.

(** ** Range operations: [proposeRange] *)

Definition rangeOpVisible (s : RangeStore) (op : RangeOp) : bool :=
  forallb (λ p, rgID (TableRange order s p.1) =? p.2) (map_to_list (opAssign op)) &&
  forallb (λ id, match ByID s id with inl _ => false | inr _ => true end) (opRemove op).

(** The polls of a follower until the operation shows, each after the records that
    arrived; the deadline passes with the list. *)
Fixpoint awaitVisible (polls : list records) (op : RangeOp) (st : ReplicatedState) : option ReplicatedState :=
  match polls with
  | [] => Some st
  | rs :: polls' =>
      st1 ← applyRecords rs st;
      if rangeOpVisible (psRanges st1) op then Some st1 else awaitVisible polls' op st1
  end.

(** [call]: the leader's answer, its affected rows or a failed entry's text. *)
Definition proposeRange (cs : Consensus) (call : str → RangeOp → (Z + str) + rpcErr) (polls : list records) (op : RangeOp)
    (st : ReplicatedState) : option ((Z + rpcErr) * ReplicatedState) :=
  if negb (csLeads cs) then
    if bool_decide (csLeaderAddr cs = []) then Some (inr (NewError "no_leader" (lit "no leader for range operation")), st)
    else match call (csLeaderAddr cs) op with
    | inr er => Some (inr er, st)
    | inl (inr text) => Some (inr (NewError "transport" text), st)
    | inl (inl k) => st1 ← awaitVisible polls op st; Some (inl k, st1)
    end
  else raftApply cs (mkEntry EntryRange [] false 0 0 (Some op)) st.

(** ** The initial range: [ensureGenesis] *)

(** One round of the loop: what was applied since the last, the consensus at that
    moment, and whether the caller's context ended. *)
Record genesisRound := mkRound { grSeen : records; grConsensus : Consensus; grDone : bool }.
Definition hasRanges (st : ReplicatedState) : bool := negb (bool_decide (All order (psRanges st) = [])).

Fixpoint genesisLoop (nodeID : str) (rounds : list genesisRound) (st : ReplicatedState) : option (option rpcErr * ReplicatedState) :=
  match rounds with
  | [] => Some (Some (NewError "no_leader" (lit "genesis range not established")), st)
  | g :: rounds' =>
      st ← applyRecords (grSeen g) st;
      if hasRanges st then Some (None, st)
      else if csLeads (grConsensus g) then
        '(er, st1) ← barrier (grConsensus g) st;
        match er with
        | Some er => Some (Some er, st1)
        | None =>
            if hasRanges st1 then Some (None, st1)
            else '(r, st2) ← raftApply (grConsensus g) (mkEntry EntryRange [] false 0 0 (Some (genesisOp nodeID))) st1;
                 match r with
                 | inr er => Some (Some er, st2)
                 | inl _ => genesisLoop nodeID rounds' st2
                 end
        end
      else if grDone g then Some (Some (NewError "no_leader" (lit "no leader to commit genesis range")), st)
      else genesisLoop nodeID rounds' st
  end.
Definition ensureGenesis (nodeID : str) (rounds : list genesisRound) (st : ReplicatedState) : option (option rpcErr * ReplicatedState) :=
  if hasRanges st then Some (None, st) else genesisLoop nodeID rounds st.

(** ** Joining: [join] *)

(** What the calls of one pass over the seeds answer. *)
Record seedCalls := mkCalls { scMetadata : str → metadataPayload + rpcErr; scJoin : str → joinPayload → option rpcErr }.
Inductive joined := JoinOK | JoinRefused (e : rpcErr) | JoinAgain (last : option rpcErr).

Definition selfMember (now : Z) (n : Node) : Member := mkMember (nID n) (nAddr n) Alive now 1 (nRegion n).
(** What a seed's answer leaves in the node before it asks to join. *)
Definition adopt (now : Z) (n : Node) (md : metadataPayload) : Node :=
  let n1 := set_nCluster n (mdCluster md) in
  let n2 := set_nState n1 (set_psRanges (nState n1) (ReplaceBulk (psRanges (nState n1)) (mdRanges md))) in
  set_nMembers n2 (MergeBulk now (nMembers n2) (mdMembers md)).
Definition joinTarget (seed : str) (md : metadataPayload) : str := if bool_decide (mdLeaderAddr md = []) then seed else mdLeaderAddr md.

Fixpoint joinSeeds (now : Z) (calls : seedCalls) (seeds : list str) (last : option rpcErr) (n : Node) : joined * Node :=
  match seeds with
  | [] => (JoinAgain last, n)
  | seed :: seeds' =>
      match scMetadata calls seed with
      | inr er => joinSeeds now calls seeds' (Some er) n
      | inl md =>
          if bool_decide (mdCluster md = []) then
            joinSeeds now calls seeds' (Some (NewError "cluster_mismatch" (lit "seed returned no cluster id"))) n
          else
            let n' := adopt now n md in
            match scJoin calls (joinTarget seed md) (mkJoin (selfMember now n') (mdCluster md)) with
            | None => (JoinOK, set_nMembers n' (UpsertMember now (nMembers n') (selfMember now n')))
            | Some er => if bool_decide (codeOf er = "cluster_mismatch"%string) then (JoinRefused er, n')
                         else joinSeeds now calls seeds' (Some er) n'
            end
      end
  end.

(** Passes until one succeeds or is refused: each with its time and calls, and the
    context's error when it ended during the pause after it; the deadline passes with
    the list. *)
Fixpoint joinLoop (passes : list (Z * seedCalls * option rpcErr)) (seeds : list str) (last : option rpcErr) (n : Node)
    : option rpcErr * Node :=
  match passes with
  | [] => (Some (default (NewError "unavailable" (lit "no join addresses")) last), n)
  | (now, calls, ended) :: passes' =>
      match joinSeeds now calls seeds last n with
      | (JoinOK, n') => (None, n')
      | (JoinRefused er, n') => (Some er, n')
      | (JoinAgain last', n') =>
          if bool_decide (seeds = []) then (Some (default (NewError "unavailable" (lit "no join addresses")) last'), n')
          else match ended with
          | Some er => (Some (default er last'), n')
          | None => joinLoop passes' seeds last' n'
          end
      end
  end.

(** ** Leaving *)

(** What the node asks for on its way out. *)
Inductive leaveCmd := AskLeave (addr id : str) | Transfer | RemoveHere (id : str) | AskRemove (addr id : str).

Definition announceLeave (n : Node) : list leaveCmd :=
  map (λ m, AskLeave (mbAddr m) (nID n)) (filter (λ m, mbID m ≠ nID n) (Members.List visit (nMembers n))).
Definition voters (servers : list Server) : list str := map svID (filter (λ s, svVoter s = true) servers).
Definition forwardRemove (n : Node) (addr id : str) : leaveCmd :=
  if bool_decide (addr = nAddr n) then RemoveHere id else AskRemove addr id.
Definition removeSelf (cs : Consensus) (n : Node) : list leaveCmd :=
  match csConfig cs with
  | inr _ => []
  | inl servers =>
      if (length (voters servers) <=? 1)%nat then []
      else if bool_decide (csLeaderAddr cs = []) then []
      else (if csLeads cs then [Transfer] else []) ++ [forwardRemove n (csLeaderAddr cs) (nID n)]
  end.
Definition leave (cs : Consensus) (n : Node) : list leaveCmd * Node :=
  match markShutdown n with
  | (false, n') => ([], n')
  | (true, n') => (announceLeave n' ++ removeSelf cs n', n')
  end.

(** ** Leadership and placement *)

Definition MoveLeader (cs : Consensus) (call : str → option rpcErr) : option rpcErr :=
  if csLeads cs then raftApplyError <$> csTransfer cs
  else if bool_decide (csLeaderAddr cs = []) then Some (NewError "no_leader" (lit "no leader to move from"))
  else call (csLeaderAddr cs).
Definition PreferRegionLeader (cs : Consensus) (call : str → option rpcErr) (region : str) (n : Node) : option rpcErr :=
  if bool_decide (csLeaderID cs = []) then Some (NewError "no_leader" (lit "no leader yet"))
  else match Get (nMembers n) (csLeaderID cs) with
  | Some mb => if bool_decide (mbRegion mb = region) then None else MoveLeader cs call
  | None => MoveLeader cs call
  end.

Record PlacedServer := mkPlaced { plID : str; plAddr : str; plVoter : bool; plRegion : str }.
Record Placement := mkPlacement { pcRegion : str; pcServers : list PlacedServer; pcByRegion : gmap str Z }.
Definition placed (m : Membership) (s : Server) : PlacedServer :=
  mkPlaced (svID s) (svAddr s) (svVoter s) (match Get m (svID s) with Some mb => mbRegion mb | None => [] end).
Definition placement (cs : Consensus) (n : Node) : Placement :=
  match csConfig cs with
  | inr _ => mkPlacement (nRegion n) [] ∅
  | inl servers =>
      let l := map (placed (nMembers n)) servers in
      mkPlacement (nRegion n) l (foldl (λ m p, <[plRegion p := default 0 (m !! plRegion p) + 1]> m) ∅ l)
  end.

Inductive role := RoleLeader | RoleFollower.
Record ReplicaState := mkReplica { rpRange : Z; rpRole : role; rpLeader : str; rpGen : Z; rpApplied : Z; rpCommitted : Z }.
Definition replicaState (cs : Consensus) (last : Z) (rangeID : Z) (n : Node) : ReplicaState + str :=
  match ByID (psRanges (nState n)) rangeID with
  | inr er => inr er
  | inl r => inl (mkReplica rangeID (if bool_decide (csLeaderID cs = nID n) then RoleLeader else RoleFollower)
                            (rgLeader r) (rgGen r) (psIndex (nState n)) last)
  end.

(** ** Health checks *)

(** [Ping] *)
Definition ping (now : Z) (reply : PingReply + rpcErr) (n : Node) : (PingReply + rpcErr) * Node :=
  match reply with
  | inr er => (inr er, set_nStats n (ObservePing (nStats n) true))
  | inl out =>
      let n1 := set_nStats n (ObservePing (nStats n) false) in
      (inl out, set_nMembers n1 (MarkAlive now (MergeBulk now (nMembers n1) (prMembers out)) (prNode out)))
  end.

(** One round of [heartbeatLoop]: every other listed member is called in turn. *)
Definition beat (now : Z) (n : Node) (peer : Member) (reply : PingReply + rpcErr) : Node :=
  let failed := match reply with inl _ => false | inr _ => true end in
  let answer := match reply with inl r => Some (prNode r, prCluster r, prRegion r, prMembers r) | inr _ => None end in
  let n1 := set_nStats n (ObservePing (nStats n) failed) in
  set_nMembers n1 (heartbeat now (nCluster n1) (nMembers n1) peer answer).
Definition heartbeatRound (now after : Z) (call : Member → PingReply + rpcErr) (n : Node) : Node :=
  let n1 := foldl (λ n m, if bool_decide (mbID m = nID n) then n else beat now n m (call m)) n
                  (Members.List visit (nMembers n)) in
  set_nMembers n1 (SweepSuspects (nMembers n1) after now).
End Node.

(** ** Identity: identity.go *)

Record Identity := mkIdentity { idNode : str; idCluster : str; idAdvertise : str; idVersion : Z }.
Definition identityVersion : Z := 1.

Section Identity.
Context (unmarshal : str → Identity + err) (marshal : Identity → str).

(** [file]: the bytes, [None] when there is no file. *)
Definition LoadIdentity (file : option str + err) : option Identity + rpcErr :=
  match file with
  | inl None => inl None
  | inr er => inr (mkRpcErr (NodeErr "persist" (lit "read cluster identity: ") (Some er)) false)
  | inl (Some b) =>
      match unmarshal b with
      | inr er => inr (mkRpcErr (NodeErr "corrupt_metadata" (lit "invalid cluster.json: ") (Some er)) false)
      | inl id =>
          if negb (idVersion id =? identityVersion) || bool_decide (idNode id = []) || bool_decide (idCluster id = [])
          then inr (NewError "corrupt_metadata" (lit "cluster.json missing node_id/cluster_id/version"))
          else inl (Some id)
      end
  end.

(** The error and the file after it, given how creating the directory, writing the
    temporary file and renaming it went. *)
Definition StoreIdentity (mkdir write rename : option err) (id : Identity) (file : option str) : option rpcErr * option str :=
  let fail text er := (Some (mkRpcErr (NodeErr "persist" (lit text) (Some er)) false), file) in
  match mkdir, write, rename with
  | Some er, _, _ => fail "create data dir: "%string er
  | None, Some er, _ => fail "write cluster identity: "%string er
  | None, None, Some er => fail "persist cluster identity: "%string er
  | None, None, None => (None, Some (marshal (mkIdentity (idNode id) (idCluster id) (idAdvertise id) identityVersion)))
  end.

(** The identity a node starts with: the stored one, or fresh random identifiers. *)
Definition startIdentity (fresh : str * str) (advertise : str) (stored : option Identity) : Identity :=
  let id := match stored with Some id => id | None => mkIdentity fresh.1 fresh.2 advertise 0 end in
  if bool_decide (idAdvertise id = []) then mkIdentity (idNode id) (idCluster id) advertise (idVersion id) else id.
End Identity.
