(* ===== verification/NodeProofs.v ===== *)
(** * The cluster node: admission, followers, the initial range *)

From S2P Require Import Prelude GoLib Fold Value Table Schema Database DatabaseProofs.
From S2P Require Import Storage Session Ranges Replica Members Node.
Open Scope Z_scope.

Section Proofs.
Context `{GoStd} (order : list Z → list Z) (visit : list str → list str) (env : Z → nat → Env).
Context (walPath : bool) (opened : option err) (io : Z → ioOutcome).
Context (encode : Entry → str + err) (decode : str → Entry + err).

(** ** Joining *)

(** The calls of a joining node, answered by the nodes at the addresses it reaches. *)
Definition worldCalls (now : Z) (unreachable : rpcErr) (world : str → option (Consensus * Node)) : seedCalls :=
  mkCalls (λ a, match world a with Some (cs, n) => inl (metadataOf order visit cs n) | None => inr unreachable end)
          (λ a p, match world a with
                  | Some (cs, n) => match (handleJoin now cs (Some p) n).1 with inl _ => None | inr er => Some er end
                  | None => Some unreachable
                  end).

Lemma handleJoin_accepts now cs p n r n' :
  handleJoin now cs (Some p) n = (inl r, n') →
  (jpCluster p = [] ∨ jpCluster p = nCluster n) ∧ mbID (jpMember p) ≠ [] ∧ mbAddr (jpMember p) ≠ [] ∧ csLeads cs = true ∧
  csAddVoter cs (mbID (jpMember p)) (mbAddr (jpMember p)) = None ∧
  n' = set_nMembers n (UpsertMember now (nMembers n)
         (mkMember (mbID (jpMember p)) (mbAddr (jpMember p)) Alive now (mbVersion (jpMember p)) (mbRegion (jpMember p)))).
Proof.
  unfold handleJoin. intros E.
  destruct (negb (bool_decide (jpCluster p = [])) && negb (bool_decide (jpCluster p = nCluster n))) eqn:Ec; [done|].
  destruct (bool_decide (mbID (jpMember p) = []) || bool_decide (mbAddr (jpMember p) = [])) eqn:Ei; [done|].
  destruct (csLeads cs) eqn:El; [|done]. cbn [negb] in E. destruct (csAddVoter _ _ _) eqn:Ev; [done|]. simplify_eq.
  apply orb_false_iff in Ei as [?%bool_decide_eq_false ?%bool_decide_eq_false]. split_and!; try done.
  apply andb_false_iff in Ec as [Ec|Ec]; apply negb_false_iff, bool_decide_eq_true in Ec; eauto.
Qed.

(** A member no newer than the report is listed as reported. *)
Lemma UpsertMember_lists now m r :
  mbID r ≠ [] → mbAddr r ≠ [] → mbState r = Alive → (∀ b, msMembers m !! mbID r = Some b → mbVersion b ≤ mbVersion r) →
  AddrOf (UpsertMember now m r) (mbID r) = Some (mbAddr r).
Proof.
  intros Hi Ha Hs Hv. unfold UpsertMember, AddrOf. rewrite !bool_decide_false by done. cbn [orb].
  destruct (msMembers m !! mbID r) as [b|] eqn:E.
  - rewrite Hs, (bool_decide_true (Alive = Alive)) by done. rewrite andb_false_r. cbv zeta.
    destruct (Z.leb_spec (mbVersion b) (mbVersion r)); [|specialize (Hv b eq_refl); lia].
    cbn [bumped msMembers]. by rewrite lookup_insert_eq.
  - cbn [bumped msMembers]. by rewrite lookup_insert_eq, Hs.
Qed.

Lemma adopt_self now n md : nID (adopt now n md) = nID n ∧ nAddr (adopt now n md) = nAddr n ∧ nRegion (adopt now n md) = nRegion n.
Proof. done. Qed.

(** The node that let [self] at [addr] in: the leader of cluster [c], reached at [a]. *)
Definition admits (world : str → option (Consensus * Node)) (now : Z) (a self addr region c : str) : Prop :=
  ∃ cs n, world a = Some (cs, n) ∧ csLeads cs = true ∧ nCluster n = c ∧ csAddVoter cs self addr = None ∧
    let n' := (handleJoin now cs (Some (mkJoin (mkMember self addr Alive now 1 region) c)) n).2 in
    (∀ b, msMembers (nMembers n) !! self = Some b → mbVersion b ≤ 1) → AddrOf (nMembers n') self = Some addr.

Lemma joinSeeds_admits now unreachable world seeds : ∀ last n n',
  joinSeeds now (worldCalls now unreachable world) seeds last n = (JoinOK, n') →
  nCluster n' ≠ [] ∧ ∃ a, admits world now a (nID n) (nAddr n) (nRegion n) (nCluster n').
Proof.
  induction seeds as [|seed seeds IH]; intros last n n'; cbn [joinSeeds]; [done|].
  destruct (scMetadata _ seed) as [md|er]; [|apply IH]. case_bool_decide as Hmd; [apply IH|]. cbv zeta.
  destruct (scJoin _ _ _) as [er|] eqn:Ej.
  { case_bool_decide; [done|]. intros E. by apply IH in E. }
  intros E. injection E as <-. split; [done|]. exists (joinTarget seed md).
  cbn [worldCalls scJoin] in Ej. destruct (world (joinTarget seed md)) as [[cs L]|] eqn:Ew; [|done].
  destruct (handleJoin _ _ _ _) as [[r|er] L'] eqn:Eh; [|done]. pose proof (handleJoin_accepts _ _ _ _ _ _ Eh) as (Hc & Hi & Ha & Hl & Hv & ->).
  exists cs, L. split_and!; try done.
  - destruct Hc as [Hc|Hc]; [done|]. by symmetry.
  - cbv zeta. intros Hver. change (handleJoin now cs _ L) with (handleJoin now cs (Some (mkJoin (selfMember now (adopt now n md)) (mdCluster md))) L).
    rewrite Eh. cbn [snd set_nMembers nMembers].
    apply (UpsertMember_lists now (nMembers L) (mkMember (nID n) (nAddr n) Alive now 1 (nRegion n))); done.
Qed.

Lemma joinSeeds_identity now calls seeds : ∀ last n r n',
  joinSeeds now calls seeds last n = (r, n') → nID n' = nID n ∧ nAddr n' = nAddr n ∧ nRegion n' = nRegion n.
Proof.
  induction seeds as [|seed seeds IH]; intros last n r n'; cbn [joinSeeds]; [by intros [= <- <-]|].
  destruct (scMetadata _ seed); [|apply IH]. case_bool_decide; [apply IH|]. cbv zeta.
  destruct (scJoin _ _ _); [|by intros [= <- <-]]. case_bool_decide; [by intros [= <- <-]|]. intros E. by apply IH in E.
Qed.

(** A node joins only what admits it.  Whatever passes over the seeds fail first,
    when joining succeeds the node has taken the identity of a cluster whose leader,
    reached in one of the passes, checked that identity, got the node accepted as a
    voter by consensus, and registered its address (unless it already knew a newer
    version of that member). *)
Theorem join_admitted unreachable passes seeds n n' :
  joinLoop (map (λ p, (p.1.1, worldCalls p.1.1 unreachable p.1.2, p.2)) passes) seeds None n = (None, n') →
  nID n' = nID n ∧ nCluster n' ≠ [] ∧
  ∃ now world ended a, (now, world, ended) ∈ passes ∧ admits world now a (nID n) (nAddr n) (nRegion n) (nCluster n').
Proof.
  generalize (@None rpcErr) at 1. revert n. induction passes as [|[[now world] ended] passes IH]; intros n last; cbn [map joinLoop fst snd]; [done|].
  destruct (joinSeeds _ _ _ _ _) as [r n1] eqn:E. pose proof (joinSeeds_identity _ _ _ _ _ _ _ E) as (Hi & Ha & Hr). destruct r as [|er|last'].
  - intros [= <-]. apply joinSeeds_admits in E as (Hc & a & Ht). split_and!; try done. exists now, world, ended, a. split; [left|done].
  - done.
  - case_bool_decide; [done|]. destruct ended as [er|]; [done|]. intros Hj. apply IH in Hj as (Hi2 & Hc & now2 & w2 & en2 & a & Hin & Hadm).
    rewrite Hi, Ha, Hr in Hadm. split_and!; [congruence|done|]. exists now2, w2, en2, a. split; [by right|done].
Qed.

(** ** Followers *)

Lemma localRead_state took sql n r n' :
  IsReadOnly sql = true → localRead env took sql n = Some (r, n') → nState n' = nState n ∧ nMembers n' = nMembers n.
Proof.
  intros Hr. unfold localRead. pose proof (readonly_unchanged (env (psIndex (nState n)) 0%nat) (psDB (nState n)) sql 0 Hr) as Hd.
  destruct (ExecWithOptions _ _ _ _) as [[]]; cbn [snd] in Hd; subst; intros [= <- <-]; cbn; by destruct (nState n).
Qed.

(** C25: Only the leader writes.  A member that does not lead answers every
    node-to-node call without changing its replicated state: no table, no range and
    no applied index moves, and its registry changes only when a peer announces that
    it leaves.  Calls that need the leader are refused with the code [no_leader]. *)
Theorem follower_never_writes now up took cs q n r n' :
  csLeads cs = false →
  handleRpc order visit env walPath opened io encode decode now up took cs q n = Some (r, n') →
  nState n' = nState n ∧ (nMembers n' = nMembers n ∨ ∃ id, q = RLeave (Some id) ∧ nMembers n' = Remove (nMembers n) id) ∧
  match q with
  | RRemove (Some _) | RRangeOp (Some _) | RMoveLeader => ∃ er, r = inr er ∧ codeOf er = "no_leader"%string
  | RForward (Some p) => List.find IsReadOnly (forwardSQLs p) = None → forwardSQLs p ≠ [] →
      ∃ er, r = inr er ∧ codeOf er = "no_leader"%string
  | _ => True
  end.
Proof.
  intros Hl. destruct q as [|p|id|id| |p|p|op|]; cbn [handleRpc].
  - intros [= <- <-]. eauto.
  - intros [= E]. destruct p as [p|]; [|injection E as <- <-; eauto]. unfold handleJoin in E. rewrite Hl in E. cbn [negb] in E.
    repeat (case_match; [injection E as <- <-; by eauto|]). injection E as <- <-; by eauto.
  - intros [= E]. destruct id as [id|]; injection E as <- <-; cbn; split_and!; eauto 6.
  - intros [= E]. destruct id as [id|]; unfold handleRemove in E; [rewrite Hl in E|]; injection E as <- <-; split_and!; eauto.
  - intros [= <- <-]. eauto.
  - intros [= <- <-]. eauto.
  - destruct p as [p|]; cbn [handleForward]; [|intros [= <- <-]; eauto].
    destruct (forwardSQLs p) as [|sql0 rest] eqn:Es; [intros [= <- <-]; split_and!; eauto; done|]. cbv zeta.
    destruct (fpConsistent p && bool_decide (rest = []) && IsReadOnly sql0) eqn:Eb.
    { rewrite Hl. intros [= <- <-]. split_and!; eauto. }
    destruct (List.find IsReadOnly (sql0 :: rest)) as [sql|] eqn:Ef.
    + intros E. apply bind_Some in E as ([r1 n1] & E & [= <- <-]). apply find_some in Ef as [_ Hr].
      destruct (localRead_state _ _ _ _ _ Hr E) as [-> ->]. split_and!; eauto. done.
    + rewrite Hl. intros [= <- <-]. split_and!; eauto.
  - destruct op as [op|]; cbn [handleRangeOp]; [rewrite Hl|]; intros [= <- <-]; split_and!; eauto.
  - intros [= <- <-]. unfold handleMoveLeader. rewrite Hl. split_and!; eauto.
Qed.

(** ** The initial range *)

Lemma genesisLoop_ranges nodeID rounds : ∀ st st',
  genesisLoop order env walPath opened io encode decode nodeID rounds st = Some (None, st') → hasRanges order st' = true.
Proof.
  induction rounds as [|g rounds IH]; intros st st'; cbn [genesisLoop]; [done|].
  destruct (applyRecords _ _ _ _ _ _ _ _) as [st1|]; [|done]. cbn [mbind option_bind].
  destruct (hasRanges order st1) eqn:Eh; [by intros [= <-]|]. destruct (csLeads _).
  - destruct (barrier _ _ _ _ _ _ _ _) as [[[er|] st2]|]; cbn [mbind option_bind]; [done| |done].
    destruct (hasRanges order st2) eqn:Eh2; [by intros [= <-]|].
    destruct (raftApply _ _ _ _ _ _ _ _ _ _) as [[[k|er] st3]|]; cbn [mbind option_bind]; [|done|done]. apply IH.
  - destruct (grDone g); [done|]. apply IH.
Qed.
Lemma ensureGenesis_ranges nodeID rounds st st' :
  ensureGenesis order env walPath opened io encode decode nodeID rounds st = Some (None, st') → hasRanges order st' = true.
Proof. unfold ensureGenesis. destruct (hasRanges order st) eqn:E; [by intros [= <-]|]. apply genesisLoop_ranges. Qed.
End Proofs.

(** ** Behaviours worth knowing *)

(** A leader that shuts down transfers leadership and then asks itself to be removed:
    the address was read before the transfer. *)
Example leader_removes_itself_locally n cs servers :
  csConfig cs = inl servers → (1 < length (voters servers))%nat → csLeads cs = true → csLeaderAddr cs = nAddr n → nAddr n ≠ [] →
  removeSelf cs n = [Transfer; RemoveHere (nID n)].
Proof.
  intros Hc Hv Hl Ha Hne. unfold removeSelf. rewrite Hc, Hl, Ha. destruct (Nat.leb_spec (length (voters servers)) 1); [lia|].
  rewrite bool_decide_false by done. unfold forwardRemove. by rewrite bool_decide_true.
Qed.
