(* ===== verification/NodeStart.v ===== *)
(** * Starting and stopping a node: internal/cluster/node.go, raft.go; internal/server/cluster.go

    The configuration of a node and of the Raft library, [Start] with everything that can
    fail on the way and what each failure leaves in the data directory, [stop], the
    observation of the leader, and [Status].  What the network, the file system and
    the Raft library answer is an input.
    At the end: what a start keeps, and what an interrupted one breaks. *)

From S2P Require Import Prelude GoLib Fold Value Table Schema Database Storage Session Config Ranges Members Replica Node NodeProofs.
Open Scope Z_scope.

(** ** Configuration: [fillDefaults], [defaultRaftTimeouts], [openRaft] *)

(** Durations are nanoseconds. *)
Definition millisecond : Z := 10 ^ 6.
Record RaftTimeouts := mkTimeouts { rtHeartbeat : Z; rtElection : Z; rtCommit : Z; rtSnapshotInterval : Z }.
Definition defaultRaftTimeouts : RaftTimeouts := mkTimeouts second (5 * second) (50 * millisecond) 0.

Record NodeConfig := mkNodeConfig {
  ncListen : str; ncAdvertise : str; ncJoin : list str; ncRegion : str;
  ncHeartbeat : Z; ncPing : Z; ncSuspect : Z; ncRaft : RaftTimeouts; ncThreshold : Z;
}.
Definition orPositive (x dflt : Z) : Z := if x <=? 0 then dflt else x.
Definition fillDefaults (c : NodeConfig) : NodeConfig :=
  mkNodeConfig (ncListen c) (orText (ncAdvertise c) (ncListen c)) (ncJoin c) (ncRegion c)
    (orPositive (ncHeartbeat c) (500 * millisecond)) (orPositive (ncPing c) (2 * second)) (orPositive (ncSuspect c) (5 * second))
    (if rtHeartbeat (ncRaft c) <=? 0 then defaultRaftTimeouts else ncRaft c)
    (if ncThreshold c =? 0 then 1024 else ncThreshold c).

(** [StartClusterNode]'s configuration; [runServer] and [runServe] advertise the listen
    address when none is given. *)
Definition clusterConfig (listen advertise : str) (join : list str) (region : str) : NodeConfig :=
  mkNodeConfig listen (orText advertise listen) join region (500 * millisecond) (2 * second) (5 * second) (mkTimeouts 0 0 0 0) 0.

(** The fields of [raft.Config] that [openRaft] sets. *)
Record RaftConfig := mkRaftConfig {
  rcLocalID : str; rcHeartbeat : Z; rcElection : Z; rcCommit : Z; rcLease : Z; rcThreshold : Z; rcInterval : Z;
  rcRestoreCommitted : bool; rcDebug : bool;
}.
Definition raftConfig (debug : bool) (localID : str) (timeouts : RaftTimeouts) (threshold : Z) : RaftConfig :=
  let t := if rtHeartbeat timeouts <=? 0 then defaultRaftTimeouts else timeouts in
  mkRaftConfig localID (rtHeartbeat t) (rtElection t) (rtCommit t) (orPositive (Z.quot (rtHeartbeat t) 2) millisecond)
    threshold (orPositive (rtSnapshotInterval t) (120 * second)) false debug.

(** [deadline]: the time left until it, if the context has one. *)
Definition barrierTimeout (deadline : option Z) (fallback : Z) : Z :=
  match deadline with
  | Some d => if 0 <? d then d else millisecond
  | None => fallback
  end.

(** ** The data directory *)

(** The identity file, and whether the Raft store exists (with more than zero bytes). *)
Record NodeDir := mkNodeDir { ndIdentity : option str; ndRaft : bool }.

(** Creating the directory, opening the store (which creates its file), opening the
    snapshot store, starting Raft. *)
Record openIO := mkOpen { oiMkdir : option err; oiBolt : option err; oiSnaps : option err; oiRaft : option err }.
Definition persistErrorOf (text : string) (er : err) : rpcErr := mkRpcErr (NodeErr "persist" (lit text) (Some er)) false.
Definition openRaft (x : openIO) (store : bool) : option rpcErr * bool :=
  match oiMkdir x, oiBolt x, oiSnaps x, oiRaft x with
  | Some er, _, _, _ => (Some (persistErrorOf "create raft dir: " er), store)
  | None, Some er, _, _ => (Some (persistErrorOf "open raft store: " er), store)
  | None, None, Some er, _ => (Some (persistErrorOf "open snapshot store: " er), true)
  | None, None, None, Some er => (Some (mkRpcErr (NodeErr "transport" (lit "start raft: ") (Some er)) false), true)
  | None, None, None, None => (None, true)
  end.

(** ** [Start] *)

(** What [Start] asked of the Raft library and of its seeds, and whether it stopped the
    node again. *)
Inductive startAct := Bootstrapped (id addr : str) | JoinAsked | Stopped.

Record startIO := mkStartIO {
  siNow : Z; siFresh : str * str; siRead : option err; siListen : option err; siOpen : openIO;
  siBootstrap : option err; siPasses : list (Z * seedCalls * option rpcErr); siRounds : list genesisRound;
  siLeader : str; siMkdir : option err; siWrite : option err; siRename : option err;
  siPolls : list str;        (* the leader's name at each poll of [waitLeader] *)
  siFinal : Consensus;       (* at the end of Start *)
}.

Section Start.
Context `{GoStd} (order : list Z → list Z) (visit : list str → list str) (env : Z → nat → Env).
Context (walPath : bool) (opened : option err) (io : Z → ioOutcome).
Context (encode : Entry → str + err) (decode : str → Entry + err).
Context (unmarshalID : str → Identity + err) (marshalID : Identity → str).

Definition waitLeader (polls : list str) : option rpcErr :=
  if existsb (λ id, negb (bool_decide (id = []))) polls then None
  else Some (NewError "no_leader" (lit "no leader elected yet")).

Definition transportError (text : string) (er : err) : rpcErr := mkRpcErr (NodeErr "transport" (lit text) (Some er)) false.

(** Error, what was asked, the node and the directory. *)
Definition startResult : Type := option rpcErr * list startAct * Node * NodeDir.

(** From the stored identity on: the last checks. *)
Definition finishStart (cfg : NodeConfig) (x : startIO) (acts : list startAct) (voter : bool) (n : Node) (dir : NodeDir)
    : option startResult :=
  match (if voter && bool_decide (ncJoin cfg = []) then waitLeader (siPolls x) else None) with
  | Some er => Some (Some er, acts ++ [Stopped], n, dir)
  | None =>
      if csLeads (siFinal x) then
        '(er, st) ← barrier order env walPath opened io decode (siFinal x) (nState n);
        match er with
        | Some er => Some (Some er, acts ++ [Stopped], set_nState n st, dir)
        | None => Some (None, acts, set_nState n st, dir)
        end
      else Some (None, acts, n, dir)
  end.

(** The initial range, the leader's ranges, and the identity file. *)
Definition settleStart (cfg : NodeConfig) (x : startIO) (id : Identity) (acts : list startAct) (voter : bool) (n : Node) (dir : NodeDir)
    : option startResult :=
  '(er, st) ← ensureGenesis order env walPath opened io encode decode (nID n) (siRounds x) (nState n);
  match er with
  | Some er => Some (Some er, acts ++ [Stopped], set_nState n st, dir)
  | None =>
      let n1 := set_nState n (set_psRanges st (syncLeaderRanges order (psRanges st) (siLeader x))) in
      let '(er, file) := StoreIdentity marshalID (siMkdir x) (siWrite x) (siRename x)
                           (mkIdentity (nID n1) (nCluster n1) (idAdvertise id) (idVersion id)) (ndIdentity dir) in
      let dir1 := mkNodeDir file (ndRaft dir) in
      match er with
      | Some er => Some (Some er, acts ++ [Stopped], n1, dir1)
      | None => finishStart cfg x acts voter n1 dir1
      end
  end.

(** Bootstrap or join, unless there was Raft state before. *)
Definition enterCluster (cfg : NodeConfig) (x : startIO) (id : Identity) (had : bool) (n : Node) (dir : NodeDir) : option startResult :=
  if negb had && bool_decide (ncJoin cfg = []) then
    match siBootstrap x with
    | Some er => Some (Some (transportError "bootstrap: " er), [Stopped], n, dir)
    | None => settleStart cfg x id [Bootstrapped (nID n) (nAddr n)] true n dir
    end
  else if negb had then
    match joinLoop (siPasses x) (ncJoin cfg) None n with
    | (Some er, n1) => Some (Some er, [JoinAsked; Stopped], n1, dir)
    | (None, n1) => settleStart cfg x id [JoinAsked] false n1 dir
    end
  else settleStart cfg x id [] true n dir.

Definition Start (cfg : NodeConfig) (x : startIO) (n : Node) (dir : NodeDir) : option startResult :=
  if bool_decide (ncListen cfg = []) then Some (Some (NewError "invalid_argument" (lit "listen address required")), [], n, dir)
  else match LoadIdentity unmarshalID (match siRead x with Some er => inr er | None => inl (ndIdentity dir) end) with
  | inr er => Some (Some er, [], n, dir)
  | inl stored =>
      let id := startIdentity (siFresh x) (ncAdvertise cfg) stored in
      let members := SetRegion (NewMembership (siNow x) (idNode id) (ncAdvertise cfg)) (idNode id) (ncRegion cfg) in
      let n1 := mkNode (idNode id) (idCluster id) (ncAdvertise cfg) (ncRegion cfg) (nHealth n) members (nState n) (nStats n) in
      match siListen x with
      | Some er => Some (Some (transportError "listen: " er), [], n1, dir)
      | None =>
          let had := ndRaft dir in
          let '(er, store) := openRaft (siOpen x) had in
          let dir1 := mkNodeDir (ndIdentity dir) store in
          match er with
          | Some er => Some (Some er, [], n1, dir1)
          | None => enterCluster cfg x id had n1 dir1
          end
      end
  end.

(** ** Observing the leader *)

(** The node's record of the leader's name, and the directory, after an observation. *)
Definition observeLeader (observed current : str) (n : Node) : str * Node :=
  (orText current observed, set_nState n (set_psRanges (nState n) (syncLeaderRanges order (psRanges (nState n)) current))).

(** ** [Status] *)

Record RaftStatus := mkRaftStatus {
  rsState : str; rsLeader : str; rsAddr : str; rsTerm : str; rsCommit : str; rsPeers : str; rsApplied : Z; rsLast : Z }.
Record StatsSnapshot := mkStatsSnapshot { ssCounters : Stats; ssAvgLatencyMs : float64; ssUptimeSec : Z }.
Record NodeStatus := mkStatus {
  nsCluster : str; nsNode : str; nsAddr : str; nsRegion : str; nsHealth : Health; nsUptime : Z;
  nsPeers : list Member; nsRanges : list Range; nsStats : StatsSnapshot;
  nsSnapshotBytes : Z; nsWALBytes : Z; nsAssign : gmap str Z; nsRaft : option (RaftStatus * Placement);
}.

(** [Stats.Load] *)
Definition loadStats (up : Z) (s : Stats) : StatsSnapshot :=
  mkStatsSnapshot s
    (if 0 <? stRequests s then f64_div (f64_div (f64_of_Z (stLatency s)) (f64_of_Z (stRequests s))) (f64_of_Z (10 ^ 6)) else f64_zero) up.

(** The last value under a name, as a Go map holds it once. *)
Definition statOf (stats : gmap str str) (name : string) : str := default [] (stats !! lit name).

(** [raft]: the role, the last index and the library's counters, when Raft was opened;
    sizes are zero for a file that cannot be read. *)
Definition Status (up statsUp : Z) (files : option Z * option Z) (cs : Consensus) (raft : option (str * Z * gmap str str)) (n : Node) : NodeStatus :=
  mkStatus (nCluster n) (nID n) (nAddr n) (nRegion n) (nHealth n) up (Members.List visit (nMembers n)) (All order (psRanges (nState n)))
    (loadStats statsUp (nStats n)) (default 0 files.1) (default 0 files.2) (rsAssign (psRanges (nState n)))
    (match raft with
     | None => None
     | Some (state, last, stats) =>
         Some (mkRaftStatus state (csLeaderID cs) (csLeaderAddr cs) (statOf stats "term") (statOf stats "commit_index")
                 (statOf stats "num_peers") (psIndex (nState n)) last, placement cs n)
     end).
End Start.

Section Proofs.
Context `{GoStd} (order : list Z → list Z) (visit : list str → list str) (env : Z → nat → Env).
Context (walPath : bool) (opened : option err) (io : Z → ioOutcome).
Context (encode : Entry → str + err) (decode : str → Entry + err).
Context (unmarshalID : str → Identity + err) (marshalID : Identity → str).
Abbreviation start := (Start order env walPath opened io encode decode unmarshalID marshalID).
Abbreviation settle := (settleStart order env walPath opened io encode decode marshalID).

(** What is left alone from [settleStart] on: the names, and what was asked before. *)
Definition keeps (acts : list startAct) (n : Node) (dir : NodeDir) (r : startResult) : Prop :=
  let '(_, acts', n', dir') := r in
  nID n' = nID n ∧ nCluster n' = nCluster n ∧ ndRaft dir' = ndRaft dir ∧ (acts' = acts ∨ acts' = acts ++ [Stopped]).

Lemma finish_keeps cfg x acts voter n dir (r : startResult) :
  finishStart order env walPath opened io decode cfg x acts voter n dir = Some r →
  keeps acts n dir r ∧ r.2 = dir.
Proof.
  unfold finishStart. case_match; [intros [= <-]; split; [split_and!; by auto|done]|].
  destruct (csLeads (siFinal x)); [|intros [= <-]; split; [split_and!; by auto|done]].
  destruct (barrier _ _ _ _ _ _ _ _) as [[[er|] st]|]; cbn [mbind option_bind]; intros [= <-]; (split; [split_and!; by auto|done]).
Qed.

(** The identity file holds the node's names. *)
Definition storedAs (n : Node) (dir : NodeDir) : Prop :=
  ∃ adv, ndIdentity dir = Some (marshalID (mkIdentity (nID n) (nCluster n) adv identityVersion)).

Lemma settle_keeps cfg x id acts voter n dir (r : startResult) :
  settle cfg x id acts voter n dir = Some r →
  keeps acts n dir r ∧ (r.1.1.1 = None → storedAs r.1.2 r.2).
Proof.
  unfold settleStart. destruct (ensureGenesis _ _ _ _ _ _ _ _ _ _) as [[[er|] st]|]; cbn [mbind option_bind]; [|cbv zeta|done].
  { intros [= <-]. split; [split_and!; by auto|done]. }
  destruct (StoreIdentity _ _ _ _ _ _) as [[er|] file] eqn:Es; [intros [= <-]; split; [split_and!; by auto|done]|].
  intros Hf. apply finish_keeps in Hf as [Hk Hd]. destruct r as [[[er acts'] n'] dir']. cbn [fst snd] in *. subst dir'. split; [exact Hk|].
  intros _. exists (idAdvertise id). cbn [ndIdentity]. destruct Hk as (-> & -> & _). unfold StoreIdentity in Es.
  destruct (siMkdir x), (siWrite x), (siRename x); try done. by injection Es as <-.
Qed.

Lemma joinLoop_names passes seeds : ∀ last n er n', joinLoop passes seeds last n = (er, n') → nID n' = nID n ∧ nAddr n' = nAddr n.
Proof.
  induction passes as [|[[now calls] ended] passes IH]; intros last n er n'; cbn [joinLoop]; [by intros [= <- <-]|].
  destruct (joinSeeds now calls seeds last n) as [r n1] eqn:Ej. destruct (joinSeeds_identity _ _ _ _ _ _ _ Ej) as (E1 & E2 & _).
  destruct r as [|er1|last1]; [by intros [= <- <-]|by intros [= <- <-]|]. case_bool_decide; [by intros [= <- <-]|].
  destruct ended; [by intros [= <- <-]|]. intros Hj. apply IH in Hj as [-> ->]. by split.
Qed.

(** With Raft state in the directory a start neither bootstraps nor joins. *)
Lemma had_enters cfg x id n dir (r : startResult) :
  enterCluster order env walPath opened io encode decode marshalID cfg x id true n dir = Some r → keeps [] n dir r.
Proof. unfold enterCluster. cbn [negb andb]. intros Hs. by apply settle_keeps in Hs as [Hk _]. Qed.

Lemma openRaft_store o had er store : openRaft o had = (er, store) → had = true ∨ er = None → store = true.
Proof.
  unfold openRaft. destruct (oiMkdir o), (oiBolt o), (oiSnaps o), (oiRaft o); intros [= <- <-]; naive_solver.
Qed.

Lemma start_success cfg x n dir acts n' dir' : start cfg x n dir = Some (None, acts, n', dir') → storedAs n' dir' ∧ ndRaft dir' = true.
Proof.
  unfold Start. case_bool_decide; [done|]. destruct (LoadIdentity _ _) as [stored|]; [|done]. cbv zeta.
  destruct (siListen x); [done|]. destruct (openRaft _ _) as [[er|] store] eqn:Eo; [done|].
  assert (store = true) as -> by (eapply openRaft_store; [done|by right]).
  unfold enterCluster. destruct (negb (ndRaft dir) && _).
  - destruct (siBootstrap x); [done|]. intros Hs. destruct (settle_keeps _ _ _ _ _ _ _ _ Hs) as [(_ & _ & E & _) Hst]. split; [by apply Hst|done].
  - destruct (negb (ndRaft dir)).
    + destruct (joinLoop _ _ _ _) as [[er|] n1]; [done|]. intros Hs. destruct (settle_keeps _ _ _ _ _ _ _ _ Hs) as [(_ & _ & E & _) Hst]. split; [by apply Hst|done].
    + intros Hs. destruct (settle_keeps _ _ _ _ _ _ _ _ Hs) as [(_ & _ & E & _) Hst]. split; [by apply Hst|done].
Qed.

Lemma start_had cfg x n dir er acts n' dir' id :
  ndRaft dir = true → LoadIdentity unmarshalID (match siRead x with Some er => inr er | None => inl (ndIdentity dir) end) = inl (Some id) →
  ncListen cfg ≠ [] → start cfg x n dir = Some (er, acts, n', dir') →
  nID n' = idNode id ∧ nCluster n' = idCluster id ∧ Forall (λ a, a = Stopped) acts ∧ ndRaft dir' = true.
Proof.
  intros Hr Hl Hlis. unfold Start. rewrite bool_decide_false, Hl, Hr by done. cbv zeta.
  assert (E : idNode (startIdentity (siFresh x) (ncAdvertise cfg) (Some id)) = idNode id ∧
              idCluster (startIdentity (siFresh x) (ncAdvertise cfg) (Some id)) = idCluster id).
  { unfold startIdentity. by case_bool_decide. }
  destruct (siListen x); [intros [= <- <- <- <-]; cbn; destruct E; split_and!; by try constructor|].
  destruct (openRaft _ _) as [[er1|] store] eqn:Eo; assert (store = true) as -> by (eapply openRaft_store; [done|by left]).
  { intros [= <- <- <- <-]. cbn. destruct E. split_and!; by try constructor. }
  intros Hs. apply had_enters in Hs as (E1 & E2 & E3 & Ha). rewrite E1, E2, E3. cbn. destruct E. split_and!; try done.
  destruct Ha as [-> | ->]; by repeat constructor.
Qed.

(** C26: A node keeps its identity.  After a start that succeeded, the identity file holds
    the node's name and its cluster's (the one it joined, if it joined), and every later
    start from that directory, whatever its configuration and whatever fails, uses
    the same two names and never bootstraps or joins a cluster again. *)
Theorem start_keeps_identity cfg x n dir acts n' dir' cfg2 x2 n2 er2 acts2 n2' dir2 :
  (∀ id, unmarshalID (marshalID id) = inl id) →
  Start order env walPath opened io encode decode unmarshalID marshalID cfg x n dir = Some (None, acts, n', dir') → nID n' ≠ [] → nCluster n' ≠ [] →
  siRead x2 = None → ncListen cfg2 ≠ [] →
  Start order env walPath opened io encode decode unmarshalID marshalID cfg2 x2 n2 dir' = Some (er2, acts2, n2', dir2) →
  nID n2' = nID n' ∧ nCluster n2' = nCluster n' ∧ Forall (λ a, a = Stopped) acts2.
Proof.
  intros Hrt Hs Hid Hcl Hrd Hlis Hs2. destruct (start_success _ _ _ _ _ _ _ Hs) as [[adv Ef] Hr].
  edestruct (start_had cfg2 x2 n2 dir' er2 acts2 n2' dir2 (mkIdentity (nID n') (nCluster n') adv identityVersion)) as (E1 & E2 & E3 & _);
    [done| |done|done|done].
  rewrite Hrd, Ef. unfold LoadIdentity. rewrite Hrt. cbn [idVersion idNode idCluster]. by rewrite !bool_decide_false.
Qed.

(** ** Interrupted starts *)

Lemma start_never_asks cfg x n dir er acts n' dir' :
  ndRaft dir = true → start cfg x n dir = Some (er, acts, n', dir') → Forall (λ a, a = Stopped) acts.
Proof.
  intros Hr. unfold Start. case_bool_decide; [by intros [= <- <- <- <-]; constructor|].
  destruct (LoadIdentity _ _) as [stored|]; [|by intros [= <- <- <- <-]; constructor]. cbv zeta. rewrite Hr.
  destruct (siListen x); [by intros [= <- <- <- <-]; constructor|].
  destruct (openRaft _ _) as [[er1|] store]; [by intros [= <- <- <- <-]; constructor|].
  intros Hs. apply had_enters in Hs as (_ & _ & _ & [-> | ->]); by repeat constructor.
Qed.

(** A first start that could not join has created the Raft store by then: later starts with
    the same configuration never ask a seed again, whether or not one is reachable. *)
Lemma failed_join_is_not_retried cfg x n er acts n1 dir1 :
  ncJoin cfg ≠ [] → start cfg x n (mkNodeDir None false) = Some (Some er, JoinAsked :: acts, n1, dir1) →
  ndRaft dir1 = true ∧
  ∀ x2 n2 er2 acts2 n3 dir3, start cfg x2 n2 dir1 = Some (er2, acts2, n3, dir3) → JoinAsked ∉ acts2.
Proof.
  intros Hj Hs. assert (Hr : ndRaft dir1 = true).
  { revert Hs. unfold Start. case_bool_decide; [done|]. destruct (LoadIdentity _ _) as [stored|]; [|done]. cbv zeta. cbn [ndRaft ndIdentity].
    destruct (siListen x); [done|]. destruct (openRaft _ _) as [[er1|] store] eqn:Eo; [done|].
    assert (store = true) as -> by (eapply openRaft_store; [done|by right]).
    unfold enterCluster. rewrite (bool_decide_false (ncJoin cfg = [])) by done. cbn [negb andb].
    destruct (joinLoop _ _ _ _) as [[er1|] n2]; [by intros [= <- <- <- <-]|].
    intros Hk. apply settle_keeps in Hk as [(_ & _ & E & _) _]. exact E. }
  split; [done|]. intros x2 n2 er2 acts2 n3 dir3 Hs2 Hin. apply start_never_asks in Hs2; [|done].
  rewrite Forall_forall in Hs2. by apply Hs2 in Hin.
Qed.

(** Until the end of a start the identity is not on disk: a directory with a Raft store and
    no identity file gets a fresh name at the next start, and the name that the store
    was bootstrapped with is lost. *)
Lemma unstored_identity_is_lost cfg x n er acts n' dir' :
  ncListen cfg ≠ [] → siRead x = None → start cfg x n (mkNodeDir None true) = Some (er, acts, n', dir') →
  nID n' = (siFresh x).1 ∧ Forall (λ a, a = Stopped) acts.
Proof.
  intros Hl Hrd Hs. split; [|by apply start_never_asks in Hs]. revert Hs. unfold Start. rewrite bool_decide_false, Hrd by done.
  cbn [LoadIdentity ndIdentity ndRaft]. cbv zeta.
  assert (E : idNode (startIdentity (siFresh x) (ncAdvertise cfg) None) = (siFresh x).1) by (unfold startIdentity; by case_bool_decide).
  destruct (siListen x); [intros [= <- <- <- <-]; exact E|].
  destruct (openRaft _ _) as [[er1|] store]; [intros [= <- <- <- <-]; exact E|].
  intros Hs. apply had_enters in Hs as (-> & _). exact E.
Qed.
End Proofs.

(** ** Configuration *)

(** The lease is never longer than the heartbeat, which the Raft library requires, for
    heartbeats of two milliseconds and more. *)
Lemma raftConfig_lease debug id t k : 2 * millisecond ≤ rtHeartbeat t →
  0 < rcLease (raftConfig debug id t k) ≤ rcHeartbeat (raftConfig debug id t k).
Proof.
  intros Ht. unfold raftConfig, orPositive, millisecond in *. cbn [rcLease rcHeartbeat].
  destruct (Z.leb_spec (rtHeartbeat t) 0); [lia|]. destruct (Z.leb_spec (Z.quot (rtHeartbeat t) 2) 0); Z.to_euclidean_division_equations; lia.
Qed.
Lemma fillDefaults_idempotent c : fillDefaults (fillDefaults c) = fillDefaults c.
Proof.
  unfold fillDefaults, orPositive, orText. destruct c as [l a j r h p s t k]. cbn.
  f_equal; repeat case_bool_decide; repeat case_match; rewrite ?Z.leb_le, ?Z.leb_gt, ?Z.eqb_eq in *; try done; simplify_eq/=; try lia; try done.
  all: unfold millisecond, second in *; try lia.
Qed.
