(* ===== verification/Programs.v ===== *)
(** * The programs run as a whole: cmd/superdb/main.go, cmd/superdb-cli/main.go and client.go

    [runServer] from its flags to the accept loop, [runServe] up to the hosted server,
    the backup timer and the status report; the command line client's choice between
    probe, shell and batch.  Flag parsing is package flag's: the flags are records of
    its results.  The start of the node is [Start] of NodeStart. *)

From S2P Require Import Prelude GoLib Fold Value Table Schema Database Bytes Storage Bind Json Request JsonText Image.
From S2P Require Import Session Sha256 Recovery Backup Config Updater Remote Cli LocalServer Main Ranges Members Replica Node NodeStart.
Open Scope Z_scope.

(** ** The local server's flags *)

Record serverFlags := mkServerFlags {
  sfMode : str; sfBackupDir : str; sfBackupInterval : Z; sfProduction : bool; sfProfile : str;
  sfClusterAddr : str; sfAdvertise : str; sfJoin : str; sfRegion : str;
  sfAuthKey : str; sfTLSCert : str; sfTLSKey : str; sfLimits : HostLimits;
}.
(** Without arguments; [production]: whether -production came before the command. *)
Definition serverDefaults (production : bool) : serverFlags :=
  mkServerFlags (lit "memory") [] (3600 * second) production (lit "standard") [] [] [] [] [] [] [] noHostLimits.
(** What the environment supplies for flags that are empty. *)
Definition flagsOrEnv (getenv : string → str) (f : serverFlags) : serverFlags :=
  mkServerFlags (sfMode f) (sfBackupDir f) (sfBackupInterval f) (sfProduction f) (sfProfile f)
    (sfClusterAddr f) (sfAdvertise f) (sfJoin f) (sfRegion f)
    (orText (sfAuthKey f) (getenv "SUPERDB_AUTH_KEY"%string)) (orText (sfTLSCert f) (getenv "SUPERDB_TLS_CERT"%string))
    (orText (sfTLSKey f) (getenv "SUPERDB_TLS_KEY"%string)) (sfLimits f).

(** [storage.OpenWALWriter]: the file exists afterwards. *)
Definition OpenWALWriter (opened : option err) (file : option str) : option err * option str :=
  match opened with Some er => (Some er, file) | None => (None, Some (default [] file)) end.

(** Why the process ends before: [log.Fatal], after which nothing deferred runs. *)
Inductive fatal := FatalSettings | FatalRecover (e : startErr) | FatalNode (e : rpcErr) | FatalWriter (e : err)
| FatalTLS (e : tlsErr) | FatalListen (e : err).

(** What runs when the loop is entered; the options of every connection among it. *)
Record listening (cert : Type) := mkListening {
  liMode : str; liProduction : bool; liAuthKey : str; liLimits : HostLimits; liLimiter : Limiter;
  liTLS : option (tlsServer cert); liNode : option Node; liBackups : bool; liWriter : option bool;
  liDB : Database; liDir : DataDir; liNodeDir : NodeDir;
}.
Arguments mkListening {cert} _ _ _ _ _ _ _ _ _ _ _ _.
Arguments liMode {cert} _.
Arguments liProduction {cert} _.
Arguments liAuthKey {cert} _.
Arguments liLimits {cert} _.
Arguments liLimiter {cert} _.
Arguments liTLS {cert} _.
Arguments liNode {cert} _.
Arguments liBackups {cert} _.
Arguments liWriter {cert} _.
Arguments liDB {cert} _.
Arguments liDir {cert} _.
Arguments liNodeDir {cert} _.
Record serverIO (cert : Type) := mkServerIO {
  seReads : readIO; seNode : startIO; seWriter : option err; seLoad : str → str → cert + err; seListen : option err;
}.
Arguments mkServerIO {cert} _ _ _ _ _.
Arguments seReads {cert} _.
Arguments seNode {cert} _.
Arguments seWriter {cert} _.
Arguments seLoad {cert} _.
Arguments seListen {cert} _.

(** [cluster.New]: the engine, an empty directory, and the log beside it. *)
Definition newNode (cfg : NodeConfig) (d : Database) (wal : option str) : Node :=
  mkNode [] [] (ncAdvertise cfg) (ncRegion cfg) Healthy (NewMembership 0 [] []) (mkState d NewRangeStore wal 0) stats0.
(** The node of a server that listens for a cluster, or nothing. *)
Definition nodeConfig (addr advertise : str) (seeds : list str) (region : str) : option NodeConfig :=
  if bool_decide (addr = []) then None else Some (fillDefaults (clusterConfig addr advertise seeds region)).

Section Programs.
Context `{GoStd} `{Zlib} `{JsonStd} (order : list str → list str) (nilOrder nilNames : Table → bool) (e : Env).
(** What the node's part of the process runs on, see NodeStart. *)
Context (idOrder : list Z → list Z) (env : Z → nat → Env) (opened : option err) (walIO : Z → ioOutcome).
Context (encodeEntry : Entry → str + err) (decodeEntry : str → Entry + err).
Context (unmarshalID : str → Identity + err) (marshalID : Identity → str).
Abbreviation startNode := (Start idOrder env true opened walIO encodeEntry decodeEntry unmarshalID marshalID).

(** ** [runServer] until it accepts *)

Definition set_ddWal k x := mkDir (ddSnap k) (ddLegacySnap k) x (ddLegacyWal k).

(** The writer, the certificate and the listener. *)
Definition enterLoop {cert} (f : serverFlags) (io : serverIO cert) (production : bool) (mode : str) (node : option Node)
    (d : Database) (k : DataDir) (nd : NodeDir) : listening cert + fatal :=
  let wal := bool_decide (mode = lit "wal") in
  match (if wal then OpenWALWriter (seWriter io) (ddWal k) else (None, ddWal k)) with
  | (Some er, _) => inr (FatalWriter er)
  | (None, file) =>
      match ServerTLSConfig (seLoad io) (sfTLSCert f) (sfTLSKey f) with
      | inr er => inr (FatalTLS er)
      | inl tls =>
          match seListen io with
          | Some er => inr (FatalListen er)
          | None => inl (mkListening mode production (sfAuthKey f) (sfLimits f) (NewLimiter (hlLimits (sfLimits f))) tls node
                           (negb (bool_decide (sfBackupDir f = []))) (if wal then Some true else None) d (set_ddWal k file) nd)
          end
      end
  end.

(** [None]: the node crashed while it applied its log. *)
Definition runServer {cert} (getenv : string → str) (f0 : serverFlags) (io : serverIO cert) (k : DataDir) (nd : NodeDir)
    : option (listening cert + fatal) :=
  let f := flagsOrEnv getenv f0 in
  match serverSettings (sfProduction f) (sfProfile f) (sfMode f) (sfBackupDir f) (sfBackupInterval f) with
  | None => Some (inr FatalSettings)
  | Some (production, mode) =>
      match recoverMode order e mode (seReads io) k newDB with
      | (_, Some er) => Some (inr (FatalRecover er))
      | (d, None) =>
          match nodeConfig (sfClusterAddr f) (sfAdvertise f) (seedsOf (sfJoin f)) (sfRegion f) with
          | None => Some (enterLoop f io production mode None d k nd)
          | Some cfg =>
              '(er, _, n, nd') ← startNode cfg (seNode io) (newNode cfg d (ddWal k)) nd;
              match er with
              | Some er => Some (inr (FatalNode er))
              | None => Some (enterLoop f io production mode (Some n) (psDB (nState n)) (set_ddWal k (psWal (nState n))) nd')
              end
          end
      end
  end.

(** The accept loop: a connection, or an error and whether the context has ended. *)
Inductive accepted := AConn (c : nat) | AErr (cancelled : bool).
(** The connections handed to goroutines, and whether the loop was left. *)
Fixpoint acceptLoop (l : list accepted) : list nat * bool :=
  match l with
  | [] => ([], false)
  | AConn c :: l' => let '(cs, over) := acceptLoop l' in (c :: cs, over)
  | AErr true :: _ => ([], true)
  | AErr false :: l' => acceptLoop l'
  end.

(** [runAutomaticBackups]: one backup per tick of the clock, of the tables at that time; an
    error is logged. *)
Record backupAt := mkTick { tkStamp : str; tkMkdir : option err; tkFs : fsOutcome; tkVerify : verifyIO; tkManifest : manifestIO;
                        tkRemoved : bool; tkDB : Database }.
Definition backupTick (b : Backups) (t : backupAt) : (str + backupErr) * Backups :=
  CreateBackup order nilOrder nilNames (tkStamp t) (tkMkdir t) (tkFs t) (tkVerify t) (tkManifest t) (tkRemoved t) b (tkDB t).
Definition runAutomaticBackups (ticks : list backupAt) (b : Backups) : Backups := foldl (λ b t, (backupTick b t).2) b ticks.

(** ** [runServe] *)

(** The configuration: flags over environment over defaults, then the seeds of -join and
    two more defaults. *)
Definition serveConfig (getenv : string → str) (ParseDuration : str → Z + err)
    (visit : list (string * (Limits → (Z → Z) → Limits)) → list (string * (Limits → (Z → Z) → Limits))) (flag : Config) (join : str) : Config :=
  let c := LoadConfig getenv ParseDuration visit flag in
  mkConfig (cfHost c) (cfPort c) (orText (cfDataDir c) (lit "./data")) (orText (cfMode c) (lit "wal"))
    (cfUsername c) (cfPassword c) (cfTLSCert c) (cfTLSKey c) (cfMaxConnections c)
    (cfReadTimeout c) (cfWriteTimeout c) (cfIdleTimeout c) (cfShutdownTimeout c)
    (cfHealthAddr c) (cfClusterAddr c) (cfAdvertiseAddr c) (cfJoinAddrs c ++ seedsOf join) (cfRegion c) (cfLimits c).

(** The node is started on an empty engine, and [Serve] then recovers into the same
    engine.  The result: the database the server begins with, or why it does not. *)
Definition runServe (c : Config) (io : readIO) (x : startIO) (k : DataDir) (nd : NodeDir) : option (option Node * Database * option (rpcErr + serveErr)) :=
  match nodeConfig (cfClusterAddr c) (cfAdvertiseAddr c) (cfJoinAddrs c) (cfRegion c) with
  | None => let '(d, er) := serveStart order e c io k newDB in Some (None, d, inr <$> er)
  | Some cfg =>
      '(er, _, n, _) ← startNode cfg x (newNode cfg newDB (ddWal k)) nd;
      match er with
      | Some er => Some (None, newDB, Some (inl er))
      | None => let '(d, er) := serveStart order e c io (set_ddWal k (psWal (nState n))) (psDB (nState n)) in Some (Some n, d, inr <$> er)
      end
  end.
End Programs.

(** ** [runStatus] *)

(** What [os.Stat] answers for a file. *)
Inductive fileStat := StatMissing | StatFailed (text : str) | StatSize (n : Z).
Definition padded (name : str) : str := lit "  " ++ name ++ blanks (20 - length name) ++ lit " ".
(** A line on standard output, or on the log. *)
Definition statusLine (path name : str) (i : fileStat) : str + str :=
  match i with
  | StatMissing => inl (padded name ++ lit "missing")
  | StatFailed text => inr (lit "  " ++ path ++ lit ": " ++ text)
  | StatSize n => inl (padded name ++ FormatInt n ++ lit " bytes")
  end.
(** [probe]: the text of the error of dialling or of [Ping]. *)
Definition runStatus (data addr mode : str) (probe : option str) (snap wal : str * fileStat) : list (str + str) :=
  [inl (lit "SuperDB status"); inl (lit "  data: " ++ data); inl (lit "  address: " ++ addr); inl (lit "  mode: " ++ mode);
   inl (match probe with
        | Some text => lit "  server: not reachable (" ++ text ++ lit ")"
        | None => lit "  server: reachable at " ++ addr
        end);
   statusLine snap.1 (Base snap.1) snap.2; statusLine wal.1 (Base wal.1) wal.2].

(** ** The command line client *)

(** [decodeResult]: the first JSON value of the text; numbers keep their text. *)
Definition ccellOf (j : json) : ccell :=
  match j with JNull => CNull | JBool b => CBool b | JStr s => CStr s | JNum t => CNum t | _ => CNested j end.
(** The struct while it is decoded: a slice keeps its array when a key comes again. *)
Record rawResult := mkRaw { rwColumns : slice str; rwRows : slice (slice ccell); rwAffected : Z; rwMessage : str; rwError : str; rwStatus : str }.
Definition decResult : rawResult → json → option rawResult :=
  decStruct (λ '(mkRaw c rows a m er st) key v,
    if isField key "columns" then x ← decSlice [] decString c v; Some (mkRaw x rows a m er st)
    else if isField key "rows" then x ← decSlice nilSlice (decSlice CNull (λ _ j, Some (ccellOf j))) rows v; Some (mkRaw c x a m er st)
    else if isField key "affected" then x ← decInt a v; Some (mkRaw c rows x m er st)
    else if isField key "message" then x ← decString m v; Some (mkRaw c rows a x er st)
    else if isField key "error" then x ← decString er v; Some (mkRaw c rows a m x st)
    else if isField key "status" then x ← decString st v; Some (mkRaw c rows a m er x)
    else Some (mkRaw c rows a m er st)).
Definition decodeResult (raw : str) : option cliResult :=
  let p := skipSpace raw in
  '(j, _) ← scanValue (scanFuel p) 0 p;
  r ← decResult (mkRaw nilSlice nilSlice 0 [] [] []) j;
  Some (mkCliResult (sliceList (rwColumns r)) (map sliceList (sliceList (rwRows r))) (rwAffected r) (rwMessage r) (rwError r) (rwStatus r)).

(** A value of -params as it is sent: decoded into an [any], where a number is a float64 and
    an object a map, and marshalled again.  A number that was parsed is finite and has a text. *)
Section Params.
Context `{GoStd} `{JsonStd}.
Definition sortedObject (ms : list (str * json)) : json :=
  let m : gmap str json := foldl (λ m p, <[p.1 := p.2]> m) ∅ ms in
  JObj (omap (λ k, pair k <$> m !! k) (sortStrings (mapKeys m))).
Fixpoint anyTree (j : json) : option json :=
  match j with
  | JNum t => match strconv_ParseFloat t with
              | inl f => match json_Float f with inl t' => Some (JNum t') | inr _ => None end
              | inr _ => None
              end
  | JArr l => JArr <$> mapM anyTree l
  | JObj l => sortedObject <$> mapM (λ p, pair p.1 <$> anyTree p.2) l
  | _ => Some j
  end.
(** The -params flag: null is no parameters. *)
Definition paramsOf (text : str) : option (list json) :=
  if bool_decide (text = []) then Some []
  else match parseJSON text with Some JNull => Some [] | Some (JArr l) => mapM anyTree l | _ => None end.
End Params.

(** The flags of the client, and what [main] decides to do. *)
Record cliFlags := mkCliFlags {
  cmAuthKey : str; cmFormat : str; cmTiming : bool; cmFile : str; cmParams : str;
  cmTLS : bool; cmCA : str; cmSkip : bool; cmPing : bool; cmArgs : list str;
}.
Inductive cliFail := CliTLS (e : tlsErr) | CliParams | CliFormat | CliCollect (e : err).
Inductive cliPlan :=
| CliVersion
| CliExit (status : Z) (why : cliFail)
| CliProbe (authKey : str)
| CliShell (authKey format : str) (timing : bool)
| CliBatch (authKey : str) (queries : list str) (params : list json) (format : str) (timing : bool).

(** [readFile], [certs]: reading files and PEM bundles; [terminal]: whether standard input is a
    console; [collected]: what reading the statements fails with, or their sources. *)
Definition cliMain `{GoStd} `{JsonStd} {pool} (readFile : str → str + err) (certs : str → option pool) (getenv : string → str) (terminal : bool)
    (lines : list str + err) (argv : list str) (f : cliFlags) : cliPlan :=
  if wantsVersion argv then CliVersion
  else match clientTLS readFile certs (cmTLS f) (cmCA f) (cmSkip f) with
  | inr er => CliExit 2 (CliTLS er)
  | inl _ =>
      match paramsOf (cmParams f) with
      | None => CliExit 2 CliParams
      | Some params =>
          let authKey := orText (cmAuthKey f) (getenv "SUPERDB_AUTH_KEY"%string) in
          let known := map lit ["auto"; "json"; "table"]%string in
          if negb (bool_decide (cmFormat f ∈ known)) then CliExit 2 CliFormat
          else if cmPing f then CliProbe authKey
          else
            let interactive := bool_decide (cmFile f = []) && bool_decide (cmArgs f = []) && terminal in
            let format := if bool_decide (cmFormat f = lit "auto") then lit (if interactive then "table" else "json") else cmFormat f in
            if interactive then CliShell authKey format (cmTiming f)
            else match (if negb (bool_decide (cmFile f = [])) then readFile (cmFile f) else inl []) with
            | inr er => CliExit 1 (CliCollect er)
            | inl text =>
                let file := if bool_decide (cmFile f = []) then None else Some text in
                match file, cmArgs f, lines with
                | None, [], inr er => CliExit 1 (CliCollect er)
                | None, [], inl ls => CliBatch authKey (collectQueries None [] ls) params format (cmTiming f)
                | _, args, _ => CliBatch authKey (collectQueries file args []) params format (cmTiming f)
                end
            end
      end
  end.

(** [runBatch]: what is printed for each answer, on standard output and standard error;
    [None]: printing a table panicked. *)
Inductive batchErr := BatchParams | BatchDial (e : err) | BatchRecv (e : recvErr).
Definition runBatch (quote : str → str) (Sprint : json → str) (splitRaw : str → option (list str)) (dial : option err) (reply : str → str)
    (authKey : str) (queries : list str) (params : list json) (format : str) (timing : bool) (took : str)
    : option (list (list str * list str) + batchErr) :=
  let time := if timing then took else [] in
  if bool_decide (queries = []) then Some (inl [])
  else if negb (bool_decide (params = [])) && negb (length queries =? 1)%nat then Some (inr BatchParams)
  else match dial with
  | Some er => Some (inr (BatchDial er))
  | None =>
      match queries with
      | [sql] =>
          match cliQuery quote reply authKey sql params with
          | inr er => Some (inr (BatchRecv er))
          | inl resp => out ← printResult Sprint decodeResult resp format time; Some (inl [out])
          end
      | _ =>
          match cliBatch quote splitRaw reply authKey queries with
          | inr er => Some (inr (BatchRecv er))
          | inl results =>
              let per := if timing && negb (bool_decide (results = [])) then took ++ lit " total" else [] in
              outs ← mapM (λ res, printResult Sprint decodeResult res format per) results; Some (inl outs)
          end
      end
  end.
