(* ===== verification/ProgramsProofs.v ===== *)
(** * The programs: the client shows the engine's result, the server restarts with what it acknowledged *)

From S2P Require Import Prelude GoLib GoFacts GoConc Fold Value Table TableInv Schema Database DatabaseProofs Bytes Storage StorageProofs Bind.
From S2P Require Import Json Request RequestProofs JsonText JsonTextProofs Image ImageProofs Session SessionProofs Sha256 Recovery RecoveryProofs Backup Config.
From S2P Require Import Updater Remote ResponseProofs Cli LocalServer Main Ranges Members Replica Node NodeStart Programs.
Open Scope Z_scope.

(** ** What the client shows of a result *)

Section Shown.
Context `{GoStd} `{JsonStd}.

(** The members of a result in the order the encoder writes them. *)
Definition resultMembers (r : Result) : list (str * json) :=
  (if bool_decide (rColumns r = []) then [] else [(lit "columns", JArr (map JStr (rColumns r)))])
  ++ (if bool_decide (rRows r = []) then [] else [(lit "rows", rowsTree (rRows r))])
  ++ (if rAffected r =? 0 then [] else [(lit "affected", JNum (FormatInt (rAffected r)))])
  ++ optMember "message" (rMessage r).

Lemma opened_next ms name v : quoteJ (lit name) = dq :: lit name ++ [dq] →
  member (negb (bool_decide (ms = []))) (opened ms) name ++ pr v = opened (ms ++ [(lit name, v)]).
Proof.
  intros Hq. destruct ms as [|m ms]; [|by apply opened_add].
  unfold opened, member. cbn [map commas app negb bool_decide]. rewrite bool_decide_true by done. unfold printMember. cbn [fst snd negb]. rewrite Hq.
  cbn [app]. repeat rewrite <- ?app_assoc, <- ?app_comm_cons. done.
Qed.

(** A cell as it is decoded: numbers by their text. *)
Definition shown (v : value) : ccell := ccellOf (cellTree v).

(** Results with UTF-8 texts and floats that have a JSON text. *)
Record result_ok (r : Result) : Prop := {
  rs_affected : is_int64 (rAffected r);
  rs_message : validUTF8 (rMessage r) = true;
  rs_columns : Forall (λ s, validUTF8 s = true) (rColumns r);
  rs_rows : Forall (Forall cell_ok) (rRows r);
}.

Lemma result_print r : Forall rowPrints (rRows r) → AppendResultJSON [] r = inl (pr (JObj (resultMembers r))).
Proof.
  intros Hp. unfold AppendResultJSON, resultMembers. cbv zeta.
  set (M1 := if bool_decide (rColumns r = []) then [] else [(lit "columns", JArr (map JStr (rColumns r)))]).
  assert (E1 : (if negb (bool_decide (rColumns r = [])) then appendJSONStringArray (member false ([] ++ [123]) "columns") (rColumns r) else [] ++ [123]) = opened M1).
  { unfold M1. case_bool_decide; [done|]. cbn [negb]. rewrite stringArray_print. exact (opened_next [] "columns" _ eq_refl). }
  assert (H1 : negb (bool_decide (rColumns r = [])) = negb (bool_decide (M1 = []))) by (unfold M1; by do 2 case_bool_decide).
  rewrite E1, H1. clear E1. set (M2 := M1 ++ if bool_decide (rRows r = []) then [] else [(lit "rows", rowsTree (rRows r))]).
  rewrite rows_encode by done.
  assert (E2 : (if negb (bool_decide (rRows r = [])) then inl ((((member (negb (bool_decide (M1 = []))) (opened M1) "rows" ++ [91]) ++
      match rRows r with [] => [] | _ => [] ++ commas (map pr (map (λ r, JArr (map cellTree r)) (rRows r))) end)) ++ [93])
      else inl (opened M1)) = @inl str err (opened M2)).
  { unfold M2. destruct (rRows r) as [|x rows]; [change (bool_decide (@nil (list value) = [])) with true; cbn [negb]; cbv iota; by rewrite app_nil_r|].
    rewrite (bool_decide_false (x :: rows = [])) by done. cbn [negb].
    f_equal. rewrite <- opened_next by done. unfold rowsTree. cbn [printJ app]. repeat rewrite <- ?app_assoc, <- ?app_comm_cons. done. }
  assert (H2 : negb (bool_decide (M1 = [])) || negb (bool_decide (rRows r = [])) = negb (bool_decide (M2 = []))).
  { unfold M2. destruct M1; [|done]. by do 2 case_bool_decide. }
  cbv iota beta in E2 |- *. rewrite E2, H2. clear E2. set (M3 := M2 ++ if rAffected r =? 0 then [] else [(lit "affected", JNum (FormatInt (rAffected r)))]).
  assert (E3 : (if negb (rAffected r =? 0) then member (negb (bool_decide (M2 = []))) (opened M2) "affected" ++ FormatInt (rAffected r) else opened M2) = opened M3).
  { unfold M3. destruct (rAffected r =? 0); cbn [negb]; [by rewrite app_nil_r|]. exact (opened_next M2 "affected" (JNum _) eq_refl). }
  assert (H3 : negb (bool_decide (M2 = [])) || negb (rAffected r =? 0) = negb (bool_decide (M3 = []))).
  { unfold M3. destruct M2; [|done]. by destruct (rAffected r =? 0). }
  rewrite E3, H3. clear E3. unfold optMember. rewrite !app_assoc. fold M2. fold M3. destruct (bool_decide (rMessage r = [])); cbn [negb]; cbv iota.
  - rewrite app_nil_r. done.
  - f_equal. change (appendJSONString (member (negb (bool_decide (M3 = []))) (opened M3) "message") (rMessage r))
      with (member (negb (bool_decide (M3 = []))) (opened M3) "message" ++ pr (JStr (rMessage r))).
    by rewrite opened_next.
Qed.

Lemma result_text r : result_ok r → jsonOK (JObj (resultMembers r)) = true ∧ jdepth (JObj (resultMembers r)) ≤ maxNestingDepth.
Proof.
  intros [Ha Hm Hc Hr]. unfold resultMembers. split.
  - cbn [jsonOK]. rewrite !forallb_app, optMember_ok by done. repeat (apply andb_true_iff; split); try done.
    + case_bool_decide; [done|]. cbn [forallb fst snd]. by rewrite strings_text.
    + case_bool_decide; [done|]. cbn [forallb fst snd]. by rewrite rows_text.
    + case_match; [done|]. cbn [forallb fst snd jsonOK]. by rewrite isNumber_FormatInt.
  - transitivity 3; [|by unfold maxNestingDepth]. apply (depth_obj _ 2); [lia|]. rewrite !Forall_app. split_and!.
    + case_bool_decide; [done|]. apply Forall_singleton. cbn [snd]. etransitivity; [apply strings_depth|lia].
    + case_bool_decide; [done|]. apply Forall_singleton, rows_depth.
    + case_match; [done|]. by apply Forall_singleton.
    + unfold optMember. case_bool_decide; [done|]. by apply Forall_singleton.
Qed.

Ltac leads_to acc :=
  rewrite foldl_app;
  match goal with |- foldl ?f (foldl ?f ?a ?l) ?rest = _ => assert (foldl f a l = Some acc) as -> end;
  [case_match; [|cbn [foldl fst snd mbind option_bind]; known_fields]|].

Lemma result_decodes r : result_ok r →
  decResult (mkRaw nilSlice nilSlice 0 [] [] []) (JObj (resultMembers r))
  = Some (mkRaw (mkSlice (rColumns r) (length (rColumns r))) (mkSlice (map (λ row, mkSlice (map shown row) (length row)) (rRows r)) (length (rRows r)))
            (rAffected r) (rMessage r) [] []).
Proof.
  intros [Ha _ _ _]. destruct r as [cols rows aff m]. cbn [rColumns rRows rAffected rMessage] in *.
  unfold resultMembers, decResult, decStruct. cbn [rColumns rRows rAffected rMessage].
  leads_to (mkRaw (mkSlice cols (length cols)) nilSlice 0 [] [] []).
  { by destruct cols. }
  { rewrite (decSlice_fmap [] decString JStr (λ s, s)) by done. by rewrite map_id. }
  leads_to (mkRaw (mkSlice cols (length cols)) (mkSlice (map (λ row, mkSlice (map shown row) (length row)) rows) (length rows)) 0 [] [] []).
  { by destruct rows. }
  { unfold rowsTree. rewrite (decSlice_fmap nilSlice _ _ (λ row, mkSlice (map shown row) (length row))); [done|]. intros row _.
    by apply decSlice_fmap. }
  leads_to (mkRaw (mkSlice cols (length cols)) (mkSlice (map (λ row, mkSlice (map shown row) (length row)) rows) (length rows)) aff [] [] []).
  { by destruct (Z.eqb_spec aff 0) as [->|]. }
  { unfold decInt. by rewrite FormatInt_parse. }
  unfold optMember. case_bool_decide; subst; [done|]. cbn [foldl fst snd mbind option_bind]. by known_fields.
Qed.

(** The command line client holds the engine's result: for any result with UTF-8 texts, the
    answer of the local server is decoded to the same columns and rows, every number by
    the very digits the server wrote, and the same count and message. *)
Theorem table_shows_result r : result_ok r →
  ∃ b, AppendResultJSON [] r = inl b ∧
    decodeResult b = Some (mkCliResult (rColumns r) (map (map shown) (rRows r)) (rAffected r) (rMessage r) [] []).
Proof.
  intros Hr. exists (pr (JObj (resultMembers r))). split.
  - apply result_print. eapply Forall_impl; [apply Hr|]. intros row Hrow.
    eapply Forall_impl; [exact Hrow|]. intros v Hv f ->. destruct Hv as (t & Et & _). eauto.
  - destruct (result_text r Hr) as [Ho Hd]. unfold decodeResult.
    pose proof (parse_printed quoteJ unquote_quoteJ _ Ho Hd) as Hp. unfold parseJSON in Hp. cbv zeta in *.
    destruct (scanValue _ 0 _) as [[j rest]|]; [|done]. case_bool_decide; [|done]. apply (inj Some) in Hp as ->.
    cbn [mbind option_bind]. rewrite result_decodes by done. cbn [mbind option_bind rwColumns rwRows rwAffected rwMessage rwError rwStatus].
    rewrite sliceList_full, (sliceList_full (map _ _)) by (by rewrite ?length_map). rewrite map_map. do 2 f_equal. apply map_ext. intros row.
    apply sliceList_full. by rewrite length_map.
Qed.
End Shown.

(** ** What serving does to the files *)

Section Disks.
Context `{GoStd} `{Zlib} (marshal : Database → str + err) {C : Type} (limits : Limits) (mode : str).
Context (P : Disk → Prop) (Hpersist : ∀ io sqls img k, P k → P (persistStatements marshal io mode sqls img k).2).

Lemma disk_commit io writes tx (w : World C) : P (wDisk w) → P (wDisk (commit marshal io mode writes tx w).2).
Proof.
  intros HP. unfold commit. destruct (negb _); [done|]. pose proof (Hpersist io writes (cloneImage tx) _ HP) as Hk.
  destruct (persistStatements _ _ _ _ _ _) as [[er|] k]; done.
Qed.
Lemma disk_executeSQL e io raw (w : World C) s : P (wDisk w) → P (wDisk (executeSQL marshal None limits mode e io raw w s).1.2).
Proof.
  intros HP. unfold executeSQL. destruct (equalFold _ _); [unfold beginTx; repeat case_match; done|].
  destruct (equalFold _ _); [unfold rollbackTx; by case_match|]. destruct (equalFold _ _).
  - unfold commitTx. destruct (sTx s) as [tx|]; [|done]. destruct (writeStatements _) as [|x l]; [done|].
    pose proof (disk_commit io (x :: l) tx w HP) as Hc. by destruct (commit _ _ _ _ _ _) as [[er|] w'].
  - unfold execStatement. destruct (ExecWithOptions _ _ _ _) as [r d]. destruct (sTx s) as [tx|] eqn:Et.
    + destruct r as [r| |]; try done. unfold recordWrite. cbn [sTx]. by repeat case_match.
    + destruct r as [r| |]; try done. unfold recordWrite. rewrite Et. cbn [set_db wDB wDisk].
      destruct (negb _); [done|]. destruct (sBatch s); [done|]. pose proof (Hpersist io [raw] d _ HP) as Hk.
      by destruct (persistStatements _ _ _ _ _ _) as [[er|] k].
Qed.
Lemma disk_executeBatch env ios sqls : ∀ i (w : World C) s, P (wDisk w) →
  P (wDisk (executeBatch marshal None limits mode env ios i sqls w s).1.2).
Proof.
  induction sqls as [|sql sqls IH]; intros i w s HP; [done|]. cbn [executeBatch].
  pose proof (disk_executeSQL (env i) (ios i) sql w s HP) as H1.
  destruct (executeSQL _ _ _ _ _ _ _ _ _) as [[r w1] s1]. cbn [fst snd] in H1.
  specialize (IH (S i) w1 s1 H1). destruct (executeBatch _ _ _ _ _ _ _ _ _ _) as [[rs w2] s2]. by destruct r.
Qed.
Lemma disk_serveRequest env ios authKey admission q (w : World C) s : P (wDisk w) →
  P (wDisk (serveRequest marshal None limits mode env ios authKey admission q w s).1.2).
Proof.
  intros HP. unfold serveRequest. destruct (qPing q); [done|]. destruct (negb (checkAuth _ _)); [done|].
  unfold executeRequest. cbv zeta. destruct (_ && _); [done|]. destruct (if negb _ then _ else _) as [sql| |]; [|done..].
  destruct admission; [done|]. destruct (negb (negb _)).
  { pose proof (disk_executeSQL (env 0%nat) (ios 0%nat) sql w s HP) as H1. by destruct (executeSQL _ _ _ _ _ _ _ _ _) as [[r w1] s1]. }
  destruct (_ && _); [done|]. destruct (qAtomic q).
  - unfold executeAtomicBatch. destruct (sTx s); [done|]. destruct (runAtomic _ _ _ _ _) as [[[rs ws] d]|[i er]]; [|done].
    pose proof (disk_commit (ios (length (qSQLs q))) ws d w HP) as Hc. by destruct (commit _ _ _ _ _ _) as [[er|] w'].
  - pose proof (disk_executeBatch env ios (qSQLs q) 0 w (mkSession (sTx s) (sTxSQL s) true []) HP) as H1.
    destruct (executeBatch _ _ _ _ _ _ _ _ _ _) as [[out w1] s1]. destruct (endsInCrash out); [done|]. cbn [fst snd] in H1.
    pose proof (Hpersist (ios (length (qSQLs q))) (sPending s1) (wDB w1) _ H1) as Hk.
    by destruct (persistStatements _ _ _ _ _ _) as [er k].
Qed.
End Disks.
Lemma disk_serveAll `{GoStd} `{Zlib} marshal {C} limits (P : Disk → Prop)
    (Hpersist : ∀ io sqls img k, P k → P (persistStatements marshal io (lit "wal") sqls img k).2) e authKey es :
  ∀ (w : World C) ss, P (wDisk w) → P (wDisk (serveAll e marshal limits authKey es w ss).1.2).
Proof.
  induction es as [|ev es IH]; intros w ss HP; [done|]. cbn [serveAll].
  pose proof (disk_serveRequest marshal limits (lit "wal") P Hpersist (λ _, e) (evIO ev) authKey (evAdmit ev) (evReq ev) w (sessionOf ss (evConn ev)) HP) as H1.
  destruct (serveRequest _ _ _ _ _ _ _ _ _ _ _) as [[a w1] s1]. cbn [fst snd] in H1.
  specialize (IH w1 (<[evConn ev := s1]> ss) H1). by destruct (serveAll _ _ _ _ es w1 _) as [[l w2] ss2].
Qed.

(** In mode wal with an open writer the log stays a file and the snapshot as it was. *)
Definition logging (snap : option str) (k : Disk) : Prop := is_Some (dkWal k) ∧ dkWriter k = Some true ∧ dkSnap k = snap.
Lemma persist_logging `{Zlib} marshal snap io sqls img k :
  logging snap k → logging snap (persistStatements marshal io (lit "wal") sqls img k).2.
Proof.
  intros (Hw & Hopen & Hs). unfold persistStatements. rewrite bool_decide_true by done. rewrite Hopen.
  destruct (Append _ _ _) as [er f] eqn:E. split_and!; try done. cbn [snd dkWal].
  unfold Append in E. case_bool_decide; [by simplify_eq|]. destruct (oversized sqls); [by simplify_eq|]. cbv zeta in E.
  destruct (ioWrite _); [by simplify_eq|]. destruct (negb _); by simplify_eq.
Qed.

(** ** A server that is stopped and started again *)

Section Restart.
Context `{GoStd} `{Zlib} (order : list str → list str) (e : Env) (Hquiet : env_quiet e).
Context (idOrder : list Z → list Z) (env : Z → nat → Env) (opened : option err) (walIO : Z → ioOutcome).
Context (encodeEntry : Entry → str + err) (decodeEntry : str → Entry + err).
Context (unmarshalID : str → Identity + err) (marshalID : Identity → str).
Abbreviation start := (runServer order e idOrder env opened walIO encodeEntry decodeEntry unmarshalID marshalID).

(** The world the connections of a started server share, and the directory they leave. *)
Definition worldOf {cert} (li : listening cert) : World unit :=
  mkWorld (liDB li) (mkDisk (ddWal (liDir li)) (liWriter li) (ddSnap (liDir li))) tt.
Definition dirAfter (k : DataDir) (w : World unit) : DataDir := mkDir (dkSnap (wDisk w)) (ddLegacySnap k) (dkWal (wDisk w)) (ddLegacyWal k).

(** A local server that started. *)
Lemma runServer_local {cert} getenv f (io : serverIO cert) k nd li : sfClusterAddr f = [] →
  start getenv f io k nd = Some (inl li) ↔
  ∃ production mode d, serverSettings (sfProduction f) (sfProfile f) (sfMode f) (sfBackupDir f) (sfBackupInterval f) = Some (production, mode) ∧
    recoverMode order e mode (seReads io) k newDB = (d, None) ∧
    enterLoop (flagsOrEnv getenv f) io production mode None d k nd = inl li.
Proof.
  intros Hl. unfold runServer. cbv zeta. cbn [flagsOrEnv sfProduction sfProfile sfMode sfBackupDir sfBackupInterval sfClusterAddr].
  unfold nodeConfig. rewrite Hl, bool_decide_true by done. split.
  - destruct (serverSettings _ _ _ _ _) as [[production mode]|]; [|done].
    destruct (recoverMode _ _ _ _ _ _) as [d [er|]] eqn:Er; [done|]. intros [= E]. exists production, mode, d. by split_and!.
  - intros (production & mode & d & -> & -> & E). by rewrite E.
Qed.

(** What the loop is entered with depends on the log only by the file it leaves. *)
Lemma enterLoop_wal {cert} f (io : serverIO cert) production node d k nd li :
  enterLoop f io production (lit "wal") node d k nd = inl li →
  liMode li = lit "wal" ∧ liDB li = d ∧ liWriter li = Some true ∧ liDir li = set_ddWal k (Some (default [] (ddWal k))) ∧
  liAuthKey li = sfAuthKey f ∧ liLimits li = sfLimits f ∧
  ∀ d' k', ∃ li', enterLoop f io production (lit "wal") node d' k' nd = inl li' ∧ liDB li' = d' ∧ liAuthKey li' = sfAuthKey f.
Proof.
  unfold enterLoop. rewrite bool_decide_true by done. unfold OpenWALWriter. destruct (seWriter io); [done|].
  destruct (ServerTLSConfig _ _ _) as [tls|]; [|done]. destruct (seListen io); [done|]. intros [= <-]. split_and!; try done.
  intros d' k'. by eexists.
Qed.

End Restart.
