(* ===== verification/Witnesses.v ===== *)
(** * Concrete instances of the theorems

    A small table with an INT primary key, a TEXT column and an index, built by
    the table primitives, on which every hypothesis of the main theorems is
    discharged by evaluation. *)

From S2P Require Import Prelude GoLib GoFacts Fold Value Parser GoConc Table TableInv Insert InsertProofs.
From S2P Require Import Mutate MutateProofs Schema OrderBy Select SelectProofs AccessProofs OrderByProofs Group SchemaProofs Database.
From S2P Require Import DatabaseProofs.
Open Scope Z_scope.

Lemma env0_quiet : env_quiet env0.
Proof. done. Qed.
Lemma env0_fair : env_fair env0.
Proof. by intros site ks. Qed.

Definition wcols : list Column := [mkColumn (lit "id") Int true; mkColumn (lit "n") Text false].
Definition wcell (s : string) : value := VStr (lit s).
Definition wrow (n : Z) (s : string) : row := <[lit "n" := wcell s]> (<[lit "id" := VInt n]> ∅).

Lemma wcols_ok : cols_ok wcols.
Proof. split; [|by vm_compute; lia]. apply (bool_decide_unpack _). by vm_compute. Qed.

Lemma wrow1_ok : row_ok wcols (wrow 1 "a") ∧ key_ok (primaryName wcols) (lit "1") (wrow 1 "a").
Proof.
  destruct (buildRow_ok wcols [lit "1"; lit "'a'"] (wrow 1 "a") (lit "1") wcols_ok eq_refl) as (H1 & H2 & _);
    [by vm_compute|]. split; [done | by apply H2].
Qed.
Lemma wrow2_ok : row_ok wcols (wrow 2 "b") ∧ key_ok (primaryName wcols) (lit "2") (wrow 2 "b").
Proof.
  destruct (buildRow_ok wcols [lit "2"; lit "'b'"] (wrow 2 "b") (lit "2") wcols_ok eq_refl) as (H1 & H2 & _);
    [by vm_compute|]. split; [done | by apply H2].
Qed.
Lemma wrow3_ok : row_ok wcols (wrow 3 "a") ∧ key_ok (primaryName wcols) (lit "3") (wrow 3 "a").
Proof.
  destruct (buildRow_ok wcols [lit "3"; lit "'a'"] (wrow 3 "a") (lit "3") wcols_ok eq_refl) as (H1 & H2 & _);
    [by vm_compute|]. split; [done | by apply H2].
Qed.

Definition wt0 : Table := emptyTable (lit "t") wcols.
Definition wt1 : Table := insertOne wt0 (lit "1") (wrow 1 "a").
Definition wt2 : Table := insertOne wt1 (lit "2") (wrow 2 "b").

Lemma wt1_wf : table_wf wt1 ∧ fast_sized wt1.
Proof.
  apply insertOne_wf; [apply emptyTable_wf, wcols_ok | by intros [] | done | done | apply wrow1_ok | apply wrow1_ok].
Qed.
Lemma wt2_wf : table_wf wt2 ∧ fast_sized wt2.
Proof.
  apply insertOne_wf; [apply wt1_wf | apply wt1_wf | done | done | apply wrow2_ok | apply wrow2_ok].
Qed.

(** The same table with an index on [n]. *)
Definition windex : index := foldl (buildStep wt2 (lit "n")) ∅ (mapKeys (tRows wt2)).
Definition wti : Table :=
  set_indexNames (set_indexes wt2 (<[lit "n" := windex]> (tIndexes wt2))) (<[lit "i" := lit "n"]> (tIndexNames wt2)).
Lemma wti_wf : table_wf wti.
Proof.
  apply table_wf_base. split; [|apply wt2_wf].
  apply (base_wf_index wt2 (lit "n") (lit "i") windex); [apply table_wf_base, wt2_wf | done |].
  by apply (buildIndex_ok wt2 (lit "n") (mapKeys (tRows wt2))).
Qed.

Definition wdb : Database := mkDB {[lit "t" := wt2]} 7 0.
Lemma wdb_wf : db_wf wdb.
Proof. apply map_Forall_singleton. split; [apply wt2_wf | done]. Qed.

Definition witem : insertRow := mkInsert (lit "3") (wrow 3 "a").
Lemma witem_ok : Forall (item_ok wt2) [witem].
Proof. constructor; [|constructor]. split; [apply wrow3_ok | apply wrow3_ok]. Qed.

(** A table with a key of its own, for moves. *)
Definition wtail (wh : string) : selectTail := mkTail (lit wh) [] false (-1) 0 [] [] 0.

(** ** INSERT, DELETE, UPDATE *)

Lemma witem_uniform : uniform [witem].
Proof. right. by intros it ->%list_elem_of_singleton. Qed.

Lemma insert_appends_or_rejects_witness :
  (batch_free wt2 [witem] ∧ ∃ keys t',
     applyInsertRows env0 wt2 [witem] false = (Ok (resultAffected 1), Some t') ∧
     table_wf t' ∧ fast_sized t' ∧ keys_for [witem] keys ∧
     absRows t' = absRows wt2 ++ zip keys [wrow 3 "a"]) ∨
  (¬ batch_free wt2 [witem] ∧ applyInsertRows env0 wt2 [witem] false = (duplicateKey, Some wt2)).
Proof.
  apply (insert_appends_or_rejects env0 wt2 [witem]);
    [exact env0_quiet | apply wt2_wf | apply wt2_wf | exact witem_ok | exact witem_uniform | by vm_compute].
Defined.

Lemma insert_or_replace_upserts_witness :
  ∃ keys t',
    applyInsertRows env0 wt2 [witem] true = (Ok (resultAffected 1), Some t') ∧
    table_wf t' ∧ fast_sized t' ∧ keys_for [witem] keys ∧
    absRows t' = foldl upsert (absRows wt2) (zip keys [wrow 3 "a"]).
Proof.
  apply (insert_or_replace_upserts env0 wt2 [witem]);
    [apply wt2_wf | apply wt2_wf | exact witem_ok | by vm_compute].
Defined.

Lemma parsed_rows_are_insertable_witness :
  [witem] ≠ [] ∧ Forall (item_ok wt2) [witem] ∧ uniform [witem].
Proof.
  apply (parsed_rows_are_insertable (lit " ( 3 , 'a' ) ") wt2 false [witem]); [exact wcols_ok | by vm_compute].
Defined.

Lemma deleteKey_removes_witness :
  let '(res, t') := deleteKey wt2 (lit "1") in
  table_wf t' ∧ fast_sized t' ∧ absRows t' = filter (λ p, p.1 ≠ lit "1") (absRows wt2) ∧
  res = Ok (resultAffected (if isLive (tRows wt2) (lit "1") then 1 else 0)).
Proof. apply (deleteKey_removes wt2 (lit "1")); apply wt2_wf. Defined.

Definition wwhere : mwhere := mkMWhere (lit "n") (lit "a") opEq.
Definition wexp : expected := XVal (VStr (lit "a")).

Lemma deleteScan_filters_witness :
  let '(res, t') := deleteScan env0 wt2 wwhere wexp in
  table_wf t' ∧
  absRows t' = filter (λ p, rowMatches wwhere wexp p = false) (absRows wt2) ∧
  res = Ok (resultAffected (Z.of_nat (length (filter (λ p, rowMatches wwhere wexp p = true) (absRows wt2))))).
Proof. apply (deleteScan_filters env0 wt2 wwhere wexp); [exact env0_quiet | apply wt2_wf]. Defined.

Lemma wcell_ok : cell_ok wt2 (lit "n") (VStr (lit "z")).
Proof.
  split; [done|]. intros c Hc. change (tColumns wt2) with wcols in Hc. unfold wcols in Hc.
  rewrite !elem_of_cons in Hc. destruct Hc as [->|[->|?%elem_of_nil]]; [done | done | done].
Qed.

Lemma updateScan_assigns_witness :
  let '(res, t') := updateScan env0 wt2 wwhere wexp (lit "n") (VStr (lit "z")) in
  table_wf t' ∧ fast_sized t' ∧
  absRows t' = map (assignRow wwhere wexp (lit "n") (VStr (lit "z"))) (absRows wt2) ∧
  res = Ok (resultAffected (Z.of_nat (length (filter (λ p, rowMatches wwhere wexp p = true) (absRows wt2))))).
Proof.
  apply (updateScan_assigns env0 wt2 wwhere wexp (lit "n") (VStr (lit "z")));
    [exact env0_quiet | exact env0_fair | apply wt2_wf | apply wt2_wf | exact wcell_ok | by right].
Defined.

Lemma rekeyPrimary_moves_witness :
  let '(res, t') := rekeyPrimaryLocked wt2 (lit "1") (VInt 9) in
  if isLive (tRows wt2) (valueKey (VInt 9)) && negb (bool_decide (valueKey (VInt 9) = lit "1"))
  then res = errorsNew "duplicate primary key" ∧ t' = wt2
  else table_wf t' ∧ fast_sized t' ∧ res = Ok (resultAffected 1) ∧
       absRows t' = map (λ p, if bool_decide (p.1 = lit "1")
                              then (valueKey (VInt 9), <[primaryColumn wt2 := VInt 9]> (wrow 1 "a")) else p)
                        (absRows wt2).
Proof.
  apply (rekeyPrimary_moves wt2 (lit "1") (wrow 1 "a") (VInt 9)).
  - apply wt2_wf.
  - apply wt2_wf.
  - by vm_compute.
  - split; [done|]. intros c Hc. change (tColumns wt2) with wcols in Hc. unfold wcols in Hc.
    rewrite !elem_of_cons in Hc. destruct Hc as [->|[->|?%elem_of_nil]]; [by vm_compute | by vm_compute | done].
  - by vm_compute.
  - by vm_compute.
  - intros Hin. change (tOrder wt2) with [lit "1"; lit "2"] in Hin.
    rewrite !elem_of_cons in Hin. destruct Hin as [Hin|[Hin|?%elem_of_nil]]; [by vm_compute in Hin | by vm_compute in Hin | done].
Defined.

(** ** SELECT *)

Definition wcond (wh : string) : compiledCondition := default [] (compileCondition (lit wh) wcols).

Lemma wbare (wh : string) a b :
  split2 (lit wh) 61 = Some (a, b) → forallb bare_byte a = true → bare_lhs (lit wh).
Proof. intros Hs Ha a' b' Hs'. congruence. Qed.

Lemma select_scan_correct_witness :
  selectPlain env0 wt2 [lit "id"] false (wtail "id >= 2") 10
  = pagedResult [lit "id"] (-1) 0 10 (specLines wt2 [lit "id"] false (wherePred (lit "id >= 2") (wcond "id >= 2"))).
Proof.
  apply (select_scan_correct env0 wt2 [lit "id"] false (wtail "id >= 2") 10 (wcond "id >= 2")).
  - exact env0_quiet.
  - apply wt2_wf.
  - by vm_compute.
  - by vm_compute.
  - by vm_compute.
  - by vm_compute.
  - done.
  - done.
  - by vm_compute.
  - intros a b Hs. right. vm_compute in Hs. simplify_eq. repeat constructor; by vm_compute.
  - intros col v Hs. vm_compute in Hs. simplify_eq. split; by vm_compute.
  - by vm_compute.
Defined.

Lemma primary_lookup_correct_witness :
  selectPlain env0 wt2 [lit "n"] false (wtail "id = 02") 0
  = pagedResult [lit "n"] (-1) 0 0 (specLines wt2 [lit "n"] false (wherePred (lit "id = 02") (wcond "id = 02"))).
Proof.
  apply (primary_lookup_correct env0 wt2 [lit "n"] false (wtail "id = 02") 0 (lit "02") (wcond "id = 02")
           (mkColumn (lit "id") Int true)).
  - apply wt2_wf.
  - by vm_compute.
  - by vm_compute.
  - by vm_compute.
  - eapply wbare; by vm_compute.
  - by vm_compute.
  - left.
  - by vm_compute.
  - done.
  - by vm_compute.
  - by vm_compute.
Defined.

Lemma index_lookup_correct_witness :
  ∃ rows, selectPlain env0 wti [lit "id"] false (wtail "n = 'a'") 0 = Ok (mkResult [lit "id"] rows 0 []) ∧
          rows ≡ₚ specLines wti [lit "id"] false (wherePred (lit "n = 'a'") (wcond "n = 'a'")).
Proof.
  apply (index_lookup_correct env0 wti [lit "id"] (wtail "n = 'a'") (lit "n") (lit "a") (wcond "n = 'a'")
           (mkColumn (lit "n") Text false)).
  - exact env0_quiet.
  - exact env0_fair.
  - exact wti_wf.
  - done.
  - done.
  - done.
  - by vm_compute.
  - eapply wbare; by vm_compute.
  - by vm_compute.
  - by vm_compute.
  - right; left.
  - done.
  - done.
  - apply (bool_decide_unpack _). by vm_compute.
  - by vm_compute.
Defined.

(** ** ORDER BY *)

Lemma worder_typed : ∀ k, k ∈ [lit "1"; lit "2"] → has_type Int (orderValue wt2 (lit "id") k).
Proof.
  intros k Hk. rewrite !elem_of_cons in Hk.
  destruct Hk as [->|[->|?%elem_of_nil]]; [by vm_compute | by vm_compute | done].
Qed.

Lemma orderKeys_topk_witness :
  orderKeys wt2 [lit "1"; lit "2"] (lit "id") true 1 = Ok (take (Z.to_nat 1) [lit "2"; lit "1"]).
Proof.
  apply (orderKeys_topk (has_type Int) wt2 [lit "1"; lit "2"] (lit "id") true 1 [lit "2"; lit "1"]);
    [done | exact worder_typed | by vm_compute].
Defined.

Lemma orderKeys_sorts_witness :
  ∃ entries, orderKeys wt2 [lit "1"; lit "2"] (lit "id") true (-1) = Ok (map oKey entries) ∧
    entries ≡ₚ orderEntries wt2 [lit "1"; lit "2"] (lit "id") ∧
    StronglySorted (λ a b, rankBefore true b a = false) entries.
Proof. apply (orderKeys_sorts (has_type Int) wt2 [lit "1"; lit "2"] (lit "id") true). exact worder_typed. Defined.

(** ** Schema and transactions *)

Lemma create_adds_table_witness :
  let '(r, d') := create wdb (lit "CREATE TABLE u (a INT PRIMARY KEY, b BOOL)") in
  match r with
  | Ok _ => ∃ name cols, dTables wdb !! name = None ∧ cols_ok cols ∧
              Forall (λ c, validType (cType c) = true) cols ∧
              dTables d' = <[name := emptyTable name cols]> (dTables wdb) ∧ db_wf d'
  | Err _ => d' = wdb
  | Panic => False
  end.
Proof. apply (create_adds_table wdb (lit "CREATE TABLE u (a INT PRIMARY KEY, b BOOL)")). exact wdb_wf. Defined.

Lemma addColumn_wf_witness :
  let '(r, t') := addColumn env0 (lit "z") Bool wti in
  if hasColumn (tColumns wti) (lit "z") then r = errorsNew "column already exists" ∧ t' = wti
  else table_wf t' ∧ r = Ok (resultMessage "column added") ∧
       tColumns t' = tColumns wti ++ [mkColumn (lit "z") Bool false] ∧
       absRows t' = map (λ p, (p.1, <[lit "z" := VNil]> p.2)) (absRows wti).
Proof. apply (addColumn_wf env0 wti (lit "z") Bool); [exact env0_quiet | exact env0_fair | exact wti_wf]. Defined.

Lemma dropColumn_wf_witness :
  let '(r, t') := dropColumn env0 (lit "N") wti in
  let column := ToLower (lit "N") in
  if (1 <? length (tColumns wti))%nat && hasColumn (tColumns wti) column
  then table_wf t' ∧ r = Ok (resultMessage "column dropped") ∧
       tColumns t' = filter (λ c, cName c ≠ column) (tColumns wti) ∧
       tIndexes t' = delete column (tIndexes wti) ∧
       absRows t' = map (λ p, (p.1, delete column p.2)) (absRows wti)
  else isOk r = false ∧ t' = wti.
Proof. apply (dropColumn_wf env0 wti (lit "N")); [exact env0_quiet | exact env0_fair | exact wti_wf]. Defined.

Lemma createIndexOn_wf_witness :
  let '(r, t') := createIndexOn env0 (lit "J") (lit "n") wt2 in
  match r with
  | Ok _ => table_wf t' ∧ absRows t' = absRows wt2 ∧ hasColumn (tColumns wt2) (lit "n") = true ∧
            tIndexes wt2 !! lit "n" = None ∧ tIndexNames t' = <[ToLower (lit "J") := lit "n"]> (tIndexNames wt2) ∧
            ∃ m, tIndexes t' = <[lit "n" := m]> (tIndexes wt2) ∧ index_ok (tRows wt2) (lit "n") m
  | Err _ => t' = wt2
  | Panic => False
  end.
Proof. apply (createIndexOn_wf env0 wt2 (lit "J") (lit "n")); [exact env0_quiet | exact env0_fair | apply wt2_wf]. Defined.

Lemma readonly_unchanged_witness : (ExecWithOptions env0 wdb (lit " select * FROM t;") 0).2 = wdb.
Proof. apply (readonly_unchanged env0 wdb (lit " select * FROM t;") 0). by vm_compute. Defined.

Lemma failed_statement_unchanged_witness :
  (ExecWithOptions env0 wdb (lit "INSERT INTO t VALUES (5, 'x'), (1, 'y')") 0).2 = wdb.
Proof.
  apply (failed_statement_unchanged env0 wdb (lit "INSERT INTO t VALUES (5, 'x'), (1, 'y')") 0);
    [exact env0_quiet | by vm_compute].
Defined.

Definition wothers : list call := [mkCall env0 (lit "SELECT * FROM t") 0; mkCall env0 (lit "DELETE FROM t WHERE id = 1") 0].
Definition wmine : list call := [mkCall env0 (lit "INSERT INTO t VALUES (8, 'x')") 0].

Lemma commit_serializable_witness :
  let now := runCalls wdb wothers in
  let tx := runCalls (Clone wdb) wmine in
  let '(er, published) := CommitFrom now tx None in
  (er = None ↔ writeCount wdb wothers = 0%nat) ∧
  (er = None → now = wdb ∧ dTables published = cloneLocked <$> dTables tx) ∧
  (er ≠ None → published = now).
Proof.
  apply (commit_serializable wdb wothers wmine); [by vm_compute | by vm_compute |].
  intros c Hc. unfold wothers in Hc. rewrite !elem_of_cons in Hc.
  destruct Hc as [->|[->|?%elem_of_nil]]; [exact env0_quiet | exact env0_quiet | done].
Defined.

Lemma clone_faithful_witness :
  ∃ t', dTables (Clone wdb) !! lit "t" = Some t' ∧ table_wf t' ∧ absRows t' = absRows wt2 ∧
        tColumns t' = tColumns wt2 ∧ tIndexes t' = tIndexes wt2 ∧ tIndexNames t' = tIndexNames wt2 ∧
        tDead t' = tDead wt2 ∧ tAutoKey t' = tAutoKey wt2 ∧
        (fastOn wt2 = true → tFast t' = tFast wt2).
Proof. apply (clone_faithful wdb (lit "t") wt2); [exact wdb_wf | by vm_compute]. Defined.
