(* ===== verification/SystemWitnesses.v ===== *)
(** * Concrete instances of the theorems on storage, protocols, sessions and clusters

    Small logs, frames, requests, sessions and directories on which the hypotheses
    are discharged by evaluation, and runs of the code that show the boundaries of
    the theorems. *)

From S2P Require Import Prelude GoLib GoFacts Fold Value Parser GoConc Table Insert Schema Database.
From S2P Require Import Bytes Storage StorageProofs Wire Bind BindProofs Json Request RequestProofs.
From S2P Require Import Session SessionProofs Ranges RangesProofs Members Replica ReplicaProofs.
Open Scope Z_scope.

(** ** Storage *)

(** Recovery that records what it is handed. *)
Definition record (s : list str) (sql : str) : list str * option err := (s ++ [sql], None).
Definition stmtA : str := lit "CREATE TABLE a (x INT)".
Definition stmtB : str := lit "INSERT INTO a VALUES (1)".

Lemma stmts_fit : Forall fits [stmtA; stmtB].
Proof. repeat constructor; unfold fits; by vm_compute. Qed.

Lemma wal_replay_roundtrip_witness :
  ReplayWAL record (appendBatches [[stmtA]; [stmtB; stmtA]]) None [] = applyAll record 1 [stmtA; stmtB; stmtA] [].
Proof.
  apply (wal_replay_roundtrip record [[stmtA]; [stmtB; stmtA]] []).
  repeat constructor; unfold fits; by vm_compute.
Defined.

Lemma wal_torn_append_witness :
  let file := (Append (mkIO 60 None None) (Some (walEncode [stmtA])) [stmtB; stmtA]).2 in
  (ReplayWAL record file None []).1 = [stmtA; stmtB] ∧
  ((ReplayWAL record file None []).2 = None ↔ 60%nat = length (walEncode (wholeRecords 60 [stmtB; stmtA]))).
Proof.
  apply (wal_torn_append record [stmtA] [stmtB; stmtA] 60 (mkIO 60 None None) []);
    first [done | by repeat constructor; unfold fits; vm_compute | vm_compute; lia].
Defined.

Lemma wal_corruption_detected_witness :
  ReplayWAL record (Some (walEncode [stmtA] ++ (take 24 (walRecord (lit "DROP " ++ 97 :: [])) ++ lit "DROP " ++ 98 :: []) ++ [1; 2])) None []
  = ([stmtA], Some (RRecord 2 EChecksum)).
Proof.
  apply (wal_corruption_detected record [stmtA] (lit "DROP ") 97 98 [] [1; 2] [] [stmtA]);
    first [done | lia | by repeat constructor; unfold fits; vm_compute | by unfold fits; vm_compute].
Defined.

Definition fsGood (n : nat) : fsOutcome := mkFS None None n None None None None None None.
Lemma snapshot_write_read_witness :
  let '(er, file') := WriteSnapshot (fsGood 26) (Some (lit "old")) (inl (lit "{}")) in
  match er with
  | None => ReadSnapshot (λ s, @inl str err s) file' None = (true, inl (Some (lit "{}")))
  | Some _ => file' = Some (lit "old") ∨
      (is_Some (fsRename1 (fsGood 26)) ∧ is_Some (fsRename2 (fsGood 26)) ∧ file' = None)
  end.
Proof. apply (snapshot_write_read (λ s, @inl str err s) (fsGood 26) (Some (lit "old")) (lit "{}")). Defined.

(** ** Wire *)

Definition wframes : list frame := [mkFrame 3 1 (lit "{}"); mkFrame 4 2 []].
Lemma wframes_ok : Forall frame_ok wframes.
Proof. repeat constructor; vm_compute; done. Qed.
Lemma wire_stream_roundtrip_witness :
  writeAll wframes = writeAllRaw wframes ∧
  readFrames 2 (writeAll wframes ++ [7]) = (inl (map (λ f, (headerOf f, fBody f)) wframes), [7]).
Proof. apply (wire_stream_roundtrip wframes [7]). exact wframes_ok. Defined.

Lemma wire_read_sound_witness :
  Z.of_nat (length (lit "{}")) ≤ MaxFrameSize ∧
  EncodeFrame 3 1 (lit "{}") ++ [7] = EncodeFrame (hType (headerOf (mkFrame 3 1 (lit "{}")))) 1 (lit "{}") ++ [7].
Proof.
  destruct (wire_read_sound (EncodeFrame 3 1 (lit "{}") ++ [7]) (headerOf (mkFrame 3 1 (lit "{}"))) (lit "{}") [7])
    as (_ & _ & _ & H1 & H2).
  - apply Forall_forall. intros c Hc. vm_compute in Hc |- *. repeat (apply elem_of_cons in Hc as [->|Hc]; [done|]).
    by apply elem_of_nil in Hc.
  - by vm_compute.
  - by split.
Defined.

(** ** Binding *)

Definition wsql : str := lit "SELECT a FROM t WHERE b = ? AND c = ?".
Definition wout (s : string) : str := lit "SELECT a FROM t WHERE b = '" ++ lit s ++ lit "' AND c = 7".
Lemma params_text s : Forall param_text [PStr s; PInt 7].
Proof. apply Forall_cons. split; [done|]. apply Forall_cons. split; [|constructor]. by vm_compute. Qed.
Lemma bind_no_injection_witness :
  skeleton false (wout "x") = skeleton false (wout "x'' OR 1 = 1 --").
Proof.
  apply (bind_no_injection wsql [PStr (lit "x"); PInt 7] [PStr (lit "x' OR 1 = 1 --"); PInt 7]
           (wout "x") (wout "x'' OR 1 = 1 --")); [by vm_compute|apply params_text..|by vm_compute|by vm_compute|by vm_compute].
Defined.

#[local] Instance concQuote : QuoteFold.
Proof. done. Qed.
Definition bcols : list Column := [mkColumn (lit "id") Int true; mkColumn (lit "n") Text false].
Lemma bind_insert_roundtrip_witness :
  ∃ out, BindParams (tupleTemplate 1) [PInt 5; PStr (lit "it's (1, 'x')")] = Ok out ∧
    parseInsertRowsMode out bcols false
    = if bool_decide (paramsKey bcols [PInt 5; PStr (lit "it's (1, 'x')")] = []) && hasPrimaryColumn bcols
      then errorsNew "primary key required"
      else Ok [mkInsert (paramsKey bcols [PInt 5; PStr (lit "it's (1, 'x')")]) (paramsRow bcols [PInt 5; PStr (lit "it's (1, 'x')")])].
Proof.
  apply (bind_insert_roundtrip bcols [PInt 5; PStr (lit "it's (1, 'x')")] false); [done|].
  repeat constructor; vm_compute; done.
Defined.

(** ** Requests *)

(** A quote, a control character, an angle bracket and a two-byte rune. *)
Definition wtext : str := [97; 34; 9; 60; 195; 169].
Lemma json_string_roundtrip_witness :
  ∃ text, appendJSONString (lit "x") wtext = lit "x" ++ text ∧ jstring (text ++ lit ",") = Some (wtext, lit ",").
Proof. apply (json_string_roundtrip (lit "x") wtext (lit ",")). by vm_compute. Defined.

Definition wrequest : request := mkRequest (lit "SELECT 'a'") [wtext; []] [] (lit "k") [] true false.
Lemma request_roundtrip_witness : parseRequestFast (encodeRequest wrequest) = Parsed wrequest.
Proof.
  apply (request_roundtrip wrequest); [done|]. split_and!; [by vm_compute| |by vm_compute..].
  repeat constructor; by vm_compute.
Defined.

(** A batch with an unknown member whose value nests, and one that stops in the middle. *)
Definition wnested : str := lit "{'x':[[],{'y':1}],'sqls':['a','b']}".
Definition wpayload : str := map (λ c, if c =? 39 then dq else c) wnested.
Lemma request_parser_terminates_witness :
  parseRequestFast wpayload = Parsed (set_sqls request0 [lit "a"; lit "b"]) ∧
  parseRequestFast (take 20 wpayload) ≠ OutOfFuel ∧ request_loop 40 request0 (drop 1 wpayload) ≠ OutOfFuel ∧
  stringArray_loop 12 [] (drop 26 wpayload) ≠ OutOfFuel ∧ skipValue 80 (drop 5 wpayload) ≠ OutOfFuel.
Proof.
  destruct request_parser_terminates as (H1 & H2 & H3 & H4). split_and!; [by vm_compute|apply H1| | |].
  - apply H2. vm_compute. lia.
  - apply H3. vm_compute. lia.
  - apply H4. vm_compute. lia.
Defined.

(** ** Sessions *)

Lemma env0_quiet' : env_quiet env0.
Proof. done. Qed.

Definition marshal0 (d : Database) : str + err := inl [].
Definition ioOf (sqls : list str) : persistIO := mkPersistIO None (ioFull sqls) (fsGood 0).
Definition single (sql : string) : request := mkRequest (lit sql) [] [] [] [] false false.
Definition batchOf (sqls : list string) : request := mkRequest [] (map lit sqls) [] [] [] false false.
(** A request of connection [c] whose log write, if any, is of [sqls]. *)
Definition ask (c : nat) (q : request) (sqls : list string) : event :=
  mkEvent c (λ _, ioOf (map lit sqls)) None q.

Definition world0 : World unit := mkWorld dbNew (mkDisk None None None) tt.

(** Two connections: one creates and fills a table while the other runs a
    transaction that commits, then one that conflicts. *)
Definition wevents : list event :=
  [ask 1 (single "CREATE TABLE a (x INT PRIMARY KEY)") ["CREATE TABLE a (x INT PRIMARY KEY)"];
   ask 2 (single "BEGIN") [];
   ask 2 (single "INSERT INTO a VALUES (1)") [];
   ask 2 (single "COMMIT") ["INSERT INTO a VALUES (1)"];
   ask 2 (single "BEGIN") [];
   ask 1 (batchOf ["INSERT INTO a VALUES (2)"; "SELECT * FROM a"; "INSERT INTO a VALUES (2)"]) ["INSERT INTO a VALUES (2)"];
   ask 2 (single "DELETE FROM a WHERE x = 1") [];
   ask 2 (single "COMMIT") []]%string.

Lemma wevents_plain : Forall (plainBatch ∘ evReq) wevents.
Proof.
  apply Forall_forall. intros ev Hev. unfold compose, plainBatch. intros _. apply (bool_decide_unpack _).
  revert ev Hev. apply Forall_forall. apply (bool_decide_unpack _). by vm_compute.
Qed.


(** The same run: the last commit is refused, and the log holds three statements. *)
Example wevents_outcome :
  let '(l, w', _) := serveAll env0 marshal0 noLimits [] wevents world0 ∅ in
  (match last l with Some (AOne (RError t _)) => t | _ => [] end,
   ReplayWAL record (dkWal (wDisk w')) None [])
  = (lit "commit: ",
     (map lit ["CREATE TABLE a (x INT PRIMARY KEY)"; "INSERT INTO a VALUES (1)"; "INSERT INTO a VALUES (2)"]%string, None)).
Proof. by vm_compute. Qed.

(** A COMMIT inside a batch is logged before the statements that precede it in the
    batch: the log is out of order and does not replay. *)
Example batch_commit_inverts_log :
  let sqls := ["CREATE TABLE a (x INT)"; "BEGIN"; "INSERT INTO a VALUES (1)"; "COMMIT"]%string in
  let io i := ioOf (if (i <? 4)%nat then [lit "INSERT INTO a VALUES (1)"] else [lit "CREATE TABLE a (x INT)"]) in
  let '(_, w', _) := executeRequest marshal0 (C:=unit) None noLimits (lit "wal") (λ _, env0) io None (batchOf sqls) world0 session0 in
  (ReplayWAL record (dkWal (wDisk w')) None []).1 = [lit "INSERT INTO a VALUES (1)"; lit "CREATE TABLE a (x INT)"] ∧
  isOk (ExecWithOptions env0 dbNew (lit "INSERT INTO a VALUES (1)") 0).1 = false.
Proof. by vm_compute. Qed.

(** A write whose log append fails is answered with an error and stays applied. *)
Example persist_failure_keeps_write :
  let io := mkPersistIO None (mkIO 0 (Some (EMsg (lit "disk full"))) None) (fsGood 0) in
  let '(r, w', _) := executeSQL marshal0 (C:=unit) None noLimits (lit "wal") env0 io (lit "CREATE TABLE a (x INT)") world0 session0 in
  (good r, bool_decide (is_Some (dTables (wDB w') !! lit "a"))) = (false, true).
Proof. by vm_compute. Qed.

Definition wlimits : Limits := mkLimits 0 0 1 2 0 0 0 0.
Definition wlimiter (c q : nat) (rc rq : Z) : option Limiter := Some (mkLimiter (Some 2%nat) c (Some 1%nat) q rc rq).
Lemma admission_bounds_witness :
  let a := mkAdm (wlimiter 2 0 1 1) 2 0 in
  (0 < MaxConnections wlimits → Z.of_nat (aConns a) ≤ MaxConnections wlimits) ∧
  (0 < MaxInflightQueries wlimits → Z.of_nat (aQueries a) ≤ MaxInflightQueries wlimits) ∧
  ((0 < aConns a)%nat → is_Some (ReleaseConn (aLimiter a))) ∧
  ((0 < aQueries a)%nat → is_Some (ReleaseQuery (aLimiter a))) ∧
  ((AcquireConn (aLimiter a)).1 = false → Z.of_nat (aConns a) = MaxConnections wlimits).
Proof.
  apply (admission_bounds wlimits (mkAdm (wlimiter 2 0 1 1) 2 0)).
  apply (rtc_l _ _ (mkAdm (wlimiter 1 0 0 0) 1 0)); [by constructor|].
  apply (rtc_l _ _ (mkAdm (wlimiter 2 0 0 0) 2 0)); [by constructor|].
  apply (rtc_l _ _ (mkAdm (wlimiter 2 0 1 0) 2 0)); [by constructor|].
  apply (rtc_l _ _ (mkAdm (wlimiter 2 1 1 0) 2 1)); [by constructor|].
  apply (rtc_l _ _ (mkAdm (wlimiter 2 1 1 1) 2 1)); [by apply (step_shed _ _ _ _ TimedOut ErrBusy)|].
  apply (rtc_l _ _ (mkAdm (wlimiter 2 0 1 1) 2 0)); [by constructor|]. constructor.
Defined.

(** ** Clusters *)

Definition wnode : str := lit "a".
Definition wgenesis : Range := mkRange 1 [] [] [wnode] wnode 1.
Definition wdir : RangeStore := (applyOp id (genesisStore id wnode) (splitOp wgenesis 1 (lit "m"))).2.
Definition wright : Range := mkRange 3 (lit "m") [] [wnode] wnode 2.

Lemma wdir_reachable (asked : Range → str → Prop) : asked wgenesis (lit "m") → rtc (dirStep id asked) (genesisStore id wnode) wdir.
Proof. intros Ha. by apply rtc_once, (step_split id asked (genesisStore id wnode) 1 wgenesis (lit "m")). Qed.
Lemma winside : inside wgenesis (lit "m").
Proof. split; [by vm_compute|by left]. Qed.

Lemma directory_partitions_witness :
  ∃ r, Lookup id wdir (lit "users/7") = Some r ∧ Contains r (lit "users/7") = true ∧ rsRanges wdir !! rgID r = Some r ∧
       ∀ id' r', rsRanges wdir !! id' = Some r' → Contains r' (lit "users/7") = true → r' = r.
Proof.
  destruct (directory_partitions id (λ l, reflexivity l) wnode wdir (lit "users/7")) as (r & H1 & H2 & H3 & H4);
    [by apply wdir_reachable|].
  exists r. split_and!; [done..|]. apply H4, wdir_reachable, winside.
Defined.

Lemma range_ops_fenced_witness :
  let '(er1, s1) := applyOp id wdir (splitOp wright 3 (lit "t")) in
  er1 = None ∧ ∃ er2, applyOp id s1 (moveOp wright 3 [lit "b"]) = (Some er2, s1).
Proof.
  apply (range_ops_fenced id (λ l, reflexivity l) wnode wdir wright 3 (splitOp wright 3 (lit "t")) (moveOp wright 3 [lit "b"]));
    [by apply wdir_reachable|by vm_compute|by vm_compute|constructor|constructor].
Defined.

Definition wmember : Member := mkMember (lit "b") (lit "h:2") Alive 0 1 [].
Definition wmembers : Membership := UpsertMember 1 (NewMembership 0 wnode (lit "h:1")) wmember.
Lemma membership_monotone_witness :
  let m' := MarkSuspect wmembers (lit "b") in
  members_wf m' ∧ is_Some (msMembers m' !! wnode) ∧
  ∃ b', msMembers m' !! lit "b" = Some b' ∧ mbID b' = lit "b" ∧ 1 ≤ mbVersion b' ∧
        (mbState b' ≠ Removed → AddrOf m' (lit "b") = Some (mbAddr b')).
Proof.
  apply (membership_monotone 0 wnode (lit "h:1") wmembers (MarkSuspect wmembers (lit "b")) (lit "b")
           (mkMember (lit "b") (lit "h:2") Alive 1 1 [])); [done|done|..].
  - apply rtc_once. constructor.
  - apply rtc_once. constructor.
  - by vm_compute.
Defined.

Definition wstate : ReplicatedState := mkState dbNew wdir None 4.
Definition wbatch : Entry :=
  mkEntry EntryExec (map lit ["CREATE TABLE a (x INT)"; "INSERT INTO a VALUES (1)"]%string) true 3 2 None.
Lemma atomic_entry_all_or_nothing_witness :
  ∃ res st', applyCommitted id (λ _, env0) false None (mkIO 0 None None) 5 wbatch wstate = Some (res, st') ∧
    psIndex st' = 5 ∧ psRanges st' = wdir ∧
    match res with
    | EntryFailed _ _ => psDB st' = dbNew ∧ psWal st' = None
    | EntryOK _ => fenceExec wstate wbatch = None ∧
        ∃ d, runsAll (λ _, env0) 0 (enSQLs wbatch) (Clone dbNew) d ∧ dTables (psDB st') = dTables (cloneImage d)
    end.
Proof.
  assert (is_Some (applyCommitted id (λ _, env0) false None (mkIO 0 None None) 5 wbatch wstate)) as [[res st'] E].
  { vm_compute. by eexists. }
  exists res, st'. split; [exact E|].
  apply (atomic_entry_all_or_nothing id (λ _, env0) false None (mkIO 0 None None) 5 wbatch wstate res st');
    [reflexivity|reflexivity|exact E].
Defined.

Lemma stale_write_refused_witness :
  ∃ st1, applyCommitted id (λ _, env0) false None (mkIO 0 None None) 5
           (mkEntry EntryRange [] false 0 0 (Some (moveOp wright 3 [lit "b"]))) wstate = Some (EntryOK 0, st1) ∧
    ∃ text st2, applyCommitted id (λ _, env0) false None (mkIO 0 None None) 6
        (mkEntry EntryExec [lit "DROP TABLE a"] false 3 2 None) st1 = Some (EntryFailed text None, st2) ∧
      psDB st2 = dbNew ∧ psRanges st2 = psRanges st1 ∧ psWal st2 = None.
Proof.
  apply (stale_write_refused id (λ l, reflexivity l) (λ _, env0) wnode false None (mkIO 0 None None) 5 wstate wright 3
           (moveOp wright 3 [lit "b"]) [lit "DROP TABLE a"] false);
    [by apply wdir_reachable|by vm_compute|by vm_compute|done|constructor].
Defined.

(** Two members apply the same log; Go visits an index bucket in an order of its own
    on each, and INSERT ... SELECT with a LIMIT copies a different row. *)
Definition envRev : Env := mkEnv (λ _ _, None) (λ _ ks, reverse ks).
Lemma envRev_fair : env_quiet envRev ∧ env_fair envRev.
Proof. split; [done|]. intros site ks. apply reverse_Permutation. Qed.
Example replicas_diverge :
  let log := [mkEntry EntryExec (map lit
      ["CREATE TABLE a (x INT PRIMARY KEY, y INT)"; "CREATE TABLE b (x INT PRIMARY KEY, y INT)"; "CREATE INDEX i ON a (y)";
       "INSERT INTO a VALUES (1, 7), (2, 7)"; "INSERT INTO b SELECT * FROM a WHERE y = 7 LIMIT 1"]%string) false 0 0 None] in
  let keys e := match applyLog id (λ _, e) false None (λ _, mkIO 0 None None) 1 log (mkState dbNew NewRangeStore None 0) with
                | Some (_, st) => match dTables (psDB st) !! lit "b" with Some t => tOrder t | None => [] end
                | None => []
                end in
  bool_decide (keys env0 = keys envRev) = false ∧ length (keys env0) = 1%nat ∧ length (keys envRev) = 1%nat.
Proof. by vm_compute. Qed.
