(* ===== verification/ServiceWitnesses.v ===== *)
(** * Concrete instances of the theorems on images, recovery, the hosted server, the
    client and the cluster node

    A small database is written to a snapshot, compacted, backed up and transferred;
    a hosted connection, a client, a pool, an update, a join and a follower run on
    concrete inputs.  Examples show behaviours at the edge of the theorems. *)

From S2P Require Import Prelude GoLib GoFacts Fold Value Parser GoConc Table TableInv Insert Schema SchemaProofs Database DatabaseProofs.
From S2P Require Import Bytes Storage StorageProofs Wire Bind Json Request JsonText JsonTextProofs Image ImageProofs Sha256.
From S2P Require Import Session SessionProofs Recovery RecoveryProofs Backup BackupProofs Config Remote RemoteProofs.
From S2P Require Import Client ClientProofs ResponseProofs Cli CliProofs Updater ConnString Main.
From S2P Require Import Ranges RangesProofs Members Replica ReplicaProofs Fsm Transport TransportProofs Node NodeProofs.
From S2P Require Import Witnesses SystemWitnesses.
Open Scope Z_scope.

#[local] Instance wjson : JsonStd := jsonFloatText.
Definition never (t : Table) : bool := false.

(** ** Images *)

Lemma wdb_image : image_ok never never wdb.
Proof.
  split.
  - exact wdb_wf.
  - apply map_Forall_singleton. by repeat constructor.
  - by vm_compute.
  - apply map_Forall_singleton. intros k r Hr c f Hc. exfalso. revert Hr.
    change (tRows wt2) with (<[lit "2" := wrow 2 "b"]> (<[lit "1" := wrow 1 "a"]> (∅ : gmap str row))).
    rewrite !lookup_insert_Some, lookup_empty. unfold wrow, wcell in *.
    intros [[_ <-]|[_ [[_ <-]|[_ ?]]]]; [revert Hc..|done];
      rewrite !lookup_insert_Some, lookup_empty; intros [[_ ?]|[_ [[_ ?]|[_ ?]]]]; done.
Qed.

Lemma image_roundtrip_witness :
  ∃ payload d', marshalText (MarshalJSON never never wdb) = inl payload ∧
    UnmarshalJSON id payload dbNew = Restored d' ∧ dRevision d' = 1 ∧ dom (dTables d') = dom (dTables wdb).
Proof.
  destruct (image_roundtrip id (λ l, reflexivity l) never never wdb dbNew) as (payload & d' & H1 & H2 & H3 & H4 & _); [exact wdb_image|].
  exists payload, d'. by split_and!.
Defined.

(** ** Recovery *)

Definition snapBytes (d : Database) : str :=
  match marshalDB never never d with
  | inl p => match encode snapshotKind p with inl b => b | inr _ => [] end
  | inr _ => []
  end.
(** Every call of writing that snapshot succeeds. *)
Definition fsFor (d : Database) : fsOutcome := fsGood (length (snapBytes d)).

Definition wcreated : Database := mkDB {[lit "a" := emptyTable (lit "a") [mkColumn (lit "x") Int false]]} 1 0.
Lemma wcreated_image : image_ok never never wcreated.
Proof.
  split.
  - apply map_Forall_singleton. split; [|done]. apply emptyTable_wf. split; [|by vm_compute; lia]. apply (bool_decide_unpack _). by vm_compute.
  - apply map_Forall_singleton. by repeat constructor.
  - by vm_compute.
  - apply map_Forall_singleton. apply map_Forall_empty.
Qed.

Definition wlogged : DataDir := mkDir None None (Some (walEncode [stmtA])) None.
Lemma compact_recovers_witness :
  let '(d2, er, k') := Compact id never never env0 reads0 (fsFor wcreated) None None wlogged newDB in
  d2 = wcreated ∧ er = None ∧ ddWal k' = None ∧
  ∃ d', startUp id env0 reads0 k' newDB = (d', None) ∧ dTables d' = restoredTable <$> dTables wcreated.
Proof.
  destruct (Compact id never never env0 reads0 (fsFor wcreated) None None wlogged newDB) as [[d2 er] k'] eqn:E.
  assert (d2 = wcreated ∧ er = None) as [-> ->].
  { change d2 with ((d2, er, k').1.1). change er with ((d2, er, k').1.2) at 2. rewrite <- E. clear. by vm_compute. }
  pose proof (compact_recovers id (λ l, reflexivity l) never never env0 reads0 (fsFor wcreated) None None wlogged newDB wcreated None k' newDB) as Hc.
  destruct Hc as (H1 & _ & H3); [by vm_compute|exact wcreated_image|exact E|]. by split_and!.
Defined.

(** A crash between the two steps of a compaction: the snapshot is already the new
    one and the log still there, so the next start applies the log again. *)
Example compact_crash_replays_twice :
  let rows k := match dTables (startUp id env0 reads0 k newDB).1 !! lit "a" with Some t => length (liveOrder t) | None => 0%nat end in
  let k := mkDir (Some (snapBytes wcreated)) None (Some (walEncode [stmtB])) None in
  let d := (startUp id env0 reads0 k newDB).1 in
  let '(_, er, k') := Compact id never never env0 reads0 (fsFor d) (Some (EMsg (lit "killed"))) None k newDB in
  (rows k, rows k') = (1%nat, 2%nat).
Proof. by vm_compute. Qed.

(** ** Backups *)

Definition manifest1 : manifestIO := mkManifestIO hash0 0 None None.
Definition wbackup : (str + backupErr) * gmap str str :=
  CreateBackup id never never (lit "20260101-000000.000000000") None (fsFor wcreated) verify0 manifest1 true ∅ wcreated.
Definition wpath : str := backupName (lit "20260101-000000.000000000").
Lemma backup_recovers_witness :
  wbackup.1 = inl wpath ∧
  ∃ r k', RecoverLatest id never never verify0 None (fsFor wcreated) None None wbackup.2 wlogged = (inl r, k') ∧
    r = wpath ∧ ddWal k' = None ∧
    ∃ d', startUp id env0 reads0 k' newDB = (d', None) ∧ dTables d' = restoredTable <$> dTables wcreated.
Proof.
  split; [by vm_compute|].
  assert (∃ k', RecoverLatest id never never verify0 None (fsFor wcreated) None None wbackup.2 wlogged = (inl wpath, k')) as [k' E].
  { vm_compute. by eexists. }
  exists wpath, k'. split; [exact E|].
  destruct (backup_recovers id (λ l, reflexivity l) never never env0 (lit "20260101-000000.000000000") None (fsFor wcreated) verify0 manifest1
    true ∅ wcreated wpath wbackup.2 verify0 None (fsFor wcreated) None None wlogged wpath k' newDB) as [_ Hr].
  - exact wcreated_image.
  - transitivity (wbackup.1, wbackup.2); [exact (surjective_pairing wbackup)|]. f_equal.
  - intros n [x Hx]. by rewrite lookup_empty in Hx.
  - destruct (Hr E) as (H1 & H2 & _ & H4). by split_and!.
Defined.

(** ** The hosted server *)

Definition wconfig (user pass : string) : Config :=
  mkConfig (lit "127.0.0.1") 7432 [] (lit "wal") (lit user) (lit pass) [] [] 128 0 0 0 0 [] [] [] [] [] noHostLimits.
Definition quote0 (s : str) : str := s.
Definition persistText0 (e : persistErr) : str := lit "disk".
Definition sprint0 (j : json) : str := [].
Definition metrics0 : Metrics := mkMetrics 0 0 0 0 0 0 0 0 0 0.
(** A turn in which the log write of [sqls] succeeds. *)
Definition wturn (taken : nat) (sqls : list string) : turnIO := mkTurn env0 (ioOf (map lit sqls)) None 1 (mkWrite taken None).
Definition queryOf (sql : string) : str := lit "{" ++ dq :: lit "sql" ++ dq :: 58 :: dq :: lit sql ++ [dq] ++ lit "}".
Definition hosted (c : nat) (t id : Z) (body : str) (sqls : list string) : hostEvent :=
  mkHostEvent c (wturn 0 sqls) (headerOf (mkFrame t id body)) body.
Definition whosted : list hostEvent :=
  [hosted 1 TypeExec 1 (queryOf "CREATE TABLE a (x INT)") ["CREATE TABLE a (x INT)"];
   hosted 2 TypeBegin 1 [] [];
   hosted 2 TypeExec 2 (queryOf "INSERT INTO a VALUES (1)") [];
   hosted 2 TypeCommit 3 [] ["INSERT INTO a VALUES (1)"];
   hosted 1 TypeQuery 2 (queryOf "SELECT * FROM a") []]%string.


(** A password-protected server: what an anonymous client sends changes nothing. *)
Definition wanonymous : str :=
  concat (map encodeOf [mkFrame TypeHello 1 []; mkFrame TypeExec 2 (queryOf "CREATE TABLE a (x INT)"); mkFrame TypeBegin 3 []]).
Lemma hosted_auth_gates_witness :
  let '(_, _, c) := handleConn marshal0 quote0 persistText0 sprint0 None (wconfig "" "secret") (λ _, wturn 4000 []) wanonymous world0 metrics0 in
  cnWorld c = world0 ∧ rAuthed (cnSession c) = false ∧ rTx (cnSession c) = None ∧ rAuthFails (cnSession c) ≤ maxAuthFailures.
Proof.
  apply (hosted_auth_gates marshal0 quote0 persistText0 sprint0 None (wconfig "" "secret") (λ _, wturn 4000 []) wanonymous world0 metrics0); [done|].
  assert (map (λ x, hType x.1) (framesIn (S (length wanonymous)) wanonymous) = [TypeHello; TypeExec; TypeBegin]) as Ht by by vm_compute.
  apply Forall_forall. intros x Hx [Ha _]. assert (hType x.1 ∈ [TypeHello; TypeExec; TypeBegin]) as Hin.
  { rewrite <- Ht. apply list_elem_of_fmap. by exists x. }
  rewrite Ha in Hin. revert Hin. apply (bool_decide_unpack _). by vm_compute.
Defined.

Definition wask : list frame := [mkFrame TypePing 7 []; mkFrame TypeQuery 8 (queryOf "SELECT * FROM nosuch"); mkFrame TypeClose 9 []; mkFrame TypePing 10 []].
Lemma connection_answers_witness :
  let turn := λ _ : nat, wturn (Z.to_nat (Z.of_nat HeaderLen + MaxFrameSize)) [] in
  let '(why, out, c) := handleConn marshal0 quote0 persistText0 sprint0 None (wconfig "" "") turn (concat (map encodeOf wask)) world0 metrics0 in
  ∃ served rest rs, wask = served ++ rest ∧ Forall2 answers served rs ∧ stopped why served rest c ∧
    readFrames (length served) out = (inl (map (λ r, (headerOf r, fBody r)) rs), []).
Proof.
  apply (connection_answers marshal0 quote0 persistText0 sprint0 None (wconfig "" "") _ wask world0 metrics0).
  - intros i. split; [done|]. cbn [wturn tuWrite woCount]. rewrite Z2Nat.id; [reflexivity|by vm_compute].
  - repeat constructor; vm_compute; done.
Defined.

(** An integer parameter of a million or more arrives as a float64 and is bound as a
    text with an exponent, which an INT column refuses. *)
Example large_integer_param_refused :
  let payload := lit "{" ++ dq :: lit "sql" ++ dq :: 58 :: dq :: lit "INSERT INTO a VALUES (?)" ++ dq :: 44 :: dq :: lit "params" ++ dq :: 58 :: lit "[1000000]}" in
  (p ← unmarshalQuery sprint0 payload; match remoteBind (qpSQL p) (sliceList (qpParams p)) with Ok b => Some b | _ => None end)
  = Some (lit "INSERT INTO a VALUES (1e+06)") ∧
  isOk (ExecWithOptions env0 wcreated (lit "INSERT INTO a VALUES (1e+06)") 0).1 = false.
Proof. by vm_compute. Qed.

(** ** The Go client *)

Definition wpong : Response := mkResponse 1 (lit "ok") [] [] [] [] 0 (lit "pong") [] false.
Definition wpongBytes : str := default [] (mustResponseJSON wpong).
Definition wpongSeen : CResponse := mkCResponse 1 (lit "ok") [] [] nilSlice nilSlice 0 (lit "pong") [] false.

(** A ping is sent, its answer read, delivered and returned. *)
Lemma wpinged : ∃ s c, rtc clientStep client0 s ∧ cnCalls s !! 0%nat = Some c ∧ caPhase c = Returned (inl wpongSeen) ∧
  length (cnCalls s) = 1%nat.
Proof.
  eexists _, _. split.
  - eapply rtc_l; [by apply (step_call client0 TypePing (lit "{}")); vm_compute|].
    eapply rtc_l; [by eapply (step_ofCall _ _ 0%nat), step_register|].
    eapply rtc_l; [by eapply (step_ofCall _ _ 0%nat), step_written|].
    eapply rtc_l; [apply (step_receivedBytes _ (encodeOf (mkFrame TypeResponse 1 wpongBytes)))|].
    eapply rtc_l; [eapply step_ofReader, (step_read _ (headerOf (mkFrame TypeResponse 1 wpongBytes)) wpongBytes []); [done|by vm_compute]|].
    eapply rtc_l; [eapply step_ofReader, (step_deliver _ 0%nat wpongSeen); by vm_compute|].
    eapply rtc_l; [eapply (step_ofCall _ _ 0%nat), (step_receive _ _ _ 1 wpongSeen); by vm_compute|].
    eapply rtc_l; [by eapply (step_ofCall _ _ 0%nat), step_leave|]. apply rtc_refl.
  - split; [reflexivity|]. split; by vm_compute.
Qed.
Lemma responses_reach_their_calls_witness :
  ∃ s c, rtc clientStep client0 s ∧ cnCalls s !! 0%nat = Some c ∧ caPhase c = Returned (inl wpongSeen) ∧
    genuine (cnRead s) (callId 0) wpongSeen.
Proof.
  destruct wpinged as (s & c & Hr & Hc & Hp & Hl). exists s, c. split_and!; [exact Hr|exact Hc|exact Hp|].
  apply (responses_reach_their_calls s 0 c Hr); [rewrite Hl; by vm_compute|exact Hc|exact Hp].
Defined.

(** A registered ping whose connection fails. *)
Lemma wbroken : ∃ s s1 c, rtc clientStep client0 s ∧ length (cnCalls s) = 1%nat ∧ cnReader s = Failing (lit "EOF") ∧
  cnCalls s !! 0%nat = Some c ∧ regId (caPhase c) = Some 1 ∧ readerStep s s1.
Proof.
  eexists _, _, _. split.
  - eapply rtc_l; [by apply (step_call client0 TypePing (lit "{}")); vm_compute|].
    eapply rtc_l; [by eapply (step_ofCall _ _ 0%nat), step_register|].
    eapply rtc_l; [by eapply step_ofReader, (step_readFailed _ (lit "EOF"))|]. apply rtc_refl.
  - split_and!; [reflexivity|reflexivity|reflexivity|by vm_compute|]. by eapply step_sweep.
Qed.
Lemma broken_connection_wakes_witness :
  ∃ s s1, rtc clientStep client0 s ∧ readerStep s s1 ∧ (returned 0 s1 ∨ ∃ s3, callStep 0 s1 s3).
Proof.
  destruct wbroken as (s & s1 & c & Hr & Hl & Hf & Hc & Hp & Hs). exists s, s1. split_and!; [exact Hr|exact Hs|].
  apply (broken_connection_wakes s (lit "EOF") 0 c 1 s1 0 s1 Hr); [rewrite Hl; by vm_compute|exact Hf|exact Hc|exact Hp|exact Hs|constructor].
Defined.

Lemma wpong_ok : response_ok wpong.
Proof. split; [by vm_compute|by vm_compute|repeat constructor; by vm_compute|constructor|constructor]. Qed.
Lemma response_roundtrip_witness :
  ∃ b cr, mustResponseJSON wpong = Some b ∧ unmarshalResponse b = Some cr ∧ crID cr = 1 ∧ crMessage cr = lit "pong".
Proof.
  destruct (response_roundtrip wpong wpong_ok) as (b & cr & H1 & H2 & H3 & _ & _ & _ & _ & _ & _ & H4 & _).
  exists b, cr. by split_and!.
Defined.

(** ** State transfer *)

(** A codec for images: the engine's part is compacted as json.Marshal does it, the
    record is numbered. *)
Definition rangeTuple (r : Range) : Z * str * str * list str * str * Z :=
  (rgID r, rgStart r, rgEnd r, rgReplicas r, rgLeader r, rgGen r).
Definition tupleRange (t : Z * str * str * list str * str * Z) : Range :=
  let '(i, s, e, r, l, g) := t in mkRange i s e r l g.
#[local] Instance Range_eq_dec : EqDecision Range.
Proof. solve_decision. Defined.
#[local] Instance Range_countable : Countable Range.
Proof. apply (inj_countable' rangeTuple tupleRange). by intros []. Defined.
Definition packImage (i : replicatedSnapshot) : str :=
  [Zpos (countable.encode (siIndex i, siDB i, siRanges i, siAssign i, siNext i))].
Definition wencode (i : replicatedSnapshot) : str + err :=
  match marshalText (siDB i) with inl raw => inl (packImage (set_siDB i raw)) | inr er => inr er end.
Definition wdecode (b : str) : replicatedSnapshot + err :=
  match b with
  | [Zpos p] => match countable.decode p with
                | Some (i, d, r, a, n) => inl (mkSnapshot i d r a n)
                | None => inr (EMsg [])
                end
  | _ => inr (EMsg [])
  end.
Lemma wcodec i : codec wencode wdecode i.
Proof.
  intros raw Hr. exists (packImage (set_siDB i raw)). unfold wencode, wdecode, packImage. rewrite Hr. split; [done|].
  by rewrite decode_encode.
Qed.

Definition wmemberState : ReplicatedState := mkState wdb wdir None 9.
Lemma snapshot_installs_witness :
  ∃ b st1', fsmSnapshot id never never wencode wmemberState = inl b ∧
    fsmRestore id wdecode (inl b) wstate = (None, st1') ∧ psIndex st1' = 9 ∧ psRanges st1' = wdir ∧
    dTables (psDB st1') = cloneLocked <$> (restoredTable <$> dTables wdb).
Proof.
  destruct (snapshot_installs id (λ l, reflexivity l) id (λ l, reflexivity l) never never (λ _, env0) wencode wdecode wmemberState)
    as (b & H1 & H2 & _); [exact wdb_image| |apply wcodec|].
  - apply (reachable_keeps id (λ l, reflexivity l) anyKey wnode). by apply wdir_reachable.
  - destruct (H2 wstate) as (st1' & E & Hi & Hr & Ht). exists b, st1'. by split_and!.
Defined.

(** ** Transport *)

(** A connection is dialled, returned to its pool and taken out again. *)
Lemma wpooled : ∃ t, rtc transportStep transport0 t ∧ idle t = [] ∧ inUse t = [0%nat].
Proof.
  eexists. split.
  - eapply rtc_l; [by eapply (tstep_lookup _ (lit "n2:7000"))|].
    eapply rtc_l; [by eapply (tstep_none _ 0%nat)|].
    eapply rtc_l; [by eapply (tstep_dialed _ 0%nat)|].
    eapply rtc_l; [by eapply (tstep_release _ 0%nat _ _ false)|].
    eapply rtc_l; [by eapply (tstep_lookup _ (lit "n2:7000"))|].
    eapply rtc_l; [by eapply (tstep_reuse _ 1%nat)|]. apply rtc_refl.
  - by vm_compute.
Qed.
Lemma connections_have_one_owner_witness : ∃ t, rtc transportStep transport0 t ∧ NoDup (idle t ++ inUse t) ∧ tpOpen t = {[0%nat]}.
Proof.
  destruct wpooled as (t & Hr & Hi & Hu). exists t. destruct (connections_have_one_owner t Hr) as (H1 & H2 & _).
  split_and!; [exact Hr|exact H1|]. rewrite H2, Hi, Hu. by vm_compute.
Defined.

(** ** The shell and the updater *)

Lemma split_join_witness :
  splitStatements (lit "SELECT 'a;b';DELETE FROM t; SELECT") false = ([lit "SELECT 'a;b'"; lit "DELETE FROM t"], lit " SELECT").
Proof.
  apply (split_join [lit "SELECT 'a;b'"; lit "DELETE FROM t"] (lit " SELECT")); [|by vm_compute].
  repeat constructor; by vm_compute.
Defined.

Definition warchive : str := lit "archive".
Definition wsums : str := hexEncode (Sum256 warchive) ++ lit "  superdb.tar.gz".
Definition wunpack (b : str) : list Updater.entry * option err :=
  ([Updater.mkEntry (lit "superdb/superdb") true (lit "A"); Updater.mkEntry (lit "superdb/superdb-cli") true (lit "B")], None).
Definition copyOK (_ : nat) : copyIO := mkCopy None 0 None.
Definition replaceOK (_ : nat) : replaceIO := mkReplace None None.
Lemma update_installs_verified_witness :
  ∃ inst', updateUnix wunpack copyOK replaceOK warchive wsums (lit "superdb.tar.gz") ∅ = (None, inst') ∧
    inst' !! lit "superdb" = Some (lit "A") ∧ inst' !! lit "superdb-cli" = Some (lit "B").
Proof.
  assert (∃ inst', updateUnix wunpack copyOK replaceOK warchive wsums (lit "superdb.tar.gz") ∅ = (None, inst')) as [inst' E].
  { eexists. vm_compute. reflexivity. }
  exists inst'. split; [exact E|].
  destruct (update_installs_verified wunpack copyOK replaceOK warchive wsums (lit "superdb.tar.gz") ∅ None inst' (wunpack warchive).1 None eq_refl E)
    as (_ & _ & _ & H4).
  assert (Hin : ∀ f, bool_decide (f ∈ unixNames) = true → inst' !! f = packed (wunpack warchive).1 f).
  { intros f Hf. apply bool_decide_eq_true in Hf. apply (H4 eq_refl f Hf). }
  split; [rewrite (Hin (lit "superdb"))|rewrite (Hin (lit "superdb-cli"))]; clear; by vm_compute.
Defined.

(** ** Connection strings *)

Definition wurl : URL := mkURL (lit "superdb") (lit "[::1]:7432") (Some (lit "u", Some (lit "p"))) (lit "/main") (λ _, []).
Lemma address_roundtrip_witness :
  ∃ c, ParseURL (λ _, inl wurl) (λ _, true) (λ _, inr (EMsg [])) (lit "superdb://u:p@[::1]:7432/main") = inl c ∧
    ccHost c = lit "::1" ∧ ccPort c = 7432 ∧ Address c = lit "[::1]:7432".
Proof.
  assert (∃ c, ParseURL (λ _, inl wurl) (λ _, true) (λ _, inr (EMsg [])) (lit "superdb://u:p@[::1]:7432/main") = inl c) as [c E].
  { eexists. vm_compute. reflexivity. }
  exists c. split; [exact E|].
  apply (address_roundtrip (λ _, inl wurl) (λ _, true) (λ _, inr (EMsg [])) (lit "superdb://u:p@[::1]:7432/main") wurl (lit "::1") 7432 c);
    [done|done|by vm_compute|by vm_compute|lia|exact E].
Defined.

(** ** The cluster node *)

Definition wleader : Consensus :=
  mkConsensus true (lit "a") (lit "h:1") (inl [mkServer (lit "a") (lit "h:1") true]) (λ _ _, None) (λ _, None) None ([], None) (λ _, ([], inr ErrNotLeader)).
Definition wfollower : Consensus :=
  mkConsensus false (lit "a") (lit "h:1") (inl [mkServer (lit "a") (lit "h:1") true]) (λ _ _, None) (λ _, None) None ([], None) (λ _, ([], inr ErrNotLeader)).
Definition nodeOf (self cluster addr : string) : Node :=
  mkNode (lit self) (lit cluster) (lit addr) [] Healthy (NewMembership 0 (lit self) (lit addr)) wstate stats0.
(** The seed does not lead and names the leader; in the first pass nobody answers. *)
Definition wworld (a : str) : option (Consensus * Node) :=
  if bool_decide (a = lit "h:1") then Some (wleader, nodeOf "a" "c1" "h:1")
  else if bool_decide (a = lit "h:2") then Some (wfollower, nodeOf "b" "c1" "h:2") else None.
Definition unreachable0 : rpcErr := NewError "unavailable" [].
Definition wpasses : list (Z * (str → option (Consensus * Node)) * option rpcErr) := [(0, λ _, None, None); (1, wworld, None)].
Lemma join_admitted_witness :
  ∃ n', joinLoop (map (λ p, (p.1.1, worldCalls id id p.1.1 unreachable0 p.1.2, p.2)) wpasses) [lit "h:2"] None (nodeOf "c" "c9" "h:3") = (None, n') ∧
    nID n' = lit "c" ∧ nCluster n' ≠ [].
Proof.
  assert (∃ n', joinLoop (map (λ p, (p.1.1, worldCalls id id p.1.1 unreachable0 p.1.2, p.2)) wpasses) [lit "h:2"] None (nodeOf "c" "c9" "h:3")
    = (None, n')) as [n' E].
  { eexists. vm_compute. reflexivity. }
  exists n'. split; [exact E|].
  destruct (join_admitted id id unreachable0 wpasses [lit "h:2"] (nodeOf "c" "c9" "h:3") n' E) as (H1 & H2 & _). by split.
Defined.

Lemma follower_never_writes_witness :
  let q := RForward (Some (mkForward (lit "DROP TABLE t") [] false 0 false)) in
  ∃ r n', handleRpc id id (λ _ _, env0) false None (λ _, mkIO 0 None None) (λ _, inl []) (λ _, inr (EMsg [])) 0 0 0 wfollower q
            (nodeOf "b" "c1" "h:2") = Some (r, n') ∧
    nState n' = wstate ∧ ∃ er, r = inr er ∧ codeOf er = "no_leader"%string.
Proof.
  eexists _, _. split; [reflexivity|].
  destruct (follower_never_writes id id (λ _ _, env0) false None (λ _, mkIO 0 None None) (λ _, inl []) (λ _, inr (EMsg [])) 0 0 0 wfollower
    (RForward (Some (mkForward (lit "DROP TABLE t") [] false 0 false))) (nodeOf "b" "c1" "h:2")
    (inr (forwardRedirect wfollower)) (nodeOf "b" "c1" "h:2")) as (H1 & _ & H3); [done|by vm_compute|].
  split; [exact H1|]. apply H3; [by vm_compute|done].
Defined.

(** A clustered server that keeps its default mode replays twice: its log copy holds
    the statements the Raft log has already applied, and the start fails on the first
    of them. *)
Example clustered_restart_fails :
  match applyCommitted id (λ _, env0) true None (ioFull [stmtA]) 1 (mkEntry EntryExec [stmtA] false 0 0 None)
          (mkState newDB NewRangeStore None 0) with
  | Some (_, st) => match (serveStart id env0 (wconfig "" "") reads0 (mkDir None None (psWal st) None) (psDB st)).2 with
                    | Some (NotRecovered _) => true
                    | _ => false
                    end
  | None => false
  end = true.
Proof. by vm_compute. Qed.
