(* ===== verification/LiveWitnesses.v ===== *)
(** * Concrete instances of the theorems on running systems

    A client and its server, the accept loop and its shutdown, the shared port, the start
    of a node and a local connection run on concrete inputs. *)

From S2P Require Import Prelude GoLib GoFacts Fold Value Parser GoConc Table TableInv Insert Schema Database DatabaseProofs.
From S2P Require Import Bytes Storage StorageProofs Wire Bind Json Request JsonText JsonTextProofs Image ImageProofs.
From S2P Require Import Session SessionProofs Interleaving Sha256 Recovery Backup Updater Release Config Remote RemoteProofs Client ClientProofs ResponseProofs System CallProofs.
From S2P Require Import Serving Cli CliProofs LocalServer LocalProofs.
From S2P Require Import Main Ranges Members Replica Transport Mux Node NodeStart Programs ProgramsProofs.
From S2P Require Import Witnesses SystemWitnesses ServiceWitnesses.
Open Scope Z_scope.

#[local] Instance wjson : JsonStd := jsonFloatText.

(** ** The accept loop *)

(** A connection is accepted, handled and ends. *)
Lemma wserved_one : ∃ s, rtc (serveStep (capacity (wconfig "" ""))) (server0 (wconfig "" "") true) s ∧
  svThreads s = [Gone] ∧ svTaken s = 1%nat ∧ svLoop s = Accepting.
Proof.
  eexists. split.
  - run_step sv_loop. { by apply lp_accept. }
    run_step sv_loop. { apply lp_slot; [done|by vm_compute; lia]. }
    run_step sv_loop. { by apply lp_total. }
    run_step sv_loop. { by apply lp_active. }
    run_step sv_loop. { by apply lp_wait. }
    run_step sv_loop. { by apply lp_go. }
    run_step sv_conn. { by apply (cn_track 0). }
    run_step sv_conn. { by apply (cn_acquire 0). }
    run_step sv_conn. { by apply (cn_handled 0). }
    run_step sv_conn. { by apply (cn_untrack 0). }
    run_step sv_conn. { by apply (cn_inactive 0). }
    run_step sv_conn. { by apply (cn_done 0). }
    run_step sv_conn. { by apply (cn_release 0). }
    apply rtc_refl.
  - done.
Qed.
Lemma serving_accounts_witness : ∃ s, rtc (serveStep (capacity (wconfig "" ""))) (server0 (wconfig "" "") true) s ∧
  svThreads s = [Gone] ∧ svSem s = 0%nat ∧ svConns s = ∅ ∧ mTotalConns (svMetrics s) = 1 ∧ mActiveConns (svMetrics s) = 0.
Proof.
  destruct wserved_one as (s & Hr & Ht & Hn & Hl). exists s.
  destruct (serving_accounts (wconfig "" "") true s Hr) as (_ & _ & _ & H4 & _ & H6); [by rewrite Hn|].
  destruct H6 as (H1 & _ & H3 & H5 & _); [rewrite Ht; by repeat constructor|by left|].
  rewrite Ht, Hl in H4. by split_and!.
Defined.

(** A shutdown with nothing under way, and a late end of the context. *)
Lemma wdrains : ∃ s s1 s2, rtc (serveStep (capacity (wconfig "" ""))) (server0 (wconfig "" "") true) s ∧ svTaken s = 0%nat ∧
  shutStep s s1 ∧ svShut s1 = Drained ∧ svLoop s = Accepting ∧ rtc (serveStep (capacity (wconfig "" ""))) s1 s2.
Proof.
  eexists _, _, _. split.
  - run_step sv_shut. { by apply sh_close. }
    run_step sv_shut. { by apply sh_unready. }
    run_step sv_shut. { by apply sh_snapshot. }
    apply rtc_refl.
  - split; [done|]. split; [by eapply sh_drained; [left|]|]. split; [done|]. split; [done|].
    run_step sv_cancel. apply rtc_refl.
Qed.
Lemma shutdown_drains_witness : ∃ s1 s2, rtc (serveStep (capacity (wconfig "" ""))) s1 s2 ∧ svShut s1 = Drained ∧
  svListening s2 = false ∧ svReady s2 = false ∧ svTaken s2 = 0%nat.
Proof.
  destruct wdrains as (s & s1 & s2 & Hr & Hn & Hs & Hd & Hl & Hr2). exists s1, s2.
  destruct (shutdown_drains (wconfig "" "") true s s1 s2 Hr) as (_ & _ & H3 & H4 & H5); [by rewrite Hn|done|done|by left|done|].
  split_and!; [exact Hr2|exact Hd|exact H5|exact H4|by rewrite H3].
Defined.

(** ** The shared port *)

(** One connection for each side; Raft's is still queued. *)
Lemma wrouted : ∃ m, rtc muxStep mux0 m ∧ muConns m = [Taken riverMagic; Queued 1].
Proof.
  eexists. split.
  - eapply rtc_l; [by apply mu_accept|].
    eapply rtc_l; [by apply mu_accept|].
    eapply rtc_l; [eapply mu_classify; by apply (cl_read 0 _ riverMagic)|].
    eapply rtc_l; [eapply mu_classify; by apply (cl_read 1 _ 1)|].
    eapply rtc_l; [eapply mu_classify; apply (cl_river 0 _ riverMagic); [done|done|cbn; unfold chanCap; lia]|].
    eapply rtc_l; [eapply mu_classify; apply (cl_raft 1 _ 1); [done|done|cbn; unfold chanCap; lia]|].
    eapply rtc_l; [by eapply mu_consume, co_river|]. apply rtc_refl.
  - done.
Qed.
Lemma mux_routes_witness : ∃ m, rtc muxStep mux0 m ∧ 0%nat ∈ muRiverOut m ∧ 1%nat ∈ muRaft m ∧ 0%nat ∉ muRaftOut m.
Proof.
  destruct wrouted as (m & Hr & Hc). exists m. split; [exact Hr|].
  destruct (mux_routes m Hr) as (_ & _ & _ & H4 & H5 & H6 & _).
  rewrite Hc in H4, H5, H6. split; [|split].
  - destruct (H6 0%nat riverMagic eq_refl) as [[? _]|[_ []]]; [done|reflexivity].
  - destruct (H5 1%nat 1 eq_refl) as [[_ E]|[? _]]; [discriminate E|done].
  - intros Hin. destruct (H4 0%nat Hin) as (b & [= <-] & Hb). by apply Hb.
Defined.

(** ** The start of a node *)

Definition identityCode (i : Identity) : str := [Zpos (countable.encode (idNode i, idCluster i, idAdvertise i, idVersion i))].
Definition identityOf (b : str) : Identity + err :=
  match b with
  | [Zpos p] => match countable.decode p with
                | Some (i, c, a, v) => inl (mkIdentity i c a v)
                | None => inr (EMsg [])
                end
  | _ => inr (EMsg [])
  end.
Lemma identity_code i : identityOf (identityCode i) = inl i.
Proof. destruct i. unfold identityOf, identityCode. by rewrite decode_encode. Qed.

Definition wnodeConfig : NodeConfig := clusterConfig (lit "h:1") [] [] [].
Definition openOK : openIO := mkOpen None None None None.
(** Everything succeeds; the node's own range is there already. *)
Definition wstartIO : startIO :=
  mkStartIO 0 (lit "a", lit "c1") None None openOK None [] [] (lit "a") None None None [lit "a"] wleader.
(** The next start finds the file; its configuration names another address. *)
Definition wagain : startIO :=
  mkStartIO 9 (lit "x", lit "y") None None openOK None [] [] [] None None None [] wfollower.
Definition wnew : Node := mkNode [] [] [] [] Healthy (NewMembership 0 [] []) wstate stats0.
Abbreviation wstart := (Start id (λ _ _, env0) false None (λ _, mkIO 0 None None) (λ _, inl []) (λ _, inr (EMsg [])) identityOf identityCode).

Lemma start_keeps_identity_witness :
  ∃ acts n' dir' er2 acts2 n2' dir2,
    wstart wnodeConfig wstartIO wnew (mkNodeDir None false) = Some (None, acts, n', dir') ∧
    wstart (clusterConfig (lit "h:9") [] [] []) wagain wnew dir' = Some (er2, acts2, n2', dir2) ∧
    acts = [Bootstrapped (lit "a") (lit "h:1")] ∧ nID n2' = lit "a" ∧ nCluster n2' = lit "c1" ∧ Forall (λ a, a = Stopped) acts2.
Proof.
  assert (∃ n' dir', wstart wnodeConfig wstartIO wnew (mkNodeDir None false) = Some (None, [Bootstrapped (lit "a") (lit "h:1")], n', dir') ∧
    nID n' = lit "a" ∧ nCluster n' = lit "c1" ∧
    ∃ er2 acts2 n2' dir2, wstart (clusterConfig (lit "h:9") [] [] []) wagain wnew dir' = Some (er2, acts2, n2', dir2))
    as (n' & dir' & E & Hi & Hc & er2 & acts2 & n2' & dir2 & E2).
  { eexists _, _. split; [vm_compute; reflexivity|]. split; [reflexivity|]. split; [reflexivity|].
    eexists _, _, _, _. vm_compute. reflexivity. }
  exists [Bootstrapped (lit "a") (lit "h:1")], n', dir', er2, acts2, n2', dir2.
  destruct (start_keeps_identity id (λ _ _, env0) false None (λ _, mkIO 0 None None) (λ _, inl []) (λ _, inr (EMsg [])) identityOf identityCode
    wnodeConfig wstartIO wnew (mkNodeDir None false) [Bootstrapped (lit "a") (lit "h:1")] n' dir'
    (clusterConfig (lit "h:9") [] [] []) wagain wnew er2 acts2 n2' dir2 identity_code E) as (H1 & H2 & H3).
  - rewrite Hi. discriminate.
  - rewrite Hc. discriminate.
  - reflexivity.
  - discriminate.
  - exact E2.
  - rewrite H1, H2. split_and!; assumption || reflexivity.
Defined.

(** ** A client and its server *)

Definition bigTurn (n : nat) : turnIO := wturn (4000 + n) [].
Abbreviation wsystemStep := (systemStep marshal0 quote0 persistText0 sprint0 (@None (RCluster unit)) (wconfig "" "")).

(** A ping goes to the server, is executed, and comes back. *)
Lemma wping_served n : Z.of_nat HeaderLen + MaxFrameSize ≤ Z.of_nat (4000 + n) →
  ∃ y c, rtc wsystemStep (system0 (wconfig "" "") world0 metrics0) y ∧ length (cnCalls (syClient y)) = 1%nat ∧
    cnCalls (syClient y) !! 0%nat = Some c ∧ caPhase c = Returned (inl wpongSeen).
Proof.
  intros Hn. eexists _, _. split.
  - eapply rtc_l; [eapply sys_client; [by apply (step_call client0 TypePing (lit "{}")); vm_compute|done|done|]|].
    { intros [|[|k]] c; [intros [= <-]; by vm_compute|done..]. }
    eapply rtc_l; [eapply sys_client; [by eapply (step_ofCall _ _ 0%nat), step_register|done|done|]|].
    { intros [|[|k]] c; [intros [= <-]; by vm_compute|done..]. }
    eapply rtc_l; [by eapply (sys_write _ _ _ _ _ _ _ 0%nat)|].
    eapply rtc_l; [eapply (sys_serve _ _ _ _ _ _ _ (bigTurn n)); [done|by vm_compute|by intros _]|].
    eapply rtc_l; [eapply sys_client; [eapply step_ofReader, (step_read _ (headerOf (mkFrame TypeResponse 1 wpongBytes)) wpongBytes []); [done|by vm_compute]|..]|].
    { by vm_compute. } { apply suffix_nil. } { intros [|[|k]] c; [intros [= <-]; by vm_compute|done..]. }
    eapply rtc_l; [eapply sys_client; [eapply step_ofReader, (step_deliver _ 0%nat wpongSeen); by vm_compute|..]|].
    { by vm_compute. } { done. } { intros [|[|k]] c; [intros [= <-]; by vm_compute|done..]. }
    eapply rtc_l; [eapply sys_client; [eapply (step_ofCall _ _ 0%nat), (step_receive _ _ _ 1 wpongSeen); by vm_compute|..]|].
    { by vm_compute. } { done. } { intros [|[|k]] c; [intros [= <-]; by vm_compute|done..]. }
    eapply rtc_l; [eapply sys_client; [by eapply (step_ofCall _ _ 0%nat), step_leave|..]|].
    { by vm_compute. } { done. } { intros [|[|k]] c; [intros [= <-]; by vm_compute|done..]. }
    apply rtc_refl.
  - split; [reflexivity|]. split; by vm_compute.
Qed.
Lemma calls_end_to_end_witness : ∃ y c x, rtc wsystemStep (system0 (wconfig "" "") world0 metrics0) y ∧
  cnCalls (syClient y) !! 0%nat = Some c ∧ caPhase c = Returned (inl wpongSeen) ∧
  x ∈ syServed y ∧ sdFrame x = System.requestOf 0 c ∧ NoDup (map (λ x, fID (sdFrame x)) (syServed y)).
Proof.
  destruct (wping_served (Z.to_nat (Z.of_nat HeaderLen + MaxFrameSize))) as (y & c & Hr & Hl & Hc & Hp).
  { rewrite Nat2Z.inj_add, Z2Nat.id; [lia|by vm_compute]. }
  destruct (calls_end_to_end marshal0 quote0 persistText0 sprint0 (@None (RCluster unit)) (wconfig "" "") world0 metrics0 y Hr)
    as (_ & Hd & _ & H4); [by rewrite Hl|].
  destruct (H4 0%nat c wpongSeen Hc Hp) as [(x & r & Hx & Hf & _)|[text E]].
  - exists y, c, x. split_and!; assumption.
  - exfalso. revert E. clear. unfold wpongSeen, failure. intros E. apply (f_equal crStatus) in E. revert E. by vm_compute.
Defined.

(** A connection that is logged in, and a statement with an argument. *)
Definition wlogin : Conn (C:=unit) := mkConn (mkWorld wcreated (mkDisk None None None) tt) (newSession (wconfig "" "")) metrics0.
Definition wcall : str := lit "INSERT INTO a VALUES (?)".
Definition wbound : str := lit "INSERT INTO a VALUES (7)".
Definition wanswered : turnIO := mkTurn env0 (ioOf [wbound]) None 1 (mkWrite 4000 None).
Definition wdone : outcome := OResult (mkResult [] [] 1 []).
Lemma wdone_ok : response_ok (outcomeResponse 1 wdone).
Proof. split; [by vm_compute|by vm_compute|repeat constructor; by vm_compute|constructor|constructor]. Qed.
Lemma client_call_transparent_witness : execShows wdone
  (clientExec (answerTo marshal0 quote0 persistText0 sprint0 None (wconfig "" "") wanswered 1 wlogin) (marshalQuery quoteEsc) [] wcall [ArgInt 7]).
Proof.
  pose proof (client_call_transparent quoteEsc unquote_quoteEsc marshal0 quote0 persistText0 sprint0 None (wconfig "" "")
    wanswered wlogin 1 [] wcall [ArgInt 7]) as Ht.
  assert (∃ st, callOutcome marshal0 quote0 persistText0 None (wconfig "" "") (tuEnv wanswered) (tuIO wanswered) wcall (map argParam [ArgInt 7])
    (cnWorld wlogin) (cnSession wlogin) = (wdone, st)) as [st E]. { eexists. vm_compute. reflexivity. }
  rewrite E in Ht. clear E. destruct Ht as (_ & Hx & _).
  - lia.
  - reflexivity.
  - reflexivity.
  - reflexivity.
  - reflexivity.
  - repeat constructor.
  - exact wdone_ok.
  - by vm_compute.
  - exact Hx.
Defined.

(** ** A local connection *)

Definition ltake (sqls : list string) : localTurn := mkLocalTurn (λ _, env0) (λ _, ioOf (map lit sqls)) None (mkWrite 0 None).
Definition wturns (i : nat) : localTurn := ltake (nth i [["CREATE TABLE a (x INT)"]; []; []] [])%string.
Definition wasks : list str :=
  [queryPayload quoteEsc (lit "k") (lit "CREATE TABLE a (x INT)") []; pingPayload quoteEsc (lit "wrong");
   queryPayload quoteEsc (lit "wrong") (lit "DROP TABLE a") []].
Definition wanswers : list str :=
  map (λ p : string * string, objectText quoteEsc p.1 (lit p.2))
    [("message", "table created"); ("status", "ok"); ("error", "unauthorized: invalid or missing auth key")]%string.
(** A limiter of two connections, [n] of them taken. *)
Definition wlimit (n : nat) : option Limiter := Some (mkLimiter (Some 2%nat) n None 0 0 0).
Lemma local_connection_serves_witness : ∃ w',
  HandleWithOptions marshal0 quote0 persistText0 quoteEsc (λ _, inr (EMsg [])) None noLimits (lit "wal") (lit "k") (wlimit 0) (mkWrite 0 None) wturns
    (concat (map sendBytes wasks)) world0 = (Some (LRead QEOF), concat (map sendBytes wanswers), w', Some (wlimit 0)).
Proof.
  pose proof (local_connection_serves marshal0 quote0 persistText0 quoteEsc (λ _, inr (EMsg [])) None noLimits
    (lit "wal") (lit "k") wturns wasks world0 (wlimit 0) (wlimit 1) (mkWrite 0 None)) as Hl.
  assert (∃ w' s', servedAll marshal0 quote0 persistText0 quoteEsc (λ _, inr (EMsg [])) None noLimits
    (lit "wal") (lit "k") wturns 0 wasks world0 session0 = (LRead QEOF, wanswers, w', s')) as (w' & s' & E).
  { eexists _, _. vm_compute. reflexivity. }
  rewrite E in Hl. exists w'. apply Hl; clear.
  - reflexivity.
  - repeat constructor; by vm_compute.
  - reflexivity.
Defined.

(** ** Interleaved statements *)

Definition wcreate : str := lit "CREATE TABLE a (x INT)".
Definition winsert : str := lit "INSERT INTO a VALUES (1)".
Abbreviation wreached := (interleaved env0 marshal0 noLimits (λ _, True) world0).

(** One connection creates a table, another one inserts into it and logs first. *)
Lemma wraced : ∃ x, wreached [Auto wcreate; Auto winsert] [winsert; wcreate] x ∧ Interleaving.shPending x = ∅ ∧
  dkWal (wDisk (shWorld x)) = Some (walEncode [winsert; wcreate]).
Proof.
  eexists. split; [|split].
  - eapply (il_log _ _ _ _ _ _ [winsert] _ 1 wcreate (ioOf [wcreate])).
    + eapply (il_log _ _ _ _ _ _ [] _ 2 winsert (ioOf [winsert])).
      * eapply (il_exec _ _ _ _ _ [Auto wcreate] [] _ 2 winsert (mkResult [] [] 1 [])).
        { eapply (il_exec _ _ _ _ _ [] [] _ 1 wcreate (mkResult [] [] 0 (lit "table created"))); [constructor|..|vm_compute; reflexivity]; by vm_compute. }
        all: by vm_compute || (vm_compute; reflexivity).
      * by vm_compute.
      * vm_compute; reflexivity.
    + by vm_compute.
    + vm_compute; reflexivity.
  - by vm_compute.
  - by vm_compute.
Qed.
Lemma log_permutes_witness : ∃ x lg, wreached [Auto wcreate; Auto winsert] lg x ∧
  lg ++ unlogged x ≡ₚ [wcreate; winsert] ∧ default [] (dkWal (wDisk (shWorld x))) = walEncode lg.
Proof.
  destruct wraced as (x & Hr & _). exists x, [winsert; wcreate]. split; [exact Hr|].
  destruct (log_permutes env0 env0_quiet' marshal0 noLimits eq_refl (λ _, True) world0 [Auto wcreate; Auto winsert] [winsert; wcreate] x)
    as (_ & _ & H3 & H4); [reflexivity|by vm_compute|exact Hr|by vm_compute|].
  split; [exact H4|exact H3].
Defined.

(** Both writes were acknowledged, and the next start stops at the first of them. *)
Example race_loses_writes : ∃ x, wreached [Auto wcreate; Auto winsert] [winsert; wcreate] x ∧ Interleaving.shPending x = ∅ ∧
  let '(d, er) := recoverWAL env0 (dkWal (wDisk (shWorld x))) None None dbNew in er ≠ None ∧ dTables d = ∅.
Proof.
  destruct wraced as (x & Hr & Hp & Hw). exists x. split; [exact Hr|]. split; [exact Hp|]. rewrite Hw. clear. by vm_compute.
Qed.

(** ** The programs *)

Definition wflags : serverFlags :=
  mkServerFlags (lit "memory") [] (3600 * second) true (lit "standard") [] [] [] [] [] [] [] noHostLimits.
Definition wserverIO : serverIO unit := mkServerIO reads0 wstartIO None (λ _ _, inl tt) None.
Definition wempty : DataDir := mkDir None None None None.
Definition wnodeDir : NodeDir := mkNodeDir None false.
Abbreviation wrun := (runServer id env0 id (λ _ _, env0) None (λ _, mkIO 0 None None) (λ _, inl []) (λ _, inr (EMsg [])) identityOf identityCode (λ _, [])).
Definition wsession : list event := [ask 1 (single "CREATE TABLE a (x INT)") ["CREATE TABLE a (x INT)"]; ask 2 (single "INSERT INTO a VALUES (1)") ["INSERT INTO a VALUES (1)"]]%string.


(** ** An update over the network *)

Definition wbase : str := releaseURL DefaultRepository (lit "1.2").
Definition wname : str := lit "superdb_1.2_linux_amd64.tar.gz".
Definition wnet (url : str) : httpReply + err :=
  if bool_decide (url = wbase ++ lit "/" ++ wname) then inl (mkHttp 200 warchive None)
  else if bool_decide (url = wbase ++ lit "/SHA256SUMS") then inl (mkHttp 200 (hexEncode (Sum256 warchive) ++ lit "  " ++ wname) None)
  else inr (EMsg []).
Definition wupdateIO : updateIO := mkUpdateIO None None None None None copyOK None None replaceOK None None.
Lemma update_from_release_witness :
  ∃ inst', Release.Update wnet (lit "linux") (lit "amd64") wunpack (λ _, ([], None)) true wupdateIO [] (lit " v1.2 ") ∅ = (None, inst') ∧
    ∃ v ext archive sums, Release.updateVersion wnet DefaultRepository (lit " v1.2 ") = inl v ∧
      digestListed archive sums (archiveName v (lit "linux") (lit "amd64") ext) ∧ programsFrom (wunpack archive).1 None ∅ inst'.
Proof.
  assert (∃ inst', Release.Update wnet (lit "linux") (lit "amd64") wunpack (λ _, ([], None)) true wupdateIO [] (lit " v1.2 ") ∅ = (None, inst')) as [inst' E].
  { eexists. vm_compute. reflexivity. }
  exists inst'. split; [exact E|].
  destruct (update_from_release wnet (lit "linux") (lit "amd64") wunpack (λ _, ([], None)) true wupdateIO [] (lit " v1.2 ") ∅ None inst' E) as [_ Hp].
  destruct Hp as (v & ext & archive & sums & H1 & _ & _ & _ & H5 & _ & H7); [right; by left|].
  exists v, ext, archive, sums. split; [exact H1|]. split; [exact H5|]. apply H7. discriminate.
Defined.

(** Two integers given with -params are sent as the same number. *)
Example params_lose_digits : paramsOf (lit "[9007199254740993]") = paramsOf (lit "[9007199254740992]") ∧
  is_Some (paramsOf (lit "[9007199254740993]")).
Proof. split; [by vm_compute|]. eexists. vm_compute. reflexivity. Qed.
